(* ===== verification/_CoqProject ===== *)
-Q . S2P
Prelude.v
GoText.v
Protocol.v
ReplayWindow.v
DedupWindow.v
Wire.v
Crypto.v
Session.v
GoTime.v
GoDuration.v
Handshake.v
Netip.v
Allocator.v
PathSet.v
Router.v
Entitlement.v
Metrics.v
ProbeServer.v
ProbeProcess.v
Gateway.v
Tunnel.v
Concurrent.v
Lifecycle.v
Bridge.v
PrivDrop.v
NetParse.v
GatewayMain.v
Tun.v
Rig.v
Dial.v
GoUnicode.v
Paths.v
Darwin.v
Diagnostics.v
Json.v
Stripe.v
GoFlag.v
JsonEncode.v
Benchmark.v
Geminactl.v
Rndis.v
Usb.v
UsbProbe.v
DualPath.v
Policy.v
WiFiSender.v
MacClient.v
AppUI.v
