(* ===== verification/Prelude.v ===== *)
(** * Gemina: a verification library for the dual-path transport

    Gemina sends every packet of a client twice, over Wi-Fi and over a phone's USB
    tether, so that losing either path loses nothing.  A client library (pkg/
    clientcore, reached from Swift through the C ABI of bridge/geminacore) performs
    an authenticated handshake with a gateway and then seals each payload under a
    numbered nonce.  The gateway (cmd/gateway, internal/gateway) admits a client
    that shows an entitlement token (internal/entitlement, paid for through
    Stripe), opens its datagrams, delivers the first copy of each number
    (internal/dedup), and with the exit path on (internal/exit) forwards the inner
    packet from the address it leased to the client and sends replies back over
    every path the client was recently heard on.  On the Mac a packet tunnel
    (apps/macos) hands packets to the client library and writes the answers; the USB
    tether is reached by a driver of its own (research/usb-rndis-spike).  geminactl
    (cmd/geminactl) probes a gateway, compares gateways and reports on the Mac's
    interfaces (internal/platform/darwin, internal/paths, internal/diagnostics).
    A menu-bar application (apps/macos/AppUI) installs and starts the tunnel; on
    Linux a test rig (tests/end-to-end) stands in for the client.

    ** How code is modelled

    A Go function is a Rocq function with the same name and branches.  A function
    that can panic returns [go A]; one with an error result returns [result E A]
    with the error's identity, not its text, except where the text is the output.
    Integers are [Z] with Go's wrap-around written out ([u64], [i64]); byte slices
    are [list ascii] with the bounds checks of indexing and slicing; arrays are
    vectors; a Go map is a [gmap].  A method with a pointer receiver returns the
    new receiver.  The clock, crypto/rand, the network, the TUN device, the kernel
    and the file system are arguments.  A mutex makes a call atomic: calls are
    steps, and interleavings are sequences of steps; Concurrent splits the calls of
    the data plane at their critical sections and shows that this is no loss, and
    ProbeProcess splits [Handle] and [Render] at every shared access, because there a
    call is not atomic.  In Lifecycle an iteration of a loop of [Serve] is one step.
    Swift and C are modelled in the same way: a trap or an access out of bounds is
    [Panic], a C buffer a byte string of its size; the C programs that talk to a device
    are functions of a trace of calls and answers (Usb), and the application's tasks
    are cut at every await (AppUI).  Log lines are not modelled.

    Code outside src/ is a class of operations with a class of the documented laws
    the program relies on: AES-256-GCM, X25519, HKDF, Ed25519 (whose private keys
    come from seeds) and HMAC in Crypto, the kernel's credentials in PrivDrop, its
    files and interfaces in Tun, the Unicode tables in GoUnicode, the Keychain and the
    equality of Swift strings in AppUI; libusb and the sockets under the USB driver
    answer anything but a handle that is in use.  Each has an instance, used by the
    witnesses only.  The Go standard library is written out.

    ** Files

    - Prelude: outcomes, machine integers, slices, arrays, big-endian codecs, the
      tactics ([mstep], [len], [fields], [case_cmp]) and hint databases.
    - GoText, GoTime, GoDuration, GoUnicode, GoFlag, Netip, NetParse, Json,
      JsonEncode: the parts of Go's strings, strconv, hex, base64, time, unicode/utf8,
      flag, net/netip, net and encoding/json that the program uses.
    - Protocol: internal/protocol (identity.go, probe.go).
    - ReplayWindow, DedupWindow: internal/dedup (replay.go, window.go).
    - Wire: the codecs of pkg/clientcore (data.go, ping.go, classify.go and the
      messages of handshake_message.go).
    - Session: crypto.go and session.go, with [run], the two endpoints of a session
      over a network that drops, repeats, reorders and injects.
    - Handshake: handshake.go, handshake_auth.go, handshake_message.go.
    - Allocator, PathSet, Router: internal/exit (allocator.go, pathset.go, ipv4.go,
      router.go).
    - Entitlement, Stripe: internal/entitlement.
    - Metrics, ProbeServer, ProbeProcess: internal/metrics and
      internal/gateway/server.go; the goroutines of the probe gateway with the metrics
      endpoint of cmd/gateway/main.go.
    - Gateway: admission.go, dataplane.go, datagateway.go; [step] is one iteration
      of either loop of [Serve], [run] any interleaving of the two, [started] the
      gateway as the process builds it.
    - Tunnel: client session, gateway and exit path composed.
    - Concurrent: calls of the data plane by any number of threads, from one lock to
      the next; [cstep] is one such move.
    - Lifecycle: the goroutines of [DataGateway.Serve], its cancellation and the
      closing of the socket and the device.
    - Bridge: bridge/geminacore, with [exec_all] any sequence of C calls.
    - PrivDrop, GatewayMain: cmd/gateway (privdrop.go, main.go) and identity.go; the
      process is the log of what it did, each entry with the credentials then held.
    - Tun, Dial: the TUN device and the forwarding check of internal/exit
      (tun_*.go, nat_*.go), and internal/transport, over their system calls.
    - Rig: tests/end-to-end/rig_linux.go, from its environment to its loops.
    - Paths, Darwin, Diagnostics: the packages of these names.
    - Geminactl, Benchmark: cmd/geminactl and internal/bootstrap.
    - Policy, WiFiSender, MacClient: apps/macos/Core, and the packet tunnel of
      apps/macos/PacketTunnelExtension over the C ABI of Bridge, with its socket.
    - AppUI: apps/macos/AppUI (KeychainStore, TunnelController, GeminaApp).
    - Rndis, Usb, UsbProbe, DualPath: research/usb-rndis-spike: the frame library
      rndis_lib.c; rndis_usb.c and rndis_uplink.c; rndis_probe.c; rndis_net.c and the
      programs rndis_dualpath.c, rndis_egress.c and rndis_dataplane.c.

    ** What is proved

    - The tunnel: a packet sent over both paths is written to the TUN device once,
      by the first copy, and both paths are learnt ([dual_path_delivery]), whenever its
      number is inside or ahead of the window over the numbers the gateway has opened
      for that session and is not one of them; over any run no packet number of a
      session is written twice ([tunnel_exactly_once]).
    - The Mac: the Swift transport is the client session, the tunnel starts only
      with the pinned gateway, writes no packet twice, and what leaves it reaches the
      internet through the gateway ([mac_to_internet]); its socket hands over every
      datagram once and in order (WiFiSender); the policy, the status and the
      statistics say what the paths do (Policy).  The application installs a profile
      from which the tunnel goes to the address, the port and the key that were typed
      in, whatever else is tapped while its calls are pending, and keeps one status
      observer per installed profile and its token in the Keychain (AppUI).
    - The rig: it starts only with the pinned gateway, and a packet it sends reaches
      the gateway's TUN device once when any one uplink carries it (Rig).
    - The USB tether: whatever the device answers, bringing the uplink up reads and
      writes within bounds and leaves nothing claimed when it fails; when it succeeds
      the address and the next hop are those of accepted replies (Usb, UsbProbe).  The
      dual-path program sends each probe over the paths of its plan and no other, and
      its copies are counted by the probe server as it predicts, but for sends that
      failed (DualPath).
    - Concurrency: every interleaving of data-plane calls is one of some order of
      whole calls, every call returns, and no two answers of a session are sealed under
      one nonce (Concurrent); a cancelled gateway ends, with the socket and the device
      closed (Lifecycle).  [DataPlane.Forget], which only tests call, is not among the
      concurrent calls.
    - The channel: exactly-once, authentic delivery between two endpoints, nonces
      never reused within 2^64 packets (the nonces under which the datagrams on the wire
      are sealed), delivery of everything inside the window (Session); the replay bitmap equals a specification over the whole history
      (ReplayWindow), the dedup ring equals a queue (DedupWindow).
    - Admission: keys are agreed only with a pinned gateway (Handshake), registered
      only for an admitted token (Gateway, Entitlement), admitted only after a
      signed payment event (Stripe); a handshake whose ClientHello fits the gateway's
      read buffer gives both ends the same key; one that does not is not answered
      ([long_hello_unanswered]).  Freshness is characterised exactly, with the far-future timestamps that
      saturation lets through.
    - The exit path: leases are injective (Allocator), inner sources are the leased
      ones (Router, Gateway), replies reach the owner of the address (Gateway).
    - The process: nothing but opening the socket and the device happens before
      privileges are dropped, and nothing after a failed drop (GatewayMain,
      PrivDrop); the exit device has the name and MTU asked for, and no descriptor
      is left open by a failure (Tun); a socket bound to an interface connects only
      after the binding (Dial).
    - The C ABI: no call on one handle affects the session of another (Bridge).
    - Codecs and parsers: round trips and exact acceptance (Wire, Entitlement,
      Darwin, Json), deterministic exposition (Metrics); frames for the USB tether
      carry a probe unchanged with right checksums, and the parsers of what comes
      back never read out of bounds (Rndis).
    - The tools: accounting of probes (Geminactl, ProbeServer), the probe gateway as a
      process that serves, is scraped and ends, where every figure of a scrape is exact
      for some number of datagrams (ProbeProcess), the benchmark command from its
      flags to the text of its table and recommendation (Benchmark), the interface classification
      and the reports (Darwin, Paths, Diagnostics), and the JSON of the reports, which
      parses back to their fields (JsonEncode, Geminactl).

    Handlers are proved total: the theorems state that [Ret] is returned for every
    input, datagrams included.

    ** Bounds and fuel

    Counters are [uint64]: theorems over runs assume fewer than 2^64 packets or
    handles where wrap-around would matter, and [outbound_wraps] shows what happens
    beyond.  Window capacities are those the constructors accept, up to 2^63-64.
    Text loops that are not structural take the length of their input as fuel, and
    each iteration consumes a byte: [parse_value_fuel] and [unquote_fuel_enough] of
    Json and [runes_fuel_enough] of GoUnicode show that more fuel changes nothing.
    Twenty digits hold any [uint64] (the round trips of GoText); the pool loop of
    the allocator gets the size of the block, and [collect_block] shows that it
    finishes; the eight iterations of the IPv6 parser are those of the Go loop.
    Json keeps the nesting limit of encoding/json.  Three foldings of the carry
    suffice for the checksum of 64 KiB (Rndis, [fold_carry_spec]), 310 digits for a
    [float64].  The printed loss of the benchmark is shown to be the nearest integer
    for up to 100 pings a target, by computing all of them.  The loops of the USB
    programs have the constant bounds of the source, and the loop over DHCP options
    takes one step per byte of the frame at most.  A window of any accepted capacity
    can be allocated: memory is not a resource of the model.

    ** What is not modelled

    Of the gateway process the signals, the socket buffer sizes and the log lines; of
    the TUN device its reads and writes, which are inputs and outputs of the router;
    messages on standard error; the non-Linux stub of the privilege drop; key
    generation for a gateway without an identity (one call of Ed25519); the layout,
    sentences and accessibility labels of the Swift application; the text of
    the lines the C programs print; scripts and deployment (shell). *)

From stdpp Require Export base tactics numbers list gmap strings vector.
From Stdlib Require Export Ascii ZArith Lia.

Declare Scope go_scope.
Delimit Scope go_scope with go.
#[global] Open Scope Z_scope.

(** ** Outcomes of Go code

    [go A] is a computation that either returns or panics (an index out of
    range, a division by zero, an explicit [panic]); [result E A] is the value
    of a fallible call.  Handlers have type [go (result E A)]: the theorems
    that a handler returns are theorems about [Ret]. *)

Inductive go (A : Type) : Type :=
| Ret (a : A)
| Panic.
Arguments Ret {_} _.
Arguments Panic {_}.

Inductive result (E A : Type) : Type :=
| Ok (a : A)
| Err (e : E).
Arguments Ok {_ _} _.
Arguments Err {_ _} _.

#[global] Instance go_ret : MRet go := λ A, @Ret A.
#[global] Instance go_bind : MBind go := λ A B f m,
  match m with Ret a => f a | Panic => Panic end.

#[global] Instance Ret_inj A : Inj (=) (=) (@Ret A).
Proof. by intros x y [= ->]. Qed.

(** The early-return pattern [x, err := f(); if err != nil { return err }]. *)
Definition gbind {E A B} (m : go (result E A)) (f : A → go (result E B))
  : go (result E B) :=
  match m with
  | Ret (Ok a) => f a
  | Ret (Err e) => Ret (Err e)
  | Panic => Panic
  end.

Notation "x ←? m ; k" := (gbind m (λ x, k))
  (at level 20, m at level 100, k at level 200, only parsing) : go_scope.
Notation "' x ←? m ; k" := (gbind m (λ y, match y with x => k end))
  (at level 20, x pattern, m at level 100, k at level 200, only parsing) : go_scope.
#[global] Open Scope go_scope.

Definition ok {E A} (a : A) : go (result E A) := Ret (Ok a).
Definition err {E A} (e : E) : go (result E A) := Ret (Err e).

Definition is_ok {E A} (r : result E A) : bool :=
  match r with Ok _ => true | Err _ => false end.

#[global] Instance result_eq_dec `{EqDecision E, EqDecision A} : EqDecision (result E A).
Proof. solve_decision. Defined.
#[global] Instance go_eq_dec `{EqDecision A} : EqDecision (go A).
Proof. solve_decision. Defined.

(** ** Machine integers *)

(** [uint64] and [int64] wrap-around. *)
Definition u64 (z : Z) : Z := z mod 2 ^ 64.
Definition i64 (z : Z) : Z := (z + 2 ^ 63) mod 2 ^ 64 - 2 ^ 63.

Definition is_u64 (z : Z) : Prop := 0 ≤ z < 2 ^ 64.
Definition is_i64 (z : Z) : Prop := - 2 ^ 63 ≤ z < 2 ^ 63.

(** Go's integer division and remainder by a zero divisor panic. *)
Definition gdiv (a b : Z) : go Z := if b =? 0 then Panic else Ret (Z.quot a b).
Definition gmod (a b : Z) : go Z := if b =? 0 then Panic else Ret (Z.rem a b).

Lemma u64_small z : is_u64 z → u64 z = z.
Proof. apply Z.mod_small. Qed.

Lemma i64_small z : is_i64 z → i64 z = z.
Proof. unfold is_i64, i64. intros. rewrite Z.mod_small; lia. Qed.

Lemma u64_range z : is_u64 (u64 z).
Proof. unfold is_u64, u64. apply Z.mod_pos_bound. lia. Qed.

Lemma i64_range z : is_i64 (i64 z).
Proof.
  unfold is_i64, i64. pose proof (Z.mod_pos_bound (z + 2 ^ 63) (2 ^ 64)). lia.
Qed.

Lemma u64_i64 z : is_i64 z → i64 (u64 z) = z.
Proof.
  unfold is_i64, i64, u64. intros.
  rewrite Zplus_mod_idemp_l, Z.mod_small; lia.
Qed.

Lemma u64_high_bits z i : is_u64 z → 64 ≤ i → Z.testbit z i = false.
Proof.
  intros Hz Hi. rewrite <-(u64_small z Hz). unfold u64.
  apply Z.mod_pow2_bits_high. lia.
Qed.

Lemma is_u64_bits z : (∀ i, 64 ≤ i → Z.testbit z i = false) → is_u64 z.
Proof.
  intros Hz. replace z with (u64 z); [apply u64_range|].
  apply Z.bits_inj'. intros i Hi. unfold u64.
  destruct (Z.lt_ge_cases i 64).
  - by apply Z.mod_pow2_bits_low.
  - rewrite Z.mod_pow2_bits_high by lia. by rewrite Hz.
Qed.

Lemma gmod_pos a b : 0 ≤ a → 0 < b → gmod a b = Ret (a mod b).
Proof.
  intros. unfold gmod. destruct (Z.eqb_spec b 0); [lia|].
  by rewrite Z.rem_mod_nonneg by lia.
Qed.

Lemma gdiv_pos a b : 0 ≤ a → 0 < b → gdiv a b = Ret (a / b).
Proof.
  intros. unfold gdiv. destruct (Z.eqb_spec b 0); [lia|].
  by rewrite Z.quot_div_nonneg by lia.
Qed.

(** ** Indexing and slicing

    [index], [update], [slice], [copy_at] and [put_be] are [a[i]], [a[i] = v],
    [b[i:j]], [copy(b[i:j], src)] and [binary.BigEndian.PutUintN(b[i:], v)];
    out of range they panic, as in Go. *)

Definition index {A} (l : list A) (i : Z) : go A :=
  if i <? 0 then Panic else
  match l !! Z.to_nat i with Some a => Ret a | None => Panic end.

Definition update {A} (l : list A) (i : Z) (v : A) : go (list A) :=
  if (0 <=? i) && (i <? Z.of_nat (length l)) then Ret (<[Z.to_nat i := v]> l) else Panic.

Lemma index_ret {A} (l : list A) i a :
  0 ≤ i → l !! Z.to_nat i = Some a → index l i = Ret a.
Proof. intros Hi Hl. unfold index. destruct (Z.ltb_spec i 0); [lia|]. by rewrite Hl. Qed.

Lemma index_is_ret {A} (l : list A) i :
  0 ≤ i < Z.of_nat (length l) → ∃ a, index l i = Ret a ∧ l !! Z.to_nat i = Some a.
Proof.
  intros Hi. destruct (lookup_lt_is_Some_2 l (Z.to_nat i)) as [a Ha]; [lia|].
  exists a. split; [|done]. apply index_ret; [lia|done].
Qed.

Lemma update_ret {A} (l : list A) i v :
  0 ≤ i < Z.of_nat (length l) → update l i v = Ret (<[Z.to_nat i := v]> l).
Proof.
  intros Hi. unfold update.
  destruct (Z.leb_spec 0 i), (Z.ltb_spec i (Z.of_nat (length l))); simpl; lia || done.
Qed.

(** ** Bytes *)

(** A byte is an 8-bit character; a Go string and a byte slice are both lists
    of bytes. *)
Abbreviation byte := ascii.
Abbreviation bytes := (list ascii).

Definition b2z (b : byte) : Z := Z.of_N (N_of_ascii b).
Definition z2b (z : Z) : byte := ascii_of_N (Z.to_N (z mod 256)).
Definition gs (s : string) : bytes := String.list_ascii_of_string s.

Lemma b2z_range b : 0 ≤ b2z b < 256.
Proof. unfold b2z. pose proof (N_ascii_bounded b). lia. Qed.

Lemma b2z_z2b z : b2z (z2b z) = z mod 256.
Proof.
  unfold b2z, z2b. pose proof (Z.mod_pos_bound z 256).
  rewrite N_ascii_embedding by lia. lia.
Qed.

Lemma z2b_b2z b : z2b (b2z b) = b.
Proof.
  unfold z2b. rewrite Z.mod_small by apply b2z_range.
  unfold b2z. by rewrite N2Z.id, ascii_N_embedding.
Qed.

#[global] Instance b2z_inj : Inj (=) (=) b2z.
Proof. intros a b H. by rewrite <-(z2b_b2z a), H, z2b_b2z. Qed.

(** Big-endian encoding of the low [8 * n] bits, and decoding. *)
Fixpoint be_bytes (n : nat) (v : Z) : bytes :=
  match n with
  | O => []
  | S k => z2b (Z.shiftr v (8 * Z.of_nat k)) :: be_bytes k v
  end.

Fixpoint be_acc (acc : Z) (l : bytes) : Z :=
  match l with [] => acc | b :: l' => be_acc (acc * 256 + b2z b) l' end.
Definition be_val (l : bytes) : Z := be_acc 0 l.

Lemma length_be_bytes n v : length (be_bytes n v) = n.
Proof. induction n; simpl; congruence. Qed.

Lemma be_acc_spec l acc : be_acc acc l = acc * 2 ^ (8 * Z.of_nat (length l)) + be_val l.
Proof.
  unfold be_val. revert acc. induction l as [|b l IH]; intros acc; cbn [be_acc length].
  - lia.
  - rewrite (IH (acc * 256 + b2z b)), (IH (0 * 256 + b2z b)).
    replace (8 * Z.of_nat (S (length l))) with (8 + 8 * Z.of_nat (length l)) by lia.
    rewrite Z.pow_add_r by lia. change (2 ^ 8) with 256. ring.
Qed.

Lemma be_val_cons b l : be_val (b :: l) = b2z b * 2 ^ (8 * Z.of_nat (length l)) + be_val l.
Proof. unfold be_val at 1. cbn [be_acc]. rewrite be_acc_spec. f_equal. Qed.

Lemma be_val_range l : 0 ≤ be_val l < 2 ^ (8 * Z.of_nat (length l)).
Proof.
  induction l as [|b l IH]; [done|]. rewrite be_val_cons. cbn [length].
  replace (8 * Z.of_nat (S (length l))) with (8 + 8 * Z.of_nat (length l)) by lia.
  rewrite Z.pow_add_r by lia. change (2 ^ 8) with 256.
  pose proof (b2z_range b). nia.
Qed.

Lemma be_val_be_bytes n v : be_val (be_bytes n v) = v mod 2 ^ (8 * Z.of_nat n).
Proof.
  induction n as [|n IH]; [by rewrite Z.mod_1_r|].
  cbn [be_bytes]. rewrite be_val_cons, length_be_bytes, IH, b2z_z2b.
  rewrite Z.shiftr_div_pow2 by lia.
  replace (8 * Z.of_nat (S n)) with (8 * Z.of_nat n + 8) by lia.
  rewrite Z.pow_add_r by lia. change (2 ^ 8) with 256.
  rewrite (Z.rem_mul_r v) by lia. lia.
Qed.

Lemma be_bytes_mod n v w :
  v mod 2 ^ (8 * Z.of_nat n) = w mod 2 ^ (8 * Z.of_nat n) → be_bytes n v = be_bytes n w.
Proof.
  assert (aux : ∀ k, (k ≤ n)%nat →
    v mod 2 ^ (8 * Z.of_nat n) = w mod 2 ^ (8 * Z.of_nat n) → be_bytes k v = be_bytes k w).
  { induction k as [|k IH]; intros Hk Heq; [done|]. cbn [be_bytes].
    f_equal; [|apply IH; [lia|done]].
    apply (inj b2z). rewrite !b2z_z2b. change 256 with (2 ^ 8).
    apply Z.bits_inj'. intros i Hi.
    destruct (Z.lt_ge_cases i 8).
    - rewrite !Z.mod_pow2_bits_low, !Z.shiftr_spec by lia.
      rewrite <-(Z.mod_pow2_bits_low v (8 * Z.of_nat n)) by lia.
      rewrite <-(Z.mod_pow2_bits_low w (8 * Z.of_nat n)) by lia. by rewrite Heq.
    - by rewrite !Z.mod_pow2_bits_high by lia. }
  apply aux. lia.
Qed.

Lemma be_val_inj l1 l2 : length l1 = length l2 → be_val l1 = be_val l2 → l1 = l2.
Proof.
  revert l2. induction l1 as [|a l1 IH]; intros [|b l2] Hlen Heq; try discriminate; [done|].
  injection Hlen as Hlen. rewrite !be_val_cons, Hlen in Heq.
  pose proof (be_val_range l1) as R1. pose proof (be_val_range l2) as R2.
  rewrite Hlen in R1.
  assert (b2z a = b2z b) as E by nia.
  f_equal; [by apply (inj b2z)|]. apply IH; [done|]. rewrite E in Heq. lia.
Qed.

Lemma be_bytes_be_val l n : length l = n → be_bytes n (be_val l) = l.
Proof.
  intros <-. apply be_val_inj; [apply length_be_bytes|].
  rewrite be_val_be_bytes, Z.mod_small; [done|apply be_val_range].
Qed.

(** *** Slices of byte buffers *)

Definition slice (b : bytes) (i j : nat) : go bytes :=
  if decide (i ≤ j ∧ j ≤ length b)%nat then Ret (take (j - i) (drop i b)) else Panic.

(** [copy(dst[i:j], src)]: copies [min (j - i) (len src)] bytes. *)
Definition copy_at (i j : nat) (src dst : bytes) : go bytes :=
  if decide (i ≤ j ∧ j ≤ length dst)%nat then
    let n := Nat.min (j - i) (length src) in
    Ret (take i dst ++ take n src ++ drop (i + n) dst)
  else Panic.

Definition put_be (n off : nat) (v : Z) (dst : bytes) : go bytes :=
  if decide (off + n ≤ length dst)%nat then copy_at off (off + n) (be_bytes n v) dst
  else Panic.

(** [dst[i] = v] on a byte buffer. *)
Definition put_byte (i : nat) (v : byte) (dst : bytes) : go bytes :=
  update dst (Z.of_nat i) v.

Definition byte_at (b : bytes) (i : nat) : go byte := index b (Z.of_nat i).

Lemma slice_ret b i j :
  (i ≤ j)%nat → (j ≤ length b)%nat → slice b i j = Ret (take (j - i) (drop i b)).
Proof. intros. unfold slice. by rewrite decide_True. Qed.

Lemma byte_at_ret b i x : b !! i = Some x → byte_at b i = Ret x.
Proof. intros. apply index_ret; [lia|]. by rewrite Nat2Z.id. Qed.

Lemma byte_at_is_ret b i : (i < length b)%nat → ∃ x, byte_at b i = Ret x ∧ b !! i = Some x.
Proof.
  intros Hi. destruct (lookup_lt_is_Some_2 b i Hi) as [x Hx].
  exists x. split; [by apply byte_at_ret|done].
Qed.

(** Writing a field of a zeroed buffer: the write splits the buffer at the
    field, and the field is replaced when the source has exactly its length. *)
Lemma copy_at_mid pre mid post src :
  length mid = length src →
  copy_at (length pre) (length pre + length src) src (pre ++ mid ++ post)
  = Ret (pre ++ src ++ post).
Proof.
  intros Hlen. unfold copy_at. rewrite decide_True.
  2: { rewrite !length_app. lia. }
  replace (Nat.min (length pre + length src - length pre) (length src)) with (length src) by lia.
  rewrite take_app_length, firstn_all. f_equal. f_equal. f_equal.
  rewrite app_assoc, <-Hlen, <-length_app. apply drop_app_length.
Qed.

Lemma put_be_mid n pre mid post v :
  length mid = n →
  put_be n (length pre) v (pre ++ mid ++ post) = Ret (pre ++ be_bytes n v ++ post).
Proof.
  intros <-. unfold put_be. rewrite decide_True by (rewrite !length_app; lia).
  pose proof (copy_at_mid pre mid post (be_bytes (length mid) v)) as E.
  rewrite length_be_bytes in E. by apply E.
Qed.

Lemma put_byte_mid pre x post v :
  put_byte (length pre) v (pre ++ x :: post) = Ret (pre ++ v :: post).
Proof.
  unfold put_byte. rewrite update_ret by (rewrite length_app; cbn [length]; lia).
  rewrite Nat2Z.id. f_equal.
  rewrite insert_app_r_alt by lia. by rewrite Nat.sub_diag.
Qed.

Lemma slice_mid pre mid post i j :
  i = length pre → j = (length pre + length mid)%nat →
  slice (pre ++ mid ++ post) i j = Ret mid.
Proof.
  intros -> ->. rewrite slice_ret by (rewrite ?length_app; lia).
  replace (length pre + length mid - length pre)%nat with (length mid) by lia.
  by rewrite drop_app_length, take_app_length.
Qed.

Lemma slice_app_tail pre post :
  slice (pre ++ post) (length pre) (length (pre ++ post)) = Ret post.
Proof.
  rewrite <-(app_nil_r post) at 1.
  apply slice_mid; [done|]. by rewrite length_app.
Qed.

(** [binary.BigEndian.UintN(b[off:])] *)
Definition get_be (n off : nat) (b : bytes) : go Z :=
  l ← slice b off (off + n); Ret (be_val l).

(** A zeroed buffer, [make([]byte, n)]. *)
Definition zeros (n : nat) : bytes := replicate n "000"%char.

(** Reading a concatenation field by field. *)
Lemma slice_app_r pre l i j :
  (length pre ≤ i ≤ j)%nat → slice (pre ++ l) i j = slice l (i - length pre) (j - length pre).
Proof.
  intros Hi. unfold slice. rewrite length_app.
  destruct (decide (i ≤ j ∧ j ≤ length pre + length l)%nat).
  - rewrite decide_True by lia. rewrite drop_app_ge by lia. do 2 f_equal. lia.
  - by rewrite decide_False by lia.
Qed.

Lemma slice_app_l l post i j : (j ≤ length l)%nat → slice (l ++ post) i j = slice l i j.
Proof.
  intros Hj. unfold slice. rewrite length_app.
  destruct (decide (i ≤ j ∧ j ≤ length l)%nat).
  - rewrite decide_True by lia. rewrite drop_app_le by lia.
    rewrite take_app_le by (rewrite length_drop; lia). done.
  - by rewrite decide_False by lia.
Qed.

Lemma slice_full l i j : i = 0%nat → j = length l → slice l i j = Ret l.
Proof.
  intros -> ->. rewrite slice_ret by lia. by rewrite Nat.sub_0_r, firstn_all.
Qed.

Lemma byte_at_app_r pre l i :
  (length pre ≤ i)%nat → byte_at (pre ++ l) i = byte_at l (i - length pre).
Proof.
  intros Hi. unfold byte_at, index. rewrite !Nat2Z.id, lookup_app_r by lia.
  destruct (Z.ltb_spec (Z.of_nat i) 0), (Z.ltb_spec (Z.of_nat (i - length pre)) 0); lia || done.
Qed.

Lemma byte_at_app_l l post i : (i < length l)%nat → byte_at (l ++ post) i = byte_at l i.
Proof. intros Hi. unfold byte_at, index. by rewrite !Nat2Z.id, lookup_app_l by lia. Qed.

Lemma byte_at_cons b l i : byte_at (b :: l) i = match i with O => Ret b | S k => byte_at l k end.
Proof.
  destruct i as [|k]; [done|]. change (b :: l) with ([b] ++ l).
  rewrite byte_at_app_r by (simpl; lia). simpl. f_equal. lia.
Qed.

(** Filling a zeroed buffer from the left. *)
Lemma copy_zeros off j src pre m :
  off = length pre → (off + length src ≤ j ≤ off + m)%nat →
  copy_at off j src (pre ++ zeros m) = Ret ((pre ++ src) ++ zeros (m - length src)).
Proof.
  intros -> Hj. unfold copy_at, zeros. rewrite decide_True by (rewrite length_app, length_replicate; lia).
  replace (Nat.min (j - length pre) (length src)) with (length src) by lia.
  rewrite take_app_length, firstn_all, <-app_assoc. do 3 f_equal.
  rewrite drop_app_ge by lia. rewrite drop_replicate. f_equal. lia.
Qed.

Lemma put_be_zeros n off v pre m :
  off = length pre → (n ≤ m)%nat →
  put_be n off v (pre ++ zeros m) = Ret ((pre ++ be_bytes n v) ++ zeros (m - n)).
Proof.
  intros -> Hm. unfold put_be. rewrite decide_True by (unfold zeros; rewrite length_app, length_replicate; lia).
  rewrite copy_zeros by (rewrite ?length_be_bytes; lia). by rewrite length_be_bytes.
Qed.

Lemma put_byte_zeros i v pre m :
  i = length pre → (0 < m)%nat →
  put_byte i v (pre ++ zeros m) = Ret ((pre ++ [v]) ++ zeros (m - 1)).
Proof.
  intros -> Hm. destruct m as [|m]; [lia|]. unfold zeros. simpl.
  rewrite put_byte_mid, <-app_assoc, Nat.sub_0_r. done.
Qed.

(** Leaving the next [k] bytes of a zeroed buffer unwritten. *)
Lemma skip_zeros k pre m : (k ≤ m)%nat → pre ++ zeros m = (pre ++ zeros k) ++ zeros (m - k).
Proof.
  intros Hk. unfold zeros. rewrite <-app_assoc, <-replicate_add. do 2 f_equal. lia.
Qed.

(** Cutting the first [n] bytes off a long enough buffer. *)
Lemma split_at (n : nat) (b : bytes) :
  (n ≤ length b)%nat → ∃ u v, b = u ++ v ∧ length u = n.
Proof. exists (take n b), (drop n b). rewrite take_drop, length_take. split; [done|lia]. Qed.

(** *** Fixed-size arrays

    [[n]byte] is [vec byte n]; [arr n l] copies the slice [l] into a zeroed
    array, as [var a [n]byte; copy(a[:], l)]. *)

Fixpoint arr (n : nat) (l : bytes) : vec byte n :=
  match n with
  | O => [#]
  | S k => match l with
           | [] => "000"%char ::: arr k []
           | b :: l' => b ::: arr k l'
           end
  end.

Lemma arr_vec n (v : vec byte n) : arr n v = v.
Proof. induction v as [|b n v IH]; [done|]. simpl. by rewrite IH. Qed.

Lemma vec_arr n l : length l = n → (arr n l : bytes) = l.
Proof.
  intros <-. induction l as [|b l IH]; [done|]. cbn [arr length].
  rewrite vec_to_list_cons. by f_equal.
Qed.

(** ** Automation *)

(** [len]: length side conditions of slices, buffers and concatenations. *)
Create Rewrite HintDb len.
#[export] Hint Rewrite @length_app @length_cons @length_nil @length_drop @length_take
  @length_insert @length_replicate @length_fmap length_be_bytes @length_vec_to_list @length_reverse : len.
Create HintDb sizes.
Ltac len := autounfold with sizes; autorewrite with len; cbn [length]; lia.

(** Case analysis on the tests the Go code makes. *)
Ltac case_cmp :=
  match goal with
  | |- context [Z.eqb ?a ?b] => destruct (Z.eqb_spec a b)
  | |- context [Z.ltb ?a ?b] => destruct (Z.ltb_spec a b)
  | |- context [Z.leb ?a ?b] => destruct (Z.leb_spec a b)
  | |- context [Z.gtb ?a ?b] => rewrite (Z.gtb_ltb a b)
  | |- context [Z.geb ?a ?b] => rewrite (Z.geb_leb a b)
  end.
Ltac case_cmp_in H :=
  match type of H with
  | context [Z.eqb ?a ?b] => destruct (Z.eqb_spec a b)
  | context [Z.ltb ?a ?b] => destruct (Z.ltb_spec a b)
  | context [Z.leb ?a ?b] => destruct (Z.leb_spec a b)
  | context [Z.gtb ?a ?b] => rewrite (Z.gtb_ltb a b) in H
  | context [Z.geb ?a ?b] => rewrite (Z.geb_leb a b) in H
  end.

(** [mstep]: reduce one monadic step whose left side is known to return. *)
Lemma go_bind_ret {A B} (a : A) (f : A → go B) : mbind f (Ret a) = f a.
Proof. done. Qed.
Lemma gbind_ok {E A B} (a : A) (f : A → go (result E B)) : gbind (Ret (Ok a)) f = f a.
Proof. done. Qed.
Lemma gbind_err {E A B} (e : E) (f : A → go (result E B)) :
  gbind (Ret (Err e)) f = Ret (Err e).
Proof. done. Qed.
Lemma go_bind_inv {A B} (m : go A) (f : A → go B) b :
  mbind f m = Ret b → ∃ a, m = Ret a ∧ f a = Ret b.
Proof. destruct m; [eauto|done]. Qed.
Lemma gbind_ok_inv {E A B} (m : go (result E A)) (f : A → go (result E B)) b :
  gbind m f = Ret (Ok b) → ∃ a, m = Ret (Ok a) ∧ f a = Ret (Ok b).
Proof. destruct m as [[a|e]|]; simpl; intros; naive_solver. Qed.

Create Rewrite HintDb gomonad.
#[export] Hint Rewrite @go_bind_ret @gbind_ok @gbind_err : gomonad.
Ltac mstep := autorewrite with gomonad.

Lemma length_zeros n : length (zeros n) = n.
Proof. apply length_replicate. Qed.
#[export] Hint Rewrite length_zeros : len.

(** [fields]: evaluate reads of a buffer given as a concatenation. *)
Ltac fields_step :=
  first
  [ rewrite slice_app_r by len
  | rewrite slice_app_l by len
  | rewrite slice_full by len
  | rewrite byte_at_app_r by len
  | rewrite byte_at_app_l by len
  | rewrite byte_at_cons
  | match goal with H : length ?l = _ |- context [length ?l] => rewrite H end
  | progress autorewrite with gomonad len
  | progress cbn [length Nat.sub Nat.add Nat.mul] ].
Ltac fields := unfold get_be; repeat fields_step.

(** Encodings stay folded during simplification. *)
Arguments arr : simpl never.
Arguments be_bytes : simpl never.
Arguments be_val : simpl never.
Arguments b2z : simpl never.
Arguments z2b : simpl never.
Arguments zeros : simpl never.
Arguments slice : simpl never.
Arguments copy_at : simpl never.
Arguments put_be : simpl never.
Arguments get_be : simpl never.
Arguments put_byte : simpl never.
Arguments byte_at : simpl never.
Arguments u64 : simpl never.
Arguments i64 : simpl never.
