(* ===== verification/GoText.v ===== *)
(** * The Go text libraries the program uses

    [strings] (Cut, Split, SplitN, Contains, TrimSpace, CutPrefix), [strconv]
    (FormatInt, ParseInt, Atoi, ParseUint), [encoding/hex],
    [base64.RawURLEncoding] and line scanning by [bufio], on byte strings, with
    the round-trip lemmas the components rely on. *)

From S2P Require Import Prelude.

(** ** strings *)

Module Strings.

Fixpoint is_prefix (p s : bytes) : bool :=
  match p, s with
  | [], _ => true
  | a :: p', b :: s' => bool_decide (a = b) && is_prefix p' s'
  | _ :: _, [] => false
  end.

(** [strings.CutPrefix] *)
Definition cut_prefix (s p : bytes) : option bytes :=
  if is_prefix p s then Some (drop (length p) s) else None.

(** [strings.Contains s sub] *)
Fixpoint contains (s sub : bytes) : bool :=
  is_prefix sub s || match s with [] => false | _ :: s' => contains s' sub end.

(** [strings.Cut s c] for a one-byte separator: [None] is [found = false]. *)
Fixpoint cut (c : byte) (s : bytes) : option (bytes * bytes) :=
  match s with
  | [] => None
  | b :: s' => if decide (b = c) then Some ([], s')
               else match cut c s' with
                    | Some (u, v) => Some (b :: u, v)
                    | None => None
                    end
  end.

(** [strings.Split s c] for a one-byte separator. *)
Fixpoint split (c : byte) (s : bytes) : list bytes :=
  match s with
  | [] => [[]]
  | b :: s' => if decide (b = c) then [] :: split c s'
               else match split c s' with
                    | [] => [[b]]
                    | u :: us => (b :: u) :: us
                    end
  end.

(** [strings.SplitN s c (S k)]: at most [S k] fields, the last unsplit. *)
Fixpoint splitN (k : nat) (c : byte) (s : bytes) : list bytes :=
  match k with
  | O => [s]
  | S k' => match cut c s with
            | Some (u, v) => u :: splitN k' c v
            | None => [s]
            end
  end.

(** [strings.TrimSpace] removes leading and trailing [unicode.IsSpace] runes;
    these are the UTF-8 encodings of the White_Space code points. *)
Definition space_encodings : list bytes :=
  map (map z2b)
   ([[9]; [10]; [11]; [12]; [13]; [32]; [194; 133]; [194; 160]; [225; 154; 128];
     [226; 128; 168]; [226; 128; 169]; [226; 128; 175]; [226; 129; 159]; [227; 128; 128]]
    ++ map (λ k, [226; 128; 128 + Z.of_nat k]) (seq 0 11)).

Fixpoint trim_with (encs : list bytes) (fuel : nat) (s : bytes) : bytes :=
  match fuel with
  | O => s
  | S k => match List.find (λ e, is_prefix e s) encs with
           | Some e => trim_with encs k (drop (length e) s)
           | None => s
           end
  end.

Definition trim_left (s : bytes) : bytes := trim_with space_encodings (length s) s.
Definition trim_right (s : bytes) : bytes :=
  reverse (trim_with (map reverse space_encodings) (length s) (reverse s)).
Definition trim_space (s : bytes) : bytes := trim_right (trim_left s).

Lemma cut_app c u v : c ∉ u → cut c (u ++ c :: v) = Some (u, v).
Proof.
  induction u as [|b u IH]; intros H; simpl.
  - by rewrite decide_True.
  - apply not_elem_of_cons in H as [Hb Hu]. rewrite decide_False by done. by rewrite IH.
Qed.

Lemma cut_none c u : c ∉ u → cut c u = None.
Proof.
  induction u as [|b u IH]; intros H; [done|]; simpl.
  apply not_elem_of_cons in H as [Hb Hu]. rewrite decide_False by done. by rewrite IH.
Qed.

Lemma cut_some c s u v : cut c s = Some (u, v) → s = u ++ c :: v ∧ c ∉ u.
Proof.
  revert u v. induction s as [|b s IH]; intros u v H; simpl in H; [done|].
  case_decide; simplify_eq; [split; [done|apply not_elem_of_nil]|].
  destruct (cut c s) as [[u' v']|]; simplify_eq.
  destruct (IH _ _ eq_refl) as [-> ?]. split; [done|]. by apply not_elem_of_cons.
Qed.

Lemma contains_single s c : contains s [c] = true ↔ c ∈ s.
Proof.
  induction s as [|b s IH]; [by split; [|intros ?%elem_of_nil]|].
  cbn [contains is_prefix]. rewrite andb_true_r, orb_true_iff, bool_decide_eq_true, elem_of_cons, IH. done.
Qed.

Lemma split_nosep c u : c ∉ u → split c u = [u].
Proof.
  induction u as [|b u IH]; intros H; [done|]; simpl.
  apply not_elem_of_cons in H as [Hb Hu]. rewrite decide_False by done. by rewrite IH.
Qed.

Lemma split_app c u v : c ∉ u → split c (u ++ c :: v) = u :: split c v.
Proof.
  induction u as [|b u IH]; intros H; simpl.
  - by rewrite decide_True.
  - apply not_elem_of_cons in H as [Hb Hu]. rewrite decide_False by done. by rewrite IH.
Qed.

Lemma split_ne c s : split c s ≠ [].
Proof. destruct s as [|b s]; simpl; [done|]. case_decide; [done|]. by destruct (split c s). Qed.

(** Joining the fields with the separator gives the string back, and no field
    contains the separator. *)
Fixpoint join (c : byte) (fs : list bytes) : bytes :=
  match fs with
  | [] => []
  | [f] => f
  | f :: fs' => f ++ c :: join c fs'
  end.

Lemma join_split c s : join c (split c s) = s.
Proof.
  induction s as [|b s IH]; simpl; [done|]. case_decide; subst.
  - pose proof (split_ne c s). by destruct (split c s) as [|u us]; [|rewrite <-IH].
  - pose proof (split_ne c s). destruct (split c s) as [|u us]; [done|]. simpl in *. destruct us; [|]; by rewrite <-IH.
Qed.

Lemma split_fields c s : Forall (λ f, c ∉ f) (split c s).
Proof.
  induction s as [|b s IH]; simpl; [constructor; [apply not_elem_of_nil|done]|].
  case_decide; [constructor; [apply not_elem_of_nil|done]|].
  destruct IH as [|u us Hu Hus]; (constructor; [|done]); apply not_elem_of_cons;
    (split; [done|]); [apply not_elem_of_nil|done].
Qed.

Lemma split_join c fs : fs ≠ [] → Forall (λ f, c ∉ f) fs → split c (join c fs) = fs.
Proof.
  intros Hne Hf. induction Hf as [|f fs Hc Hf IH]; [done|]. destruct fs as [|g fs].
  - by apply split_nosep.
  - change (join c (f :: g :: fs)) with (f ++ c :: join c (g :: fs)).
    rewrite split_app by done. by rewrite IH.
Qed.

Lemma join_inj c fs gs :
  length fs = length gs → Forall (λ f, c ∉ f) fs → Forall (λ f, c ∉ f) gs →
  join c fs = join c gs → fs = gs.
Proof.
  intros Hl Hf Hg E. destruct fs as [|f fs], gs as [|g gs]; try done.
  by rewrite <-(split_join c (f :: fs)), E, split_join.
Qed.

(** *** Trimmed strings *)

Lemma trim_with_length encs k s : (length (trim_with encs k s) ≤ length s)%nat.
Proof.
  revert s. induction k as [|k IH]; intros s; [done|]. cbn. destruct (List.find _ _); [|done].
  etrans; [apply IH|]. rewrite length_drop. lia.
Qed.

Lemma trim_left_length s : (length (trim_left s) ≤ length s)%nat.
Proof. apply trim_with_length. Qed.

Lemma trim_right_length s : (length (trim_right s) ≤ length s)%nat.
Proof. unfold trim_right. rewrite length_reverse. etrans; [apply trim_with_length|]. by rewrite length_reverse. Qed.

Lemma trim_with_suffix encs k s : ∃ u, s = u ++ trim_with encs k s.
Proof.
  revert s. induction k as [|k IH]; intros s; [by exists []|]. cbn. destruct (List.find _ _) as [e|]; [|by exists []].
  destruct (IH (drop (length e) s)) as [u Hu]. exists (take (length e) s ++ u).
  by rewrite <- app_assoc, <- Hu, take_drop.
Qed.

Lemma trim_left_suffix s : ∃ u, s = u ++ trim_left s.
Proof. apply trim_with_suffix. Qed.
Lemma trim_right_prefix s : ∃ u, s = trim_right s ++ u.
Proof.
  unfold trim_right. destruct (trim_with_suffix (map reverse space_encodings) (length s) (reverse s)) as [u Hu].
  exists (reverse u). by rewrite <- reverse_app, <- Hu, reverse_involutive.
Qed.

Lemma same_length_suffix {A} (s u v : list A) : s = u ++ v → (length s ≤ length v)%nat → v = s.
Proof. intros -> Hl. rewrite length_app in Hl. destruct u; [done|cbn in Hl; lia]. Qed.
Lemma same_length_prefix {A} (s u v : list A) : s = v ++ u → (length s ≤ length v)%nat → v = s.
Proof. intros -> Hl. rewrite length_app in Hl. destruct u; [by rewrite app_nil_r|cbn in Hl; lia]. Qed.

(** [s] has no space at either end. *)
Definition trimmed (s : bytes) : Prop := trim_space s = s.

Lemma trimmed_ends s : trimmed s → trim_left s = s ∧ trim_right s = s.
Proof.
  unfold trimmed, trim_space. intros Hs.
  assert (trim_left s = s) as Hl.
  { destruct (trim_left_suffix s) as [u Hu]. apply (same_length_suffix s u); [done|].
    rewrite <- Hs at 1. apply trim_right_length. }
  split; [done|]. by rewrite Hl in Hs.
Qed.

Lemma trimmed_space v : trimmed v → trim_space (z2b 32 :: v) = v.
Proof.
  intros [Hl Hr]%trimmed_ends. unfold trim_space.
  assert (trim_left (z2b 32 :: v) = trim_left v) as -> by (unfold trim_left; by destruct v).
  by rewrite Hl, Hr.
Qed.

Lemma is_prefix_app_cases e w c x :
  is_prefix e (w ++ c :: x) = true → is_prefix e w = true ∨ ∃ y, e = w ++ c :: y.
Proof.
  revert e. induction w as [|b w IH]; intros [|a e]; cbn; try (by left).
  - intros [->%bool_decide_eq_true_1 _]%andb_true_iff. right. by exists e.
  - intros [Hab He]%andb_true_iff. apply IH in He as [He|[y ->]].
    + left. by rewrite Hab, He.
    + right. exists y. by apply bool_decide_eq_true_1 in Hab as ->.
Qed.

Lemma trim_with_fix encs k s :
  (0 < k)%nat → Forall (λ e, e ≠ []) encs → trim_with encs k s = s → List.find (λ e, is_prefix e s) encs = None.
Proof.
  intros Hk Hne. destruct k as [|k]; [lia|]. cbn. destruct (List.find _ encs) as [e|] eqn:Hf; [|done].
  apply List.find_some in Hf as [Hin Hp]. intros Hs. exfalso.
  apply list_elem_of_In in Hin. rewrite Forall_forall in Hne. specialize (Hne e Hin).
  pose proof (trim_with_length encs k (drop (length e) s)) as Hlen. rewrite Hs, length_drop in Hlen.
  destruct e as [|a e]; [done|]. destruct s as [|b s]; [done|]. cbn in Hlen. lia.
Qed.

(** The space is not a part of a longer encoding. *)
Lemma space_alone : Forall (λ e, e ≠ [] ∧ (z2b 32 ∈ e → length e = 1%nat)) (map reverse space_encodings).
Proof. apply (bool_decide_unpack _). vm_compute. exact I. Qed.

(** A label that ends in a space, before a trimmed text. *)
Lemma trim_right_label u v : v ≠ [] → trim_right v = v → trim_right (u ++ z2b 32 :: v) = u ++ z2b 32 :: v.
Proof.
  intros Hv Hr. unfold trim_right in *.
  assert (Forall (λ e, e ≠ []) (map reverse space_encodings)) as Hne
    by (eapply Forall_impl; [apply space_alone|]; naive_solver).
  assert (List.find (λ e, is_prefix e (reverse v)) (map reverse space_encodings) = None) as Hf.
  { apply (trim_with_fix _ (length v)); [by destruct v; [|cbn; lia]|done|]. rewrite <- Hr at 3. by rewrite reverse_involutive. }
  assert (List.find (λ e, is_prefix e (reverse (u ++ z2b 32 :: v))) (map reverse space_encodings) = None) as Hf'.
  { destruct (List.find (λ e, is_prefix e (reverse (u ++ z2b 32 :: v))) _) as [e|] eqn:He; [|done]. exfalso.
    apply List.find_some in He as [Hin Hp]. rewrite reverse_app, reverse_cons, <- app_assoc in Hp. cbn [app] in Hp.
    apply is_prefix_app_cases in Hp as [Hp|[y ->]].
    - by rewrite (List.find_none _ _ Hf _ Hin) in Hp.
    - apply list_elem_of_In in Hin. pose proof space_alone as Ha. rewrite Forall_forall in Ha.
      destruct (Ha _ Hin) as [_ Hl]. specialize (Hl ltac:(set_solver)). rewrite length_app, length_reverse in Hl.
      destruct v; [done|cbn in Hl; lia]. }
  destruct (length (u ++ z2b 32 :: v)); cbn [trim_with]; [|rewrite Hf']; by rewrite reverse_involutive.
Qed.

(** Printable characters other than the space are kept. *)
Definition graphic (c : byte) : Prop := 33 ≤ b2z c ≤ 126.

Lemma graphic_not_space :
  Forall (λ e, match e with c :: _ => ¬ (33 ≤ b2z c ∧ b2z c ≤ 126) | [] => False end) (space_encodings ++ map reverse space_encodings).
Proof.
  assert (forallb (λ e, match e with c :: _ => negb ((33 <=? b2z c) && (b2z c <=? 126)) | [] => false end)
    (space_encodings ++ map reverse space_encodings) = true) as Hf by (vm_compute; reflexivity).
  rewrite forallb_forall in Hf. apply Forall_forall. intros e He%list_elem_of_In%Hf. destruct e as [|c e]; [done|].
  intros [? ?]. destruct (Z.leb_spec 33 (b2z c)), (Z.leb_spec (b2z c) 126); (lia || done).
Qed.

Lemma trim_with_graphic encs k s :
  (∀ e, e ∈ encs → e ∈ space_encodings ++ map reverse space_encodings) → Forall graphic s → trim_with encs k s = s.
Proof.
  intros He Hs. destruct k as [|k]; [done|]. cbn. destruct (List.find _ encs) as [e|] eqn:Hf; [|done]. exfalso.
  apply List.find_some in Hf as [Hin%list_elem_of_In%He Hp]. pose proof graphic_not_space as Hg.
  rewrite Forall_forall in Hg. specialize (Hg e Hin). destruct e as [|c e]; [done|].
  destruct Hs as [|b s Hb _]; [done|]. cbn in Hp. apply andb_true_iff in Hp as [->%bool_decide_eq_true_1 _].
  by apply Hg.
Qed.

Lemma trim_graphic s : Forall graphic s → trim_space s = s.
Proof.
  intros Hs. unfold trim_space.
  assert (trim_left s = s) as -> by (apply trim_with_graphic; [intros e He; apply elem_of_app; by left|done]).
  unfold trim_right. rewrite trim_with_graphic; [by rewrite reverse_involutive| |by rewrite Forall_reverse].
  intros e He. apply elem_of_app. by right.
Qed.

(** A line of such characters. *)
Lemma trim_line s : Forall graphic s → trim_space (s ++ [z2b 10]) = s.
Proof.
  intros Hs. unfold trim_space. destruct s as [|c s]; [vm_compute; reflexivity|].
  assert (trim_left ((c :: s) ++ [z2b 10]) = (c :: s) ++ [z2b 10]) as ->.
  { unfold trim_left. cbn [app length trim_with]. destruct (List.find _ space_encodings) as [e|] eqn:Hf; [|done]. exfalso.
    apply List.find_some in Hf as [Hin%list_elem_of_In Hp]. pose proof graphic_not_space as Hg.
    rewrite Forall_app, Forall_forall in Hg. apply proj1 in Hg. specialize (Hg e Hin). destruct e as [|c' e]; [done|].
    cbn in Hp. apply andb_true_iff in Hp as [->%bool_decide_eq_true_1 _]. apply Hg. by inversion Hs. }
  unfold trim_right. rewrite reverse_snoc, length_app. cbn [length]. rewrite Nat.add_1_r.
  change (trim_with ?encs (S ?k) (z2b 10 :: ?r)) with (trim_with encs k r).
  rewrite trim_with_graphic; [by rewrite reverse_involutive| |by rewrite Forall_reverse].
  intros e He. apply elem_of_app. by right.
Qed.

End Strings.

(** ** strconv *)

Module Strconv.

Definition digit_val (b : byte) : option Z :=
  let z := b2z b in
  if (48 <=? z) && (z <=? 57) then Some (z - 48)
  else if (97 <=? z) && (z <=? 122) then Some (z - 87)
  else if (65 <=? z) && (z <=? 90) then Some (z - 55)
  else None.

Definition digit (z : Z) : byte := z2b (if z <? 10 then 48 + z else 87 + z).

(** [ParseUint s base 64] for an explicit base (no prefix, no underscores);
    every failure is [None]. *)
Fixpoint digits_val (base acc : Z) (s : bytes) : option Z :=
  match s with
  | [] => Some acc
  | b :: s' => match digit_val b with
               | Some d => if d <? base then digits_val base (acc * base + d) s' else None
               | None => None
               end
  end.

Definition parse_uint (base : Z) (s : bytes) : option Z :=
  match s with
  | [] => None
  | _ => match digits_val base 0 s with
         | Some n => if n <? 2 ^ 64 then Some n else None
         | None => None
         end
  end.

(** [ParseInt s 10 64], which is also [Atoi] where [int] has 64 bits. *)
Definition parse_int (s : bytes) : option Z :=
  match s with
  | [] => None
  | b :: s' =>
      let neg := bool_decide (b = "-"%char) in
      let body := if neg || bool_decide (b = "+"%char) then s' else s in
      match parse_uint 10 body with
      | Some un => if negb neg && (un >=? 2 ^ 63) then None
                   else if neg && (un >? 2 ^ 63) then None
                   else Some (if neg then - un else un)
      | None => None
      end
  end.

(** [FormatUint n base]: most significant digit first; [fuel] bounds the digits. *)
Fixpoint format_digits (fuel : nat) (base n : Z) : bytes :=
  match fuel with
  | O => []
  | S k => if n <? base then [digit n]
           else format_digits k base (n / base) ++ [digit (n mod base)]
  end.

(** [FormatInt n 10]; an [int64] has at most 19 digits. *)
Definition format_int (n : Z) : bytes :=
  if n <? 0 then "-"%char :: format_digits 20 10 (- n) else format_digits 20 10 n.

Lemma digit_val_digit z : 0 ≤ z < 36 → digit_val (digit z) = Some z.
Proof.
  intros Hz. unfold digit_val, digit.
  destruct (Z.ltb_spec z 10); rewrite b2z_z2b, Z.mod_small by lia;
    repeat case_cmp; simpl; try lia; f_equal; lia.
Qed.

Lemma digits_val_app base acc s1 s2 :
  digits_val base acc (s1 ++ s2) = digits_val base acc s1 ≫= λ a, digits_val base a s2.
Proof.
  revert acc. induction s1 as [|b s1 IH]; intros acc; simpl; [done|].
  destruct (digit_val b) as [d|]; [|done]. by destruct (d <? base).
Qed.

Lemma format_digits_val fuel base n :
  2 ≤ base ≤ 36 → 0 ≤ n < base ^ Z.of_nat fuel →
  digits_val base 0 (format_digits fuel base n) = Some n.
Proof.
  intros Hb. revert n. induction fuel as [|k IH]; intros n Hn; [simpl in *; f_equal; lia|].
  cbn [format_digits]. destruct (Z.ltb_spec n base).
  - cbn [digits_val]. rewrite digit_val_digit by lia. destruct (Z.ltb_spec n base); [done|lia].
  - pose proof (Z.mod_pos_bound n base). rewrite digits_val_app, IH.
    + cbn [mbind option_bind digits_val]. rewrite digit_val_digit by lia.
      destruct (Z.ltb_spec (n mod base) base); [|lia]. f_equal.
      rewrite (Z.div_mod n base) at 3 by lia. lia.
    + rewrite Nat2Z.inj_succ, Z.pow_succ_r in Hn by lia.
      split; [apply Z.div_pos; lia|]. apply Z.div_lt_upper_bound; lia.
Qed.

(** The digits of a number are characters other than a given non-digit. *)
Lemma format_digits_chars fuel base n c :
  2 ≤ base ≤ 10 → 0 ≤ n → (b2z c < 48 ∨ 57 < b2z c) → c ∉ format_digits fuel base n.
Proof.
  intros Hb Hn Hc. revert n Hn. induction fuel as [|k IH]; intros n Hn; simpl; [apply not_elem_of_nil|].
  assert (Hd : ∀ z, 0 ≤ z < 10 → c ≠ digit z).
  { intros z Hz ->. unfold digit in Hc. destruct (Z.ltb_spec z 10); [|lia].
    rewrite b2z_z2b, Z.mod_small in Hc by lia. lia. }
  case_cmp.
  - rewrite list_elem_of_singleton. apply Hd. lia.
  - rewrite elem_of_app, list_elem_of_singleton. intros [Hin|Hin].
    + eapply IH; [|done]. apply Z.div_pos; lia.
    + pose proof (Z.mod_pos_bound n base). eapply Hd; [|done]. lia.
Qed.

Lemma format_nat_digits n : 0 ≤ n → Forall (λ c, 48 ≤ b2z c ≤ 57) (format_int n).
Proof.
  intros Hn. unfold format_int. destruct (Z.ltb_spec n 0); [lia|]. apply Forall_forall. intros c Hc.
  destruct (decide (48 ≤ b2z c ∧ b2z c ≤ 57)); [lia|]. exfalso.
  apply (format_digits_chars 20 10 n c); [lia|lia|lia|done].
Qed.

Lemma format_digits_ne fuel base n : (0 < fuel)%nat → format_digits fuel base n ≠ [].
Proof.
  destruct fuel as [|k]; [lia|]. intros _. simpl. case_cmp; [done|].
  by destruct (format_digits k base (n / base)).
Qed.

Lemma parse_uint_format n :
  0 ≤ n < 2 ^ 64 → parse_uint 10 (format_digits 20 10 n) = Some n.
Proof.
  intros Hn. unfold parse_uint.
  pose proof (format_digits_ne 20 10 n) as Hne.
  pose proof (format_digits_val 20 10 n) as Hv.
  destruct (format_digits 20 10 n) as [|b s]; [exfalso; apply Hne; [lia|done]|].
  rewrite Hv by lia. destruct (Z.ltb_spec n (2 ^ 64)); [done|lia].
Qed.

Lemma parse_format_int n : is_i64 n → parse_int (format_int n) = Some n.
Proof.
  unfold is_i64. intros Hn. unfold format_int. destruct (Z.ltb_spec n 0).
  - unfold parse_int. cbv zeta. rewrite bool_decide_true by done. cbn [orb andb negb].
    rewrite parse_uint_format by lia. rewrite Z.gtb_ltb.
    destruct (Z.ltb_spec (2 ^ 63) (- n)); [lia|]. f_equal. lia.
  - pose proof (parse_uint_format n) as Hp. pose proof (format_digits_ne 20 10 n) as Hne.
    assert (Hm : "-"%char ∉ format_digits 20 10 n) by (apply format_digits_chars; [lia..|]; left; done).
    assert (Hpl : "+"%char ∉ format_digits 20 10 n) by (apply format_digits_chars; [lia..|]; left; done).
    destruct (format_digits 20 10 n) as [|b s]; [exfalso; apply Hne; [lia|done]|].
    apply not_elem_of_cons in Hm as [Hm _]. apply not_elem_of_cons in Hpl as [Hpl _].
    unfold parse_int. cbv zeta. rewrite !bool_decide_false by done. cbn [orb andb negb].
    rewrite Hp by lia. rewrite Z.geb_leb. destruct (Z.leb_spec (2 ^ 63) n); [lia|done].
Qed.

Lemma digit_val_nonneg b d : digit_val b = Some d → 0 ≤ d.
Proof. unfold digit_val. intros. repeat case_match; simplify_eq; lia. Qed.

Lemma digits_val_nonneg base acc s n :
  0 ≤ base → 0 ≤ acc → digits_val base acc s = Some n → 0 ≤ n.
Proof.
  intros Hb. revert acc. induction s as [|x s IH]; intros acc Ha Hn; simpl in Hn; [by simplify_eq|].
  destruct (digit_val x) as [d|] eqn:Ed; [|done]. apply digit_val_nonneg in Ed.
  destruct (d <? base); [|done]. eapply IH; [|done]. nia.
Qed.

Lemma parse_uint_range base s n : 0 ≤ base → parse_uint base s = Some n → 0 ≤ n < 2 ^ 64.
Proof.
  unfold parse_uint. intros Hb H. destruct s as [|b s]; [done|].
  destruct (digits_val base 0 (b :: s)) as [m|] eqn:E; [|done].
  apply digits_val_nonneg in E; [|lia..]. case_cmp_in H; simplify_eq. lia.
Qed.

Lemma parse_int_range s n : parse_int s = Some n → is_i64 n.
Proof.
  unfold parse_int, is_i64. destruct s as [|b s]; [done|]. intros H. cbv zeta in H.
  match type of H with match ?p with _ => _ end = _ => destruct p as [un|] eqn:E; [|done] end.
  apply parse_uint_range in E; [|lia].
  rewrite Z.geb_leb, Z.gtb_ltb in H.
  destruct (bool_decide (b = "-"%char)); cbn [negb andb] in H;
    repeat case_match; simplify_eq; lia.
Qed.

End Strconv.

(** ** encoding/hex *)

Module Hex.

Definition encode (l : bytes) : bytes :=
  flat_map (λ b, [Strconv.digit (b2z b / 16); Strconv.digit (b2z b mod 16)]) l.

Definition nibble (b : byte) : option Z :=
  match Strconv.digit_val b with
  | Some d => if d <? 16 then Some d else None
  | None => None
  end.

(** [hex.DecodeString]: both letter cases; odd lengths and other characters fail. *)
Fixpoint decode (s : bytes) : option bytes :=
  match s with
  | [] => Some []
  | [_] => None
  | a :: b :: s' =>
      match nibble a, nibble b, decode s' with
      | Some x, Some y, Some l => Some (z2b (16 * x + y) :: l)
      | _, _, _ => None
      end
  end.

Lemma hex_decode_encode l : decode (encode l) = Some l.
Proof.
  induction l as [|b l IH]; [done|]. cbn [encode flat_map app]. fold (encode l).
  cbn [decode]. rewrite IH. pose proof (b2z_range b). unfold nibble.
  rewrite !Strconv.digit_val_digit by (Z.to_euclidean_division_equations; lia).
  destruct (Z.ltb_spec (b2z b / 16) 16); [|Z.to_euclidean_division_equations; lia].
  destruct (Z.ltb_spec (b2z b mod 16) 16); [|Z.to_euclidean_division_equations; lia].
  do 2 f_equal. rewrite <-(z2b_b2z b) at 3. f_equal. Z.to_euclidean_division_equations; lia.
Qed.

Lemma length_encode l : length (encode l) = (2 * length l)%nat.
Proof. induction l; simpl in *; lia. Qed.

Lemma encode_digits l : Forall (λ c, 48 ≤ b2z c ≤ 57 ∨ 97 ≤ b2z c ≤ 102) (encode l).
Proof.
  assert (∀ z, 0 ≤ z < 16 → 48 ≤ b2z (Strconv.digit z) ≤ 57 ∨ 97 ≤ b2z (Strconv.digit z) ≤ 102) as Hd.
  { intros z Hz. unfold Strconv.digit. destruct (Z.ltb_spec z 10); rewrite b2z_z2b, Z.mod_small; lia. }
  unfold encode. induction l as [|b l IH]; [constructor|]. cbn. pose proof (b2z_range b).
  apply Forall_cons. split; [|apply Forall_cons; split; [|done]].
  - apply Hd. split; [apply Z.div_pos; lia|]. apply Z.div_lt_upper_bound; lia.
  - apply Hd, Z.mod_pos_bound. lia.
Qed.

End Hex.

(** ** base64.RawURLEncoding *)

Module B64.

Definition alphabet : bytes :=
  gs "ABCDEFGHIJKLMNOPQRSTUVWXYZabcdefghijklmnopqrstuvwxyz0123456789-_".

Definition char (z : Z) : byte := nth (Z.to_nat z) alphabet "A"%char.

Fixpoint index_of (c : byte) (l : bytes) (i : Z) : option Z :=
  match l with
  | [] => None
  | b :: l' => if decide (b = c) then Some i else index_of c l' (i + 1)
  end.
Definition val (c : byte) : option Z := index_of c alphabet 0.

Fixpoint encode (l : bytes) : bytes :=
  match l with
  | [] => []
  | [a] => let v := b2z a * 65536 in [char (v / 262144); char (v / 4096 mod 64)]
  | [a; b] => let v := b2z a * 65536 + b2z b * 256 in
              [char (v / 262144); char (v / 4096 mod 64); char (v / 64 mod 64)]
  | a :: b :: c :: l' =>
      let v := b2z a * 65536 + b2z b * 256 + b2z c in
      char (v / 262144) :: char (v / 4096 mod 64) :: char (v / 64 mod 64) :: char (v mod 64)
        :: encode l'
  end.

(** The decoder ignores carriage returns and newlines and does not check the
    trailing bits of a final partial group ([Strict] is not set). *)
Fixpoint values (s : bytes) : option (list Z) :=
  match s with
  | [] => Some []
  | c :: s' =>
      if bool_decide (b2z c = 10) || bool_decide (b2z c = 13) then values s' else
      match val c, values s' with Some v, Some vs => Some (v :: vs) | _, _ => None end
  end.

Fixpoint groups (vs : list Z) : option bytes :=
  match vs with
  | [] => Some []
  | [_] => None
  | [x; y] => let v := x * 262144 + y * 4096 in Some [z2b (v / 65536)]
  | [x; y; z] => let v := x * 262144 + y * 4096 + z * 64 in
                 Some [z2b (v / 65536); z2b (v / 256)]
  | x :: y :: z :: t :: vs' =>
      let v := x * 262144 + y * 4096 + z * 64 + t in
      match groups vs' with
      | Some l => Some (z2b (v / 65536) :: z2b (v / 256) :: z2b v :: l)
      | None => None
      end
  end.

Definition decode (s : bytes) : option bytes := values s ≫= groups.

Definition char_ok (z : Z) : bool :=
  bool_decide (val (char z) = Some z) && negb (bool_decide (b2z (char z) = 10))
  && negb (bool_decide (b2z (char z) = 13)) && negb (bool_decide (char z = "."%char)).

Lemma chars_ok : forallb char_ok (seqZ 0 64) = true.
Proof. vm_compute. reflexivity. Qed.

Lemma char_spec z : 0 ≤ z < 64 →
  val (char z) = Some z ∧ b2z (char z) ≠ 10 ∧ b2z (char z) ≠ 13 ∧ char z ≠ "."%char.
Proof.
  intros Hz. pose proof (proj1 (forallb_forall _ _) chars_ok z) as H.
  rewrite <-list_elem_of_In, elem_of_seqZ in H. specialize (H ltac:(lia)).
  unfold char_ok in H. rewrite !andb_true_iff, !negb_true_iff in H.
  destruct H as [[[H1 H2] H3] H4].
  apply bool_decide_eq_true in H1. apply bool_decide_eq_false in H2, H3, H4. done.
Qed.

Lemma values_char z s : 0 ≤ z < 64 → values (char z :: s) = cons z <$> values s.
Proof.
  intros Hz. destruct (char_spec z Hz) as (Hv & H10 & H13 & _). cbn [values].
  rewrite !bool_decide_false by done. simpl. rewrite Hv. by destruct (values s).
Qed.

(** Three-step induction over a byte string. *)
Lemma triple_ind (P : bytes → Prop) :
  P [] → (∀ a, P [a]) → (∀ a b, P [a; b]) → (∀ a b c l, P l → P (a :: b :: c :: l)) → ∀ l, P l.
Proof.
  intros H0 H1 H2 H3.
  assert (H : ∀ n l, (length l ≤ n)%nat → P l).
  { induction n as [|n IH]; intros [|a [|b [|c l]]] Hl; simpl in Hl; try lia; auto.
    apply H3, IH. lia. }
  intros l. by apply (H (length l)).
Qed.

Lemma z2b_eq v b : v mod 256 = b2z b → z2b v = b.
Proof. intros H. apply (inj b2z). by rewrite b2z_z2b. Qed.

Lemma b64_decode_encode l : decode (encode l) = Some l.
Proof.
  induction l as [|a|a b|a b c l IH] using triple_ind; [done|..]; unfold decode in *; cbn [encode].
  - pose proof (b2z_range a). rewrite !values_char by (Z.to_euclidean_division_equations; lia).
    cbn [values fmap option_fmap option_map mbind option_bind groups]. do 2 f_equal.
    apply z2b_eq. Z.to_euclidean_division_equations; lia.
  - pose proof (b2z_range a). pose proof (b2z_range b).
    rewrite !values_char by (Z.to_euclidean_division_equations; lia).
    cbn [values fmap option_fmap option_map mbind option_bind groups].
    f_equal. f_equal; [|f_equal]; apply z2b_eq; Z.to_euclidean_division_equations; lia.
  - pose proof (b2z_range a). pose proof (b2z_range b). pose proof (b2z_range c).
    rewrite !values_char by (Z.to_euclidean_division_equations; lia).
    destruct (values (encode l)) as [vs|]; [|done].
    cbn [fmap option_fmap option_map mbind option_bind groups] in *. rewrite IH.
    f_equal. f_equal; [|f_equal; [|f_equal]]; apply z2b_eq; Z.to_euclidean_division_equations; lia.
Qed.

Lemma encode_nodot l : "."%char ∉ encode l.
Proof.
  assert (Hc : ∀ z, 0 ≤ z < 64 → "."%char ≠ char z) by (intros z Hz; destruct (char_spec z Hz) as (_ & _ & _ & ?); done).
  induction l as [|a|a b|a b c l IH] using triple_ind; cbn [encode]; cbv zeta;
    try pose proof (b2z_range a); try pose proof (b2z_range b); try pose proof (b2z_range c);
    repeat (apply not_elem_of_cons; split); try apply not_elem_of_nil; try done;
    apply Hc; Z.to_euclidean_division_equations; lia.
Qed.

End B64.

(** ** bufio.Scanner over lines *)

Module Bufio.

Definition newline : byte := z2b 10.
Definition carriage_return : byte := z2b 13.

(** [bufio.MaxScanTokenSize]: a line that does not fit the 64 KiB buffer
    together with its newline stops the scan with [ErrTooLong]. *)
Definition too_long (line : bytes) : bool := Z.of_nat (length line) >=? 65536.

(** [dropCR] of [ScanLines]. *)
Definition drop_cr (line : bytes) : bytes :=
  match reverse line with
  | c :: l => if decide (c = carriage_return) then reverse l else line
  | [] => line
  end.

(** The tokens, and whether the scan reached the end of the input ([Err] is nil
    but for a read error); a last line without newline counts if not empty. *)
Fixpoint scan_pieces (ps : list bytes) : list bytes * bool :=
  match ps with
  | [] => ([], true)
  | p :: ps =>
      if too_long p then ([], false) else
      match ps with
      | [] => (match p with [] => [] | _ => [drop_cr p] end, true)
      | _ => let '(ts, fine) := scan_pieces ps in (drop_cr p :: ts, fine)
      end
  end.
Definition scan_lines (data : bytes) : list bytes * bool := scan_pieces (Strings.split newline data).

(** A text of short lines without carriage returns scans to those lines. *)
Definition plain_line (l : bytes) : Prop :=
  newline ∉ l ∧ carriage_return ∉ l ∧ Z.of_nat (length l) < 65536.

Lemma drop_cr_plain l : carriage_return ∉ l → drop_cr l = l.
Proof.
  intros Hc. unfold drop_cr. destruct (reverse l) as [|c r] eqn:Hr; [done|].
  rewrite decide_False; [done|]. intros ->. apply Hc. apply elem_of_reverse. rewrite Hr. by left.
Qed.

Lemma plain_short l : plain_line l → too_long l = false.
Proof. intros (_ & _ & Hl). unfold too_long. destruct (Z.geb_spec (Z.of_nat (length l)) 65536); [lia|done]. Qed.

Lemma scan_lines_plain ls :
  Forall plain_line ls → scan_lines (concat (map (λ l, l ++ [newline]) ls)) = (ls, true).
Proof.
  unfold scan_lines. induction 1 as [|l ls Hl _ IH]; [done|]. cbn [map concat].
  pose proof Hl as (Hn & Hc & _). rewrite <-app_assoc. cbn [app]. rewrite Strings.split_app by done.
  cbn [scan_pieces]. rewrite plain_short by done. pose proof (Strings.split_ne newline (concat (map (λ l, l ++ [newline]) ls))).
  destruct (Strings.split _ _) as [|p ps]; [done|]. by rewrite IH, drop_cr_plain.
Qed.

End Bufio.
