(* ===== verification/Protocol.v ===== *)
(** * internal/protocol: packet identities and the Stage-1 probe format *)

From S2P Require Import Prelude GoText.

Module Protocol.

(** ** identity.go *)

Definition SessionIDSize : nat := 16.
Definition SessionID := vec byte 16.

Record PacketID := mkPacketID { Session : SessionID; Number : Z (* uint64 *) }.

#[global] Instance SessionID_eq_dec : EqDecision SessionID.
Proof.
  refine (λ a b, cast_if (decide ((a : bytes) = (b : bytes)))).
  - by apply vec_to_list_inj2.
  - by intros ->.
Defined.
#[global] Instance SessionID_countable : Countable SessionID :=
  inj_countable' (λ v : SessionID, (v : bytes)) (arr 16) (arr_vec 16).
#[global] Instance PacketID_eq_dec : EqDecision PacketID.
Proof. solve_decision. Defined.
#[global] Instance PacketID_countable : Countable PacketID.
Proof.
  refine (inj_countable' (λ p, (Session p, Number p)) (λ q, mkPacketID q.1 q.2) _).
  by intros [].
Defined.

Definition zeroSession : SessionID := arr 16 [].

Inductive error :=
| ErrSessionIDLength (n : nat)
| ErrShortProbe | ErrBadMagic | ErrUnsupportedVersion | ErrInvalidProbe.
#[global] Instance error_eq_dec : EqDecision error.
Proof. solve_decision. Defined.

Definition NewSessionID (raw : bytes) : result error SessionID :=
  if decide (length raw = SessionIDSize) then Ok (arr 16 raw)
  else Err (ErrSessionIDLength (length raw)).

Definition IsZero (id : SessionID) : bool := forallb (λ b, b2z b =? 0) id.

Definition SessionID_String (id : SessionID) : bytes := Hex.encode id.

Definition Valid (id : PacketID) : bool := negb (IsZero (Session id)) && (Number id >? 0).

(** [fmt.Sprintf("%s:%d", ...)] *)
Definition PacketID_String (id : PacketID) : bytes :=
  if Valid id
  then SessionID_String (Session id) ++ ":"%char :: Strconv.format_digits 20 10 (Number id)
  else gs "invalid-packet-id".

(** ** probe.go *)

Definition ProbeVersion : Z := 1.
Definition ProbeSessionOffset : nat := 6.
Definition ProbeWireSize : nat := ProbeSessionOffset + SessionIDSize + 8.
Definition probeMagic : bytes := gs "CVP1".

(** A [PathTag] is a [uint8]; the three named tags are 0, 1 and 2. *)
Definition PathTag := byte.
Definition PathUnknown : PathTag := z2b 0.
Definition PathWiFi : PathTag := z2b 1.
Definition PathAndroidUSBTether : PathTag := z2b 2.

Definition PathTag_String (tag : PathTag) : string :=
  if decide (tag = PathWiFi) then "wi-fi"
  else if decide (tag = PathAndroidUSBTether) then "android-usb-tether"
  else "unknown".

Record ProbePacket := mkProbe { ID : PacketID; Path : PathTag }.

Definition MarshalBinary (p : ProbePacket) : go (result error bytes) :=
  if negb (Valid (ID p)) then err ErrInvalidProbe else
  let out := zeros ProbeWireSize in
  out ← copy_at 0 4 probeMagic out;
  out ← put_byte 4 (z2b ProbeVersion) out;
  out ← put_byte 5 (Path p) out;
  out ← copy_at ProbeSessionOffset (ProbeSessionOffset + SessionIDSize) (Session (ID p)) out;
  out ← put_be 8 (ProbeSessionOffset + SessionIDSize) (Number (ID p)) out;
  ok out.

Definition UnmarshalProbe (b : bytes) : go (result error ProbePacket) :=
  if decide (length b < ProbeWireSize)%nat then err ErrShortProbe else
  m ← slice b 0 4;
  if decide (m ≠ probeMagic) then err ErrBadMagic else
  v ← byte_at b 4;
  if negb (b2z v =? ProbeVersion) then err ErrUnsupportedVersion else
  s ← slice b ProbeSessionOffset (ProbeSessionOffset + SessionIDSize);
  number ← get_be 8 (ProbeSessionOffset + SessionIDSize) b;
  tag ← byte_at b 5;
  let packet := mkProbe (mkPacketID (arr 16 s) number) tag in
  if negb (Valid (ID packet)) then err ErrInvalidProbe else ok packet.

(** ** Lemmas *)

Lemma length_probeMagic : length probeMagic = 4%nat.
Proof. done. Qed.
Lemma length_session (id : SessionID) : length (id : bytes) = 16%nat.
Proof. apply length_vec_to_list. Qed.
#[export] Hint Rewrite length_probeMagic length_session : len.
#[export] Hint Unfold ProbeWireSize ProbeSessionOffset SessionIDSize : sizes.

Definition probe_bytes (p : ProbePacket) : bytes :=
  probeMagic ++ [z2b ProbeVersion; Path p] ++ (Session (ID p) : bytes) ++ be_bytes 8 (Number (ID p)).

Lemma Marshal_layout p :
  Valid (ID p) = true → MarshalBinary p = Ret (Ok (probe_bytes p)).
Proof.
  intros Hv. unfold MarshalBinary. rewrite Hv. cbn [negb].
  change (zeros ProbeWireSize) with ([] ++ zeros 30).
  rewrite copy_zeros by (cbn; lia). mstep.
  rewrite put_byte_zeros by (cbn; lia). mstep.
  rewrite put_byte_zeros by (cbn; lia). mstep.
  rewrite copy_zeros by len. mstep.
  rewrite put_be_zeros by len. mstep.
  replace (_ - 8)%nat with 0%nat by len.
  unfold probe_bytes, zeros. cbn [replicate]. by rewrite app_nil_r, <-!app_assoc.
Qed.

(** The parser on a datagram cut into its fields. *)
Lemma Unmarshal_fields m v t s n rest :
  length m = 4%nat → length s = 16%nat → length n = 8%nat →
  UnmarshalProbe (m ++ [v; t] ++ s ++ n ++ rest) =
    if decide (m ≠ probeMagic) then err ErrBadMagic
    else if negb (b2z v =? ProbeVersion) then err ErrUnsupportedVersion
    else if negb (Valid (mkPacketID (arr 16 s) (be_val n))) then err ErrInvalidProbe
    else ok (mkProbe (mkPacketID (arr 16 s) (be_val n)) t).
Proof.
  intros Hm Hs Hn. unfold UnmarshalProbe, ProbeWireSize, ProbeSessionOffset, SessionIDSize.
  rewrite decide_False by (rewrite !length_app, Hm, Hs, Hn; cbn [length]; lia).
  by fields.
Qed.

(** Every datagram of at least the wire size splits into the probe fields. *)
Lemma probe_split b :
  (ProbeWireSize ≤ length b)%nat →
  ∃ (m : bytes) (v t : byte) (s n rest : bytes), b = m ++ [v; t] ++ s ++ n ++ rest ∧
    length m = 4%nat ∧ length s = 16%nat ∧ length n = 8%nat.
Proof.
  intros Hb. unfold ProbeWireSize, ProbeSessionOffset, SessionIDSize in Hb.
  destruct (split_at 4 b) as (m & b1 & -> & Hm); [lia|]. rewrite length_app in Hb.
  destruct b1 as [|v [|t b2]]; simpl in Hb; [lia..|].
  destruct (split_at 16 b2) as (s & b3 & -> & Hs); [lia|]. rewrite length_app in Hb.
  destruct (split_at 8 b3) as (n & rest & -> & Hn); [lia|].
  by exists m, v, t, s, n, rest.
Qed.

Lemma IsZero_zeroSession : IsZero zeroSession = true.
Proof. done. Qed.

Lemma Valid_nonzero id : Valid id = true → 0 < Number id ∧ IsZero (Session id) = false.
Proof.
  unfold Valid. rewrite andb_true_iff, negb_true_iff, Z.gtb_lt. by intros [].
Qed.

Lemma Valid_intro id : 0 < Number id → IsZero (Session id) = false → Valid id = true.
Proof. intros Hn Hz. unfold Valid. rewrite Hz. by apply Z.gtb_lt. Qed.

(** [UnmarshalProbe] on any datagram. *)
Lemma Unmarshal_spec b :
  ∃ r, UnmarshalProbe b = Ret r ∧
    ∀ p, r = Ok p → Valid (ID p) = true ∧ is_u64 (Number (ID p)) ∧
      MarshalBinary p = Ret (Ok (take ProbeWireSize b)).
Proof.
  destruct (decide (length b < ProbeWireSize)%nat) as [Hs|Hs].
  { exists (Err ErrShortProbe). unfold UnmarshalProbe. by rewrite decide_True. }
  destruct (probe_split b) as (m & v & t & s & n & rest & -> & Hm & Hls & Hn); [lia|].
  rewrite Unmarshal_fields by done.
  case_decide as Hmag; [by eexists|]. subst m.
  destruct (Z.eqb_spec (b2z v) ProbeVersion) as [Hver|]; [|by eexists].
  destruct (Valid _) eqn:Hv; [|by eexists]. eexists. split; [done|]. intros p [= <-].
  split; [done|]. split.
  { pose proof (be_val_range n) as R. rewrite Hn in R. exact R. }
  rewrite Marshal_layout by done. do 2 f_equal. unfold probe_bytes. cbn [Session Number ID Path].
  rewrite vec_arr, be_bytes_be_val by done. rewrite <-Hver, z2b_b2z.
  replace (probeMagic ++ [v; t] ++ s ++ n ++ rest) with ((probeMagic ++ [v; t] ++ s ++ n) ++ rest)
    by by rewrite <-!app_assoc.
  rewrite take_app_length'; [done|]. len.
Qed.

Lemma Unmarshal_marshalled p rest :
  Valid (ID p) = true → is_u64 (Number (ID p)) →
  length (probe_bytes p) = ProbeWireSize ∧ UnmarshalProbe (probe_bytes p ++ rest) = Ret (Ok p).
Proof.
  intros Hv Hn. unfold probe_bytes. split; [by len|].
  rewrite <-!app_assoc, Unmarshal_fields by len.
  rewrite decide_False by naive_solver.
  rewrite be_val_be_bytes, Z.mod_small, arr_vec by exact Hn.
  destruct p as [[s n] t]. cbn [Session Number ID Path] in *. rewrite b2z_z2b, Hv. done.
Qed.

(** ** Properties *)

(** A probe that [MarshalBinary] encodes is decoded by [UnmarshalProbe] to
    the same identity and path tag, whatever bytes follow it in the datagram. *)
Theorem probe_roundtrip (p : ProbePacket) (wire rest : bytes) :
  is_u64 (Number (ID p)) → MarshalBinary p = Ret (Ok wire) →
  length wire = ProbeWireSize ∧ UnmarshalProbe (wire ++ rest) = Ret (Ok p).
Proof.
  intros Hn Hw. destruct (Valid (ID p)) eqn:Hv; [|by unfold MarshalBinary in Hw; rewrite Hv in Hw].
  rewrite Marshal_layout in Hw by done. injection Hw as <-. by apply Unmarshal_marshalled.
Qed.

Definition probe_example : ProbePacket :=
  mkProbe (mkPacketID (arr 16 (gs "session-id-00001")) 77) PathWiFi.

Lemma probe_roundtrip_witness :
  length (probe_bytes probe_example) = ProbeWireSize ∧
  UnmarshalProbe (probe_bytes probe_example ++ gs "tail") = Ret (Ok probe_example).
Proof.
  apply (probe_roundtrip probe_example (probe_bytes probe_example) (gs "tail")).
  - unfold is_u64. simpl. lia.
  - vm_compute. reflexivity.
Defined.

(** [UnmarshalProbe] never panics on any datagram, and what it accepts is a
    valid identity whose encoding is exactly the first [ProbeWireSize] bytes. *)
Theorem unmarshal_total_sound (b : bytes) :
  ∃ r, UnmarshalProbe b = Ret r ∧
    ∀ p, r = Ok p → Valid (ID p) = true ∧ is_u64 (Number (ID p)) ∧
      MarshalBinary p = Ret (Ok (take ProbeWireSize b)).
Proof. apply Unmarshal_spec. Qed.

End Protocol.
