(* ===== verification/ReplayWindow.v ===== *)
(** * internal/dedup/replay.go: the sliding anti-replay window

    [ReplayWindow] is the RFC 6479 ring bitmap; [Observe] and its helpers are
    transcribed with 64-bit words, Go's index panics and its unsigned
    arithmetic.  The specification [decide_spec] classifies a packet number from
    the complete history of the session; [run_refines] shows that the bitmap
    computes exactly that. *)

From S2P Require Import Prelude.

Module Replay.

(** ** Data *)

Inductive ReplayDecision := ReplayInvalid | ReplayFirstCopy | ReplayDuplicate | ReplayStale.

#[global] Instance ReplayDecision_eq_dec : EqDecision ReplayDecision.
Proof. solve_decision. Defined.

Definition decision_string (d : ReplayDecision) : string :=
  match d with
  | ReplayFirstCopy => "first-copy"
  | ReplayDuplicate => "duplicate"
  | ReplayStale => "stale"
  | ReplayInvalid => "invalid"
  end.

Inductive error := ErrInvalidCapacity.

Record ReplayWindow := mkReplayWindow {
  last : Z;          (* PacketNumber (uint64): highest number observed, 0 = none *)
  words : list Z;    (* []uint64 *)
  width : Z;         (* int *)
  nw : Z             (* int *)
}.

Definition set_words (w : ReplayWindow) (ws : list Z) : ReplayWindow :=
  mkReplayWindow (last w) ws (width w) (nw w).
Definition set_last (w : ReplayWindow) (n : Z) : ReplayWindow :=
  mkReplayWindow n (words w) (width w) (nw w).

(** ** Operations *)

(** [make([]uint64, nw)] panics on a negative length; [(width + 63)] wraps. *)
Definition NewReplayWindow (width : Z) : go (result error ReplayWindow) :=
  if width <=? 0 then err ErrInvalidCapacity else
  let nw := Z.quot (i64 (width + 63)) 64 in
  let actual := i64 (nw * 64) in
  if nw <? 0 then Panic else
  ok (mkReplayWindow 0 (replicate (Z.to_nat nw) 0) actual nw).

Definition Width (w : ReplayWindow) : Z := width w.

Definition all_ones : Z := 2 ^ 64 - 1.    (* ^uint64(0) *)
Definition shl64 (x n : Z) : Z := u64 (Z.shiftl x n).

Definition wordMask (lo hi : Z) : Z :=
  if lo >? hi then 0 else
  let n := u64 (hi - lo + 1) in
  if n =? 64 then all_ones else
  shl64 (u64 (shl64 1 n - 1)) lo.

Definition setBit (w : ReplayWindow) (n : Z) : go ReplayWindow :=
  pos ← gmod n (u64 (width w));
  x ← index (words w) (pos / 64);
  ws ← update (words w) (pos / 64) (Z.lor x (shl64 1 (pos mod 64)));
  Ret (set_words w ws).

Definition testBit (w : ReplayWindow) (n : Z) : go bool :=
  pos ← gmod n (u64 (width w));
  x ← index (words w) (pos / 64);
  Ret (negb (Z.land x (shl64 1 (pos mod 64)) =? 0)).

(** [for wd := start; wd < start + k; wd++ { words[wd] = 0 }] *)
Fixpoint clear_words (k : nat) (start : Z) (ws : list Z) : go (list Z) :=
  match k with
  | O => Ret ws
  | S k' => ws' ← update ws start 0; clear_words k' (start + 1) ws'
  end.

Definition and_not (ws : list Z) (i : Z) (mask : Z) : go (list Z) :=
  x ← index ws i; update ws i (Z.ldiff x mask).

Definition clearRange (w : ReplayWindow) (lo hi : Z) : go ReplayWindow :=
  let loWord := Z.quot lo 64 in
  let hiWord := Z.quot hi 64 in
  let loBit := Z.rem lo 64 in
  let hiBit := Z.rem hi 64 in
  if loWord =? hiWord then
    ws ← and_not (words w) loWord (wordMask loBit hiBit);
    Ret (set_words w ws)
  else
    ws1 ← and_not (words w) loWord (shl64 all_ones loBit);
    ws2 ← clear_words (Z.to_nat (hiWord - (loWord + 1))) (loWord + 1) ws1;
    ws3 ← and_not ws2 hiWord (wordMask 0 hiBit);
    Ret (set_words w ws3).

Definition advance (w : ReplayWindow) (n : Z) : go ReplayWindow :=
  let diff := u64 (n - last w) in
  w1 ← (if diff >=? u64 (width w) then
          Ret (set_words w (map (λ _, 0) (words w)))
        else
          startPos ← gmod (u64 (last w + 1)) (u64 (width w));
          endPos ← gmod n (u64 (width w));
          if startPos <=? endPos then clearRange w startPos endPos
          else w' ← clearRange w startPos (width w - 1); clearRange w' 0 endPos);
  setBit (set_last w1 n) n.

Definition Observe (w : ReplayWindow) (n : Z) : go (ReplayWindow * ReplayDecision) :=
  if n =? 0 then Ret (w, ReplayInvalid) else
  if last w =? 0 then
    w' ← setBit (set_last w n) n; Ret (w', ReplayFirstCopy)
  else if n >? last w then
    w' ← advance w n; Ret (w', ReplayFirstCopy)
  else
    let diff := u64 (last w - n) in
    if diff >=? u64 (width w) then Ret (w, ReplayStale) else
    seen ← testBit w n;
    if (seen : bool) then Ret (w, ReplayDuplicate) else
    w' ← setBit w n; Ret (w', ReplayFirstCopy).

(** A session's window over a sequence of packet numbers. *)
Fixpoint observe_all (w : ReplayWindow) (ns : list Z)
  : go (ReplayWindow * list ReplayDecision) :=
  match ns with
  | [] => Ret (w, [])
  | n :: ns' =>
      '(w1, d) ← Observe w n;
      '(w2, ds) ← observe_all w1 ns';
      Ret (w2, d :: ds)
  end.

(** ** Specification

    The verdict on [n] after the numbers [prior] were observed: zero is
    invalid, a number [width] or more behind the highest is stale, a number
    already observed is a duplicate, and every other number is a first copy. *)

Definition highest (prior : list Z) : Z := foldr Z.max 0 prior.

Definition decide_spec (wd : Z) (prior : list Z) (n : Z) : ReplayDecision :=
  if n =? 0 then ReplayInvalid
  else if highest prior - n >=? wd then ReplayStale
  else if decide (n ∈ prior) then ReplayDuplicate
  else ReplayFirstCopy.

Fixpoint run_spec (wd : Z) (prior ns : list Z) : list ReplayDecision :=
  match ns with
  | [] => []
  | n :: ns' => decide_spec wd prior n :: run_spec wd (n :: prior) ns'
  end.

(** ** Bit-level lemmas *)

(** The bit of a ring position in a word array. *)
Definition bit (ws : list Z) (pos : Z) : bool :=
  Z.testbit (ws !!! Z.to_nat (pos / 64)) (pos mod 64).

Lemma shl64_bits x n i :
  0 ≤ n → 0 ≤ i < 64 → Z.testbit (shl64 x n) i = (n <=? i) && Z.testbit x (i - n).
Proof.
  intros Hn Hi. unfold shl64, u64. rewrite Z.mod_pow2_bits_low by lia.
  rewrite Z.shiftl_spec by lia. destruct (Z.leb_spec n i); [done|].
  by rewrite Z.testbit_neg_r by lia.
Qed.

Lemma all_ones_bits i : 0 ≤ i < 64 → Z.testbit all_ones i = true.
Proof. intros. change all_ones with (Z.ones 64). apply Z.ones_spec_low. lia. Qed.

Lemma one_bits i : Z.testbit 1 i = (i =? 0).
Proof.
  destruct (Z.lt_ge_cases i 0); [rewrite Z.testbit_neg_r by lia; case_cmp; lia || done|].
  change 1 with (2 ^ 0). rewrite Z.pow2_bits_eqb by lia. apply Z.eqb_sym.
Qed.

Lemma single_bits n i : 0 ≤ n < 64 → 0 ≤ i < 64 → Z.testbit (shl64 1 n) i = (i =? n).
Proof.
  intros. rewrite shl64_bits, one_bits by lia. repeat case_cmp; simpl; lia || done.
Qed.

Lemma wordMask_bits lo hi i :
  0 ≤ lo < 64 → 0 ≤ hi < 64 → 0 ≤ i < 64 →
  Z.testbit (wordMask lo hi) i = (lo <=? i) && (i <=? hi).
Proof.
  intros Hlo Hhi Hi. unfold wordMask. rewrite Z.gtb_ltb.
  destruct (Z.ltb_spec hi lo).
  { rewrite Z.testbit_0_l. repeat case_cmp; simpl; lia || done. }
  rewrite (u64_small (hi - lo + 1)) by (unfold is_u64; lia).
  case_cmp.
  { rewrite all_ones_bits by lia. repeat case_cmp; simpl; lia || done. }
  assert (E : u64 (shl64 1 (hi - lo + 1) - 1) = Z.ones (hi - lo + 1)).
  { assert (B : 1 ≤ 2 ^ (hi - lo + 1) < 2 ^ 64)
      by (pose proof (Z.pow_pos_nonneg 2 (hi - lo + 1));
          pose proof (Z.pow_lt_mono_r 2 (hi - lo + 1) 64); lia).
    unfold shl64. rewrite Z.shiftl_1_l, (u64_small (2 ^ _)) by (unfold is_u64; lia).
    rewrite u64_small by (unfold is_u64; lia). by rewrite Z.ones_equiv. }
  rewrite E, shl64_bits by lia.
  destruct (Z.leb_spec lo i); [|done]. simpl.
  destruct (Z.leb_spec i hi).
  - rewrite Z.ones_spec_low by lia. done.
  - rewrite Z.ones_spec_high by lia. done.
Qed.

(** ** Well-formed windows *)

Definition words_ok (k : Z) (ws : list Z) : Prop :=
  Z.of_nat (length ws) = k ∧ Forall is_u64 ws.

Record wf (w : ReplayWindow) : Prop := {
  wf_nw : 0 < nw w;
  wf_width : width w = 64 * nw w;
  wf_max : width w < 2 ^ 63;
  wf_last : is_u64 (last w);
  wf_words : words_ok (nw w) (words w)
}.

(** [bits_of k ws f]: [ws] is a bitmap of [k] words holding the predicate [f]. *)
Definition bits_of (k : Z) (ws : list Z) (f : Z → bool) : Prop :=
  words_ok k ws ∧ ∀ pos, 0 ≤ pos < 64 * k → bit ws pos = f pos.

Lemma word_pos pos k : 0 ≤ pos < 64 * k → 0 ≤ pos / 64 < k ∧ 0 ≤ pos mod 64 < 64.
Proof. intros. Z.to_euclidean_division_equations. lia. Qed.

(** Rewriting one word of a bitmap. *)
Lemma update_bits k ws f i v :
  bits_of k ws f → 0 ≤ i < k → is_u64 v →
  ∃ ws', update ws i v = Ret ws' ∧
    bits_of k ws' (λ pos, if pos / 64 =? i then Z.testbit v (pos mod 64) else f pos).
Proof.
  intros [[Hlen Hall] Hf] Hi Hv.
  exists (<[Z.to_nat i := v]> ws). rewrite update_ret by lia. split; [done|].
  split; [split|].
  - by rewrite length_insert.
  - by apply Forall_insert.
  - intros pos Hpos. pose proof (word_pos pos k Hpos). unfold bit. case_cmp.
    + subst i. rewrite list_lookup_total_insert_eq by lia. done.
    + rewrite list_lookup_total_insert_ne by lia. by apply Hf.
Qed.

Lemma index_bits k ws f i :
  bits_of k ws f → 0 ≤ i < k →
  ∃ x, index ws i = Ret x ∧ is_u64 x ∧ ∀ j, 0 ≤ j < 64 → Z.testbit x j = f (64 * i + j).
Proof.
  intros [[Hlen Hall] Hf] Hi.
  destruct (index_is_ret ws i) as (x & Hx & Hl); [lia|].
  exists x. split; [done|]. split.
  - rewrite Forall_lookup in Hall. eauto.
  - intros j Hj. rewrite <-Hf by lia. unfold bit.
    replace ((64 * i + j) / 64) with i by (Z.to_euclidean_division_equations; lia).
    replace ((64 * i + j) mod 64) with j by (Z.to_euclidean_division_equations; lia).
    by erewrite list_lookup_total_correct.
Qed.

Lemma pos_split pos : 64 * (pos / 64) + pos mod 64 = pos.
Proof. Z.to_euclidean_division_equations. lia. Qed.

Lemma is_u64_ldiff x y : is_u64 x → is_u64 (Z.ldiff x y).
Proof.
  intros Hx. apply is_u64_bits. intros i Hi.
  by rewrite Z.ldiff_spec, (u64_high_bits x i Hx Hi).
Qed.

Lemma is_u64_lor x y : is_u64 x → is_u64 y → is_u64 (Z.lor x y).
Proof.
  intros Hx Hy. apply is_u64_bits. intros i Hi.
  by rewrite Z.lor_spec, (u64_high_bits x i Hx Hi), (u64_high_bits y i Hy Hi).
Qed.

Lemma shl64_u64 x n : is_u64 (shl64 x n).
Proof. apply u64_range. Qed.

(** [words[i] &^= mask] *)
Lemma and_not_bits k ws f i mask :
  bits_of k ws f → 0 ≤ i < k →
  ∃ ws', and_not ws i mask = Ret ws' ∧
    bits_of k ws' (λ pos, f pos && negb ((pos / 64 =? i) && Z.testbit mask (pos mod 64))).
Proof.
  intros Hb Hi. destruct (index_bits k ws f i Hb Hi) as (x & Hx & Hu & Hbits).
  destruct (update_bits k ws f i (Z.ldiff x mask) Hb Hi) as (ws' & Hup & Hb').
  { by apply is_u64_ldiff. }
  exists ws'. unfold and_not. rewrite Hx. mstep. split; [done|].
  destruct Hb' as [Hok Hb']. split; [done|].
  intros pos Hpos. rewrite Hb' by done. pose proof (word_pos pos k Hpos).
  case_cmp; simpl.
  - rewrite Z.ldiff_spec, Hbits by lia. subst i. by rewrite pos_split.
  - by rewrite andb_true_r.
Qed.

Lemma clear_words_bits k n start ws f :
  bits_of k ws f → 0 ≤ start → start + Z.of_nat n ≤ k →
  ∃ ws', clear_words n start ws = Ret ws' ∧
    bits_of k ws' (λ pos, f pos && negb ((start <=? pos / 64) && (pos / 64 <? start + Z.of_nat n))).
Proof.
  revert start ws f. induction n as [|n IH]; intros start ws f Hb H0 Hk.
  - exists ws. split; [done|]. destruct Hb as [? Hb]. split; [done|].
    intros pos Hpos. rewrite Hb by done. repeat case_cmp; simpl; try lia; by rewrite andb_true_r.
  - destruct (update_bits k ws f start 0 Hb) as (ws1 & H1 & Hb1); [lia|unfold is_u64; lia|].
    destruct (IH (start + 1) ws1 _ Hb1) as (ws2 & H2 & Hok & Hb2); [lia|lia|].
    exists ws2. cbn [clear_words]. rewrite H1. mstep. split; [done|]. split; [done|].
    intros pos Hpos. rewrite Hb2 by done. rewrite Z.testbit_0_l.
    repeat case_cmp; simpl; try lia; by rewrite ?andb_true_r, ?andb_false_r.
Qed.

(** ** Window operations on the bitmap *)

(** [holds w f]: [w] is well formed and its bitmap is the predicate [f]. *)
Definition holds (w : ReplayWindow) (f : Z → bool) : Prop :=
  wf w ∧ ∀ pos, 0 ≤ pos < width w → bit (words w) pos = f pos.

Lemma holds_bits w f : holds w f → bits_of (nw w) (words w) f.
Proof. intros [[] Hf]. split; [done|]. intros pos Hpos. apply Hf. lia. Qed.

Lemma holds_set_words w f ws g :
  holds w f → bits_of (nw w) ws g → holds (set_words w ws) g.
Proof.
  intros [[] Hf] [Hok Hg]. split; [split; done|].
  intros pos Hpos. apply Hg. simpl in Hpos. lia.
Qed.

Lemma holds_set_last w f n : holds w f → is_u64 n → holds (set_last w n) f.
Proof. intros [[] Hf] Hn. split; [split; done|done]. Qed.

Lemma holds_ext w f g :
  holds w f → (∀ pos, 0 ≤ pos < width w → f pos = g pos) → holds w g.
Proof. intros [Hw Hf] Hfg. split; [done|]. intros. rewrite Hf by done. auto. Qed.

Lemma wf_pos w : wf w → 0 < width w < 2 ^ 63 ∧ u64 (width w) = width w.
Proof. intros []. split; [lia|]. apply u64_small. unfold is_u64. lia. Qed.

Lemma ring_pos w n : wf w → 0 ≤ n mod width w < width w.
Proof. intros H. apply wf_pos in H. apply Z.mod_pos_bound. lia. Qed.

Lemma testBit_holds w f n :
  holds w f → 0 ≤ n → testBit w n = Ret (f (n mod width w)).
Proof.
  intros Hw Hn. destruct Hw as [Hwf Hf]. destruct (wf_pos w Hwf) as [Hp Hu].
  unfold testBit. rewrite Hu, gmod_pos by lia. mstep.
  set (pos := n mod width w). assert (0 ≤ pos < width w) by (apply Z.mod_pos_bound; lia).
  assert (Hb : bits_of (nw w) (words w) f) by (apply holds_bits; done).
  assert (Hr : 0 ≤ pos / 64 < nw w ∧ 0 ≤ pos mod 64 < 64)
    by (apply word_pos; pose proof (wf_width w Hwf); lia).
  destruct (index_bits _ _ _ (pos / 64) Hb) as (x & Hx & Hu64 & Hbits); [lia|].
  rewrite Hx. mstep. f_equal. rewrite <-(pos_split pos) at 2. rewrite <-Hbits by lia.
  destruct (Z.testbit x (pos mod 64)) eqn:E.
  - apply negb_true_iff, Z.eqb_neq. intros H0.
    assert (Z.testbit (Z.land x (shl64 1 (pos mod 64))) (pos mod 64) = false) as Hz
      by (rewrite H0; apply Z.testbit_0_l).
    rewrite Z.land_spec, E, single_bits, Z.eqb_refl in Hz by lia. done.
  - apply negb_false_iff, Z.eqb_eq. apply Z.bits_inj'. intros i Hi.
    rewrite Z.land_spec, Z.testbit_0_l. destruct (Z.lt_ge_cases i 64).
    + rewrite single_bits by lia. case_cmp; [subst; by rewrite E|by rewrite andb_false_r].
    + by rewrite (u64_high_bits x i) by done.
Qed.

Lemma setBit_holds w f n :
  holds w f → 0 ≤ n →
  ∃ ws, setBit w n = Ret (set_words w ws) ∧
    holds (set_words w ws) (λ pos, f pos || (pos =? n mod width w)).
Proof.
  intros Hw Hn. pose proof Hw as [Hwf Hf]. destruct (wf_pos w Hwf) as [Hp Hu].
  unfold setBit. rewrite Hu, gmod_pos by lia. mstep.
  set (pos := n mod width w). assert (0 ≤ pos < width w) by (apply Z.mod_pos_bound; lia).
  pose proof (holds_bits w f Hw) as Hb. pose proof (wf_width w Hwf).
  assert (Hr : 0 ≤ pos / 64 < nw w ∧ 0 ≤ pos mod 64 < 64) by (apply word_pos; lia).
  destruct (index_bits _ _ _ (pos / 64) Hb) as (x & Hx & Hu64 & Hbits); [lia|].
  destruct (update_bits _ _ _ (pos / 64) (Z.lor x (shl64 1 (pos mod 64))) Hb)
    as (ws & Hws & Hb'); [lia|by apply is_u64_lor, shl64_u64|].
  exists ws. rewrite Hx. mstep. rewrite Hws. mstep. split; [done|].
  eapply holds_ext; [by eapply holds_set_words|].
  intros p Hp'. simpl in Hp'. pose proof (word_pos p (nw w)). cbn beta.
  destruct (Z.eqb_spec (p / 64) (pos / 64)) as [E|E].
  - rewrite Z.lor_spec, Hbits, single_bits, <-E, pos_split by lia. f_equal.
    pose proof (pos_split p). pose proof (pos_split pos). clearbody pos.
    repeat case_cmp; (congruence || lia || done).
  - destruct (Z.eqb_spec p pos) as [->|]; [done|]. by rewrite orb_false_r.
Qed.

Lemma clearRange_holds w f lo hi :
  holds w f → 0 ≤ lo → lo ≤ hi → hi < width w →
  ∃ ws, clearRange w lo hi = Ret (set_words w ws) ∧
    holds (set_words w ws) (λ pos, f pos && negb ((lo <=? pos) && (pos <=? hi))).
Proof.
  intros Hw Hlo Hle Hhi. pose proof Hw as [Hwf Hf]. pose proof (wf_width w Hwf).
  pose proof (holds_bits w f Hw) as Hb. unfold clearRange.
  rewrite !Z.quot_div_nonneg, !Z.rem_mod_nonneg by lia.
  assert (Rlo : 0 ≤ lo / 64 < nw w ∧ 0 ≤ lo mod 64 < 64) by (apply word_pos; lia).
  assert (Rhi : 0 ≤ hi / 64 < nw w ∧ 0 ≤ hi mod 64 < 64) by (apply word_pos; lia).
  pose proof (pos_split lo) as Slo. pose proof (pos_split hi) as Shi.
  destruct (Z.eqb_spec (lo / 64) (hi / 64)) as [E|E].
  - destruct (and_not_bits _ _ _ (lo / 64) (wordMask (lo mod 64) (hi mod 64)) Hb)
      as (ws & Hws & Hb1); [lia|].
    exists ws. rewrite Hws. mstep. split; [done|].
    eapply holds_ext; [by eapply holds_set_words|].
    intros p Hp. simpl in Hp. pose proof (word_pos p (nw w)) as Rp. pose proof (pos_split p) as Sp.
    cbn beta. rewrite wordMask_bits by lia. f_equal. f_equal.
    repeat case_cmp; simpl; lia || done.
  - assert (lo / 64 < hi / 64) by (apply Z.div_le_mono with (c := 64) in Hle; lia).
    destruct (and_not_bits _ _ _ (lo / 64) (shl64 all_ones (lo mod 64)) Hb)
      as (ws1 & H1 & Hb1); [lia|].
    destruct (clear_words_bits (nw w) (Z.to_nat (hi / 64 - (lo / 64 + 1))) (lo / 64 + 1) ws1 _ Hb1)
      as (ws2 & H2 & Hb2); [lia|lia|].
    destruct (and_not_bits _ _ _ (hi / 64) (wordMask 0 (hi mod 64)) Hb2)
      as (ws3 & H3 & Hb3); [lia|].
    exists ws3. rewrite H1. mstep. rewrite H2. mstep. rewrite H3. mstep. split; [done|].
    eapply holds_ext; [by eapply holds_set_words|].
    intros p Hp. simpl in Hp. pose proof (word_pos p (nw w)) as Rp. pose proof (pos_split p) as Sp.
    cbn beta. rewrite wordMask_bits, shl64_bits by lia. rewrite <-!andb_assoc. f_equal.
    destruct (Z.leb_spec (lo mod 64) (p mod 64)).
    + rewrite all_ones_bits by lia. repeat case_cmp; simpl; lia || done.
    + repeat case_cmp; simpl; lia || done.
Qed.

(** ** Ring arithmetic *)

(** Numbers less than [wd] apart have distinct ring positions. *)
Lemma ring_inj wd p q : 0 < wd → - wd < p - q < wd → p mod wd = q mod wd → p = q.
Proof.
  intros Hwd Hpq Heq.
  pose proof (Z.div_mod p wd). pose proof (Z.div_mod q wd).
  assert (p / wd = q / wd) by nia. nia.
Qed.

(** The ring positions from [l + 1] forward to [n] are those of the numbers in
    [(l, n]], among the [wd] numbers ending at [n]. *)
Lemma ring_span wd l n p :
  0 < wd → l < n → n - l < wd → n - wd < p ≤ n →
  (if (l + 1) mod wd <=? n mod wd
   then ((l + 1) mod wd <=? p mod wd) && (p mod wd <=? n mod wd)
   else ((l + 1) mod wd <=? p mod wd) || (p mod wd <=? n mod wd)) = (l <? p).
Proof.
  intros Hwd Hln Hspan Hp.
  pose proof (Z.div_mod (l + 1) wd). pose proof (Z.div_mod n wd). pose proof (Z.div_mod p wd).
  pose proof (Z.mod_pos_bound (l + 1) wd). pose proof (Z.mod_pos_bound n wd).
  pose proof (Z.mod_pos_bound p wd).
  set (a := (l + 1) / wd) in *. set (b := n / wd) in *. set (c := p / wd) in *.
  set (s := (l + 1) mod wd) in *. set (e := n mod wd) in *. set (r := p mod wd) in *.
  clearbody a b c s e r.
  assert (b = a ∨ b = a + 1) as Hb by nia.
  assert (c = b ∨ c = b - 1) as Hc by nia.
  destruct Hb as [-> | ->], Hc as [-> | ->]; repeat case_cmp; simpl; (done || nia).
Qed.

(** ** Advancing *)

Lemma clear_span w f l n :
  holds w f → 0 ≤ l → l < n → n - l < width w →
  ∃ ws, (if (l + 1) mod width w <=? n mod width w
         then clearRange w ((l + 1) mod width w) (n mod width w)
         else w' ← clearRange w ((l + 1) mod width w) (width w - 1);
              clearRange w' 0 (n mod width w)) = Ret (set_words w ws) ∧
    ∃ g, holds (set_words w ws) g ∧
      ∀ p, n - width w < p ≤ n → g (p mod width w) = f (p mod width w) && negb (l <? p).
Proof.
  intros Hw Hl Hln Hspan. pose proof (proj1 Hw) as Hwf.
  pose proof (ring_pos w (l + 1) Hwf) as Rs. pose proof (ring_pos w n Hwf) as Re.
  assert (Hspan' : ∀ p, n - width w < p ≤ n → _)
    by (intros p; apply (ring_span (width w) l n p); lia).
  destruct (Z.leb_spec ((l + 1) mod width w) (n mod width w)) as [Hse|Hse].
  - destruct (clearRange_holds w f _ _ Hw (proj1 Rs) Hse (proj2 Re)) as (ws & Hws & Hh).
    exists ws. split; [done|]. eexists. split; [done|].
    intros p Hp. cbn beta. by rewrite Hspan'.
  - destruct (clearRange_holds w f ((l + 1) mod width w) (width w - 1) Hw)
      as (ws1 & H1 & Hh1); [lia..|].
    destruct (clearRange_holds _ _ 0 (n mod width w) Hh1) as (ws2 & H2 & Hh2);
      [lia|lia|simpl; lia|].
    exists ws2. rewrite H1. mstep. rewrite H2. split; [done|].
    eexists. split; [done|]. intros p Hp. cbn beta. rewrite <-(Hspan' p Hp).
    pose proof (ring_pos w p Hwf). rewrite <-andb_assoc. f_equal.
    repeat case_cmp; simpl; lia || done.
Qed.

Lemma advance_holds w f n :
  holds w f → last w < n → is_u64 n →
  ∃ w', advance w n = Ret w' ∧ last w' = n ∧ width w' = width w ∧ nw w' = nw w ∧
    ∃ g, holds w' g ∧
      ∀ p, n - width w < p ≤ n →
        g (p mod width w) = if p <=? last w then f (p mod width w) else p =? n.
Proof.
  intros Hw Hlt Hn. pose proof (proj1 Hw) as Hwf. destruct (wf_pos w Hwf) as [Hp Hu].
  pose proof (wf_last w Hwf) as Hl. unfold is_u64 in Hl, Hn. unfold advance.
  rewrite Hu, (u64_small (n - last w)), (u64_small (last w + 1)) by (unfold is_u64; lia).
  rewrite !gmod_pos by lia. mstep.
  assert (Hclear : ∃ ws, (if n - last w >=? width w
      then Ret (set_words w (map (λ _, 0) (words w)))
      else if (last w + 1) mod width w <=? n mod width w
           then clearRange w ((last w + 1) mod width w) (n mod width w)
           else w' ← clearRange w ((last w + 1) mod width w) (width w - 1);
                clearRange w' 0 (n mod width w)) = Ret (set_words w ws) ∧
      ∃ g, holds (set_words w ws) g ∧
        ∀ p, n - width w < p ≤ n → g (p mod width w) = f (p mod width w) && negb (last w <? p)).
  { rewrite Z.geb_leb. destruct (Z.leb_spec (width w) (n - last w)).
    - eexists. split; [done|]. exists (λ _, false). split.
      + eapply holds_set_words; [done|]. destruct (wf_words w Hwf) as [HL HF]. split; [split|].
        * by rewrite length_map.
        * apply Forall_map, Forall_true. intros. unfold is_u64. lia.
        * intros pos Hpos. unfold bit. pose proof (word_pos pos (nw w) Hpos).
          rewrite (list_lookup_total_fmap (λ _, 0)) by lia. apply Z.testbit_0_l.
      + intros p Hpr. destruct (Z.ltb_spec (last w) p); [by rewrite andb_false_r|lia].
    - apply clear_span; [done|lia..]. }
  destruct Hclear as (ws & -> & g & Hg & Hgp). mstep.
  assert (Hg' : holds (set_last (set_words w ws) n) g) by (by apply holds_set_last).
  destruct (setBit_holds _ _ n Hg') as (ws2 & Hs & Hh); [lia|].
  eexists. split; [done|]. simpl. do 3 (split; [done|]).
  eexists. split; [done|]. intros p Hpr. cbn beta. simpl. rewrite Hgp by done.
  destruct (Z.leb_spec p (last w)), (Z.ltb_spec (last w) p); try lia; simpl.
  - rewrite andb_true_r. destruct (Z.eqb_spec (p mod width w) (n mod width w)) as [E|E];
      [|by rewrite orb_false_r].
    apply ring_inj in E; lia.
  - rewrite andb_false_r. simpl. destruct (Z.eqb_spec p n) as [->|]; [apply Z.eqb_refl|].
    apply Z.eqb_neq. intros E. apply ring_inj in E; lia.
Qed.

(** ** Simulation of the history specification *)

Record sim (w : ReplayWindow) (prior : list Z) : Prop := {
  sim_prior : Forall is_u64 prior;
  sim_last : last w = highest prior;
  sim_bits : ∃ f, holds w f ∧
    (last w = 0 → ∀ pos, 0 ≤ pos < width w → f pos = false) ∧
    ∀ p, 0 < p → last w - width w < p ≤ last w →
      f (p mod width w) = bool_decide (p ∈ prior)
}.

Lemma highest_nonneg prior : 0 ≤ highest prior.
Proof. induction prior; simpl; lia. Qed.

Lemma elem_le_highest prior p : p ∈ prior → p ≤ highest prior.
Proof. induction 1; simpl; lia. Qed.

Lemma highest_u64 prior : Forall is_u64 prior → is_u64 (highest prior).
Proof. induction 1; unfold is_u64 in *; simpl; lia. Qed.

(** Recording [n] in a window whose bits already describe [n :: prior]. *)
Lemma sim_intro w prior f :
  Forall is_u64 prior → last w = highest prior → holds w f → last w ≠ 0 →
  (∀ p, 0 < p → last w - width w < p ≤ last w → f (p mod width w) = bool_decide (p ∈ prior)) →
  sim w prior.
Proof. intros ??? Hne ?. split; [done..|]. exists f. split; [done|]. split; [intros; congruence|done]. Qed.

Lemma bool_decide_cons p n (prior : list Z) :
  bool_decide (p ∈ n :: prior) = (p =? n) || bool_decide (p ∈ prior).
Proof.
  rewrite (bool_decide_ext _ (p = n ∨ p ∈ prior)) by apply elem_of_cons.
  rewrite bool_decide_or. f_equal. destruct (Z.eqb_spec p n); by case_bool_decide.
Qed.

(** Marking [n] in a window whose bits describe [prior]. *)
Lemma setBit_sim w prior f n :
  Forall is_u64 prior → 0 < n → is_u64 n → last w = highest (n :: prior) → holds w f →
  last w - n < width w →
  (∀ p, 0 < p → last w - width w < p ≤ last w → f (p mod width w) = bool_decide (p ∈ prior)) →
  ∃ ws, setBit w n = Ret (set_words w ws) ∧ sim (set_words w ws) (n :: prior).
Proof.
  intros Hpr H0 Hn Hlast Hh Hd Hf. destruct (wf_pos w (proj1 Hh)) as [Hp _].
  assert (n ≤ last w) by (rewrite Hlast; simpl; lia).
  destruct (setBit_holds w f n Hh) as (ws & Hs & Hh'); [lia|].
  exists ws. split; [done|]. eapply sim_intro; [by constructor|done|done|simpl; lia|].
  simpl. intros p Hp0 Hpw. rewrite bool_decide_cons, Hf by lia. rewrite orb_comm. f_equal.
  destruct (Z.eqb_spec p n) as [->|]; [apply Z.eqb_refl|].
  apply Z.eqb_neq. intros E. apply ring_inj in E; lia.
Qed.

Lemma not_elem_above prior p : highest prior < p → bool_decide (p ∈ prior) = false.
Proof. intros H. apply bool_decide_eq_false. intros ?%elem_le_highest. lia. Qed.

Lemma advance_sim w prior n :
  sim w prior → is_u64 n → last w < n →
  ∃ w', advance w n = Ret w' ∧ sim w' (n :: prior) ∧ width w' = width w.
Proof.
  intros [Hpr Hlast (f & Hh & _ & Hf)] Hn Hlt.
  pose proof (highest_nonneg prior). destruct (wf_pos w (proj1 Hh)) as [Hp _].
  destruct (advance_holds w f n Hh Hlt Hn) as (w' & Ha & El & Ew & En & g & Hg & Hgp).
  exists w'. split; [done|]. split; [|done].
  eapply sim_intro; [by constructor|simpl; lia|done|lia|].
  rewrite El, Ew. intros p Hp0 Hpw. rewrite Hgp, bool_decide_cons by lia.
  destruct (Z.leb_spec p (last w)).
  - rewrite Hf by lia. by destruct (Z.eqb_spec p n); [lia|].
  - by rewrite not_elem_above, orb_false_r by lia.
Qed.

(** A packet that is not recorded leaves the history-relevant state alone. *)
Lemma sim_skip w prior n :
  sim w prior → is_u64 n → n ≤ last w →
  (n = 0 ∨ n ∈ prior ∨ width w ≤ last w - n) → sim w (n :: prior).
Proof.
  intros [Hpr Hlast (f & Hh & Hz & Hf)] Hn Hle Hcase.
  split; [by constructor|simpl; lia|]. exists f. split; [done|]. split; [done|].
  intros p Hp0 Hpw. rewrite Hf, bool_decide_cons by done.
  destruct (Z.eqb_spec p n) as [->|]; [|done]. simpl. apply bool_decide_eq_true.
  destruct Hcase as [->|[Hin|Hfar]]; [lia|done|lia].
Qed.

Lemma Observe_refines w prior n :
  sim w prior → is_u64 n →
  ∃ w', Observe w n = Ret (w', decide_spec (width w) prior n) ∧
    sim w' (n :: prior) ∧ width w' = width w.
Proof.
  intros Hsim Hn. pose proof Hsim as [Hpr Hlast (f & Hh & Hz & Hf)].
  pose proof (proj1 Hh) as Hwf. pose proof (highest_nonneg prior).
  destruct (wf_pos w Hwf) as [Hp Hu]. pose proof (wf_last w Hwf) as Hl.
  unfold Observe, decide_spec. rewrite <-Hlast, Hu.
  destruct (Z.eqb_spec n 0) as [->|Hn0].
  { exists w. split; [done|]. split; [|done]. apply sim_skip; [done..|lia|auto]. }
  unfold is_u64 in Hl. assert (0 < n) by (unfold is_u64 in Hn; lia).
  destruct (Z.eqb_spec (last w) 0) as [Hl0|Hl0].
  { destruct (setBit_sim (set_last w n) prior f n) as (ws & Hs & Hs'); [done..| | | | |].
    - simpl. lia.
    - by apply holds_set_last.
    - simpl. lia.
    - simpl. intros p Hp0 Hpw. rewrite Hz, not_elem_above by (lia || by apply ring_pos). done.
    - rewrite Hs. mstep. exists (set_words (set_last w n) ws). split; [|done].
      rewrite Z.geb_leb. destruct (Z.leb_spec (width w) (last w - n)); [lia|].
      rewrite decide_False; [done|]. intros ?%elem_le_highest. lia. }
  rewrite Z.gtb_ltb, !Z.geb_leb. destruct (Z.ltb_spec (last w) n) as [Hlt|Hge].
  { destruct (advance_sim w prior n Hsim Hn Hlt) as (w' & -> & Hs & Hw). mstep.
    exists w'. split; [|done]. destruct (Z.leb_spec (width w) (last w - n)); [lia|].
    rewrite decide_False; [done|]. intros ?%elem_le_highest. lia. }
  unfold is_u64 in Hn. rewrite (u64_small (last w - n)) by (unfold is_u64; lia).
  destruct (Z.leb_spec (width w) (last w - n)) as [Hst|Hin].
  { exists w. split; [done|]. split; [|done]. apply sim_skip; [done..|auto]. }
  rewrite (testBit_holds w f n), Hf by (done || lia). mstep.
  rewrite <-decide_bool_decide. case_decide.
  - exists w. split; [done|]. split; [|done]. apply sim_skip; [done..|auto].
  - destruct (setBit_sim w prior f n) as (ws & Hs & Hs'); [done|done|done|simpl; lia|done|lia|done|].
    rewrite Hs. mstep. by eexists.
Qed.

Lemma observe_all_refines w prior ns :
  sim w prior → Forall is_u64 ns →
  ∃ w', observe_all w ns = Ret (w', run_spec (width w) prior ns).
Proof.
  intros Hs Hns. revert w prior Hs.
  induction Hns as [|n ns Hn Hns IH]; intros w prior Hs; simpl; [by exists w|].
  destruct (Observe_refines w prior n Hs Hn) as (w1 & -> & Hs1 & Hw1). mstep.
  destruct (IH w1 (n :: prior) Hs1) as (w2 & ->). mstep.
  exists w2. by rewrite Hw1.
Qed.

(** ** Construction *)

Definition fresh_window (m : Z) : ReplayWindow :=
  mkReplayWindow 0 (replicate (Z.to_nat m) 0) (64 * m) m.

Lemma new_window_ok k :
  0 < k ≤ 2 ^ 63 - 64 → NewReplayWindow k = Ret (Ok (fresh_window ((k + 63) / 64))).
Proof.
  intros Hk. unfold NewReplayWindow, fresh_window, ok.
  destruct (Z.leb_spec k 0); [lia|].
  rewrite (i64_small (k + 63)) by (unfold is_i64; lia).
  rewrite Z.quot_div_nonneg by lia.
  assert (1 ≤ (k + 63) / 64 ∧ 64 * ((k + 63) / 64) ≤ 2 ^ 63 - 1)
    by (Z.to_euclidean_division_equations; lia).
  destruct (Z.ltb_spec ((k + 63) / 64) 0); [lia|].
  rewrite i64_small by (unfold is_i64; lia). do 3 f_equal. lia.
Qed.

Lemma new_window_overflow k :
  2 ^ 63 - 64 < k < 2 ^ 63 → NewReplayWindow k = Panic.
Proof.
  intros Hk. unfold NewReplayWindow. destruct (Z.leb_spec k 0); [lia|].
  assert (E : i64 (k + 63) = k + 63 - 2 ^ 64).
  { unfold i64. rewrite <-(Z_mod_plus_full _ (-1)), Z.mod_small; lia. }
  rewrite E. destruct (Z.ltb_spec (Z.quot (k + 63 - 2 ^ 64) 64) 0); [done|].
  Z.to_euclidean_division_equations. lia.
Qed.

Lemma new_window_inv k w :
  is_i64 k → NewReplayWindow k = Ret (Ok w) →
  0 < k ≤ 2 ^ 63 - 64 ∧ w = fresh_window ((k + 63) / 64).
Proof.
  unfold is_i64. intros Hk Hw.
  destruct (decide (0 < k ≤ 2 ^ 63 - 64)) as [Hr|Hr].
  - rewrite (new_window_ok k Hr) in Hw. by simplify_eq.
  - destruct (decide (2 ^ 63 - 64 < k)).
    + rewrite new_window_overflow in Hw by lia. done.
    + unfold NewReplayWindow in Hw. destruct (Z.leb_spec k 0); [done|lia].
Qed.

Lemma fresh_window_sim m : 0 < m → 64 * m < 2 ^ 63 → sim (fresh_window m) [].
Proof.
  intros Hm Hmax. split; [constructor|done|].
  exists (λ _, false). split; [split|split].
  - split; simpl; [done..|unfold is_u64; lia|]. split.
    + rewrite length_replicate. lia.
    + apply Forall_replicate. unfold is_u64. lia.
  - intros pos Hpos. unfold bit. simpl in *. pose proof (word_pos pos m Hpos).
    rewrite lookup_total_replicate_2 by lia. apply Z.testbit_0_l.
  - done.
  - simpl. lia.
Qed.

Lemma new_window_sim k w :
  is_i64 k → NewReplayWindow k = Ret (Ok w) → sim w [].
Proof.
  intros Hk Hw. apply new_window_inv in Hw as [Hr ->]; [|done].
  apply fresh_window_sim; Z.to_euclidean_division_equations; lia.
Qed.

Lemma new_window_width k w : is_i64 k → NewReplayWindow k = Ret (Ok w) → k ≤ width w.
Proof.
  intros Hk Hw. apply new_window_inv in Hw as [Hr ->]; [|done]. cbn [width fresh_window]. Z.to_euclidean_division_equations; lia.
Qed.

(** ** Consequences of the specification *)

Lemma run_spec_lookup wd prior ns i n :
  ns !! i = Some n →
  run_spec wd prior ns !! i = Some (decide_spec wd (reverse (take i ns) ++ prior) n).
Proof.
  revert prior i. induction ns as [|x ns IH]; intros prior [|i] H; simplify_eq/=; [done|].
  rewrite (IH _ _ H). do 2 f_equal. rewrite reverse_cons, <-app_assoc. done.
Qed.

Lemma decide_first wd prior n :
  decide_spec wd prior n = ReplayFirstCopy ↔ n ≠ 0 ∧ (n ∉ prior) ∧ (highest prior - n < wd).
Proof.
  unfold decide_spec. rewrite Z.geb_leb.
  destruct (Z.eqb_spec n 0), (Z.leb_spec wd (highest prior - n)); try case_decide;
    (split; [intros [=]|intros (? & ? & ?)]; try done; try lia).
Qed.

(** A number the window no longer takes for a first copy. *)
Definition spent (w : ReplayWindow) (n : Z) : Prop := ∀ w', Observe w n ≠ Ret (w', ReplayFirstCopy).

Lemma spent_decide w prior n :
  sim w prior → is_u64 n → spent w n ↔ decide_spec (width w) prior n ≠ ReplayFirstCopy.
Proof.
  intros Hs Hn. destruct (Observe_refines w prior n Hs Hn) as (w' & HO & _). unfold spent. rewrite HO.
  split; [intros H Hd; apply (H w'); by rewrite Hd|]. intros Hd w'' [= _ Hd']. done.
Qed.

Lemma spent_observed w w' prior m n :
  sim w prior → sim w' (m :: prior) → width w' = width w → is_u64 n →
  n = m ∨ spent w n → spent w' n.
Proof.
  intros Hs Hs' Hw Hn. rewrite !spent_decide by done. rewrite Hw, !decide_first.
  intros [->|Hsp] (H0 & Hin & Hd); [set_solver|]. apply Hsp. split_and!; [done|set_solver|].
  unfold highest in *. cbn [foldr] in Hd. lia.
Qed.

(** A new window takes every number for a first copy. *)
Lemma spent_new w n : sim w [] → is_u64 n → spent w n → n = 0.
Proof.
  intros Hs Hn. rewrite (spent_decide w [] n Hs Hn), decide_first. intros Hsp. destruct (decide (n = 0)); [done|].
  destruct (sim_bits _ _ Hs) as (f & [Hwf _] & _). pose proof (wf_pos _ Hwf).
  exfalso. apply Hsp. split_and!; [done|set_solver|]. unfold highest, is_u64 in *. cbn [foldr]. lia.
Qed.

(** What observing [m] makes unacceptable: [m] itself and what falls behind. *)
Lemma spent_by w w' prior m n :
  sim w prior → sim w' (m :: prior) → width w' = width w → is_u64 n → n ≠ 0 →
  spent w' n → spent w n ∨ n = m ∨ width w ≤ m - n.
Proof.
  intros Hs Hs' Hw Hn H0. rewrite !spent_decide by done. rewrite Hw, !decide_first. intros Hsp.
  destruct (decide (n = m)) as [|Hne]; [by right; left|]. destruct (Z.le_gt_cases (width w) (m - n)); [by right; right|].
  left. intros (_ & Hin & Hd). apply Hsp. split_and!; [done|set_solver|]. unfold highest in *. cbn [foldr]. lia.
Qed.

Lemma highest_perm l1 l2 : l1 ≡ₚ l2 → highest l1 = highest l2.
Proof. induction 1; simpl; lia. Qed.

(** ** Properties *)

(** C9: For every capacity the window accepts and every sequence of packet
    numbers, [Observe] returns (no index is out of range) and its verdicts are
    exactly those of the complete-history specification: the ring bitmap of
    [width] bits forgets nothing that matters. *)
Theorem observe_refines_history (k : Z) (w : ReplayWindow) (ns : list Z) :
  is_i64 k → NewReplayWindow k = Ret (Ok w) → Forall is_u64 ns →
  ∃ w', observe_all w ns = Ret (w', run_spec (Width w) [] ns).
Proof. intros Hk Hw Hns. apply observe_all_refines; [by eapply new_window_sim|done]. Qed.

Lemma observe_refines_history_witness :
  ∃ w w', NewReplayWindow 64 = Ret (Ok w) ∧
    observe_all w [5; 70; 6; 5; 6; 2 ^ 64 - 1; 70] = Ret (w', run_spec (Width w) [] [5; 70; 6; 5; 6; 2 ^ 64 - 1; 70]).
Proof.
  exists (fresh_window 1).
  destruct (observe_refines_history 64 (fresh_window 1) [5; 70; 6; 5; 6; 2 ^ 64 - 1; 70]) as [w' Hw'].
  - unfold is_i64. lia.
  - reflexivity.
  - repeat constructor; vm_compute; congruence.
  - exists w'. split; [reflexivity|exact Hw'].
Defined.

(** Exactly-once delivery.  In any sequence of observations, the earliest
    copy of a non-zero number that trails the highest number seen so far by
    less than the window width is a first copy, and every later copy of a
    number, however many numbers arrived in between, is not. *)
Theorem first_copy_exactly_once (k : Z) (w w' : ReplayWindow) (ns : list Z)
    (ds : list ReplayDecision) (pre post : list Z) (n : Z) :
  is_i64 k → NewReplayWindow k = Ret (Ok w) → Forall is_u64 ns →
  observe_all w ns = Ret (w', ds) → ns = pre ++ n :: post →
  (n ≠ 0 → n ∉ pre → highest pre - n < Width w → ds !! length pre = Some ReplayFirstCopy) ∧
  (n ∈ pre → ds !! length pre ≠ Some ReplayFirstCopy).
Proof.
  intros Hk Hw Hns Hds ->.
  destruct (observe_all_refines w [] _ (new_window_sim k w Hk Hw) Hns) as [w1 Hr].
  rewrite Hr in Hds. simplify_eq.
  rewrite (run_spec_lookup _ _ _ (length pre) n) by (apply list_lookup_middle; done).
  rewrite take_app_length, app_nil_r. split.
  - intros H0 Hpre Hd. f_equal. apply decide_first. rewrite elem_of_reverse.
    split; [done|]. split; [done|]. by rewrite (highest_perm _ pre) by apply reverse_Permutation.
  - intros Hin [=Hf]. apply decide_first in Hf as (_ & Hnin & _). by rewrite elem_of_reverse in Hnin.
Qed.

Lemma first_copy_exactly_once_witness :
  (9 ≠ 0 → 9 ∉ [70; 8] → highest [70; 8] - 9 < Width (fresh_window 1) →
   [ReplayFirstCopy; ReplayFirstCopy; ReplayFirstCopy; ReplayDuplicate] !! 2%nat = Some ReplayFirstCopy) ∧
  (9 ∈ [70; 8] → [ReplayFirstCopy; ReplayFirstCopy; ReplayFirstCopy; ReplayDuplicate] !! 2%nat ≠ Some ReplayFirstCopy).
Proof.
  refine (first_copy_exactly_once 40 (fresh_window 1) (mkReplayWindow 70 [832] 64 1)
            [70; 8; 9; 8] _ [70; 8] [8] 9 _ _ _ _ _).
  - unfold is_i64. lia.
  - reflexivity.
  - repeat constructor; vm_compute; congruence.
  - vm_compute. reflexivity.
  - reflexivity.
Defined.

(** [clearRange] clears exactly the closed range of ring positions it is
    given, across word boundaries, and no other bit of a well-formed window. *)
Theorem clearRange_exact (w : ReplayWindow) (lo hi : Z) :
  wf w → 0 ≤ lo ≤ hi → hi < Width w →
  ∃ w', clearRange w lo hi = Ret w' ∧ wf w' ∧ last w' = last w ∧
    ∀ pos, 0 ≤ pos < Width w →
      bit (words w') pos = bit (words w) pos && negb ((lo <=? pos) && (pos <=? hi)).
Proof.
  intros Hw Hlo Hhi.
  destruct (clearRange_holds w (bit (words w)) lo hi) as (ws & Hc & Hwf & Hb);
    [done|lia|lia|done|].
  exists (set_words w ws). split; [done|]. split; [done|]. split; [done|]. exact Hb.
Qed.

Definition full_window : ReplayWindow := mkReplayWindow 9 [all_ones; all_ones; all_ones] 192 3.

Lemma clearRange_exact_witness :
  wf full_window ∧
  ∃ w', clearRange full_window 60 130 = Ret w' ∧ wf w' ∧ last w' = last full_window ∧
    ∀ pos, 0 ≤ pos < Width full_window →
      bit (words w') pos = bit (words full_window) pos && negb ((60 <=? pos) && (pos <=? 130)).
Proof.
  assert (H : wf full_window).
  { split; [simpl; lia|reflexivity|simpl; lia|unfold is_u64; simpl; lia|].
    split; [reflexivity|]. repeat constructor; vm_compute; congruence. }
  split; [exact H|]. apply (clearRange_exact full_window 60 130 H); unfold Width; simpl; lia.
Defined.

(** [NewReplayWindow] on every [int]: a non-positive width is refused,
    a representable one gives a window at least as wide as asked and less than
    one word wider, and a width within 63 of the largest [int] overflows the
    rounding and panics in [make]. *)
Theorem NewReplayWindow_cases (k : Z) :
  is_i64 k →
  (k ≤ 0 → NewReplayWindow k = Ret (Err ErrInvalidCapacity)) ∧
  (0 < k ≤ 2 ^ 63 - 64 → ∃ w, NewReplayWindow k = Ret (Ok w) ∧ wf w ∧ last w = 0 ∧
     k ≤ Width w < k + 64 ∧ Width w mod 64 = 0) ∧
  (2 ^ 63 - 64 < k → NewReplayWindow k = Panic).
Proof.
  unfold is_i64. intros Hk. split; [|split].
  - intros H. unfold NewReplayWindow. by destruct (Z.leb_spec k 0); [|lia].
  - intros H. exists (fresh_window ((k + 63) / 64)). split; [by apply new_window_ok|].
    destruct (fresh_window_sim ((k + 63) / 64)) as [_ _ (f & [Hwf _] & _)];
      [Z.to_euclidean_division_equations; lia..|].
    split; [done|]. split; [done|]. unfold Width, fresh_window. simpl.
    split; Z.to_euclidean_division_equations; lia.
  - intros H. apply new_window_overflow. lia.
Qed.

Lemma NewReplayWindow_cases_witness :
  (8192 ≤ 0 → NewReplayWindow 8192 = Ret (Err ErrInvalidCapacity)) ∧
  (0 < 8192 ≤ 2 ^ 63 - 64 → ∃ w, NewReplayWindow 8192 = Ret (Ok w) ∧ wf w ∧ last w = 0 ∧
     8192 ≤ Width w < 8192 + 64 ∧ Width w mod 64 = 0) ∧
  (2 ^ 63 - 64 < 8192 → NewReplayWindow 8192 = Panic).
Proof. apply (NewReplayWindow_cases 8192). unfold is_i64. lia. Defined.

End Replay.
