(* ===== verification/DedupWindow.v ===== *)
(** * internal/dedup/window.go: the FIFO duplicate-suppression window

    [Window] keeps a hash map of packet identities and a ring buffer giving the
    eviction order.  The specification [Fifo] is a plain queue with the same
    map; [observe_refines] relates the ring buffer to the queue. *)

From S2P Require Import Prelude GoText Protocol.
Import Protocol.

Module Dedup.

(** ** Data *)

Definition PathID := string.
Definition PathID_Valid (p : PathID) : bool := negb (String.eqb p "").

Inductive Decision := DecisionInvalid | DecisionFirstCopy | DecisionDuplicate.
#[global] Instance Decision_eq_dec : EqDecision Decision.
Proof. solve_decision. Defined.

Definition Decision_String (d : Decision) : string :=
  match d with
  | DecisionFirstCopy => "first-copy"
  | DecisionDuplicate => "duplicate"
  | DecisionInvalid => "invalid"
  end.

Record Result := mkResult {
  decision : Decision; res_id : PacketID; path : PathID; first_path : PathID; copy_count : Z }.

Record entry := mkEntry { firstPath : PathID; copyCount : Z (* int *) }.

Record Window := mkWindow {
  capacity : Z;
  seen : gmap PacketID entry;
  ring : list PacketID;
  head : Z;
  count : Z }.

Inductive error := ErrInvalidCapacity.

Definition zeroPacketID : PacketID := mkPacketID zeroSession 0.

(** ** Operations *)

Definition NewWindow (cap : Z) : result error Window :=
  if cap <=? 0 then Err ErrInvalidCapacity
  else Ok (mkWindow cap ∅ (replicate (Z.to_nat cap) zeroPacketID) 0 0).

Definition evictIfFull (w : Window) : go Window :=
  if count w <? capacity w then Ret w else
  oldest ← index (ring w) (head w);
  head' ← gmod (i64 (head w + 1)) (capacity w);
  Ret (mkWindow (capacity w) (delete oldest (seen w)) (ring w) head' (i64 (count w - 1))).

Definition pushID (w : Window) (id : PacketID) : go Window :=
  tail ← gmod (i64 (head w + count w)) (capacity w);
  ring' ← update (ring w) tail id;
  Ret (mkWindow (capacity w) (seen w) ring' (head w) (i64 (count w + 1))).

Definition invalid_result (id : PacketID) (p : PathID) : Result :=
  mkResult DecisionInvalid id p "" 0.

(** [window == nil] is [None]. *)
Definition Observe (ow : option Window) (id : PacketID) (p : PathID)
  : go (option Window * Result) :=
  match ow with
  | None => Ret (None, invalid_result id p)
  | Some w =>
      if negb (Valid id) || negb (PathID_Valid p) then Ret (Some w, invalid_result id p) else
      match seen w !! id with
      | Some existing =>
          let existing := mkEntry (firstPath existing) (i64 (copyCount existing + 1)) in
          let w' := mkWindow (capacity w) (<[id := existing]> (seen w)) (ring w) (head w) (count w) in
          Ret (Some w', mkResult DecisionDuplicate id p (firstPath existing) (copyCount existing))
      | None =>
          w1 ← evictIfFull w;
          let w2 := mkWindow (capacity w1) (<[id := mkEntry p 1]> (seen w1)) (ring w1) (head w1) (count w1) in
          w3 ← pushID w2 id;
          Ret (Some w3, mkResult DecisionFirstCopy id p p 1)
      end
  end.

Definition Len (ow : option Window) : Z :=
  match ow with None => 0 | Some w => Z.of_nat (size (seen w)) end.

Definition Capacity (ow : option Window) : Z :=
  match ow with None => 0 | Some w => capacity w end.

Fixpoint observe_all (ow : option Window) (xs : list (PacketID * PathID))
  : go (option Window * list Result) :=
  match xs with
  | [] => Ret (ow, [])
  | (id, p) :: xs' =>
      '(ow1, r) ← Observe ow id p;
      '(ow2, rs) ← observe_all ow1 xs';
      Ret (ow2, r :: rs)
  end.

(** ** Specification: a bounded first-in first-out queue *)

Record Fifo := mkFifo { queue : list PacketID; info : gmap PacketID entry }.

Definition fifo_room (cap : nat) (s : Fifo) : Fifo :=
  match queue s with
  | oldest :: rest => if decide (length (queue s) = cap) then mkFifo rest (delete oldest (info s)) else s
  | [] => s
  end.

Definition fifo_observe (cap : nat) (s : Fifo) (id : PacketID) (p : PathID) : Fifo * Result :=
  if negb (Valid id) || negb (PathID_Valid p) then (s, invalid_result id p) else
  match info s !! id with
  | Some e =>
      let e' := mkEntry (firstPath e) (i64 (copyCount e + 1)) in
      (mkFifo (queue s) (<[id := e']> (info s)),
       mkResult DecisionDuplicate id p (firstPath e) (i64 (copyCount e + 1)))
  | None =>
      let s' := fifo_room cap s in
      (mkFifo (queue s' ++ [id]) (<[id := mkEntry p 1]> (info s')),
       mkResult DecisionFirstCopy id p p 1)
  end.

Fixpoint fifo_all (cap : nat) (s : Fifo) (xs : list (PacketID * PathID)) : Fifo * list Result :=
  match xs with
  | [] => (s, [])
  | (id, p) :: xs' =>
      let '(s1, r) := fifo_observe cap s id p in
      let '(s2, rs) := fifo_all cap s1 xs' in (s2, r :: rs)
  end.

Record fifo_ok (cap : nat) (s : Fifo) : Prop := {
  ok_nodup : NoDup (queue s);
  ok_dom : dom (info s) = list_to_set (queue s);
  ok_len : (length (queue s) ≤ cap)%nat }.

Lemma fifo_room_ok cap s :
  (0 < cap)%nat → fifo_ok cap s → fifo_ok cap (fifo_room cap s) ∧ (length (queue (fifo_room cap s)) < cap)%nat.
Proof.
  intros Hc [Hnd Hdom Hlen]. unfold fifo_room. destruct s as [[|o q] m]; simpl in *; [done|].
  case_decide; [|split; [done|simpl; lia]].
  apply NoDup_cons in Hnd as [Ho Hnd]. split; [split; simpl|simpl; lia].
  - done.
  - rewrite dom_delete_L, Hdom. set_solver.
  - lia.
Qed.

Lemma fifo_observe_ok cap s id p :
  (0 < cap)%nat → fifo_ok cap s → fifo_ok cap (fifo_observe cap s id p).1.
Proof.
  intros Hc Hs. unfold fifo_observe. destruct (_ || _); [done|].
  destruct (info s !! id) as [e|] eqn:E.
  - destruct Hs as [Hnd Hdom Hlen]. split; simpl; [done| |done].
    rewrite dom_insert_L. apply elem_of_dom_2 in E. set_solver.
  - destruct (fifo_room_ok cap s Hc Hs) as [[Hnd Hdom Hlen] Hlt].
    assert (id ∉ queue (fifo_room cap s)).
    { intros Hin. assert (id ∈ dom (info (fifo_room cap s))) as Hd by (rewrite Hdom; set_solver).
      assert (id ∈ dom (info s)).
      { unfold fifo_room in Hd. destruct s as [[|o q] m]; simpl in *; [done|].
        case_decide; [|done]. simpl in Hd. rewrite dom_delete_L in Hd. set_solver. }
      apply not_elem_of_dom in E. done. }
    split; cbn [fst queue info].
    + apply NoDup_app. split; [done|]. split; [|apply NoDup_singleton]. set_solver.
    + rewrite dom_insert_L, Hdom, list_to_set_app_L. set_solver.
    + rewrite length_app. simpl. lia.
Qed.

(** ** The ring buffer as a queue *)

(** The [c] entries of the ring [r] from position [h] on are the queue [q]. *)
Record ring_holds (cap : Z) (r : list PacketID) (h c : Z) (q : list PacketID) : Prop := {
  rh_cap : 0 < cap ≤ 2 ^ 62;
  rh_len : Z.of_nat (length r) = cap;
  rh_head : 0 ≤ h < cap;
  rh_count : c = Z.of_nat (length q);
  rh_le : c ≤ cap;
  rh_read : ∀ (i : nat) x, q !! i = Some x → r !! Z.to_nat ((h + Z.of_nat i) mod cap) = Some x }.

Lemma ring_mod_inj cap a i j :
  0 < cap → 0 ≤ i < cap → 0 ≤ j < cap → (a + i) mod cap = (a + j) mod cap → i = j.
Proof.
  intros Hc Hi Hj E. pose proof (Z.div_mod (a + i) cap). pose proof (Z.div_mod (a + j) cap).
  assert ((a + i) / cap = (a + j) / cap) by nia. nia.
Qed.

Lemma ring_push cap r h c q id :
  ring_holds cap r h c q → c < cap →
  ring_holds cap (<[Z.to_nat ((h + c) mod cap) := id]> r) h (c + 1) (q ++ [id]).
Proof.
  intros [Hcap Hlen Hh Hc Hle Hread] Hlt.
  pose proof (Z.mod_pos_bound (h + c) cap ltac:(lia)) as Hm.
  split; [done|by rewrite length_insert|done|rewrite length_app; simpl; lia|lia|].
  intros i x Hx. destruct (decide (i < length q)%nat) as [Hi|Hi].
  - rewrite lookup_app_l in Hx by done. rewrite list_lookup_insert_ne; [by apply Hread|].
    pose proof (Z.mod_pos_bound (h + Z.of_nat i) cap ltac:(lia)).
    intros E. apply Z2Nat.inj in E; [|lia..]. apply ring_mod_inj in E; lia.
  - rewrite lookup_app_r in Hx by lia. destruct (i - length q)%nat as [|k] eqn:Ek; [|done].
    simplify_eq/=. replace (Z.of_nat i) with (Z.of_nat (length q)) by lia.
    apply list_lookup_insert_eq. lia.
Qed.

Lemma ring_pop cap r h c o q :
  ring_holds cap r h c (o :: q) →
  r !! Z.to_nat h = Some o ∧ ring_holds cap r ((h + 1) mod cap) (c - 1) q.
Proof.
  intros [Hcap Hlen Hh Hc Hle Hread]. split.
  - specialize (Hread 0%nat o eq_refl). rewrite Z.add_0_r, Z.mod_small in Hread by lia. done.
  - split; [done|done|apply Z.mod_pos_bound; lia|simpl in Hc; lia|lia|].
    intros i x Hx. specialize (Hread (S i) x Hx). rewrite <-Hread. do 2 f_equal.
    rewrite Zplus_mod_idemp_l. f_equal. lia.
Qed.

(** ** Simulation *)

Record sim (cap : nat) (w : Window) (s : Fifo) : Prop := {
  sim_cap : capacity w = Z.of_nat cap;
  sim_seen : seen w = info s;
  sim_ring : ring_holds (capacity w) (ring w) (head w) (count w) (queue s);
  sim_ok : fifo_ok cap s }.

Lemma sim_pos cap w s : sim cap w s → (0 < cap)%nat.
Proof. intros [Hc _ [Hr _ _ _ _ _] _]. lia. Qed.

Lemma evict_sim cap w s :
  sim cap w s → ∃ w', evictIfFull w = Ret w' ∧ sim cap w' (fifo_room cap s) ∧ count w' < capacity w'.
Proof.
  intros Hs. pose proof (sim_pos _ _ _ Hs) as Hpos. destruct Hs as [Hcap Hseen Hring Hok].
  destruct (fifo_room_ok cap s Hpos Hok) as [Hok' Hlt].
  unfold evictIfFull. pose proof Hring as [Hc Hl Hh Hcnt Hle Hrd].
  destruct (Z.ltb_spec (count w) (capacity w)).
  { exists w. split; [done|]. split; [|done].
    assert (fifo_room cap s = s) as ->; [|done].
    assert (length (queue s) ≠ cap) by lia.
    unfold fifo_room. destruct (queue s) eqn:E; [done|]. by rewrite decide_False. }
  assert (Hlen : length (queue s) = cap) by lia.
  destruct (queue s) as [|o q] eqn:Eq; [simpl in Hlen; lia|].
  destruct (ring_pop _ _ _ _ _ _ Hring) as [Ho Hpop].
  rewrite (index_ret (ring w) (head w) o) by (lia || done). mstep.
  rewrite (i64_small (head w + 1)) by (unfold is_i64; lia).
  rewrite (i64_small (count w - 1)) by (unfold is_i64; lia).
  rewrite gmod_pos by lia. mstep.
  eexists. split; [done|]. split; [|simpl; lia].
  unfold fifo_room. rewrite Eq, decide_True by done. rewrite Hseen.
  split; [done|done|exact Hpop|]. unfold fifo_room in Hok'. by rewrite Eq, decide_True in Hok' by done.
Qed.

Lemma push_sim w q id :
  ring_holds (capacity w) (ring w) (head w) (count w) q → count w < capacity w →
  ∃ w', pushID w id = Ret w' ∧ seen w' = seen w ∧ capacity w' = capacity w ∧
    ring_holds (capacity w') (ring w') (head w') (count w') (q ++ [id]).
Proof.
  intros Hr Hlt. pose proof (ring_push _ _ _ _ _ id Hr Hlt) as Hp.
  destruct Hr as [Hc Hl Hh Hcnt Hle Hrd]. unfold pushID.
  pose proof (Z.mod_pos_bound (head w + count w) (capacity w) ltac:(lia)).
  rewrite !i64_small by (unfold is_i64; lia). rewrite gmod_pos by lia. mstep.
  rewrite update_ret by lia. mstep. eexists. split; [done|]. done.
Qed.

Lemma observe_sim cap w s id p :
  sim cap w s →
  ∃ w', Observe (Some w) id p = Ret (Some w', (fifo_observe cap s id p).2) ∧
    sim cap w' (fifo_observe cap s id p).1.
Proof.
  intros Hs. pose proof (sim_pos _ _ _ Hs) as Hpos.
  pose proof (fifo_observe_ok cap s id p Hpos (sim_ok _ _ _ Hs)) as Hok.
  unfold Observe, fifo_observe in *. rewrite (sim_seen _ _ _ Hs).
  destruct (negb (Valid id) || negb (PathID_Valid p)); [by exists w|].
  destruct (info s !! id) as [e|] eqn:E.
  - eexists. split; [done|]. destruct Hs as [Hcap Hseen Hring _]. split; [done| |done|done].
    cbn [fst snd seen info]. done.
  - destruct (evict_sim cap w s Hs) as (w1 & -> & Hs1 & Hlt). mstep.
    destruct Hs1 as [Hcap1 Hseen1 Hring1 _].
    destruct (push_sim (mkWindow (capacity w1) (<[id := mkEntry p 1]> (seen w1)) (ring w1) (head w1) (count w1))
      (queue (fifo_room cap s)) id Hring1 Hlt) as (w3 & -> & Hseen3 & Hcap3 & Hring3).
    mstep. exists w3. split; [done|]. split; [|by rewrite Hseen3, <-Hseen1|done|done].
    rewrite Hcap3. done.
Qed.

Lemma observe_all_sim cap w s xs :
  sim cap w s →
  ∃ w', observe_all (Some w) xs = Ret (Some w', (fifo_all cap s xs).2) ∧
    sim cap w' (fifo_all cap s xs).1.
Proof.
  revert w s. induction xs as [|[id p] xs IH]; intros w s Hs; cbn [observe_all fifo_all]; [by exists w|].
  destruct (observe_sim cap w s id p Hs) as (w1 & -> & Hs1). mstep.
  destruct (fifo_observe cap s id p) as [s1 r]. simpl in *.
  destruct (IH w1 s1 Hs1) as (w2 & -> & Hs2). mstep.
  destruct (fifo_all cap s1 xs) as [s2 rs]. simpl in *. by exists w2.
Qed.

Lemma new_sim cap w :
  0 < cap ≤ 2 ^ 62 → NewWindow cap = Ok w → sim (Z.to_nat cap) w (mkFifo [] ∅).
Proof.
  intros Hc. unfold NewWindow. destruct (Z.leb_spec cap 0); [lia|]. intros [= <-].
  split; simpl; [lia|done| |].
  - split; [done|rewrite length_replicate; lia|lia|done|lia|]. intros i x Hx. done.
  - split; simpl; [apply NoDup_nil; done|set_solver|lia].
Qed.

(** ** How long an identity is remembered *)

Definition is_first (r : Result) : bool := bool_decide (decision r = DecisionFirstCopy).
Definition firsts (rs : list Result) : nat := length (List.filter is_first rs).
Definition is_copy (id : PacketID) (x : PacketID * PathID) : bool :=
  bool_decide (x.1 = id) && PathID_Valid x.2.
Definition copies (id : PacketID) (xs : list (PacketID * PathID)) : nat :=
  length (List.filter (is_copy id) xs).

Lemma fifo_all_app cap s xs ys :
  fifo_all cap s (xs ++ ys) =
    ((fifo_all cap (fifo_all cap s xs).1 ys).1,
     (fifo_all cap s xs).2 ++ (fifo_all cap (fifo_all cap s xs).1 ys).2).
Proof.
  revert s. induction xs as [|[id p] xs IH]; intros s; cbn [fifo_all app]; [by destruct (fifo_all _ _ _)|].
  destruct (fifo_observe cap s id p) as [s1 r]. rewrite IH.
  by destruct (fifo_all cap s1 xs).
Qed.

Lemma length_fifo_all cap s xs : length (fifo_all cap s xs).2 = length xs.
Proof.
  revert s. induction xs as [|[id p] xs IH]; intros s; cbn [fifo_all]; [done|].
  destruct (fifo_observe cap s id p) as [s1 r]. specialize (IH s1).
  destruct (fifo_all cap s1 xs). simpl in *. by rewrite IH.
Qed.

Lemma fifo_all_ok cap s xs : (0 < cap)%nat → fifo_ok cap s → fifo_ok cap (fifo_all cap s xs).1.
Proof.
  intros Hc. revert s. induction xs as [|[id p] xs IH]; intros s Hs; cbn [fifo_all]; [done|].
  pose proof (fifo_observe_ok cap s id p Hc Hs) as Ho.
  destruct (fifo_observe cap s id p) as [s1 r]. specialize (IH s1 Ho).
  by destruct (fifo_all cap s1 xs).
Qed.

(** [held s id e k]: [id] is queued with record [e] and [k] younger identities. *)
Definition held (s : Fifo) (id : PacketID) (e : entry) (k : nat) : Prop :=
  info s !! id = Some e ∧ ∃ pre post, queue s = pre ++ id :: post ∧ length post = k.

Lemma held_eq s id e e' k k' : held s id e k → e = e' → k = k' → held s id e' k'.
Proof. by intros ? <- <-. Qed.

Lemma held_step cap s id e k id' p' :
  fifo_ok cap s → Valid id = true → held s id e k →
  (k + (if is_first (fifo_observe cap s id' p').2 then 1 else 0) < cap)%nat →
  held (fifo_observe cap s id' p').1 id
    (if is_copy id (id', p') then mkEntry (firstPath e) (i64 (copyCount e + 1)) else e)
    (k + (if is_first (fifo_observe cap s id' p').2 then 1 else 0)).
Proof.
  intros Hok Hid [Hi (pre & post & Hq & Hk)]. unfold fifo_observe, is_copy. cbn [fst snd].
  destruct (Valid id') eqn:Hv, (PathID_Valid p') eqn:Hp; simpl.
  2-4: intros _; rewrite ?andb_false_r, ?Nat.add_0_r;
       (destruct (bool_decide_reflect (id' = id)) as [->|]; [congruence|]) || idtac;
       (split; [done|eauto]).
  destruct (info s !! id') as [e'|] eqn:E; simpl.
  - intros _. rewrite Nat.add_0_r, andb_true_r. split; [simpl|simpl; eauto].
    case_bool_decide as Heq.
    + subst. rewrite lookup_insert_eq. by simplify_eq.
    + by rewrite lookup_insert_ne.
  - intros Hlt. rewrite andb_true_r. assert (id' ≠ id) by congruence.
    rewrite bool_decide_false by done. split; simpl.
    + rewrite lookup_insert_ne by done. unfold fifo_room. rewrite Hq.
      destruct pre as [|o pre]; simpl; case_decide as Hc; simpl; try done.
      * exfalso. subst k. lia.
      * rewrite lookup_delete_ne; [done|]. intros ->.
        destruct Hok as [Hnd _ _]. rewrite Hq in Hnd. apply NoDup_cons in Hnd as [Hn _].
        apply Hn. set_solver.
    + unfold fifo_room. rewrite Hq.
      destruct pre as [|o pre]; simpl; case_decide as Hc; simpl.
      * exfalso. subst k. lia.
      * exists [], (post ++ [id']). rewrite Hq, length_app. simpl. split; [done|lia].
      * exists pre, (post ++ [id']). rewrite <-app_assoc, length_app. simpl. split; [done|lia].
      * exists (o :: pre), (post ++ [id']). rewrite Hq, <-app_assoc, length_app. simpl. split; [done|lia].
Qed.

Lemma held_run cap s id e k xs :
  (0 < cap)%nat → fifo_ok cap s → Valid id = true → held s id e k →
  (k + firsts (fifo_all cap s xs).2 < cap)%nat →
  0 ≤ copyCount e → copyCount e + Z.of_nat (length xs) < 2 ^ 63 →
  held (fifo_all cap s xs).1 id
    (mkEntry (firstPath e) (copyCount e + Z.of_nat (copies id xs)))
    (k + firsts (fifo_all cap s xs).2).
Proof.
  intros Hc. revert s e k. induction xs as [|[id' p'] xs IH]; intros s e k Hok Hid Hh Hf H0 Hb.
  { cbn in *. rewrite Z.add_0_r, Nat.add_0_r. by destruct e. }
  pose proof (held_step cap s id e k id' p' Hok Hid Hh) as Hstep.
  pose proof (fifo_observe_ok cap s id' p' Hc Hok) as Hok1.
  cbn [fifo_all] in *. destruct (fifo_observe cap s id' p') as [s1 r]. cbn [fst snd] in *.
  specialize (IH s1 (if is_copy id (id', p') then mkEntry (firstPath e) (i64 (copyCount e + 1)) else e)
    (k + (if is_first r then 1 else 0))%nat Hok1 Hid).
  destruct (fifo_all cap s1 xs) as [s2 rs]. cbn [fst snd] in *.
  unfold firsts, copies in *. cbn [List.filter length] in *.
  rewrite Nat2Z.inj_succ in Hb.
  assert (Hf1 : (k + (if is_first r then 1 else 0) + length (List.filter is_first rs) < cap)%nat)
    by (destruct (is_first r); cbn [length] in *; lia).
  specialize (IH (Hstep ltac:(lia)) Hf1).
  destruct (is_copy id (id', p')), (is_first r); cbn [firstPath copyCount length] in *;
    rewrite ?i64_small in IH by (unfold is_i64; lia);
    specialize (IH ltac:(lia) ltac:(lia));
    (eapply held_eq; [exact IH|f_equal; lia|lia]).
Qed.

Lemma first_copy_held cap s id p :
  (0 < cap)%nat → fifo_ok cap s → decision (fifo_observe cap s id p).2 = DecisionFirstCopy →
  Valid id = true ∧ held (fifo_observe cap s id p).1 id (mkEntry p 1) 0.
Proof.
  intros Hc Hok. unfold fifo_observe.
  destruct (Valid id), (PathID_Valid p); simpl; try done.
  destruct (info s !! id); simpl; [done|]. intros _. split; [done|]. split; simpl.
  - apply lookup_insert_eq.
  - by exists (queue (fifo_room cap s)), [].
Qed.

Lemma held_duplicate cap s id e k q :
  Valid id = true → PathID_Valid q = true → held s id e k →
  (fifo_observe cap s id q).2 =
    mkResult DecisionDuplicate id q (firstPath e) (i64 (copyCount e + 1)).
Proof. intros Hid Hq [Hi _]. unfold fifo_observe. rewrite Hid, Hq. simpl. by rewrite Hi. Qed.

(** ** Properties *)

(** C13: For every sequence of observations the ring-buffer window returns (no
    index is out of range, whatever the wrap-around of [head]) and gives exactly
    the results of a bounded first-in first-out queue; its map then holds
    exactly the queued identities and never more than the capacity. *)
Theorem window_refines_fifo (cap : Z) (w : Window) (xs : list (PacketID * PathID)) :
  0 < cap ≤ 2 ^ 62 → NewWindow cap = Ok w →
  ∃ w' s, observe_all (Some w) xs = Ret (Some w', (fifo_all (Z.to_nat cap) (mkFifo [] ∅) xs).2) ∧
    fifo_all (Z.to_nat cap) (mkFifo [] ∅) xs = (s, (fifo_all (Z.to_nat cap) (mkFifo [] ∅) xs).2) ∧
    seen w' = info s ∧ dom (seen w') = list_to_set (queue s) ∧
    Len (Some w') = count w' ∧ count w' ≤ Capacity (Some w').
Proof.
  intros Hc Hw. destruct (observe_all_sim _ _ _ xs (new_sim cap w Hc Hw)) as (w' & Ho & Hs).
  exists w', (fifo_all (Z.to_nat cap) (mkFifo [] ∅) xs).1.
  destruct (fifo_all _ _ xs) as [s rs]. cbn [fst snd] in *.
  destruct Hs as [Hcap Hseen [Hc' Hl Hh Hcnt Hle Hrd] [Hnd Hdom Hlen]].
  split; [done|]. split; [done|]. split; [done|]. rewrite Hseen. split; [done|].
  split; [|done]. unfold Len. rewrite Hseen, <-size_dom, Hdom, size_list_to_set by done. lia.
Qed.

Definition pid (n : Z) : PacketID := mkPacketID (arr 16 (gs "session-id-00001")) n.

Lemma window_refines_fifo_witness :
  let xs := [(pid 1, "wi-fi"); (pid 2, "wi-fi"); (pid 1, "usb"); (pid 3, "usb"); (pid 1, "usb")]%string in
  let w := mkWindow 2 ∅ (replicate 2 zeroPacketID) 0 0 in
  ∃ w' s, observe_all (Some w) xs = Ret (Some w', (fifo_all (Z.to_nat 2) (mkFifo [] ∅) xs).2) ∧
    fifo_all (Z.to_nat 2) (mkFifo [] ∅) xs = (s, (fifo_all (Z.to_nat 2) (mkFifo [] ∅) xs).2) ∧
    seen w' = info s ∧ dom (seen w') = list_to_set (queue s) ∧
    Len (Some w') = count w' ∧ count w' ≤ Capacity (Some w').
Proof. intros xs w. apply (window_refines_fifo 2 w xs); [lia|reflexivity]. Defined.

(** The suppression horizon.  Once a packet identity was accepted as a
    first copy on path [p], and as long as fewer than [capacity] further first
    copies were accepted, another copy is a duplicate: it reports [p] as the
    first path and counts every valid copy seen, whatever else arrived. *)
Theorem duplicate_within_horizon (cap : Z) (w : Window) (before mid : list (PacketID * PathID))
    (id : PacketID) (p q : PathID) (ow : option Window) (rs : list Result) (r : Result) :
  0 < cap ≤ 2 ^ 62 → NewWindow cap = Ok w → Z.of_nat (length mid) < 2 ^ 62 →
  PathID_Valid q = true →
  observe_all (Some w) (before ++ (id, p) :: mid ++ [(id, q)]) = Ret (ow, rs) →
  rs !! length before = Some r → decision r = DecisionFirstCopy →
  Z.of_nat (firsts (take (length mid) (drop (S (length before)) rs))) < cap →
  rs !! (S (length before) + length mid)%nat =
    Some (mkResult DecisionDuplicate id q p (2 + Z.of_nat (copies id mid))).
Proof.
  intros Hc Hw Hmid Hq Hall Hr Hfirst Hfs.
  destruct (observe_all_sim _ _ _ (before ++ (id, p) :: mid ++ [(id, q)]) (new_sim cap w Hc Hw))
    as (w' & Ho & Hsim). rewrite Ho in Hall. injection Hall as _ <-. clear Ho Hsim w'.
  set (n := Z.to_nat cap) in *. assert (Hn : (0 < n)%nat) by lia.
  assert (Hok0 : fifo_ok n (mkFifo [] ∅)) by (split; simpl; [apply NoDup_nil_2|set_solver|lia]).
  rewrite fifo_all_app in Hr, Hfs |- *. cbn [fst snd] in *.
  pose proof (fifo_all_ok n _ before Hn Hok0) as Hok1.
  pose proof (length_fifo_all n (mkFifo [] ∅) before) as Hlb.
  destruct (fifo_all n (mkFifo [] ∅) before) as [s1 rb]. cbn [fst snd] in *.
  cbn [fifo_all] in *.
  pose proof (first_copy_held n s1 id p Hn Hok1) as Hheld.
  pose proof (fifo_observe_ok n s1 id p Hn Hok1) as Hok2.
  destruct (fifo_observe n s1 id p) as [s2 r2]. cbn [fst snd] in *.
  rewrite fifo_all_app in Hr, Hfs |- *. cbn [fst snd] in *.
  rewrite <-Hlb in *. rewrite list_lookup_middle in Hr by done. injection Hr as ->.
  destruct (Hheld Hfirst) as [Hid Hh].
  pose proof (length_fifo_all n s2 mid) as Hlm.
  pose proof (held_run n s2 id (mkEntry p 1) 0 mid Hn Hok2 Hid Hh) as Hrun.
  cbn [copyCount firstPath] in Hrun.
  destruct (fifo_all n s2 mid) as [s3 rm]. cbn [fst snd] in *.
  assert (Hfm : take (length mid) (drop (S (length rb)) (rb ++ r :: rm ++ (fifo_all n s3 [(id, q)]).2)) = rm).
  { change (rb ++ r :: rm ++ _) with (rb ++ [r] ++ rm ++ (fifo_all n s3 [(id, q)]).2).
    rewrite app_assoc, drop_app_length' by (rewrite length_app; simpl; lia).
    rewrite <-Hlm. apply take_app_length. }
  rewrite Hfm in Hfs.
  pose proof (held_duplicate n s3 id _ _ q Hid Hq (Hrun ltac:(lia) ltac:(lia) ltac:(lia))) as Hd.
  cbn [fifo_all firstPath copyCount] in *. destruct (fifo_observe n s3 id q) as [s4 r4]. cbn [fst snd] in *. subst r4.
  change (r :: rm ++ _) with ([r] ++ rm ++ [mkResult DecisionDuplicate id q p (i64 (1 + Z.of_nat (copies id mid) + 1))]).
  rewrite !app_assoc. rewrite list_lookup_middle.
  - assert (copies id mid ≤ length mid)%nat by apply List.filter_length_le.
    rewrite i64_small by (unfold is_i64; lia). do 2 f_equal. lia.
  - rewrite !length_app. simpl. lia.
Qed.

Lemma duplicate_within_horizon_witness :
  let before := [(pid 9, "wi-fi")]%string in
  let mid := [(pid 2, "wi-fi"); (pid 1, "usb")]%string in
  let xs := before ++ (pid 1, "wi-fi"%string) :: mid ++ [(pid 1, "usb"%string)] in
  (fifo_all 2 (mkFifo [] ∅) xs).2 !! (S (length before) + length mid)%nat =
    Some (mkResult DecisionDuplicate (pid 1) "usb" "wi-fi" (2 + Z.of_nat (copies (pid 1) mid))).
Proof.
  intros before mid xs.
  set (w := mkWindow 2 ∅ (replicate 2 zeroPacketID) 0 0).
  destruct (observe_all_sim 2 w _ xs (new_sim 2 w ltac:(lia) eq_refl)) as (w' & Ho & _).
  apply (duplicate_within_horizon 2 w before mid (pid 1) "wi-fi" "usb" (Some w') _
    (mkResult DecisionFirstCopy (pid 1) "wi-fi" "wi-fi" 1)).
  - lia.
  - reflexivity.
  - cbn [length mid]. lia.
  - reflexivity.
  - exact Ho.
  - vm_compute. reflexivity.
  - reflexivity.
  - vm_compute. reflexivity.
Defined.

End Dedup.
