(* ===== verification/Wire.v ===== *)
(** * pkg/clientcore: the wire formats

    data.go (the CVD1 header), ping.go (CVPP), handshake_message.go (the CVH1
    ClientHello and ServerHello), classify.go, and the AEAD nonce of crypto.go. *)

From S2P Require Import Prelude GoText Protocol.
Import Protocol.

Module Wire.

(** The errors of package clientcore; the last three stand for errors returned
    by the Go cryptographic and random-number libraries and by package dedup. *)
Inductive error :=
| errShortData | errBadMagic | errBadVersion | errBadIdentity | errBadDirection | errOversize
| errNotPing
| errShortHandshake | errHandshakeMagic | errHandshakeVer | errHandshakeType | errHandshakeField
| ErrStaleHandshake
| errBadIdentityKey | errBadSignature | errMalformedSigLen
| errBadPrivateKey | errBadPublicKey | errKeySize
| errCrypto | errRandom | errDedupCapacity.
#[global] Instance error_eq_dec : EqDecision error.
Proof. solve_decision. Defined.

(** ** data.go *)

Definition dataVersion : Z := 1.
Definition dataHeaderSize : nat := 6 + SessionIDSize + 8.
Definition flagDirection : Z := 1.
Definition maxPayload : nat := 1600.
Definition dataMagic : bytes := gs "CVD1".
Definition dirInitiator : byte := z2b 0.
Definition dirResponder : byte := z2b 1.

Definition frameHeader (id : PacketID) (dir : byte) : go bytes :=
  let out := zeros dataHeaderSize in
  out ← copy_at 0 4 dataMagic out;
  out ← put_byte 4 (z2b dataVersion) out;
  out ← (if decide (dir = dirResponder) then put_byte 5 (z2b flagDirection) out else Ret out);
  out ← copy_at 6 (6 + SessionIDSize) (Session id) out;
  put_be 8 (6 + SessionIDSize) (Number id) out.

Definition parseHeader (b : bytes) : go (result error (PacketID * byte * nat)) :=
  if decide (length b < dataHeaderSize)%nat then err errShortData else
  m ← slice b 0 4;
  if decide (m ≠ dataMagic) then err errBadMagic else
  v ← byte_at b 4;
  if negb (b2z v =? dataVersion) then err errBadVersion else
  f ← byte_at b 5;
  let dir := if negb (Z.land (b2z f) flagDirection =? 0) then dirResponder else dirInitiator in
  s ← slice b 6 (6 + SessionIDSize);
  number ← get_be 8 (6 + SessionIDSize) b;
  let id := mkPacketID (arr 16 s) number in
  if negb (Valid id) then err errBadIdentity else ok (id, dir, dataHeaderSize).

Definition SessionIDFromDatagram (b : bytes) : go (result error SessionID) :=
  '(id, _, _) ←? parseHeader b; ok (Session id).

(** ** crypto.go: the nonce *)

Definition nonceSize : nat := 12.
Definition nonce (dir : byte) (number : Z) : go bytes :=
  let n := zeros nonceSize in
  n ← put_byte 0 dir n;
  put_be 8 4 number n.

(** ** ping.go *)

Definition pingSize : nat := 13.
Definition pingMagic : bytes := gs "CVPP".
Definition pingTypePing : byte := z2b 1.
Definition pingTypePong : byte := z2b 2.

Definition encodePing (typ : byte) (n : Z) : go bytes :=
  let out := zeros pingSize in
  out ← copy_at 0 4 pingMagic out;
  out ← put_byte 4 typ out;
  put_be 8 5 n out.
Definition EncodePing (n : Z) : go bytes := encodePing pingTypePing n.
Definition EncodePong (n : Z) : go bytes := encodePing pingTypePong n.

Definition DecodePing (b : bytes) : go (result error (bool * Z)) :=
  if decide (length b ≠ pingSize) then err errNotPing else
  m ← slice b 0 4;
  if decide (m ≠ pingMagic) then err errNotPing else
  t ← byte_at b 4;
  if decide (t = pingTypePing) then n ← get_be 8 5 b; ok (false, n)
  else if decide (t = pingTypePong) then n ← get_be 8 5 b; ok (true, n)
  else err errNotPing.

(** ** handshake_message.go *)

Definition handshakeVersion : Z := 1.
Definition msgClientHello : byte := z2b 1.
Definition msgServerHello : byte := z2b 2.
Definition x25519PubSize : nat := 32.
Definition ed25519SignatureSize : nat := 64.
Definition maxTokenLen : nat := 4096.
Definition assignedIPv4Size : nat := 4.
Definition clientHelloFixed : nat := 6 + SessionIDSize + 8 + x25519PubSize + 2.
Definition serverHelloLen : nat :=
  6 + SessionIDSize + x25519PubSize + ed25519SignatureSize + assignedIPv4Size.
Definition handshakeMagic : bytes := gs "CVH1".

Definition putHandshakeHeader (out : bytes) (msgType : byte) (id : SessionID) : go bytes :=
  out ← copy_at 0 4 handshakeMagic out;
  out ← put_byte 4 (z2b handshakeVersion) out;
  out ← put_byte 5 msgType out;
  copy_at 6 (6 + SessionIDSize) id out.

Definition parseHandshakeHeader (b : bytes) (msgType : byte) : go (result error SessionID) :=
  if decide (length b < 6 + SessionIDSize)%nat then err errShortHandshake else
  m ← slice b 0 4;
  if decide (m ≠ handshakeMagic) then err errHandshakeMagic else
  v ← byte_at b 4;
  if negb (b2z v =? handshakeVersion) then err errHandshakeVer else
  t ← byte_at b 5;
  if decide (t ≠ msgType) then err errHandshakeType else
  s ← slice b 6 (6 + SessionIDSize);
  ok (arr 16 s).

Definition EncodeClientHello (id : SessionID) (timestamp : Z) (ephemeralPub token : bytes)
  : go (result error bytes) :=
  if decide (length ephemeralPub ≠ x25519PubSize) then err errHandshakeField else
  if decide (maxTokenLen < length token)%nat then err errHandshakeField else
  let out := zeros (clientHelloFixed + length token) in
  out ← putHandshakeHeader out msgClientHello id;
  let tsStart := (6 + SessionIDSize)%nat in
  out ← put_be 8 tsStart (u64 timestamp) out;
  let ephStart := (tsStart + 8)%nat in
  out ← copy_at ephStart (length out) ephemeralPub out;
  out ← put_be 2 (ephStart + x25519PubSize) (Z.of_nat (length token)) out;
  out ← copy_at clientHelloFixed (length out) token out;
  ok out.

Record ClientHello := mkClientHello {
  ch_id : SessionID; ch_timestamp : Z; ch_eph : bytes; ch_token : bytes }.

Definition DecodeClientHello (b : bytes) : go (result error ClientHello) :=
  id ←? parseHandshakeHeader b msgClientHello;
  if decide (length b < clientHelloFixed)%nat then err errShortHandshake else
  let tsStart := (6 + SessionIDSize)%nat in
  ts ← get_be 8 tsStart b;
  let ephStart := (tsStart + 8)%nat in
  eph ← slice b ephStart (ephStart + x25519PubSize);
  tl ← get_be 2 (ephStart + x25519PubSize) b;
  let tokenLen := Z.to_nat tl in
  if decide (length b ≠ clientHelloFixed + tokenLen ∨ maxTokenLen < tokenLen)%nat
  then err errHandshakeField else
  token ← slice b clientHelloFixed (length b);
  ok (mkClientHello id (i64 ts) eph token).

Definition EncodeServerHello (id : SessionID) (ephemeralPub sig : bytes) (assignedIPv4 : vec byte 4)
  : go (result error bytes) :=
  if decide (length ephemeralPub ≠ x25519PubSize ∨ length sig ≠ ed25519SignatureSize)
  then err errHandshakeField else
  let out := zeros serverHelloLen in
  out ← putHandshakeHeader out msgServerHello id;
  let ephStart := (6 + SessionIDSize)%nat in
  out ← copy_at ephStart (length out) ephemeralPub out;
  let sigStart := (ephStart + x25519PubSize)%nat in
  out ← copy_at sigStart (length out) sig out;
  out ← copy_at (sigStart + ed25519SignatureSize) (length out) assignedIPv4 out;
  ok out.

Record ServerHello := mkServerHello {
  sh_id : SessionID; sh_eph : bytes; sh_sig : bytes; sh_ip : vec byte 4 }.

Definition DecodeServerHello (b : bytes) : go (result error ServerHello) :=
  id ←? parseHandshakeHeader b msgServerHello;
  if decide (length b ≠ serverHelloLen) then err errHandshakeField else
  let ephStart := (6 + SessionIDSize)%nat in
  eph ← slice b ephStart (ephStart + x25519PubSize);
  let sigStart := (ephStart + x25519PubSize)%nat in
  sig ← slice b sigStart (sigStart + ed25519SignatureSize);
  ip ← slice b (sigStart + ed25519SignatureSize) (length b);
  ok (mkServerHello id eph sig (arr 4 ip)).

(** ** classify.go *)

Inductive DatagramKind := KindUnknown | KindData | KindClientHello | KindServerHello | KindPing.
#[global] Instance DatagramKind_eq_dec : EqDecision DatagramKind.
Proof. solve_decision. Defined.

Definition DatagramKind_String (k : DatagramKind) : string :=
  match k with
  | KindData => "data"
  | KindClientHello => "client-hello"
  | KindServerHello => "server-hello"
  | KindPing => "ping"
  | KindUnknown => "unknown"
  end.

Definition ClassifyDatagram (b : bytes) : go DatagramKind :=
  if decide (length b < 4)%nat then Ret KindUnknown else
  magic ← slice b 0 4;
  if decide (magic = dataMagic) then Ret KindData
  else if decide (magic = pingMagic) then Ret KindPing
  else if decide (magic = handshakeMagic) then
    if decide (length b < 6)%nat then Ret KindUnknown else
    t ← byte_at b 5;
    if decide (t = msgClientHello) then Ret KindClientHello
    else if decide (t = msgServerHello) then Ret KindServerHello
    else Ret KindUnknown
  else Ret KindUnknown.

(** ** Layout of the encoders *)

Lemma length_dataMagic : length dataMagic = 4%nat. Proof. done. Qed.
Lemma length_pingMagic : length pingMagic = 4%nat. Proof. done. Qed.
Lemma length_handshakeMagic : length handshakeMagic = 4%nat. Proof. done. Qed.
#[export] Hint Rewrite length_dataMagic length_pingMagic length_handshakeMagic : len.
#[export] Hint Unfold dataHeaderSize nonceSize pingSize x25519PubSize ed25519SignatureSize
  maxTokenLen assignedIPv4Size clientHelloFixed serverHelloLen maxPayload : sizes.

(** [build]: evaluate the next write into a partly filled zeroed buffer. *)
Ltac build := first [rewrite copy_zeros by len | rewrite put_byte_zeros by len | rewrite put_be_zeros by len]; mstep.
Ltac build_end := match goal with |- context [zeros ?n] => replace n with 0%nat by len end;
  unfold zeros; cbn [replicate]; rewrite app_nil_r, <-?app_assoc.

Definition flag_of (dir : byte) : byte := if decide (dir = dirResponder) then z2b flagDirection else z2b 0.

Definition header_bytes (id : PacketID) (dir : byte) : bytes :=
  dataMagic ++ [z2b dataVersion; flag_of dir] ++ (Session id : bytes) ++ be_bytes 8 (Number id).

Lemma frameHeader_layout id dir : frameHeader id dir = Ret (header_bytes id dir).
Proof.
  unfold frameHeader, header_bytes, flag_of. change (zeros dataHeaderSize) with ([] ++ zeros 30).
  build. build. case_decide.
  - build. build. build. by build_end.
  - mstep. rewrite (skip_zeros 1) by len. build. build. by build_end.
Qed.

Lemma parseHeader_fields m v f s n rest :
  length m = 4%nat → length s = 16%nat → length n = 8%nat →
  parseHeader (m ++ [v; f] ++ s ++ n ++ rest) =
    if decide (m ≠ dataMagic) then err errBadMagic
    else if negb (b2z v =? dataVersion) then err errBadVersion
    else if negb (Valid (mkPacketID (arr 16 s) (be_val n))) then err errBadIdentity
    else ok (mkPacketID (arr 16 s) (be_val n),
             (if negb (Z.land (b2z f) flagDirection =? 0) then dirResponder else dirInitiator),
             dataHeaderSize).
Proof.
  intros Hm Hs Hn. unfold parseHeader. rewrite decide_False by len.
  autounfold with sizes. by fields.
Qed.

Lemma nonce_layout dir n : nonce dir n = Ret (dir :: zeros 3 ++ be_bytes 8 n).
Proof.
  unfold nonce. change (zeros nonceSize) with ([] ++ zeros 12).
  build. rewrite (skip_zeros 3) by len. build. by build_end.
Qed.

Lemma encodePing_layout t n : encodePing t n = Ret (pingMagic ++ [t] ++ be_bytes 8 n).
Proof.
  unfold encodePing. change (zeros pingSize) with ([] ++ zeros 13).
  build. build. build. by build_end.
Qed.

Lemma DecodePing_fields m t n :
  length m = 4%nat → length n = 8%nat →
  DecodePing (m ++ [t] ++ n) =
    if decide (m ≠ pingMagic) then err errNotPing
    else if decide (t = pingTypePing) then ok (false, be_val n)
    else if decide (t = pingTypePong) then ok (true, be_val n)
    else err errNotPing.
Proof.
  intros Hm Hn. unfold DecodePing. rewrite decide_False by (intros Hne; apply Hne; len).
  by fields.
Qed.

Definition hs_header (t : byte) (id : SessionID) : bytes :=
  handshakeMagic ++ [z2b handshakeVersion; t] ++ (id : bytes).

Lemma length_hs_header t id : length (hs_header t id) = 22%nat.
Proof. unfold hs_header. len. Qed.
#[local] Hint Rewrite length_hs_header : len.

Lemma putHandshakeHeader_zeros n t id :
  (22 ≤ n)%nat → putHandshakeHeader (zeros n) t id = Ret (hs_header t id ++ zeros (n - 22)).
Proof.
  intros Hn. unfold putHandshakeHeader, hs_header. change (zeros n) with ([] ++ zeros n).
  build. build. build. build.
  match goal with |- context [zeros ?k] => replace k with (n - 22)%nat by len end.
  by rewrite <-!app_assoc.
Qed.

Lemma parseHandshakeHeader_fields m v t s rest ty :
  length m = 4%nat → length s = 16%nat →
  parseHandshakeHeader (m ++ [v; t] ++ s ++ rest) ty =
    if decide (m ≠ handshakeMagic) then err errHandshakeMagic
    else if negb (b2z v =? handshakeVersion) then err errHandshakeVer
    else if decide (t ≠ ty) then err errHandshakeType
    else ok (arr 16 s).
Proof.
  intros Hm Hs. unfold parseHandshakeHeader. rewrite decide_False by len.
  autounfold with sizes. by fields.
Qed.

Lemma parseHandshakeHeader_ok t id rest :
  parseHandshakeHeader (hs_header t id ++ rest) t = Ret (Ok id).
Proof.
  unfold hs_header. rewrite <-!app_assoc, parseHandshakeHeader_fields by len.
  rewrite decide_False by naive_solver. rewrite b2z_z2b. cbn.
  rewrite decide_False by naive_solver. by rewrite arr_vec.
Qed.

Lemma parseHandshakeHeader_inv b t id :
  parseHandshakeHeader b t = Ret (Ok id) → ∃ rest, b = hs_header t id ++ rest.
Proof.
  destruct (decide (length b < 22)%nat) as [Hs|Hs].
  { unfold parseHandshakeHeader. by rewrite decide_True. }
  destruct (split_at 4 b) as (m & b1 & -> & Hm); [lia|]. rewrite length_app in Hs.
  destruct b1 as [|v [|ty b2]]; simpl in Hs; [lia..|].
  destruct (split_at 16 b2) as (s & rest & -> & Hls); [lia|].
  change (m ++ v :: ty :: s ++ rest) with (m ++ [v; ty] ++ s ++ rest).
  rewrite parseHandshakeHeader_fields by done. unfold ok, err. intros H.
  case_decide; [done|]. destruct (Z.eqb_spec (b2z v) handshakeVersion) as [Hv|]; [|done].
  cbn [negb] in H. case_decide; [done|]. simplify_eq. exists rest. unfold hs_header.
  rewrite vec_arr, <-!app_assoc by done. by rewrite <-Hv, z2b_b2z.
Qed.

Definition client_hello_bytes (h : ClientHello) : bytes :=
  hs_header msgClientHello (ch_id h) ++ be_bytes 8 (u64 (ch_timestamp h)) ++ ch_eph h
    ++ be_bytes 2 (Z.of_nat (length (ch_token h))) ++ ch_token h.

(** The messages the encoder accepts. *)
Definition client_hello_ok (h : ClientHello) : Prop :=
  length (ch_eph h) = 32%nat ∧ (length (ch_token h) ≤ 4096)%nat ∧ is_i64 (ch_timestamp h).

Lemma EncodeClientHello_layout h :
  client_hello_ok h →
  EncodeClientHello (ch_id h) (ch_timestamp h) (ch_eph h) (ch_token h)
  = Ret (Ok (client_hello_bytes h)).
Proof.
  intros (He & Ht & Hts). unfold EncodeClientHello, client_hello_bytes.
  rewrite decide_False by (intros Hne; by apply Hne).
  rewrite decide_False by len. rewrite putHandshakeHeader_zeros by len. mstep.
  build. build. build. build. by build_end.
Qed.

Lemma DecodeClientHello_fields id ts eph tl token :
  length ts = 8%nat → length eph = 32%nat → length tl = 2%nat →
  DecodeClientHello (hs_header msgClientHello id ++ ts ++ eph ++ tl ++ token) =
    if decide (length token ≠ Z.to_nat (be_val tl) ∨ 4096 < Z.to_nat (be_val tl))%nat
    then err errHandshakeField
    else ok (mkClientHello id (i64 (be_val ts)) eph token).
Proof.
  intros Hts He Htl. unfold DecodeClientHello. rewrite parseHandshakeHeader_ok. mstep.
  change 4096%nat with maxTokenLen. generalize maxTokenLen. intros max.
  rewrite decide_False by len. autounfold with sizes. fields.
  destruct (decide (length token ≠ Z.to_nat (be_val tl) ∨ max < Z.to_nat (be_val tl))%nat).
  - by rewrite decide_True by lia.
  - rewrite decide_False by lia. by fields.
Qed.

Definition server_hello_bytes (h : ServerHello) : bytes :=
  hs_header msgServerHello (sh_id h) ++ sh_eph h ++ sh_sig h ++ (sh_ip h : bytes).

Definition server_hello_ok (h : ServerHello) : Prop :=
  length (sh_eph h) = 32%nat ∧ length (sh_sig h) = 64%nat.

Lemma EncodeServerHello_layout h :
  server_hello_ok h →
  EncodeServerHello (sh_id h) (sh_eph h) (sh_sig h) (sh_ip h) = Ret (Ok (server_hello_bytes h)).
Proof.
  intros (He & Hs). unfold EncodeServerHello, server_hello_bytes.
  rewrite decide_False by (autounfold with sizes; lia).
  rewrite putHandshakeHeader_zeros by len. mstep. build. build. build. by build_end.
Qed.

Lemma DecodeServerHello_fields id eph sig ip :
  length eph = 32%nat → length sig = 64%nat → length ip = 4%nat →
  DecodeServerHello (hs_header msgServerHello id ++ eph ++ sig ++ ip) =
    ok (mkServerHello id eph sig (arr 4 ip)).
Proof.
  intros He Hs Hip. unfold DecodeServerHello. rewrite parseHandshakeHeader_ok. mstep.
  rewrite decide_False by (intros Hne; apply Hne; len). autounfold with sizes. by fields.
Qed.

Lemma ClassifyDatagram_fields m rest :
  length m = 4%nat →
  ClassifyDatagram (m ++ rest) =
    if decide (m = dataMagic) then Ret KindData
    else if decide (m = pingMagic) then Ret KindPing
    else if decide (m = handshakeMagic) then
      match rest with
      | _ :: t :: _ => if decide (t = msgClientHello) then Ret KindClientHello
                       else if decide (t = msgServerHello) then Ret KindServerHello
                       else Ret KindUnknown
      | _ => Ret KindUnknown
      end
    else Ret KindUnknown.
Proof.
  intros Hm. unfold ClassifyDatagram. rewrite decide_False by len. fields.
  do 2 (case_decide; [done|]). case_decide; [|done].
  destruct rest as [|x [|t rest]].
  - rewrite decide_True by len. done.
  - rewrite decide_True by len. done.
  - rewrite decide_False by len. fields. done.
Qed.

(** The parsers return on every input. *)
Lemma parseHandshakeHeader_total b t : ∃ r, parseHandshakeHeader b t = Ret r.
Proof.
  destruct (decide (length b < 22)%nat) as [Hs|Hs].
  { unfold parseHandshakeHeader. rewrite decide_True by done. by eexists. }
  destruct (split_at 4 b) as (m & b1 & -> & Hm); [lia|]. rewrite length_app in Hs.
  destruct b1 as [|v [|ty b2]]; simpl in Hs; [lia..|].
  destruct (split_at 16 b2) as (s & rest & -> & Hls); [lia|].
  change (m ++ v :: ty :: s ++ rest) with (m ++ [v; ty] ++ s ++ rest).
  rewrite parseHandshakeHeader_fields by done.
  repeat (case_match; try by eexists).
Qed.

(** What [DecodeClientHello] does on any input: it returns, and it accepts
    exactly the encodings. *)
Lemma DecodeClientHello_spec b :
  (∃ e, DecodeClientHello b = Ret (Err e)) ∨
  (∃ h, DecodeClientHello b = Ret (Ok h) ∧ client_hello_ok h ∧ b = client_hello_bytes h).
Proof.
  destruct (parseHandshakeHeader_total b msgClientHello) as [[id|e] Hp].
  2: { left. exists e. unfold DecodeClientHello. by rewrite Hp. }
  destruct (parseHandshakeHeader_inv _ _ _ Hp) as [rest ->].
  destruct (decide (length rest < 42)%nat) as [Hs|Hs].
  { left. exists errShortHandshake. unfold DecodeClientHello. rewrite Hp. mstep.
    rewrite decide_True by len. done. }
  destruct (split_at 8 rest) as (ts & r1 & -> & Hts); [lia|]. rewrite length_app in Hs.
  destruct (split_at 32 r1) as (eph & r2 & -> & He); [lia|]. rewrite length_app in Hs.
  destruct (split_at 2 r2) as (tl & token & -> & Htl); [lia|].
  rewrite DecodeClientHello_fields by done. case_decide as Hbad; [left; by eexists|].
  right. eexists. split; [done|].
  pose proof (be_val_range ts) as Rts. rewrite Hts in Rts.
  pose proof (be_val_range tl) as Rtl. rewrite Htl in Rtl.
  split.
  - split; [done|]. split; [simpl; lia|]. apply i64_range.
  - unfold client_hello_bytes. cbn [ch_id ch_timestamp ch_eph ch_token].
    assert (be_bytes 8 (u64 (i64 (be_val ts))) = ts) as ->.
    { rewrite (be_bytes_mod 8 _ (be_val ts)); [by apply be_bytes_be_val|].
      unfold u64, i64. change (8 * Z.of_nat 8) with 64.
      rewrite Z.mod_mod by lia. rewrite Zminus_mod_idemp_l. f_equal. lia. }
    assert (be_bytes 2 (Z.of_nat (length token)) = tl) as ->; [|done].
    rewrite <-(be_bytes_be_val tl 2) by done. f_equal. lia.
Qed.

Lemma DecodeServerHello_spec b :
  (∃ e, DecodeServerHello b = Ret (Err e)) ∨
  (∃ h, DecodeServerHello b = Ret (Ok h) ∧ server_hello_ok h ∧ b = server_hello_bytes h).
Proof.
  destruct (parseHandshakeHeader_total b msgServerHello) as [[id|e] Hp].
  2: { left. exists e. unfold DecodeServerHello. by rewrite Hp. }
  destruct (parseHandshakeHeader_inv _ _ _ Hp) as [rest ->].
  destruct (decide (length rest = 100)%nat) as [Hs|Hs].
  2: { left. exists errHandshakeField. unfold DecodeServerHello. rewrite Hp. mstep.
       rewrite decide_True by len. done. }
  destruct (split_at 32 rest) as (eph & r1 & -> & He); [lia|]. rewrite length_app in Hs.
  destruct (split_at 64 r1) as (sig & ip & -> & Hsig); [lia|]. rewrite length_app in Hs.
  rewrite DecodeServerHello_fields by lia. right. eexists. split; [done|]. split; [done|].
  unfold server_hello_bytes. cbn [sh_id sh_eph sh_sig sh_ip]. by rewrite vec_arr by lia.
Qed.

Definition is_dir (dir : byte) : Prop := dir = dirInitiator ∨ dir = dirResponder.

Lemma length_header_bytes id dir : length (header_bytes id dir) = 30%nat.
Proof. unfold header_bytes. len. Qed.
#[export] Hint Rewrite length_header_bytes length_hs_header : len.

Lemma parseHeader_header id dir rest :
  Valid id = true → is_u64 (Number id) → is_dir dir →
  parseHeader (header_bytes id dir ++ rest) = Ret (Ok (id, dir, dataHeaderSize)).
Proof.
  intros Hv Hn Hd. unfold header_bytes. rewrite <-!app_assoc, parseHeader_fields by len.
  rewrite decide_False by naive_solver.
  change (b2z (z2b dataVersion) =? dataVersion) with true. cbn [negb].
  rewrite be_val_be_bytes, Z.mod_small, arr_vec by exact Hn.
  destruct id as [sid n]. cbn [Session Number] in *.
  rewrite Hv. unfold flag_of. destruct Hd as [-> | ->]; by vm_compute.
Qed.

(** [parseHeader] on any input: it returns, and what it accepts starts with a
    data header (some flags byte [f]) carrying the identity. *)
Lemma parseHeader_spec b :
  (∃ e, parseHeader b = Ret (Err e)) ∨
  (∃ id dir f rest, parseHeader b = Ret (Ok (id, dir, dataHeaderSize)) ∧
     Valid id = true ∧ is_u64 (Number id) ∧ is_dir dir ∧
     b = (dataMagic ++ [z2b dataVersion; f] ++ (Session id : bytes) ++ be_bytes 8 (Number id)) ++ rest).
Proof.
  destruct (decide (length b < 30)%nat) as [Hs|Hs].
  { left. exists errShortData. unfold parseHeader. by rewrite decide_True. }
  destruct (split_at 4 b) as (m & b1 & -> & Hm); [lia|]. rewrite length_app in Hs.
  destruct b1 as [|v [|f b2]]; simpl in Hs; [lia..|].
  destruct (split_at 16 b2) as (s & b3 & -> & Hls); [lia|]. rewrite length_app in Hs.
  destruct (split_at 8 b3) as (n & rest & -> & Hn); [lia|].
  change (m ++ v :: f :: s ++ n ++ rest) with (m ++ [v; f] ++ s ++ n ++ rest).
  rewrite parseHeader_fields by done.
  case_decide as Hmag; [left; by eexists|]. subst m.
  destruct (Z.eqb_spec (b2z v) dataVersion) as [Hver|]; [|left; by eexists].
  destruct (Valid _) eqn:Hv; [|left; by eexists]. cbn [negb].
  right. eexists _, _, f, rest. split; [done|]. split; [done|].
  pose proof (be_val_range n) as R. rewrite Hn in R. split; [exact R|].
  split; [case_match; [by right|by left]|]. cbn [Session Number].
  rewrite vec_arr, be_bytes_be_val by done. by rewrite <-Hver, z2b_b2z, <-!app_assoc.
Qed.

Lemma DecodePing_spec b :
  DecodePing b = Ret (Err errNotPing) ∨
  (∃ n, is_u64 n ∧ DecodePing b = Ret (Ok (false, n)) ∧ EncodePing n = Ret b) ∨
  (∃ n, is_u64 n ∧ DecodePing b = Ret (Ok (true, n)) ∧ EncodePong n = Ret b).
Proof.
  destruct (decide (length b = 13)%nat) as [Hs|Hs].
  2: { left. unfold DecodePing. by rewrite decide_True. }
  destruct (split_at 4 b) as (m & b1 & -> & Hm); [lia|]. rewrite length_app in Hs.
  destruct b1 as [|t n]; simpl in Hs; [lia|]. change (m ++ t :: n) with (m ++ [t] ++ n).
  pose proof (be_val_range n) as R. replace (length n) with 8%nat in R by lia.
  rewrite DecodePing_fields by lia. unfold EncodePing, EncodePong.
  case_decide as Hmag; [by left|]. subst m.
  case_decide as Ht; [|case_decide; [|by left]].
  - right. left. exists (be_val n). rewrite encodePing_layout, be_bytes_be_val by lia. by subst t.
  - right. right. exists (be_val n). rewrite encodePing_layout, be_bytes_be_val by lia. by subst t.
Qed.

Lemma DecodePing_encoded t n :
  is_u64 n → t = pingTypePing ∨ t = pingTypePong →
  ∃ b, encodePing t n = Ret b ∧ length b = pingSize ∧
       DecodePing b = Ret (Ok (bool_decide (t = pingTypePong), n)).
Proof.
  intros Hn Ht. eexists. rewrite encodePing_layout. split; [done|]. split; [len|].
  rewrite DecodePing_fields by len. rewrite decide_False by naive_solver.
  rewrite be_val_be_bytes, Z.mod_small by exact Hn. by destruct Ht as [-> | ->].
Qed.

Lemma ClassifyDatagram_total b : ∃ k, ClassifyDatagram b = Ret k.
Proof.
  destruct (decide (length b < 4)%nat) as [Hs|Hs].
  { unfold ClassifyDatagram. rewrite decide_True by done. by eexists. }
  destruct (split_at 4 b) as (m & rest & -> & Hm); [lia|].
  rewrite ClassifyDatagram_fields by done. repeat (case_match; try by eexists).
Qed.

(** Decoding what the encoders write. *)
Lemma DecodeClientHello_bytes h : client_hello_ok h → DecodeClientHello (client_hello_bytes h) = Ret (Ok h).
Proof.
  destruct h as [id ts eph tok]. intros (Hl & Ht & Hts). cbn in Hl, Ht, Hts.
  unfold client_hello_bytes. cbn [ch_id ch_timestamp ch_eph ch_token].
  rewrite DecodeClientHello_fields by len.
  rewrite !be_val_be_bytes, (Z.mod_small (Z.of_nat _)), Nat2Z.id by lia.
  rewrite decide_False by lia. rewrite Z.mod_small by apply u64_range. by rewrite u64_i64.
Qed.

(** A ClientHello cut in its token, and what is made of it. *)
Lemma client_hello_cut h k :
  client_hello_ok h → take (64 + k) (client_hello_bytes h) =
    hs_header msgClientHello (ch_id h) ++ be_bytes 8 (u64 (ch_timestamp h)) ++ ch_eph h
      ++ be_bytes 2 (Z.of_nat (length (ch_token h))) ++ take k (ch_token h).
Proof.
  intros (He & _ & _). unfold client_hello_bytes. rewrite !(assoc_L (++)). set (pre := _ ++ be_bytes 2 _).
  assert (length pre = 64%nat) as Hp by (unfold pre; len). by rewrite <-Hp, take_app_add.
Qed.

Lemma DecodeClientHello_cut h k :
  client_hello_ok h → (k < length (ch_token h))%nat →
  DecodeClientHello (take (64 + k) (client_hello_bytes h)) = Ret (Err errHandshakeField).
Proof.
  intros Hok Hk. rewrite client_hello_cut by done. destruct Hok as (He & Ht & _).
  rewrite DecodeClientHello_fields by len. rewrite be_val_be_bytes, Z.mod_small, Nat2Z.id by lia.
  rewrite decide_True; [done|]. left. rewrite length_take. lia.
Qed.

Lemma EncodeClientHello_ok h b :
  is_i64 (ch_timestamp h) →
  EncodeClientHello (ch_id h) (ch_timestamp h) (ch_eph h) (ch_token h) = Ret (Ok b) →
  client_hello_ok h ∧ b = client_hello_bytes h.
Proof.
  intros Hts He. assert (client_hello_ok h) as Hok.
  { unfold EncodeClientHello in He. case_decide; [done|]. case_decide; [done|].
    unfold client_hello_ok. autounfold with sizes in *. split; [lia|]. split; [lia|done]. }
  rewrite EncodeClientHello_layout in He by done. by injection He as <-.
Qed.

Lemma DecodeServerHello_bytes h : server_hello_ok h → DecodeServerHello (server_hello_bytes h) = Ret (Ok h).
Proof.
  destruct h as [id eph sig ip]. intros (Hl & Hs). cbn in Hl, Hs.
  unfold server_hello_bytes. cbn [sh_id sh_eph sh_sig sh_ip].
  rewrite DecodeServerHello_fields by len. by rewrite arr_vec.
Qed.

(** ** Properties *)

(** The data header: the 30 bytes [frameHeader] writes for a valid identity
    parse back, in front of any ciphertext, to the same identity and direction. *)
Theorem header_roundtrip (id : PacketID) (dir : byte) (rest : bytes) :
  Valid id = true → is_u64 (Number id) → is_dir dir →
  ∃ h, frameHeader id dir = Ret h ∧ length h = dataHeaderSize ∧
       parseHeader (h ++ rest) = Ret (Ok (id, dir, dataHeaderSize)) ∧
       SessionIDFromDatagram (h ++ rest) = Ret (Ok (Session id)).
Proof.
  intros. exists (header_bytes id dir). rewrite frameHeader_layout, length_header_bytes.
  unfold SessionIDFromDatagram. by rewrite parseHeader_header.
Qed.

Lemma header_roundtrip_witness :
  ∃ h, frameHeader (mkPacketID (arr 16 (gs "session-id-00001")) 77) dirResponder = Ret h ∧
       length h = dataHeaderSize ∧
       parseHeader (h ++ gs "ciphertext")
         = Ret (Ok (mkPacketID (arr 16 (gs "session-id-00001")) 77, dirResponder, dataHeaderSize)) ∧
       SessionIDFromDatagram (h ++ gs "ciphertext") = Ret (Ok (arr 16 (gs "session-id-00001"))).
Proof.
  apply (header_roundtrip (mkPacketID (arr 16 (gs "session-id-00001")) 77) dirResponder (gs "ciphertext")).
  - vm_compute. reflexivity.
  - unfold is_u64. simpl. lia.
  - right. reflexivity.
Defined.

(** C35: The ClientHello codec: decoding never panics, and it accepts a datagram
    as a message exactly when that datagram is the message's own encoding, so
    there is one datagram per message (no trailing bytes, no second spelling). *)
Theorem client_hello_codec (b : bytes) :
  (∃ r, DecodeClientHello b = Ret r) ∧
  ∀ h, DecodeClientHello b = Ret (Ok h) ↔
    is_i64 (ch_timestamp h) ∧
    EncodeClientHello (ch_id h) (ch_timestamp h) (ch_eph h) (ch_token h) = Ret (Ok b).
Proof.
  split.
  { destruct (DecodeClientHello_spec b) as [[e ->]|(h & -> & _)]; by eexists. }
  intros h. split.
  - intros Hd. destruct (DecodeClientHello_spec b) as [[e He]|(h' & Hd' & Hok & ->)]; [congruence|].
    rewrite Hd' in Hd. injection Hd as ->. split; [apply Hok|]. by apply EncodeClientHello_layout.
  - intros [Hts He]. apply EncodeClientHello_ok in He as [Hok ->]; [|done]. by apply DecodeClientHello_bytes.
Qed.

(** The ServerHello codec: decoding never panics, and it accepts exactly the
    encodings. *)
Theorem server_hello_codec (b : bytes) :
  (∃ r, DecodeServerHello b = Ret r) ∧
  ∀ h, DecodeServerHello b = Ret (Ok h) ↔
    EncodeServerHello (sh_id h) (sh_eph h) (sh_sig h) (sh_ip h) = Ret (Ok b).
Proof.
  split.
  { destruct (DecodeServerHello_spec b) as [[e ->]|(h & -> & _)]; by eexists. }
  intros h. split.
  - intros Hd. destruct (DecodeServerHello_spec b) as [[e He]|(h' & Hd' & Hok & ->)]; [congruence|].
    rewrite Hd' in Hd. injection Hd as ->. by apply EncodeServerHello_layout.
  - intros He. assert (server_hello_ok h) as Hok.
    { unfold EncodeServerHello in He. case_decide; [done|].
      unfold server_hello_ok. autounfold with sizes in *. lia. }
    rewrite EncodeServerHello_layout in He by done. injection He as <-.
    by apply DecodeServerHello_bytes.
Qed.

(** The reachability probe: decoding never panics and accepts exactly what
    the encoders produce; the reply to a ping carries its number, is recognised
    as a pong (so two peers cannot bounce replies for ever) and has the size of
    the ping (so the exchange amplifies nothing). *)
Theorem ping_exchange (b : bytes) :
  (∃ r, DecodePing b = Ret r) ∧
  (∀ n, DecodePing b = Ret (Ok (true, n)) ↔ is_u64 n ∧ EncodePong n = Ret b) ∧
  (∀ n, DecodePing b = Ret (Ok (false, n)) ↔ is_u64 n ∧ EncodePing n = Ret b) ∧
  (∀ n, DecodePing b = Ret (Ok (false, n)) →
     ∃ p, EncodePong n = Ret p ∧ length p = length b ∧ DecodePing p = Ret (Ok (true, n))).
Proof.
  assert (∀ n t, is_u64 n ∧ encodePing t n = Ret b → t = pingTypePing ∨ t = pingTypePong →
    DecodePing b = Ret (Ok (bool_decide (t = pingTypePong), n))) as Henc.
  { intros n t [Hn Hb] Ht. destruct (DecodePing_encoded t n Hn Ht) as (b' & Hb' & _ & Hd). congruence. }
  split; [|split; [|split]].
  - destruct (DecodePing_spec b) as [->|[(n & _ & -> & _)|(n & _ & -> & _)]]; by eexists.
  - intros n. split; [|intros H; apply (Henc n pingTypePong H); auto].
    intros Hd. destruct (DecodePing_spec b) as [?|[(m & ? & ? & ?)|(m & ? & ? & ?)]];
      try congruence; by assert (m = n) as -> by congruence.
  - intros n. split; [|intros H; apply (Henc n pingTypePing H); auto].
    intros Hd. destruct (DecodePing_spec b) as [?|[(m & ? & ? & ?)|(m & ? & ? & ?)]];
      try congruence; by assert (m = n) as -> by congruence.
  - intros n Hd. destruct (DecodePing_spec b) as [?|[(m & Hm & ? & Hb)|(m & ? & ? & ?)]]; [congruence| |congruence].
    assert (m = n) as -> by congruence.
    destruct (DecodePing_encoded pingTypePong n Hm) as (p & Hp & Hl & Hdp); [auto|].
    destruct (DecodePing_encoded pingTypePing n Hm) as (p' & Hp' & Hl' & _); [auto|].
    unfold EncodePing in Hb. assert (p' = b) as -> by congruence. exists p. by rewrite Hl, Hl'.
Qed.

(** [ClassifyDatagram] returns on every datagram and sends each frame to its
    own decoder: whatever one of the four decoders accepts has that decoder's
    kind, so no frame of one protocol is accepted by the handler of another. *)
Theorem classify_agrees (b : bytes) :
  ∃ k, ClassifyDatagram b = Ret k ∧
    (∀ r, parseHeader b = Ret (Ok r) → k = KindData) ∧
    (∀ r, DecodePing b = Ret (Ok r) → k = KindPing) ∧
    (∀ r, DecodeClientHello b = Ret (Ok r) → k = KindClientHello) ∧
    (∀ r, DecodeServerHello b = Ret (Ok r) → k = KindServerHello).
Proof.
  destruct (ClassifyDatagram_total b) as [k Hk]. exists k. split; [done|].
  assert (∀ k', ClassifyDatagram b = Ret k' → k = k') as Hsame by congruence.
  repeat split; intros r Hd; apply Hsame; clear Hk Hsame.
  - destruct (parseHeader_spec b) as [[e ?]|(id & dir & f & rest & _ & _ & _ & _ & ->)]; [congruence|].
    by rewrite <-app_assoc, ClassifyDatagram_fields.
  - destruct (DecodePing_spec b) as [?|[(n & _ & _ & Hb)|(n & _ & _ & Hb)]]; [congruence| |];
      unfold EncodePing, EncodePong in Hb; rewrite encodePing_layout in Hb; apply (inj Ret) in Hb as <-;
      by rewrite ClassifyDatagram_fields.
  - destruct (DecodeClientHello_spec b) as [[e ?]|(h & _ & _ & ->)]; [congruence|].
    unfold client_hello_bytes, hs_header. by rewrite <-!app_assoc, ClassifyDatagram_fields.
  - destruct (DecodeServerHello_spec b) as [[e ?]|(h & _ & _ & ->)]; [congruence|].
    unfold server_hello_bytes, hs_header. by rewrite <-!app_assoc, ClassifyDatagram_fields.
Qed.

End Wire.
