(* ===== verification/Crypto.v ===== *)
(** * The cryptographic primitives the program calls

    crypto/aes + crypto/cipher (AES-256-GCM), crypto/ecdh (X25519), crypto/hkdf,
    crypto/ed25519 and crypto/hmac are not under src/.  Each is an operation
    class, with the documented behaviour the code relies on as a class of laws;
    the components are proved against the classes.  [Toy] instantiates them with
    small concrete functions (not secure, only lawful), at which the witnesses of
    the theorems are evaluated. *)

From S2P Require Import Prelude.

(** [cipher.AEAD] for a 32-byte key: [Seal(nil, nonce, plaintext, aad)] and
    [Open(nil, nonce, ciphertext, aad)]. *)
Class AEAD := {
  aead_seal : bytes → bytes → bytes → bytes → bytes;
  aead_open : bytes → bytes → bytes → bytes → option bytes
}.

(** "Open decrypts and authenticates ciphertext ... the nonce and the additional
    data must match the value passed to Seal"; the GCM tag has 16 bytes. *)
Class AEADLaws `{AEAD} : Prop := {
  aead_open_seal k n p a :
    length k = 32%nat → length n = 12%nat → aead_open k n (aead_seal k n p a) a = Some p;
  aead_seal_length k n p a : length (aead_seal k n p a) = (length p + 16)%nat
}.

(** "Overhead returns the maximum difference between the lengths of a plaintext and
    its ciphertext": opening does not lengthen. *)
Class AEADOverhead `{AEAD} : Prop := {
  aead_open_length k n c a p : aead_open k n c a = Some p → (length p ≤ length c)%nat
}.

(** [ecdh.X25519()]: the public key of a private key and the shared secret
    (an error when the result is the all-zero value). *)
Class X25519 := {
  x25519_pub : bytes → bytes;
  x25519_ecdh : bytes → bytes → option bytes
}.

(** RFC 7748: both sides compute the same shared secret. *)
Class X25519Laws `{X25519} : Prop := {
  x25519_pub_length k : length k = 32%nat → length (x25519_pub k) = 32%nat;
  x25519_agree a b :
    length a = 32%nat → length b = 32%nat →
    x25519_ecdh a (x25519_pub b) = x25519_ecdh b (x25519_pub a)
}.

(** [hkdf.Key(sha256.New, secret, salt, info, keyLength)]. *)
Class HKDF := {
  hkdf_key : bytes → bytes → bytes → nat → bytes
}.
Class HKDFLaws `{HKDF} : Prop := {
  hkdf_key_length s salt info n : (n ≤ 255 * 32)%nat → length (hkdf_key s salt info n) = n
}.

(** crypto/ed25519: [NewKeyFromSeed], which [GenerateKey] applies to 32 random bytes,
    [Sign] and [Verify]; the public half of a 64-byte private key is its tail.  A
    signature verifies under the public half of the key it was made with when that
    key comes from a seed, so that its halves belong together. *)
Class Ed25519 := {
  ed25519_key : bytes → bytes;
  ed25519_sign : bytes → bytes → bytes;
  ed25519_verify : bytes → bytes → bytes → bool
}.
Definition ed25519_public (priv : bytes) : bytes := drop 32 priv.
Class Ed25519Laws `{Ed25519} : Prop := {
  ed25519_sign_length k m : length k = 64%nat → length (ed25519_sign k m) = 64%nat;
  ed25519_key_length seed : length seed = 32%nat → length (ed25519_key seed) = 64%nat;
  ed25519_verify_sign seed m : length seed = 32%nat →
    ed25519_verify (ed25519_public (ed25519_key seed)) m (ed25519_sign (ed25519_key seed) m) = true
}.

(** [hmac.New(sha256.New, key)] over a message: a 32-byte code. *)
Class HMAC := { hmac_sha256 : bytes → bytes → bytes }.
Class HMACLaws `{HMAC} : Prop := {
  hmac_length k m : length (hmac_sha256 k m) = 32%nat
}.

Module Toy.

(** A 32-bit checksum spread over [n] bytes. *)
Definition sum (l : bytes) : Z := foldl (λ acc b, (acc * 31 + b2z b + 7) mod 2 ^ 32) 1 l.
Definition digest (n : nat) (l : bytes) : bytes := be_bytes n (sum l).

(** The tag is the nonce and a checksum, so a ciphertext names its nonce. *)
Definition seal (k n p a : bytes) : bytes :=
  p ++ take 12 (n ++ zeros 12) ++ digest 4 (k ++ n ++ a ++ p).
Definition open (k n c a : bytes) : option bytes :=
  let p := take (length c - 16) c in
  if decide (length n = 12%nat ∧ c = seal k n p a) then Some p else None.

Lemma length_seal k n p a : length (seal k n p a) = (length p + 16)%nat.
Proof. unfold seal, digest. len. Qed.

#[export] Instance aead : AEAD := {| aead_seal := seal; aead_open := open |}.
#[export] Instance aead_laws : AEADLaws.
Proof.
  split; intros; [|apply length_seal].
  unfold aead_open, aead_seal, aead, open. rewrite length_seal.
  replace (length p + 16 - 16)%nat with (length p) by lia.
  assert (take (length p) (seal k n p a) = p) as -> by apply take_app_length.
  by rewrite decide_True.
Qed.

#[export] Instance aead_overhead : AEADOverhead.
Proof.
  split. intros k n c a p. unfold aead_open, aead, open. case_decide; [|done]. intros [= <-]. rewrite length_take. lia.
Qed.

(** What an opened ciphertext determines. *)
Definition nonce_in (c : bytes) : bytes := take 12 (drop (length c - 16) c).
Definition plain_in (c : bytes) : bytes := take (length c - 16) c.

Lemma open_inv k n c a p :
  open k n c a = Some p → n = nonce_in c ∧ p = plain_in c ∧ c = seal k n p a.
Proof.
  unfold open. case_decide as Hd; [|done]. destruct Hd as [Hn Hc]. intros [= <-].
  fold (plain_in c) in *. split; [|done]. unfold nonce_in. rewrite Hc at 2.
  assert (length c - 16 = length (plain_in c))%nat as -> by (rewrite Hc at 1; rewrite length_seal; lia).
  unfold seal. rewrite drop_app_length, take_app_le by len. rewrite take_take.
  rewrite take_app_le by len. by rewrite take_ge by lia.
Qed.

Definition xor_bytes (a b : bytes) : bytes :=
  zip_with (λ x y, z2b (Z.lxor (b2z x) (b2z y))) a b.

#[export] Instance x25519 : X25519 := {| x25519_pub := id; x25519_ecdh a b := Some (xor_bytes a b) |}.
#[export] Instance x25519_laws : X25519Laws.
Proof.
  split; [done|]. intros a b _ _. unfold x25519_ecdh, x25519_pub, x25519, id, xor_bytes. f_equal.
  revert b. induction a as [|x a IH]; intros [|y b]; simpl; [done..|].
  by rewrite IH, Z.lxor_comm.
Qed.

#[export] Instance hkdf : HKDF := {| hkdf_key s salt info n := digest n (s ++ salt ++ info) |}.
#[export] Instance hkdf_laws : HKDFLaws.
Proof. split. intros. apply length_be_bytes. Qed.

#[export] Instance ed25519 : Ed25519 := {|
  ed25519_key seed := seed ++ digest 32 seed;
  ed25519_sign k m := ed25519_public k ++ digest 32 (ed25519_public k ++ m);
  ed25519_verify pub m s := bool_decide (s = pub ++ digest 32 (pub ++ m)) |}.
#[export] Instance ed25519_laws : Ed25519Laws.
Proof.
  split; intros; unfold ed25519_key, ed25519_sign, ed25519_verify, ed25519, ed25519_public, digest.
  - rewrite length_app, length_be_bytes, length_drop. lia.
  - rewrite length_app, length_be_bytes. lia.
  - by apply bool_decide_eq_true.
Qed.

#[export] Instance hmac : HMAC := {| hmac_sha256 k m := digest 32 (k ++ m) |}.
#[export] Instance hmac_laws : HMACLaws.
Proof. split. intros. apply length_be_bytes. Qed.

End Toy.
