(* ===== verification/Session.v ===== *)
(** * pkg/clientcore: the data-plane session

    crypto.go ([newSealer], [seal], [open]) and session.go ([NewSession],
    [Outbound], [Inbound], [InboundClassified]).  The shared state of a session
    is its packet counter and its replay window; each is touched in one critical
    section per call, so an interleaving of concurrent calls is a sequence of
    the operations below.  [Channel] runs two endpoints against a network that
    may drop, duplicate, reorder and inject datagrams. *)

From S2P Require Import Prelude Protocol ReplayWindow Wire Crypto.
Import Protocol Replay Wire.

Module Session.

Inductive Role := RoleInitiator | RoleResponder.
#[global] Instance Role_eq_dec : EqDecision Role.
Proof. solve_decision. Defined.

Definition sendDir (r : Role) : byte :=
  if decide (r = RoleResponder) then dirResponder else dirInitiator.
Definition peerDir (r : Role) : byte :=
  if decide (r = RoleResponder) then dirInitiator else dirResponder.

Definition keySize : nat := 32.

(** A [sealer] is determined by its key. *)
Record sealer := mkSealer { skey : bytes }.

Record Session := mkSession {
  sid : SessionID;
  role : Role;
  slr : sealer;
  assignedIPv4 : vec byte 4;
  next : Z;               (* PacketNumber (uint64) *)
  window : ReplayWindow
}.

Definition set_next (s : Session) (n : Z) : Session :=
  mkSession (sid s) (role s) (slr s) (assignedIPv4 s) n (window s).
Definition set_window (s : Session) (w : ReplayWindow) : Session :=
  mkSession (sid s) (role s) (slr s) (assignedIPv4 s) (next s) w.
Definition set_assigned (s : Session) (ip : vec byte 4) : Session :=
  mkSession (sid s) (role s) (slr s) ip (next s) (window s).

Definition AssignedIPv4 (s : Session) : vec byte 4 := assignedIPv4 s.
Definition zeroIPv4 : vec byte 4 := arr 4 [].

(** [aes.NewCipher] and [cipher.NewGCM] accept every 32-byte key. *)
Definition newSealer (key : bytes) : result Wire.error sealer :=
  if decide (length key ≠ keySize) then Err errKeySize else Ok (mkSealer key).

Definition NewSession (id : SessionID) (key : bytes) (r : Role) (dedupCapacity : Z)
  : go (result Wire.error Session) :=
  if IsZero id then err errBadIdentity else
  match newSealer key with
  | Err e => err e
  | Ok s =>
      w ← NewReplayWindow dedupCapacity;
      match w with
      | Err _ => err errDedupCapacity
      | Ok w => ok (mkSession id r s zeroIPv4 0 w)
      end
  end.

Section ops.
Context `{AEAD}.

Definition seal (s : sealer) (dir : byte) (id : PacketID) (aad plaintext : bytes) : go bytes :=
  n ← nonce dir (Number id); Ret (aead_seal (skey s) n plaintext aad).

Definition open (s : sealer) (dir : byte) (id : PacketID) (aad ciphertext : bytes)
  : go (result Wire.error bytes) :=
  n ← nonce dir (Number id);
  match aead_open (skey s) n ciphertext aad with
  | Some p => ok p
  | None => err errCrypto
  end.

Definition Outbound (s : Session) (payload : bytes) : go (Session * result Wire.error bytes) :=
  if decide (maxPayload < length payload)%nat then Ret (s, Err errOversize) else
  let s := set_next s (u64 (next s + 1)) in
  let id := mkPacketID (sid s) (next s) in
  let dir := sendDir (role s) in
  header ← frameHeader id dir;
  ciphertext ← seal (slr s) dir id header payload;
  Ret (s, Ok (header ++ ciphertext)).

Definition InboundClassified (s : Session) (wire : bytes)
  : go (Session * result Wire.error (bytes * ReplayDecision)) :=
  h ← parseHeader wire;
  match h with
  | Err e => Ret (s, Err e)
  | Ok (id, dir, off) =>
      if decide (dir ≠ peerDir (role s)) then Ret (s, Err errBadDirection) else
      aad ← slice wire 0 off;
      ciphertext ← slice wire off (length wire);
      r ← open (slr s) dir id aad ciphertext;
      match r with
      | Err e => Ret (s, Err e)
      | Ok plaintext =>
          '(w, d) ← Observe (window s) (Number id);
          Ret (set_window s w, Ok (plaintext, d))
      end
  end.

Definition Inbound (s : Session) (wire : bytes)
  : go (Session * result Wire.error (bytes * bool)) :=
  '(s, r) ← InboundClassified s wire;
  match r with
  | Err e => Ret (s, Err e)
  | Ok (payload, decision) => Ret (s, Ok (payload, bool_decide (decision = ReplayFirstCopy)))
  end.

(** ** The session invariant *)

(** The window represents the history [prior] of authenticated numbers. *)
Record session_ok (s : Session) (prior : list Z) : Prop := {
  so_id : IsZero (sid s) = false;
  so_key : length (skey (slr s)) = 32%nat;
  so_next : is_u64 (next s);
  so_window : sim (window s) prior
}.

Definition nonce_bytes (dir : byte) (n : Z) : bytes := dir :: zeros 3 ++ be_bytes 8 n.

Lemma length_nonce dir n : length (nonce_bytes dir n) = 12%nat.
Proof. unfold nonce_bytes. len. Qed.

Lemma nonce_bytes_inj d1 d2 n1 n2 :
  is_u64 n1 → is_u64 n2 → nonce_bytes d1 n1 = nonce_bytes d2 n2 → d1 = d2 ∧ n1 = n2.
Proof.
  intros H1 H2 Heq. unfold nonce_bytes in Heq. split.
  { by apply (f_equal head) in Heq as [= ->]. }
  apply (f_equal (λ l, be_val (drop 4 l))) in Heq.
  change (drop 4 (?d :: zeros 3 ++ ?l)) with l in Heq.
  by rewrite !be_val_be_bytes, !Z.mod_small in Heq.
Qed.

Lemma seal_eq s dir id aad p :
  seal s dir id aad p = Ret (aead_seal (skey s) (nonce_bytes dir (Number id)) p aad).
Proof. unfold seal. by rewrite nonce_layout. Qed.

Lemma NewSession_inv id key r cap s :
  is_i64 cap → NewSession id key r cap = Ret (Ok s) →
  session_ok s [] ∧ sid s = id ∧ role s = r ∧ slr s = mkSealer key ∧ next s = 0.
Proof.
  intros Hc. unfold NewSession, newSealer. destruct (IsZero id) eqn:Hz; [done|].
  case_decide as Hk; [done|]. destruct (NewReplayWindow cap) as [[w|e]|] eqn:Hw; [|done..].
  mstep. unfold ok. intros [= <-]. split; [|done].
  split; [done| |unfold is_u64; simpl; lia|by eapply new_window_sim].
  simpl. unfold keySize in Hk. lia.
Qed.

Lemma NewSession_width id key r cap s : is_i64 cap → NewSession id key r cap = Ret (Ok s) → cap ≤ Replay.width (window s).
Proof.
  intros Hc. unfold NewSession, newSealer. destruct (IsZero id); [done|]. case_decide; [done|].
  destruct (NewReplayWindow cap) as [[w|e]|] eqn:Hw; [|done..]. mstep. unfold ok. intros [= <-]. by eapply new_window_width.
Qed.

Lemma NewSession_total id key r cap :
  0 < cap ≤ 2 ^ 63 - 64 → ∃ res, NewSession id key r cap = Ret res.
Proof.
  intros Hc. unfold NewSession. destruct (IsZero id); [by eexists|]. case_match; [|by eexists].
  rewrite new_window_ok by done. by eexists.
Qed.

Lemma NewSession_ok id key r cap :
  IsZero id = false → length key = keySize → 0 < cap ≤ 2 ^ 63 - 64 →
  ∃ s, NewSession id key r cap = Ret (Ok s).
Proof.
  intros Hz Hk Hc. unfold NewSession, newSealer. rewrite Hz, decide_False by (intros Hne; by apply Hne).
  rewrite new_window_ok by done. by eexists.
Qed.

(** Packet [n] of the endpoint [r] of session [id], carrying [p]. *)
Definition header_of (id : SessionID) (r : Role) (n : Z) : bytes :=
  header_bytes (mkPacketID id n) (sendDir r).
Definition frame_of (id : SessionID) (key : bytes) (r : Role) (n : Z) (p : bytes) : bytes :=
  header_of id r n ++ aead_seal key (nonce_bytes (sendDir r) n) p (header_of id r n).

Lemma take_frame id key r n p : take dataHeaderSize (frame_of id key r n p) = header_of id r n.
Proof. unfold frame_of. apply take_app_length'. unfold header_of. len. Qed.

Lemma Outbound_eq s p :
  (length p ≤ maxPayload)%nat →
  Outbound s p = Ret (set_next s (u64 (next s + 1)), Ok (frame_of (sid s) (skey (slr s)) (role s) (u64 (next s + 1)) p)).
Proof.
  intros Hp. unfold Outbound. rewrite decide_False by lia.
  rewrite frameHeader_layout. mstep. rewrite seal_eq. by mstep.
Qed.

(** [InboundClassified] once the header is accepted: the outcome is that of
    [aead_open] under the nonce of the number in the header, and only an opened
    datagram reaches the window. *)
Lemma Inbound_open s prior id aad ct :
  session_ok s prior → length aad = dataHeaderSize → is_u64 (Number id) →
  parseHeader (aad ++ ct) = Ret (Ok (id, peerDir (role s), dataHeaderSize)) →
  match aead_open (skey (slr s)) (nonce_bytes (peerDir (role s)) (Number id)) ct aad with
  | None => InboundClassified s (aad ++ ct) = Ret (s, Err errCrypto)
  | Some p => ∃ w,
      InboundClassified s (aad ++ ct)
        = Ret (set_window s w, Ok (p, decide_spec (width (window s)) prior (Number id))) ∧
      session_ok (set_window s w) (Number id :: prior) ∧ width w = width (window s)
  end.
Proof.
  intros [Hid Hk Hn Hs] Ha Hu Hp. unfold InboundClassified. rewrite Hp. mstep.
  rewrite decide_False by (intros Hne; by apply Hne).
  rewrite <-Ha, (slice_app_l aad _ 0), (slice_full aad 0) by done. mstep.
  rewrite slice_app_tail. mstep. unfold open. rewrite nonce_layout. mstep.
  fold (nonce_bytes (peerDir (role s)) (Number id)).
  destruct (aead_open _ _ _ _) as [p|]; [|done].
  destruct (Observe_refines _ _ _ Hs Hu) as (w & Hobs & Hs' & Hwd).
  exists w. unfold ok. mstep. rewrite Hobs. by mstep.
Qed.

(** [InboundClassified] on any datagram: it is rejected and the session is
    unchanged, or it opened and its number was recorded in the window. *)
Lemma Inbound_cases s wire prior :
  session_ok s prior →
  (∃ e, InboundClassified s wire = Ret (s, Err e)) ∨
  (∃ id aad ct p w,
     parseHeader wire = Ret (Ok (id, peerDir (role s), dataHeaderSize)) ∧
     0 < Number id < 2 ^ 64 ∧
     wire = aad ++ ct ∧ length aad = dataHeaderSize ∧
     aead_open (skey (slr s)) (nonce_bytes (peerDir (role s)) (Number id)) ct aad = Some p ∧
     InboundClassified s wire
       = Ret (set_window s w, Ok (p, decide_spec (width (window s)) prior (Number id))) ∧
     session_ok (set_window s w) (Number id :: prior) ∧ width w = width (window s)).
Proof.
  intros Hok.
  destruct (parseHeader_spec wire) as [[e He]|(id & dir & f & rest & Hp & Hv & Hu & Hd & Hw)].
  { left. exists e. unfold InboundClassified. by rewrite He. }
  destruct (decide (dir = peerDir (role s))) as [->|Hdir].
  2: { left. exists errBadDirection. unfold InboundClassified. rewrite Hp. mstep.
       by rewrite decide_True. }
  remember (dataMagic ++ [z2b dataVersion; f] ++ (Protocol.Session id : bytes) ++ be_bytes 8 (Number id)) as aad.
  assert (length aad = dataHeaderSize) as Ha by (subst aad; len). subst wire.
  pose proof (Inbound_open s prior id aad rest Hok Ha Hu Hp) as Hin.
  destruct (aead_open _ _ _ _) as [p|] eqn:Hopen; [|left; by eexists].
  destruct Hin as (w & ? & ? & ?). apply Valid_nonzero in Hv.
  right. exists id, aad, rest, p, w. unfold is_u64 in Hu. split_and!; [done|lia..|done|done|done|done|done|done].
Qed.

Lemma sendDir_is_dir r : is_dir (sendDir r).
Proof. destruct r; [by left|by right]. Qed.

Lemma Inbound_frame `{!AEADLaws} s prior r n p :
  session_ok s prior → peerDir (role s) = sendDir r → 0 < n < 2 ^ 64 →
  ∃ w, InboundClassified s (frame_of (sid s) (skey (slr s)) r n p)
         = Ret (set_window s w, Ok (p, decide_spec (width (window s)) prior n)) ∧
       session_ok (set_window s w) (n :: prior) ∧ width w = width (window s).
Proof.
  intros Hs Hdir Hn. pose proof Hs as [Hz Hk _ _].
  assert (is_u64 n) by (unfold is_u64; lia).
  pose proof (Inbound_open s prior (mkPacketID (sid s) n) (header_of (sid s) r n)
    (aead_seal (skey (slr s)) (nonce_bytes (sendDir r) n) p (header_of (sid s) r n)) Hs) as Hin.
  cbn [Number] in Hin. rewrite Hdir, aead_open_seal in Hin; [|done|apply length_nonce].
  apply Hin; [apply length_header_bytes|done|].
  apply parseHeader_header; [|done|apply sendDir_is_dir].
  by apply Valid_intro; [simpl; lia|].
Qed.

(** The packet number of a datagram, and a datagram of the peer under the key. *)
Definition number_of (d : bytes) : option Z :=
  match parseHeader d with Ret (Ok (id, _, _)) => Some (Number id) | _ => None end.
Definition genuine (s : Session) (d payload : bytes) : Prop :=
  ∃ n aad ct, number_of d = Some n ∧ d = aad ++ ct ∧
    aead_open (skey (slr s)) (nonce_bytes (peerDir (role s)) n) ct aad = Some payload.

(** [Inbound] returns, and a payload it reports first is that of a genuine datagram
    whose number was not seen before. *)
Lemma Inbound_delivers s prior d :
  session_ok s prior →
  ∃ w x prior', Inbound s d = Ret (set_window s w, x) ∧ session_ok (set_window s w) prior' ∧ (∀ n, n ∈ prior → n ∈ prior') ∧
    match x with
    | Ok (payload, true) => genuine s d payload ∧ ∃ n, number_of d = Some n ∧ (n ∉ prior) ∧ n ∈ prior'
    | _ => True
    end.
Proof.
  intros Hok. unfold Inbound.
  destruct (Inbound_cases s d prior Hok) as [[e ->]|(id & aad & ct & q & win & Hp & Hn & Hw & _ & Ho & -> & Hok' & _)]; mstep.
  { exists (window s), (Err e), prior. assert (set_window s (window s) = s) as -> by by destruct s. by split_and!. }
  eexists win, _, (Number id :: prior). split; [done|]. split; [done|]. split; [set_solver|].
  case_bool_decide as Hf; [|done]. assert (number_of d = Some (Number id)) as Hnum by (unfold number_of; by rewrite Hp).
  split; [by exists (Number id), aad, ct|]. exists (Number id). split; [done|]. split; [|set_solver].
  intros Hin. unfold decide_spec in Hf. repeat case_match; try done.
Qed.

(** ** Two endpoints and a network

    [Send r p] calls [Outbound] at endpoint [r]; [Recv r wire] hands an arbitrary
    datagram to [Inbound] at endpoint [r].  The world records, beside the two
    sessions, what was sent (payload and the datagram [Outbound] returned for it, in
    order) and every payload reported as a first copy. *)

Record world := mkWorld {
  client : Session;
  gateway : Session;
  sent : list (Role * (bytes * bytes));
  got : list (Role * Z * bytes)
}.

Inductive action := Send (r : Role) (p : bytes) | Recv (r : Role) (wire : bytes).

Definition peer (r : Role) : Role :=
  match r with RoleInitiator => RoleResponder | RoleResponder => RoleInitiator end.
Definition endpoint (r : Role) (w : world) : Session :=
  match r with RoleInitiator => client w | RoleResponder => gateway w end.
Definition put (r : Role) (s : Session) (w : world) : world :=
  match r with
  | RoleInitiator => mkWorld s (gateway w) (sent w) (got w)
  | RoleResponder => mkWorld (client w) s (sent w) (got w)
  end.
Definition log_sent (r : Role) (p wire : bytes) (w : world) : world :=
  mkWorld (client w) (gateway w) (sent w ++ [(r, (p, wire))]) (got w).
Definition log_got (r : Role) (n : Z) (p : bytes) (w : world) : world :=
  mkWorld (client w) (gateway w) (sent w) ((r, n, p) :: got w).

(** What endpoint [r] sent, in order: packet [n] is at index [n - 1]. *)
Definition sentBy (r : Role) (w : world) : list (bytes * bytes) :=
  (filter (λ x, x.1 = r) (sent w)).*2.

Definition step (w : world) (a : action) : go world :=
  match a with
  | Send r p =>
      '(s, res) ← Outbound (endpoint r w) p;
      match res with
      | Err _ => Ret (put r s w)
      | Ok wire => Ret (log_sent r p wire (put r s w))
      end
  | Recv r wire =>
      '(s, res) ← Inbound (endpoint r w) wire;
      h ← parseHeader wire;
      match res, h with
      | Ok (p, true), Ok (id, _, _) => Ret (log_got r (Number id) p (put r s w))
      | _, _ => Ret (put r s w)
      end
  end.

Fixpoint run (w : world) (acts : list action) : go world :=
  match acts with
  | [] => Ret w
  | a :: acts => w' ← step w a; run w' acts
  end.

Definition start (c g : Session) : world := mkWorld c g [] [].

(** Ciphertext integrity of the AEAD along a run: a datagram handed to an
    endpoint opens under the session key only if one of the two endpoints sent
    exactly that plaintext under that header before. *)
Definition authentic (w : world) (wire : bytes) : Prop :=
  ∀ nn p, aead_open (skey (slr (client w))) nn (drop dataHeaderSize wire) (take dataHeaderSize wire) = Some p →
    ∃ r wire', (r, (p, wire')) ∈ sent w ∧ take dataHeaderSize wire' = take dataHeaderSize wire.

(** The datagram an endpoint sent holds its payload sealed under [key] and the
    nonce [nn], with the bytes before the ciphertext as associated data. *)
Definition sealed_under (key nn : bytes) (x : Role * (bytes * bytes)) : Prop :=
  ∃ aad, x.2.2 = aad ++ aead_seal key nn x.2.1 aad.

Fixpoint unforged (w : world) (acts : list action) : Prop :=
  match acts with
  | [] => True
  | a :: acts =>
      (match a with Recv _ wire => authentic w wire | Send _ _ => True end) ∧
      (match step w a with Ret w' => unforged w' acts | Panic => True end)
  end.

Lemma endpoint_put r' r s w : endpoint r' (put r s w) = if decide (r' = r) then s else endpoint r' w.
Proof. by destruct r', r. Qed.
Lemma put_same r w : put r (endpoint r w) w = w.
Proof. by destruct r, w. Qed.
Lemma sentBy_put r' r s w : sentBy r' (put r s w) = sentBy r' w.
Proof. by destruct r. Qed.
Lemma sentBy_log_sent r' r p wire w :
  sentBy r' (log_sent r p wire w) =
    if decide (r' = r) then sentBy r' w ++ [(p, wire)] else sentBy r' w.
Proof.
  unfold sentBy, log_sent. cbn [sent]. rewrite filter_app, fmap_app. case_decide as Hr.
  - subst. by rewrite filter_cons_True.
  - rewrite filter_cons_False by (simpl; congruence). by rewrite app_nil_r.
Qed.

(** What the sending half maintains: each entry of the send log is a frame of its
    endpoint, sealed under a nonce of its own. *)
Record chan_ok (id : SessionID) (key : bytes) (prior : Role → list Z) (w : world) : Prop := {
  c_role r : role (endpoint r w) = r;
  c_sid r : sid (endpoint r w) = id;
  c_slr r : slr (endpoint r w) = mkSealer key;
  c_ok r : session_ok (endpoint r w) (prior r);
  c_next r : next (endpoint r w) = Z.of_nat (length (sentBy r w));
  c_wire r i p wire : sentBy r w !! i = Some (p, wire) → wire = frame_of id key r (Z.of_nat i + 1) p;
  c_sealed : ∃ nns, NoDup nns ∧ Forall2 (sealed_under key) nns (sent w) ∧
    ∀ nn, nn ∈ nns → ∃ r i, (i < length (sentBy r w))%nat ∧ nn = nonce_bytes (sendDir r) (Z.of_nat i + 1)
}.

Lemma sentBy_length r w : (length (sentBy r w) ≤ length (sent w))%nat.
Proof. unfold sentBy. rewrite length_fmap. apply length_filter. Qed.

Lemma chan_ok_start c g id key cap1 cap2 :
  is_i64 cap1 → is_i64 cap2 →
  NewSession id key RoleInitiator cap1 = Ret (Ok c) →
  NewSession id key RoleResponder cap2 = Ret (Ok g) →
  chan_ok id key (λ _, []) (start c g).
Proof.
  intros Hc1 Hc2 Hc Hg. apply NewSession_inv in Hc as (? & ? & ? & ? & ?); [|done].
  apply NewSession_inv in Hg as (? & ? & ? & ? & ?); [|done].
  split; try (by intros []). exists []. split; [constructor|]. split; [constructor|set_solver].
Qed.

(** One send: too long a payload changes nothing, any other is logged under the
    next number. *)
Lemma step_send id key prior w r p :
  chan_ok id key prior w → Z.of_nat (length (sent w)) < 2 ^ 64 - 1 →
  if decide (maxPayload < length p)%nat then step w (Send r p) = Ret w else
  let n := Z.of_nat (length (sentBy r w)) + 1 in
  step w (Send r p) = Ret (log_sent r p (frame_of id key r n p) (put r (set_next (endpoint r w) n) w)).
Proof.
  intros Hw Hl. pose proof (sentBy_length r w). unfold step. case_decide as Hp.
  { unfold Outbound. rewrite decide_True by done. mstep. by rewrite put_same. }
  rewrite Outbound_eq by lia. mstep.
  rewrite (c_next _ _ _ _ Hw), (c_sid _ _ _ _ Hw), (c_slr _ _ _ _ Hw), (c_role _ _ _ _ Hw).
  by rewrite u64_small by (unfold is_u64; lia).
Qed.

Lemma session_ok_next s prior n : session_ok s prior → is_u64 n → session_ok (set_next s n) prior.
Proof. by intros [] ?. Qed.

Lemma lookup_snoc_inv {A} (l : list A) x i y :
  (l ++ [x]) !! i = Some y → l !! i = Some y ∨ (i = length l ∧ y = x).
Proof.
  intros [?|[Hi Hy]]%lookup_app_Some; [by left|right].
  destruct (i - length l)%nat as [|k] eqn:E; [|done]. simplify_eq/=. split; [lia|done].
Qed.

(** A new entry at the end of the send log keeps the old ones. *)
Lemma sentBy_log_old r' r p wire w i x :
  sentBy r' w !! i = Some x → sentBy r' (log_sent r p wire w) !! i = Some x.
Proof. intros Hi. rewrite sentBy_log_sent. case_decide; [by apply lookup_app_l_Some|done]. Qed.

Lemma sendDir_inj r r' : sendDir r = sendDir r' → r = r'.
Proof. by destruct r, r'. Qed.

(** The nonce of the next packet is new. *)
Lemma fresh_nonce w r (nns : list bytes) :
  Z.of_nat (length (sent w)) < 2 ^ 64 - 1 →
  (∀ nn, nn ∈ nns → ∃ r i, (i < length (sentBy r w))%nat ∧ nn = nonce_bytes (sendDir r) (Z.of_nat i + 1)) →
  nonce_bytes (sendDir r) (Z.of_nat (length (sentBy r w)) + 1) ∉ nns.
Proof.
  intros Hl Hnns (r' & i & Hi & Hnn)%Hnns. pose proof (sentBy_length r w). pose proof (sentBy_length r' w).
  apply nonce_bytes_inj in Hnn as [Hd Hn]; [|unfold is_u64; lia..]. apply sendDir_inj in Hd as ->. lia.
Qed.

(** The world after endpoint [r] sends [p] as its next packet. *)
Definition sent_world (id : SessionID) (key : bytes) (r : Role) (p : bytes) (w : world) : world :=
  let n := Z.of_nat (length (sentBy r w)) + 1 in
  log_sent r p (frame_of id key r n p) (put r (set_next (endpoint r w) n) w).

Lemma endpoint_sent_world id key r p w r' :
  endpoint r' (sent_world id key r p w) =
    if decide (r' = r) then set_next (endpoint r w) (Z.of_nat (length (sentBy r w)) + 1) else endpoint r' w.
Proof.
  unfold sent_world. set (s := set_next _ _). change (endpoint r' (put r s w) = if decide (r' = r) then s else endpoint r' w).
  apply endpoint_put.
Qed.

Lemma chan_ok_sent id key prior w r p :
  chan_ok id key prior w → Z.of_nat (length (sent w)) < 2 ^ 64 - 1 →
  chan_ok id key prior (sent_world id key r p w).
Proof.
  intros Hw Hl. pose proof (sentBy_length r w) as Hlen. destruct Hw as [Hr Hi Hs Ho Hn Hwi (nns & Hnd & Hse & Hnns)].
  split.
  - intros r'. rewrite endpoint_sent_world. case_decide; [subst; apply Hr|done].
  - intros r'. rewrite endpoint_sent_world. case_decide; [subst; apply Hi|done].
  - intros r'. rewrite endpoint_sent_world. case_decide; [subst; apply Hs|done].
  - intros r'. rewrite endpoint_sent_world. case_decide; [subst|done].
    apply session_ok_next; [done|]. unfold is_u64. lia.
  - intros r'. rewrite endpoint_sent_world. unfold sent_world. rewrite sentBy_log_sent, sentBy_put.
    case_decide; [|done]. subst. rewrite length_app. simpl. lia.
  - intros r' i q wire. unfold sent_world. rewrite sentBy_log_sent, sentBy_put. case_decide; [|by eauto].
    intros [?|[-> [= -> ->]]]%lookup_snoc_inv; [by eauto|]. by subst.
  - exists (nns ++ [nonce_bytes (sendDir r) (Z.of_nat (length (sentBy r w)) + 1)]). split_and!.
    + apply NoDup_app. split; [done|]. split; [|apply NoDup_singleton]. intros nn Hin ->%list_elem_of_singleton.
      by apply (fresh_nonce w r nns Hl Hnns).
    + assert (sent (sent_world id key r p w) = sent w ++ [(r, (p, frame_of id key r (Z.of_nat (length (sentBy r w)) + 1) p))])
        as -> by by destruct r. apply Forall2_app; [done|]. constructor; [|constructor]. by eexists.
    + intros nn [Hin| ->%list_elem_of_singleton]%elem_of_app.
      * destruct (Hnns nn Hin) as (r' & i & [x Hx]%lookup_lt_is_Some_2 & ->). exists r', i. split; [|done].
        eapply lookup_lt_Some, sentBy_log_old. by rewrite sentBy_put.
      * exists r, (length (sentBy r w)). split; [|done]. unfold sent_world.
        rewrite sentBy_log_sent, decide_True, sentBy_put, length_app by done. cbn. lia.
Qed.

(** A step that sends: total, invariant kept, log and deliveries only grow. *)
Lemma send_keeps_chan id key prior w r p :
  chan_ok id key prior w → Z.of_nat (length (sent w)) < 2 ^ 64 - 1 →
  ∃ w', step w (Send r p) = Ret w' ∧ chan_ok id key prior w' ∧ got w' = got w ∧
    (length (sent w') ≤ S (length (sent w)))%nat ∧
    (∀ r' i x, sentBy r' w !! i = Some x → sentBy r' w' !! i = Some x) ∧
    (∀ r', window (endpoint r' w') = window (endpoint r' w)).
Proof.
  intros Hw Hl. pose proof (step_send id key prior w r p Hw Hl) as Hst.
  case_decide; [exists w; split_and!; [done..|lia|done|done]|].
  exists (sent_world id key r p w). split; [done|]. split; [by apply chan_ok_sent|].
  split; [by destruct r|]. split.
  { assert (sent (sent_world id key r p w) = sent w ++ [(r, (p, frame_of id key r (Z.of_nat (length (sentBy r w)) + 1) p))])
      as -> by by destruct r. rewrite length_app. simpl. lia. }
  split; [intros; apply sentBy_log_old; by rewrite sentBy_put|].
  intros r'. rewrite endpoint_sent_world. case_decide; [by subst|done].
Qed.

Definition observed (r : Role) (n : Z) (prior : Role → list Z) : Role → list Z :=
  λ r', if decide (r' = r) then n :: prior r' else prior r'.

Definition recv_world (r : Role) (n : Z) (p : bytes) (win : ReplayWindow) (first : bool) (w : world) : world :=
  let w' := put r (set_window (endpoint r w) win) w in
  if first then log_got r n p w' else w'.

Lemma endpoint_recv_world r n p win first w r' :
  endpoint r' (recv_world r n p win first w) =
    if decide (r' = r) then set_window (endpoint r w) win else endpoint r' w.
Proof. by destruct r, r', first. Qed.
Lemma sentBy_recv_world r n p win first w r' : sentBy r' (recv_world r n p win first w) = sentBy r' w.
Proof. by destruct r, first. Qed.
Lemma sent_recv_world r n p win first w : sent (recv_world r n p win first w) = sent w.
Proof. by destruct r, first. Qed.
Lemma got_recv_world r n p win first w :
  got (recv_world r n p win first w) = if first then (r, n, p) :: got w else got w.
Proof. by destruct r, first. Qed.

Lemma chan_ok_recv id key prior w r n p win first :
  chan_ok id key prior w → session_ok (set_window (endpoint r w) win) (n :: prior r) →
  chan_ok id key (observed r n prior) (recv_world r n p win first w).
Proof.
  intros [Hr Hi Hs Ho Hn Hwi Hse] Hwin. unfold observed.
  split; [intros r'; rewrite endpoint_recv_world, ?sentBy_recv_world; case_decide; subst; done || apply Hr
           || apply Hi || apply Hs || apply Hn..| |].
  - intros r'. rewrite sentBy_recv_world. apply Hwi.
  - rewrite sent_recv_world. destruct Hse as (nns & ? & ? & Hnns). exists nns. split_and!; try done.
    intros nn. setoid_rewrite sentBy_recv_world. apply Hnns.
Qed.

(** A step that receives: the datagram is rejected and nothing changes, or it
    opened and its number was observed. *)
Lemma step_recv id key prior w r wire :
  chan_ok id key prior w →
  step w (Recv r wire) = Ret w ∨
  ∃ n p win, 0 < n < 2 ^ 64 ∧ (∃ id', parseHeader wire = Ret (Ok (mkPacketID id' n, peerDir r, dataHeaderSize))) ∧
    aead_open key (nonce_bytes (peerDir r) n) (drop dataHeaderSize wire) (take dataHeaderSize wire) = Some p ∧
    width win = width (window (endpoint r w)) ∧
    let first := bool_decide (decide_spec (width (window (endpoint r w))) (prior r) n = ReplayFirstCopy) in
    step w (Recv r wire) = Ret (recv_world r n p win first w) ∧
    chan_ok id key (observed r n prior) (recv_world r n p win first w).
Proof.
  intros Hw. pose proof (c_role _ _ _ _ Hw r) as Hr. pose proof (c_slr _ _ _ _ Hw r) as Hs.
  destruct (Inbound_cases (endpoint r w) wire (prior r) (c_ok _ _ _ _ Hw r))
    as [[e He]|(pid & aad & ct & p & win & Hp & Hn & -> & Ha & Hopen & Hin & Hok & Hwd)].
  - left. unfold step, Inbound. rewrite He. mstep.
    destruct (parseHeader_spec wire) as [[e' ->]|(? & ? & ? & ? & -> & _)]; mstep; by rewrite put_same.
  - right. exists (Number pid), p, win. rewrite <-Ha, drop_app_length, take_app_length.
    rewrite Hr, Hs in Hopen. split; [done|]. split; [exists (Protocol.Session pid); rewrite Ha, <-Hr, Hp; by destruct pid|]. split; [done|]. split; [done|]. cbn zeta.
    split; [|by apply chan_ok_recv]. unfold step, Inbound. rewrite Hin. mstep. rewrite Hp. mstep.
    unfold recv_world. by destruct (bool_decide _).
Qed.

(** A datagram the peer sent always opens. *)
Lemma step_frame `{!AEADLaws} id key prior w r n p :
  chan_ok id key prior w → 0 < n < 2 ^ 64 →
  ∃ win, step w (Recv r (frame_of id key (peer r) n p)) = Ret (recv_world r n p win
    (bool_decide (decide_spec (width (window (endpoint r w))) (prior r) n = ReplayFirstCopy)) w).
Proof.
  intros Hw Hn. pose proof (c_ok _ _ _ _ Hw r) as Hok.
  destruct (Inbound_frame (endpoint r w) (prior r) (peer r) n p) as (win & Hin & _ & _); [done| |done|].
  { rewrite (c_role _ _ _ _ Hw). by destruct r. }
  rewrite (c_sid _ _ _ _ Hw), (c_slr _ _ _ _ Hw) in Hin. cbn [skey] in Hin.
  exists win. unfold step, Inbound. rewrite Hin. mstep. unfold frame_of, header_of.
  rewrite parseHeader_header; [|apply Valid_intro|unfold is_u64; simpl; lia|apply sendDir_is_dir].
  - mstep. unfold recv_world. by destruct (bool_decide _).
  - simpl. lia.
  - rewrite <-(c_sid _ _ _ _ Hw r). apply Hok.
Qed.

(** What the receiving half maintains when nothing was forged: each delivery is
    a packet the peer sent, no number is delivered twice, and an authenticated
    number was delivered or is behind the window. *)
Record recv_ok (prior : Role → list Z) (w : world) : Prop := {
  r_got r n p : (r, n, p) ∈ got w →
    n ∈ prior r ∧ 0 < n ∧ ∃ wire, sentBy (peer r) w !! Z.to_nat (n - 1) = Some (p, wire);
  r_nodup : NoDup (got w).*1;
  r_prior r n : n ∈ prior r →
    (r, n) ∈ (got w).*1 ∨ width (window (endpoint r w)) ≤ highest (prior r) - n
}.

Lemma highest_cons n prior : highest (n :: prior) = Z.max n (highest prior).
Proof. done. Qed.

(** An opened datagram was sent by the peer. *)
Lemma authentic_sent id key prior w r id' n p wire :
  chan_ok id key prior w → Z.of_nat (length (sent w)) < 2 ^ 64 → authentic w wire →
  parseHeader wire = Ret (Ok (mkPacketID id' n, peerDir r, dataHeaderSize)) →
  aead_open key (nonce_bytes (peerDir r) n) (drop dataHeaderSize wire) (take dataHeaderSize wire) = Some p →
  ∃ wire', sentBy (peer r) w !! Z.to_nat (n - 1) = Some (p, wire').
Proof.
  intros Hw Hl Hau Hp Hopen. unfold authentic in Hau.
  change (client w) with (endpoint RoleInitiator w) in Hau. rewrite (c_slr _ _ _ _ Hw) in Hau.
  apply Hau in Hopen as (r' & wire' & Hin & Htake). clear Hau.
  assert ((p, wire') ∈ sentBy r' w) as [i Hi]%list_elem_of_lookup_1.
  { apply list_elem_of_fmap. exists (r', (p, wire')). split; [done|]. by apply list_elem_of_filter. }
  pose proof (lookup_lt_Some _ _ _ Hi). pose proof (sentBy_length r' w).
  pose proof (c_wire _ _ _ _ Hw _ _ _ _ Hi) as ->. rewrite take_frame in Htake.
  rewrite <-(take_drop dataHeaderSize wire), <-Htake in Hp. unfold header_of in Hp.
  rewrite parseHeader_header in Hp; [|apply Valid_intro; [cbn; lia|]|unfold is_u64; cbn; lia|apply sendDir_is_dir].
  - injection Hp as _ <- Hd. assert (r' = peer r) as -> by by destruct r, r'. eexists. rewrite <-Hi. f_equal. lia.
  - rewrite <-(c_sid _ _ _ _ Hw r'). apply (c_ok _ _ _ _ Hw).
Qed.

Lemma recv_keeps id key prior w r id' n p win wire :
  chan_ok id key prior w → recv_ok prior w → Z.of_nat (length (sent w)) < 2 ^ 64 →
  authentic w wire → 0 < n < 2 ^ 64 → parseHeader wire = Ret (Ok (mkPacketID id' n, peerDir r, dataHeaderSize)) →
  width win = width (window (endpoint r w)) →
  aead_open key (nonce_bytes (peerDir r) n) (drop dataHeaderSize wire) (take dataHeaderSize wire) = Some p →
  let first := bool_decide (decide_spec (width (window (endpoint r w))) (prior r) n = ReplayFirstCopy) in
  recv_ok (observed r n prior) (recv_world r n p win first w).
Proof.
  intros Hw [Hg Hnd Hp] Hl Hau Hn Hh Hwd Hopen first.
  destruct (authentic_sent id key prior w r id' n p wire Hw Hl Hau Hh Hopen) as [wire' Hsent].
  assert (first = true → n ∉ prior r) as Hnew.
  { intros Hf%bool_decide_eq_true. by apply decide_first in Hf as (_ & ? & _). }
  assert (first = false → n ∈ prior r ∨ width (window (endpoint r w)) ≤ highest (prior r) - n) as Hold.
  { intros Hf%bool_decide_eq_false. destruct (decide (n ∈ prior r)); [by left|right].
    destruct (Z.le_gt_cases (width (window (endpoint r w))) (highest (prior r) - n)); [done|].
    exfalso. apply Hf, decide_first. split; [lia|done]. }
  split.
  - intros r' m q. rewrite got_recv_world, sentBy_recv_world. unfold observed.
    assert ((r', m, q) ∈ got w → (m ∈ if decide (r' = r) then n :: prior r' else prior r') ∧
      0 < m ∧ ∃ wr, sentBy (peer r') w !! Z.to_nat (m - 1) = Some (q, wr)) as Hin.
    { intros Hin. apply Hg in Hin as (? & ? & ?). split; [case_decide; set_solver|done]. }
    destruct first; [|done]. intros [[= -> -> ->]|?]%elem_of_cons; [|by apply Hin].
    rewrite decide_True by done. split; [set_solver|]. split; [lia|by eexists].
  - rewrite got_recv_world. destruct first eqn:Hf; [|done]. cbn. apply NoDup_cons. split; [|done].
    intros ([[r' m] q] & [= <- <-] & Hin)%list_elem_of_fmap. apply Hg in Hin as (? & _). by apply Hnew.
  - intros r' m Hin. rewrite got_recv_world, endpoint_recv_world.
    assert ((r', m) ∈ (got w).*1 → (r', m) ∈ (if first then (r, n, p) :: got w else got w).*1) as Hmono.
    { destruct first; [by right|done]. }
    unfold observed in *. case_decide as Hr; [subst r'|destruct (Hp _ _ Hin); auto].
    cbn [window set_window]. rewrite Hwd, highest_cons.
    assert (m ∈ prior r → (r, m) ∈ (got w).*1 ∨
      width (window (endpoint r w)) ≤ n `max` highest (prior r) - m) as Hpr.
    { intros Hm. destruct (Hp _ _ Hm); [auto|right; lia]. }
    apply elem_of_cons in Hin as [->|Hin]; [|destruct (Hpr Hin); auto].
    destruct first eqn:Hf; [left; by left|].
    destruct Hold as [Hin|]; [done|destruct (Hpr Hin); auto|right; lia].
Qed.

Lemma recv_ok_sent prior w w' :
  recv_ok prior w → got w' = got w →
  (∀ r i x, sentBy r w !! i = Some x → sentBy r w' !! i = Some x) →
  (∀ r, window (endpoint r w') = window (endpoint r w)) → recv_ok prior w'.
Proof.
  intros [Hg Hnd Hp] Hgot Hs Hwin. split; rewrite Hgot; [|done|intros r; rewrite Hwin; apply Hp].
  intros r n p Hin. apply Hg in Hin as (? & ? & wire & ?). eauto.
Qed.

(** ** Runs *)

Lemma run_chan id key prior w acts :
  chan_ok id key prior w → Z.of_nat (length (sent w) + length acts) < 2 ^ 64 →
  ∃ w' prior', run w acts = Ret w' ∧ chan_ok id key prior' w' ∧ (unforged w acts → recv_ok prior w → recv_ok prior' w').
Proof.
  revert prior w. induction acts as [|a acts IH]; intros prior w Hw Hl; simpl in Hl.
  { by exists w, prior. }
  cbn [run unforged]. destruct a as [r p|r wire].
  - destruct (send_keeps_chan id key prior w r p Hw) as (w1 & Hst & Hw1 & Hgot & Hlen & Hlog & Hwin); [lia|].
    rewrite Hst. mstep. destruct (IH prior w1 Hw1) as (w' & prior' & ? & ? & Hrec); [lia|].
    exists w', prior'. split; [done|]. split; [done|]. intros [_ Hu] Hr. apply Hrec; [done|].
    by eapply recv_ok_sent.
  - destruct (step_recv id key prior w r wire Hw) as [Hst|(n & p & win & Hn & [id' Hh] & Hopen & Hwd & Hst & Hw1)].
    + rewrite Hst. mstep. destruct (IH prior w Hw) as (w' & prior' & ? & ? & Hrec); [lia|].
      exists w', prior'. split; [done|]. split; [done|]. intros [_ Hu] Hr. by apply Hrec.
    + rewrite Hst. mstep. edestruct IH as (w' & prior' & Hrun & ? & Hrec);
        [exact Hw1|rewrite sent_recv_world; lia|].
      exists w', prior'. split; [done|]. split; [done|]. intros [Hau Hu] Hr. apply Hrec; [done|].
      eapply recv_keeps; try done. lia.
Qed.

(** ** Properties *)

Section properties.
Context `{!AEADLaws}.
Variables (id : SessionID) (key : bytes) (cap1 cap2 : Z) (c g : Session).

(** Two endpoints of one session, as the handshake creates them. *)
Definition opened : Prop :=
  is_i64 cap1 ∧ is_i64 cap2 ∧
  NewSession id key RoleInitiator cap1 = Ret (Ok c) ∧ NewSession id key RoleResponder cap2 = Ret (Ok g).

Lemma run_start acts :
  opened → Z.of_nat (length acts) < 2 ^ 64 →
  ∃ w prior, run (start c g) acts = Ret w ∧ chan_ok id key prior w ∧
    (unforged (start c g) acts → recv_ok prior w).
Proof.
  intros (H1 & H2 & Hc & Hg) Hl.
  destruct (run_chan id key (λ _, []) (start c g) acts) as (w & prior & ? & ? & Hr).
  - by apply (chan_ok_start c g id key cap1 cap2).
  - done.
  - exists w, prior. split; [done|]. split; [done|]. intros Hu. apply Hr; [done|].
    split; [intros ??? Hin; by apply elem_of_nil in Hin|constructor
           |intros ?? Hin; by apply elem_of_nil in Hin].
Qed.

(** C6: End-to-end delivery.  However the network drops, repeats, reorders and
    injects datagrams, a run of the two endpoints returns, no endpoint delivers
    one packet number twice, and every payload delivered under number [n] is the
    [n]-th payload the other endpoint sent (so a reflected or altered datagram
    is never delivered), provided the AEAD was not forged. *)
Theorem channel_exactly_once (acts : list action) :
  opened → Z.of_nat (length acts) < 2 ^ 64 → unforged (start c g) acts →
  ∃ w, run (start c g) acts = Ret w ∧ NoDup (got w).*1 ∧
    ∀ r n p, (r, n, p) ∈ got w → 0 < n ∧
      (fst <$> sentBy (peer r) w !! Z.to_nat (n - 1)) = Some p.
Proof.
  intros Ho Hl Hu. destruct (run_start acts Ho Hl) as (w & prior & Hrun & Hw & Hr).
  destruct (Hr Hu) as [Hg Hnd _]. exists w. split; [done|]. split; [done|].
  intros r n p Hin. destruct (Hg r n p Hin) as (_ & ? & wire & ->). done.
Qed.

(** C11: Nonces never repeat under a session key: over any run of fewer than 2^64
    calls, whatever is received, every datagram the two endpoints sent holds its
    payload sealed under the session key, and no two of them, of the same endpoint
    or of both, were sealed under the same nonce. *)
Theorem nonces_never_repeat (acts : list action) :
  opened → Z.of_nat (length acts) < 2 ^ 64 →
  ∃ w nonces, run (start c g) acts = Ret w ∧ Forall2 (sealed_under key) nonces (sent w) ∧ NoDup nonces.
Proof.
  intros Ho Hl. destruct (run_start acts Ho Hl) as (w & prior & Hrun & Hw & _).
  destruct (c_sealed _ _ _ _ Hw) as (nns & ? & ? & _). by exists w, nns.
Qed.

(** A packet inside the window is not lost to the replay filter: whenever a
    datagram the peer sent arrives and its number trails the highest number
    authenticated so far by less than the window width, it is delivered, unless
    it was delivered before. *)
Theorem in_window_delivered (acts : list action) (w : world) (r : Role) (i : nat) (p wire : bytes) :
  opened → Z.of_nat (length acts) < 2 ^ 64 → unforged (start c g) acts →
  run (start c g) acts = Ret w →
  sentBy (peer r) w !! i = Some (p, wire) →
  let n := Z.of_nat i + 1 in
  last (window (endpoint r w)) - n < Width (window (endpoint r w)) →
  ∃ w', step w (Recv r wire) = Ret w' ∧
    got w' = if decide ((r, n) ∈ (got w).*1) then got w else (r, n, p) :: got w.
Proof.
  intros Ho Hl Hu Hrun Hi n Hwin. destruct (run_start acts Ho Hl) as (w' & prior & Hrun' & Hw & Hr).
  rewrite Hrun in Hrun'. apply (inj Ret) in Hrun' as <-. destruct (Hr Hu) as [Hg _ Hp].
  pose proof (c_ok _ _ _ _ Hw r) as Hok. pose proof (lookup_lt_Some _ _ _ Hi).
  assert (0 < n < 2 ^ 64) as Hn.
  { pose proof (so_next _ _ (c_ok _ _ _ _ Hw (peer r))) as Hu64.
    rewrite (c_next _ _ _ _ Hw) in Hu64. unfold is_u64 in Hu64. lia. }
  apply (c_wire _ _ _ _ Hw) in Hi as ->. fold n.
  destruct (step_frame id key prior w r n p Hw Hn) as (win & ->).
  eexists. split; [done|]. rewrite got_recv_world.
  unfold Width in Hwin. rewrite (sim_last _ _ (so_window _ _ Hok)) in Hwin.
  case_decide as Hin; case_bool_decide as Hf; try done; exfalso.
  - apply list_elem_of_fmap in Hin as ([[r' m] q] & [= <- <-] & Hin).
    apply decide_first in Hf as (_ & Hf & _). by apply Hg in Hin as [? _].
  - apply Hf, decide_first. split; [lia|]. split; [|done]. intros Hpr.
    destruct (Hp _ _ Hpr); [done|lia].
Qed.

End properties.

(** A session returns on every datagram: what is rejected leaves the session,
    its replay window included, exactly as it was; what is accepted has the
    peer's direction, opened under the nonce of the number in its own header
    with that header authenticated, and is classified by the history of the
    numbers authenticated before it. *)
Theorem inbound_authenticates (s : Session) (prior : list Z) (wire : bytes) :
  session_ok s prior →
  ∃ s' res, InboundClassified s wire = Ret (s', res) ∧
    match res with
    | Err _ => s' = s
    | Ok (p, d) => ∃ id,
        parseHeader wire = Ret (Ok (id, peerDir (role s), dataHeaderSize)) ∧
        open (slr s) (peerDir (role s)) id (take dataHeaderSize wire) (drop dataHeaderSize wire) = Ret (Ok p) ∧
        d = decide_spec (Width (window s)) prior (Number id) ∧ session_ok s' (Number id :: prior)
    end.
Proof.
  intros Hs. destruct (Inbound_cases s wire prior Hs)
    as [[e ->]|(id & aad & ct & p & win & Hp & Hn & -> & Ha & Hopen & -> & Hok & _)]; [by eexists _, _|].
  eexists _, _. split; [done|]. exists id. split; [done|].
  rewrite <-Ha, take_app_length, drop_app_length. split; [|done].
  unfold open. rewrite nonce_layout. mstep. fold (nonce_bytes (peerDir (role s)) (Number id)).
  by rewrite Hopen.
Qed.

(** The packet counter is a [uint64] without a limit: after 2^64 - 1 packets the
    next one is number 0, which no receiver accepts, and the one after it is
    sealed under the nonce of the first packet of the session. *)
Lemma outbound_wraps s p q :
  (length p ≤ maxPayload)%nat → (length q ≤ maxPayload)%nat → next s = 2 ^ 64 - 1 →
  ∃ s1 s2 w1, Outbound s p = Ret (s1, Ok w1) ∧ parseHeader w1 = Ret (Err errBadIdentity) ∧
    Outbound s1 q = Ret (s2, Ok (frame_of (sid s) (skey (slr s)) (role s) 1 q)).
Proof.
  intros Hp Hq Hn. rewrite Outbound_eq, Hn by done. change (u64 (2 ^ 64 - 1 + 1)) with 0.
  eexists _, _, _. split; [done|]. split; [|rewrite Outbound_eq by done; done].
  unfold frame_of, header_of, header_bytes. rewrite <-!app_assoc, parseHeader_fields by len.
  rewrite decide_False by naive_solver. change (b2z (z2b dataVersion) =? dataVersion) with true. cbn [negb].
  cbn [Number]. change (be_val (be_bytes 8 0)) with 0. unfold Valid. cbn [Number].
  by rewrite andb_false_r.
Qed.

End ops.

(** ** Witnesses, at the toy cipher *)

Module Witness.
Import Toy.

Definition check_wire (w : world) (wire : bytes) : bool :=
  let c := drop dataHeaderSize wire in
  let a := take dataHeaderSize wire in
  negb (bool_decide (c = Toy.seal (skey (slr (client w))) (nonce_in c) (plain_in c) a)) ||
  existsb (λ x, bool_decide (x.2.1 = plain_in c ∧ take dataHeaderSize x.2.2 = a)) (sent w).

Lemma check_wire_authentic w wire : check_wire w wire = true → authentic w wire.
Proof.
  unfold check_wire. intros Hc nn p (-> & -> & Hs)%open_inv.
  apply orb_true_iff in Hc as [Hc|Hc]; [by rewrite bool_decide_true in Hc|].
  apply existsb_exists in Hc as ([r [q wire']] & Hin & [Hq Ha]%bool_decide_eq_true).
  cbn in Hq. subst q. exists r, wire'. by rewrite list_elem_of_In.
Qed.

Fixpoint check_run (w : world) (acts : list action) : bool :=
  match acts with
  | [] => true
  | a :: acts =>
      (match a with Recv _ wire => check_wire w wire | Send _ _ => true end) &&
      (match step w a with Ret w' => check_run w' acts | Panic => true end)
  end.

Lemma check_run_unforged w acts : check_run w acts = true → unforged w acts.
Proof.
  revert w. induction acts as [|a acts IH]; intros w; [done|]. cbn [check_run unforged].
  intros [H1 H2]%andb_true_iff. split; [destruct a; [done|by apply check_wire_authentic]|].
  destruct (step w a); [by apply IH|done].
Qed.

Definition id1 : SessionID := arr 16 (gs "session-id-00001").
Definition key1 : bytes := gs "0123456789abcdef0123456789abcdef".
Definition new (r : Role) : Session := mkSession id1 r (mkSealer key1) zeroIPv4 0 (fresh_window 1).
Definition pkt (r : Role) (n : Z) (p : string) : bytes := frame_of id1 key1 r n (gs p).

(** Two packets out of order and repeated, a reflected one, an altered one and
    one whose last byte is missing. *)
Definition acts1 : list action :=
  [Send RoleInitiator (gs "alpha"); Send RoleInitiator (gs "beta"); Send RoleResponder (gs "gamma");
   Recv RoleResponder (pkt RoleInitiator 2 "beta"); Recv RoleResponder (pkt RoleInitiator 1 "alpha");
   Recv RoleResponder (pkt RoleInitiator 2 "beta"); Recv RoleInitiator (pkt RoleInitiator 1 "alpha");
   Recv RoleResponder (<[30%nat := "X"%char]> (pkt RoleInitiator 2 "beta")); Recv RoleInitiator (removelast (pkt RoleResponder 1 "gamma"))].

Lemma opened1 : opened id1 key1 64 64 (new RoleInitiator) (new RoleResponder).
Proof. unfold opened, is_i64. split_and!; [lia..|vm_compute; reflexivity|vm_compute; reflexivity]. Qed.

Lemma unforged1 : unforged (start (new RoleInitiator) (new RoleResponder)) acts1.
Proof. apply check_run_unforged. vm_compute. reflexivity. Qed.

Lemma channel_exactly_once_witness :
  ∃ w, run (start (new RoleInitiator) (new RoleResponder)) acts1 = Ret w ∧ NoDup (got w).*1 ∧
    ∀ r n p, (r, n, p) ∈ got w → 0 < n ∧
      (fst <$> sentBy (peer r) w !! Z.to_nat (n - 1)) = Some p.
Proof.
  apply (channel_exactly_once id1 key1 64 64 (new RoleInitiator) (new RoleResponder) acts1).
  - exact opened1.
  - cbn [length acts1]. lia.
  - exact unforged1.
Defined.

Lemma nonces_never_repeat_witness :
  ∃ w nonces, run (start (new RoleInitiator) (new RoleResponder)) acts1 = Ret w ∧
    Forall2 (sealed_under key1) nonces (sent w) ∧ NoDup nonces.
Proof.
  apply (nonces_never_repeat id1 key1 64 64 (new RoleInitiator) (new RoleResponder) acts1).
  - exact opened1.
  - cbn [length acts1]. lia.
Defined.

(** The deliveries of [acts1]. *)
Lemma acts1_got :
  (got <$> (match run (start (new RoleInitiator) (new RoleResponder)) acts1 with Ret w => Some w | Panic => None end))
  = Some [(RoleResponder, 1, gs "alpha"); (RoleResponder, 2, gs "beta")].
Proof. vm_compute. reflexivity. Qed.

Definition obs1 (r : go world) : option (bytes * bytes) * bool :=
  match r with
  | Ret w => (sentBy RoleResponder w !! 0%nat,
              last (window (client w)) - 1 <? Width (window (client w)))
  | Panic => (None, false)
  end.

Lemma obs1_run :
  obs1 (run (start (new RoleInitiator) (new RoleResponder)) acts1)
  = (Some (gs "gamma", pkt RoleResponder 1 "gamma"), true).
Proof. vm_compute. reflexivity. Qed.

Lemma in_window_delivered_witness :
  ∃ w, run (start (new RoleInitiator) (new RoleResponder)) acts1 = Ret w ∧
  ∃ w', step w (Recv RoleInitiator (pkt RoleResponder 1 "gamma")) = Ret w' ∧
    got w' = if decide ((RoleInitiator, Z.of_nat 0 + 1) ∈ (got w).*1) then got w
             else (RoleInitiator, Z.of_nat 0 + 1, gs "gamma") :: got w.
Proof.
  destruct (run_start id1 key1 64 64 (new RoleInitiator) (new RoleResponder) acts1 opened1)
    as (w & _ & Hrun & _); [cbn [length acts1]; lia|].
  exists w. split; [exact Hrun|].
  pose proof obs1_run as Hobs. rewrite Hrun in Hobs.
  pose proof (f_equal fst Hobs) as Hi. pose proof (f_equal snd Hobs) as Hn. cbn [fst snd obs1] in Hi, Hn.
  refine (in_window_delivered id1 key1 64 64 (new RoleInitiator) (new RoleResponder) acts1 w
           RoleInitiator 0 (gs "gamma") (pkt RoleResponder 1 "gamma") opened1 _ unforged1 Hrun _ _).
  - cbn [length acts1]. lia.
  - exact Hi.
  - apply Z.ltb_lt. exact Hn.
Defined.

Lemma inbound_authenticates_witness :
  ∃ s' res, InboundClassified (new RoleResponder) (pkt RoleInitiator 7 "alpha") = Ret (s', res) ∧
    match res with
    | Err _ => s' = new RoleResponder
    | Ok (p, d) => ∃ id,
        parseHeader (pkt RoleInitiator 7 "alpha")
          = Ret (Ok (id, peerDir (role (new RoleResponder)), dataHeaderSize)) ∧
        Session.open (slr (new RoleResponder)) (peerDir (role (new RoleResponder))) id
          (take dataHeaderSize (pkt RoleInitiator 7 "alpha")) (drop dataHeaderSize (pkt RoleInitiator 7 "alpha"))
          = Ret (Ok p) ∧
        d = decide_spec (Width (window (new RoleResponder))) [] (Number id) ∧
        session_ok s' [Number id]
    end.
Proof.
  apply (inbound_authenticates (new RoleResponder) [] (pkt RoleInitiator 7 "alpha")).
  destruct opened1 as (_ & Hc & _ & Hg).
  by destruct (NewSession_inv id1 key1 RoleResponder 64 (new RoleResponder) Hc Hg).
Defined.

End Witness.
End Session.
