(* ===== verification/GoTime.v ===== *)
(** * Package time, as the program uses it

    [Time] is a wall-clock instant (seconds since year 1, nanoseconds),
    [Duration] an [int64] of nanoseconds.  [Unix], [Add], [Sub], [Before] and
    [Equal] follow the Go library: seconds wrap in [time.Unix], saturate in
    [Add], and [Sub] saturates at [minDuration] and [maxDuration]. *)

From S2P Require Import Prelude.

Module GoTime.

Record Time := mkTime { sec : Z; nsec : Z }.
#[global] Instance Time_eq_dec : EqDecision Time.
Proof. solve_decision. Defined.

Definition Second : Z := 1000000000.
Definition Minute : Z := 60 * Second.
Definition Hour : Z := 60 * Minute.
Definition minDuration : Z := - 2 ^ 63.
Definition maxDuration : Z := 2 ^ 63 - 1.
Definition unixToInternal : Z := 62135596800.

(** [time.Unix(s, 0)] and [t.Unix()] *)
Definition Unix (s : Z) : Time := mkTime (i64 (s + unixToInternal)) 0.
Definition unix (t : Time) : Z := i64 (sec t - unixToInternal).

Definition addSec (s d : Z) : Z :=
  let sum := i64 (s + d) in
  if Bool.eqb (sum >? s) (d >? 0) then sum
  else if d >? 0 then 2 ^ 63 - 1 else - (2 ^ 63 - 1).

Definition Add (t : Time) (d : Z) : Time :=
  let dsec := Z.quot d Second in
  let ns := nsec t + Z.rem d Second in
  let '(dsec, ns) :=
    if ns >=? Second then (dsec + 1, ns - Second)
    else if ns <? 0 then (dsec - 1, ns + Second) else (dsec, ns) in
  mkTime (addSec (sec t) dsec) ns.

Definition Equal (t u : Time) : bool := (sec t =? sec u) && (nsec t =? nsec u).
Definition Before (t u : Time) : bool :=
  (sec t <? sec u) || (sec t =? sec u) && (nsec t <? nsec u).
Definition After (t u : Time) : bool := Before u t.

Definition Sub (t u : Time) : Z :=
  let d := i64 (i64 (i64 (sec t - sec u) * Second) + (nsec t - nsec u)) in
  if Equal (Add u d) t then d
  else if Before t u then minDuration else maxDuration.

(** [skew := t.Sub(u); if skew < 0 { skew = -skew }], as the freshness checks
    of the program write it: [-minDuration] is [minDuration]. *)
Definition abs_duration (d : Z) : Z := if d <? 0 then i64 (- d) else d.

(** ** Instants and durations as integers *)

Definition wf (t : Time) : Prop := is_i64 (sec t) ∧ 0 ≤ nsec t < Second.

(** A clock reading: an instant some billions of years around year 1. *)
Definition plain (t : Time) : Prop := - 2 ^ 62 < sec t < 2 ^ 62 ∧ 0 ≤ nsec t < Second.

Definition nanos (t : Time) : Z := sec t * Second + nsec t.

Definition clamp (d : Z) : Z := Z.max minDuration (Z.min maxDuration d).

Lemma plain_wf t : plain t → wf t.
Proof. unfold plain, wf, is_i64. lia. Qed.

Lemma addSec_spec s d :
  is_i64 s → is_i64 d →
  (is_i64 (s + d) → addSec s d = s + d) ∧
  (¬ is_i64 (s + d) → addSec s d = 2 ^ 63 - 1 ∨ addSec s d = - (2 ^ 63 - 1)).
Proof.
  intros Hs Hd. unfold addSec. split; intros H.
  - rewrite i64_small by done. rewrite !Z.gtb_ltb.
    destruct (Z.ltb_spec s (s + d)), (Z.ltb_spec 0 d); simpl; lia.
  - destruct (Bool.eqb _ _) eqn:E; [exfalso|case_match; auto].
    unfold is_i64 in *. rewrite !Z.gtb_ltb in E. unfold i64 in E.
    destruct (Z.lt_ge_cases d 0).
    + rewrite <-(Z_mod_plus_full _ 1), Z.mod_small in E by lia.
      destruct (Z.ltb_spec s (s + d + 2 ^ 63 + 1 * 2 ^ 64 - 2 ^ 63)), (Z.ltb_spec 0 d); simpl in E; lia || done.
    + rewrite <-(Z_mod_plus_full _ (-1)), Z.mod_small in E by lia.
      destruct (Z.ltb_spec s (s + d + 2 ^ 63 + -1 * 2 ^ 64 - 2 ^ 63)), (Z.ltb_spec 0 d); simpl in E; lia || done.
Qed.

(** [Add] is exact, or the seconds are pinned to an end of the range. *)
Lemma Add_spec t d :
  wf t → is_i64 d →
  (nanos (Add t d) = nanos t + d ∨ sec (Add t d) = 2 ^ 63 - 1 ∨ sec (Add t d) = - (2 ^ 63 - 1)) ∧
  0 ≤ nsec (Add t d) < Second ∧
  (∀ u, wf u → nanos t + d = nanos u → Add t d = u).
Proof.
  intros [Hs Hn] Hd. unfold Add.
  assert (∃ q r, (if nsec t + Z.rem d Second >=? Second then (Z.quot d Second + 1, nsec t + Z.rem d Second - Second)
     else if nsec t + Z.rem d Second <? 0 then (Z.quot d Second - 1, nsec t + Z.rem d Second + Second)
     else (Z.quot d Second, nsec t + Z.rem d Second)) = (q, r) ∧
     q * Second + r = nsec t + d ∧ 0 ≤ r < Second ∧ is_i64 q) as (q & r & -> & Hqr & Hr & Hq).
  { unfold is_i64 in *. pose proof (Z.quot_rem' d Second) as E.
    rewrite Z.geb_leb. unfold Second in *.
    pose proof (Z.rem_bound_abs d 1000000000 ltac:(lia)).
    destruct (Z.leb_spec 1000000000 (nsec t + Z.rem d 1000000000));
      [|destruct (Z.ltb_spec (nsec t + Z.rem d 1000000000) 0)];
      eexists _, _; (split; [done|]); lia. }
  destruct (addSec_spec (sec t) q Hs Hq) as [Hin Hout]. unfold nanos. cbn [sec nsec].
  split; [|split; [done|]].
  - destruct (decide (- 2 ^ 63 ≤ sec t + q < 2 ^ 63)) as [Hi|Hi].
    + left. rewrite Hin by done. lia.
    + right. by apply Hout.
  - intros u [Hu Hun] E. unfold Second in *. assert (sec t + q = sec u ∧ r = nsec u) as [E1 E2] by lia.
    rewrite Hin by (by rewrite E1). destruct u. simpl in *. by subst.
Qed.

Lemma i64_diff z : ∃ k, i64 z = z + k * 2 ^ 64.
Proof.
  exists (- ((z + 2 ^ 63) / 2 ^ 64)). unfold i64. rewrite Z.mod_eq by lia. lia.
Qed.

(** [Sub] is the exact difference, clamped to the range of [Duration]. *)
Lemma Sub_spec t u : plain t → wf u → Sub t u = clamp (nanos t - nanos u).
Proof.
  intros Ht Hu. unfold Sub. set (d := i64 _).
  assert (∃ k, d = nanos t - nanos u + k * 2 ^ 64) as [k Hk].
  { unfold d, nanos. destruct (i64_diff (sec t - sec u)) as [k1 E1].
    destruct (i64_diff (i64 (sec t - sec u) * Second)) as [k2 E2].
    destruct (i64_diff (i64 (i64 (sec t - sec u) * Second) + (nsec t - nsec u))) as [k3 E3].
    exists (k1 * Second + k2 + k3). rewrite E3, E2, E1. lia. }
  assert (is_i64 d) as Hd by apply i64_range.
  destruct (Add_spec u d Hu Hd) as (Hadd & Hns & Hex). unfold clamp, minDuration, maxDuration.
  destruct (decide (- 2 ^ 63 ≤ nanos t - nanos u < 2 ^ 63)) as [Hi|Hi].
  - assert (d = nanos t - nanos u) as Hdd by (unfold is_i64 in Hd; lia).
    rewrite (Hex t) by (done || apply plain_wf, Ht || lia). unfold Equal. rewrite !Z.eqb_refl. simpl. lia.
  - assert (Equal (Add u d) t = false) as ->.
    { apply not_true_is_false. unfold Equal. intros [E1%Z.eqb_eq E2%Z.eqb_eq]%andb_true_iff.
      destruct Hadd as [Hadd|Hadd].
      - unfold nanos in Hadd at 1. rewrite E1, E2 in Hadd. fold (nanos t) in Hadd. unfold is_i64 in Hd. lia.
      - rewrite E1 in Hadd. unfold plain in Ht. lia. }
    destruct Ht as [_ Hnt], Hu as [_ Hnu]. unfold Before, nanos, Second in *.
    destruct (Z.ltb_spec (sec t) (sec u)), (Z.eqb_spec (sec t) (sec u)), (Z.ltb_spec (nsec t) (nsec u));
      cbn [orb andb]; lia.
Qed.

Lemma abs_duration_spec d :
  is_i64 d → abs_duration d = if d =? minDuration then minDuration else Z.abs d.
Proof.
  unfold is_i64, abs_duration, minDuration. intros Hd.
  destruct (Z.ltb_spec d 0), (Z.eqb_spec d (- 2 ^ 63)) as [->|]; [done| |lia..].
  rewrite i64_small by (unfold is_i64; lia). lia.
Qed.

Lemma clamp_i64 d : is_i64 (clamp d).
Proof. unfold clamp, is_i64, minDuration, maxDuration. lia. Qed.

(** The skew between two instants as the freshness checks compute it: exact, or
    clamped above, but [minDuration] (a negative number) when the second instant
    lies 2^63 nanoseconds (about 292 years) or more after the first. *)
Lemma skew_spec t u :
  plain t → wf u →
  abs_duration (Sub t u) =
    if nanos t - nanos u <=? minDuration then minDuration
    else Z.min maxDuration (Z.abs (nanos t - nanos u)).
Proof.
  intros Ht Hu. rewrite Sub_spec, abs_duration_spec by (done || apply clamp_i64).
  unfold clamp, minDuration, maxDuration.
  destruct (Z.leb_spec (nanos t - nanos u) (- 2 ^ 63)), (Z.eqb_spec (Z.max (- 2 ^ 63) (Z.min (2 ^ 63 - 1) (nanos t - nanos u))) (- 2 ^ 63)); lia.
Qed.

Lemma Unix_wf s : wf (Unix s).
Proof. split; [apply i64_range|]. simpl. unfold Second. lia. Qed.

(** Adding a duration to a clock reading is exact. *)
Lemma Add_exact t d : plain t → is_i64 d → nanos (Add t d) = nanos t + d ∧ 0 ≤ nsec (Add t d) < Second.
Proof.
  intros Ht Hd. destruct (Add_spec t d (plain_wf t Ht) Hd) as (_ & Hns & Hex). split; [|done].
  set (z := nanos t + d).
  pose proof (Z.div_mod z Second ltac:(done)). pose proof (Z.mod_pos_bound z Second ltac:(done)).
  rewrite (Hex (mkTime (z / Second) (z mod Second))).
  - unfold nanos at 1. cbn [sec nsec]. lia.
  - split; [|done]. cbn [sec]. unfold z, nanos, plain, is_i64, Second in *. lia.
  - unfold nanos at 2. cbn [sec nsec]. lia.
Qed.

Lemma After_spec t u :
  0 ≤ nsec t < Second → 0 ≤ nsec u < Second → After t u = (nanos u <? nanos t).
Proof.
  intros Ht Hu. unfold After, Before, nanos, Second in *.
  destruct (Z.ltb_spec (sec u) (sec t)), (Z.eqb_spec (sec u) (sec t)), (Z.ltb_spec (nsec u) (nsec t));
    cbn [orb andb]; symmetry; (apply Z.ltb_lt || apply Z.ltb_ge); lia.
Qed.

End GoTime.
