(* ===== verification/GoDuration.v ===== *)
(** * [time.Duration] as text: [ParseDuration], [Round] and [String]

    A duration is an [int64] of nanoseconds.  [ParseDuration] reads fractions with
    [float64] arithmetic, here that of [spec_float] with the binary64 parameters. *)

From Stdlib Require Import Floats.SpecFloat.
From S2P Require Import Prelude GoText GoTime.
Import GoTime.

Module Duration.

Definition Microsecond : Z := 1000.
Definition Millisecond : Z := 1000000.

(** ** float64 *)

Definition of_int (z : Z) : spec_float := binary_normalize 53 1024 z 0 false.
Definition fmul (x y : spec_float) : spec_float := SFmul 53 1024 x y.
Definition fdiv (x y : spec_float) : spec_float := SFdiv 53 1024 x y.
(** The conversion of a non-negative [float64] to [uint64]. *)
Definition truncate (x : spec_float) : Z :=
  match x with
  | S754_finite false m e => if 0 <=? e then Zpos m * 2 ^ e else Zpos m / 2 ^ (- e)
  | _ => 0
  end.

(** ** ParseDuration *)

Definition is_digit (c : byte) : bool := (48 <=? b2z c) && (b2z c <=? 57).
Definition dot : byte := "."%char.

(** [leadingInt]; [None] on overflow. *)
Fixpoint leadingInt (x : Z) (s : bytes) : option (Z * bytes) :=
  match s with
  | c :: rest =>
      if negb (is_digit c) then Some (x, s) else
      if x >? 2 ^ 63 / 10 then None else
      let x := x * 10 + (b2z c - 48) in
      if x >? 2 ^ 63 then None else leadingInt x rest
  | [] => Some (x, [])
  end.

(** [leadingFraction]: digits that would overflow are skipped. *)
Fixpoint leadingFraction (x : Z) (scale : spec_float) (overflow : bool) (s : bytes) : Z * spec_float * bytes :=
  match s with
  | c :: rest =>
      if negb (is_digit c) then (x, scale, s) else
      if overflow then leadingFraction x scale true rest else
      if x >? (2 ^ 63 - 1) / 10 then leadingFraction x scale true rest else
      let y := x * 10 + (b2z c - 48) in
      if y >? 2 ^ 63 then leadingFraction x scale true rest
      else leadingFraction y (fmul scale (of_int 10)) false rest
  | [] => (x, scale, [])
  end.

Definition unitMap (u : bytes) : option Z :=
  if decide (u = gs "ns") then Some 1
  else if decide (u = gs "us" ∨ u = [z2b 0xC2; z2b 0xB5; "s"%char] ∨ u = [z2b 0xCE; z2b 0xBC; "s"%char]) then Some Microsecond
  else if decide (u = gs "ms") then Some Millisecond
  else if decide (u = gs "s") then Some Second
  else if decide (u = gs "m") then Some Minute
  else if decide (u = gs "h") then Some Hour
  else None.

(** The unit: what precedes the next digit or period. *)
Fixpoint span_unit (s : bytes) : bytes * bytes :=
  match s with
  | c :: rest =>
      if bool_decide (c = dot) || is_digit c then ([], s)
      else let '(u, r) := span_unit rest in (c :: u, r)
  | [] => ([], [])
  end.

(** One number and unit: the nanoseconds and the rest. *)
Definition one_term (s : bytes) : option (Z * bytes) :=
  match s with
  | [] => None
  | c :: _ =>
      if negb (bool_decide (c = dot) || is_digit c) then None else
      '(v, s1) ← leadingInt 0 s;
      let pre := negb (length s1 =? length s)%nat in
      let '(f, scale, s2, post) :=
        match s1 with
        | c :: rest => if decide (c = dot) then
                         let '(f, scale, r) := leadingFraction 0 (of_int 1) false rest in
                         (f, scale, r, negb (length r =? length rest)%nat)
                       else (0, of_int 1, s1, false)
        | [] => (0, of_int 1, s1, false)
        end in
      if negb pre && negb post then None else
      let '(u, s3) := span_unit s2 in
      match u with
      | [] => None
      | _ =>
          unit ← unitMap u;
          if v >? 2 ^ 63 / unit then None else
          let v := v * unit in
          let v' := if f >? 0 then u64 (v + truncate (fmul (of_int f) (fdiv (of_int unit) scale))) else v in
          if (f >? 0) && (v' >? 2 ^ 63) then None else Some (v', s3)
      end
  end.

Fixpoint terms (fuel : nat) (d : Z) (s : bytes) : option Z :=
  match fuel, s with
  | _, [] => Some d
  | O, _ => None
  | S k, _ => '(v, rest) ← one_term s; let d := u64 (d + v) in if d >? 2 ^ 63 then None else terms k d rest
  end.

Definition ParseDuration (s : bytes) : option Z :=
  let '(neg, s) := match s with
                   | c :: rest => if decide (c = "-"%char) then (true, rest)
                                  else if decide (c = "+"%char) then (false, rest) else (false, s)
                   | [] => (false, [])
                   end in
  if decide (s = gs "0") then Some 0 else
  if decide (s = []) then None else
  d ← terms (length s) 0 s;
  if (neg : bool) then Some (i64 (- i64 d)) else if d >? 2 ^ 63 - 1 then None else Some d.

(** ** Round *)

Definition lessThanHalf (x y : Z) : bool := u64 (u64 x + u64 x) <? u64 y.
Definition Round (d m : Z) : Z :=
  if m <=? 0 then d else
  let r := Z.rem d m in
  if d <? 0 then
    let r := - r in
    if lessThanHalf r m then i64 (d + r) else
    let d1 := i64 (i64 (d - m) + r) in if d1 <? d then d1 else minDuration
  else
    if lessThanHalf r m then d - r else
    let d1 := i64 (i64 (d + m) - r) in if d1 >? d then d1 else maxDuration.

(** ** String *)

(** [fmtFrac]: the last [prec] digits without trailing zeros, in front of [buf]. *)
Fixpoint fmtFrac (prec : nat) (print : bool) (v : Z) (buf : bytes) : Z * bytes :=
  match prec with
  | O => (v, if print then dot :: buf else buf)
  | S k =>
      let digit := v mod 10 in
      let print := print || negb (digit =? 0) in
      fmtFrac k print (v / 10) (if print then z2b (digit + 48) :: buf else buf)
  end.
Definition fmtInt (v : Z) (buf : bytes) : bytes := Strconv.format_digits 20 10 v ++ buf.

Definition String (d : Z) : bytes :=
  let neg := d <? 0 in
  let u := if neg then u64 (- d) else d in
  let body :=
    if u <? Second then
      if u =? 0 then gs "0s" else
      let '(prec, unit) := if u <? Microsecond then (0%nat, gs "ns")
                           else if u <? Millisecond then (3%nat, [z2b 0xC2; z2b 0xB5; "s"%char])
                           else (6%nat, gs "ms") in
      let '(u, buf) := fmtFrac prec false u unit in fmtInt u buf
    else
      let '(u, buf) := fmtFrac 9 false u (gs "s") in
      let buf := fmtInt (u mod 60) buf in
      let u := u / 60 in
      if u >? 0 then
        let buf := fmtInt (u mod 60) ("m"%char :: buf) in
        let u := u / 60 in
        if u >? 0 then fmtInt u ("h"%char :: buf) else buf
      else buf in
  if neg then "-"%char :: body else body.

(** ** Examples *)

Lemma duration_examples :
  ParseDuration (gs "1s") = Some Second ∧ ParseDuration (gs "1h15m30.918s") = Some (4530918 * Millisecond) ∧
  ParseDuration (gs "-1.5h") = Some (- 90 * Minute) ∧ ParseDuration (gs ".s") = None ∧ ParseDuration (gs "3") = None ∧
  ParseDuration (gs "9223372036854775808ns") = None ∧ ParseDuration (gs "-9223372036854775808ns") = Some (- 2 ^ 63) ∧
  String (4530918 * Millisecond) = gs "1h15m30.918s" ∧ String (- 1500) = gs "-1.5" ++ [z2b 0xC2; z2b 0xB5; "s"%char] ∧
  String (Round 1234567 (100 * Microsecond)) = gs "1.2ms" ∧ String 0 = gs "0s".
Proof. vm_compute. repeat split. Qed.

(** Rounding a round-trip time moves it by at most half a unit. *)
Lemma Round_close d m :
  0 ≤ d < 2 ^ 62 → 0 < m < 2 ^ 61 → 2 * Z.abs (Round d m - d) ≤ m ∧ (m | Round d m).
Proof.
  intros Hd Hm. unfold Round, lessThanHalf. destruct (Z.leb_spec m 0); [lia|]. destruct (Z.ltb_spec d 0); [lia|].
  rewrite Z.rem_mod_nonneg by lia. pose proof (Z.mod_pos_bound d m ltac:(lia)) as Hr. pose proof (Z.div_mod d m ltac:(lia)) as Hdiv.
  rewrite (u64_small (d mod m)), !u64_small by (unfold is_u64; lia). destruct (Z.ltb_spec (d mod m + d mod m) m).
  - split; [lia|]. exists (d / m). lia.
  - rewrite (i64_small (d + m)), i64_small by (unfold is_i64; lia). destruct (Z.gtb_spec (d + m - d mod m) d); [|lia].
    split; [lia|]. exists (d / m + 1). lia.
Qed.

End Duration.
