(* ===== verification/Handshake.v ===== *)
(** * pkg/clientcore: the authenticated key agreement

    handshake.go ([GenerateKeyPair], [DeriveSessionKey]), handshake_auth.go
    ([transcript], [SignHandshake], [VerifyHandshake]) and the client half of
    handshake_message.go ([CheckHandshakeFresh], [randomSessionID],
    [BeginClientHandshake], [Complete]).  Bytes drawn from crypto/rand and the
    clock are arguments of the operations that read them. *)

From S2P Require Import Prelude Protocol ReplayWindow Wire Crypto Session GoTime.
Import Protocol Wire Session GoTime.

Module Handshake.

(** ** Freshness of a ClientHello *)

Definition DefaultHandshakeTolerance : Z := 60 * Second.

Definition CheckHandshakeFresh (timestamp : Z) (now : Time) (tolerance : Z) : result Wire.error () :=
  let skew := Sub now (Unix timestamp) in
  let skew := if skew <? 0 then i64 (- skew) else skew in
  if skew >? tolerance then Err ErrStaleHandshake else Ok ().

(** ** Identities *)

(** [rand.Read(id[:])] gave [r] (or failed); [id[0] |= 1]. *)
Definition randomSessionID (r : option SessionID) : result Wire.error SessionID :=
  match r with
  | None => Err errRandom
  | Some id => Ok (vinsert 0%fin (z2b (Z.lor (b2z (id !!! 0%fin)) 1)) id)
  end.

Definition hkdfInfo : bytes := gs "continuity-vpn session key v1".
Definition handshakeContext : bytes := gs "continuity-vpn handshake v1".

Definition transcript (ephemeralPub : bytes) (id : SessionID) : bytes :=
  handshakeContext ++ id ++ ephemeralPub.

Record ClientHandshake := mkClientHandshake {
  hs_sessionID : SessionID;
  hs_ephemeralPriv : bytes;
  hs_gatewayIdentity : bytes
}.

Section ops.
Context `{AEAD, X25519, HKDF, Ed25519}.

(** [key] is what the random source yielded for [ecdh.X25519().GenerateKey]. *)
Definition GenerateKeyPair (key : option bytes) : result Wire.error (bytes * bytes) :=
  match key with
  | None => Err errRandom
  | Some priv => Ok (priv, x25519_pub priv)
  end.

Definition DeriveSessionKey (myPriv peerPub : bytes) (id : SessionID) : result Wire.error bytes :=
  if decide (length myPriv ≠ 32%nat) then Err errBadPrivateKey else
  if decide (length peerPub ≠ 32%nat) then Err errBadPublicKey else
  match x25519_ecdh myPriv peerPub with
  | None => Err errCrypto
  | Some shared => Ok (hkdf_key shared id hkdfInfo keySize)
  end.

(** [ed25519.Sign] panics on a private key of the wrong length. *)
Definition SignHandshake (identityPriv ephemeralPub : bytes) (id : SessionID) : go bytes :=
  if decide (length identityPriv ≠ 64%nat) then Panic
  else Ret (ed25519_sign identityPriv (transcript ephemeralPub id)).

Definition VerifyHandshake (identityPub ephemeralPub sig : bytes) (id : SessionID) : result Wire.error () :=
  if decide (length identityPub ≠ 32%nat) then Err errBadIdentityKey else
  if decide (length sig ≠ ed25519SignatureSize) then Err errMalformedSigLen else
  if negb (ed25519_verify identityPub (transcript ephemeralPub id) sig) then Err errBadSignature
  else Ok ().

Definition BeginClientHandshake (gatewayIdentity token : bytes)
    (rid : option SessionID) (rkey : option bytes) (now : Time)
  : go (result Wire.error (bytes * ClientHandshake)) :=
  if decide (length gatewayIdentity ≠ 32%nat) then err errBadIdentityKey else
  id ←? Ret (randomSessionID rid);
  '(priv, pub) ←? Ret (GenerateKeyPair rkey);
  hello ←? EncodeClientHello id (unix now) pub token;
  ok (hello, mkClientHandshake id priv gatewayIdentity).

Definition Complete (hs : ClientHandshake) (serverHello : bytes) (dedupCapacity : Z)
  : go (result Wire.error Session) :=
  h ←? DecodeServerHello serverHello;
  if decide (sh_id h ≠ hs_sessionID hs) then err errHandshakeField else
  _ ←? Ret (VerifyHandshake (hs_gatewayIdentity hs) (sh_eph h) (sh_sig h) (sh_id h));
  key ←? Ret (DeriveSessionKey (hs_ephemeralPriv hs) (sh_eph h) (sh_id h));
  session ←? NewSession (sh_id h) key RoleInitiator dedupCapacity;
  ok (set_assigned session (sh_ip h)).

(** ** Lemmas *)

Lemma lor_one_byte b : b2z (z2b (Z.lor (b2z b) 1)) ≠ 0.
Proof.
  rewrite b2z_z2b. intros Hz. apply (f_equal (λ z, Z.testbit z 0)) in Hz.
  change 256 with (2 ^ 8) in Hz. rewrite Z.mod_pow2_bits_low, Z.lor_spec in Hz by lia.
  by rewrite orb_true_r in Hz.
Qed.

Lemma randomSessionID_nonzero r id : randomSessionID r = Ok id → IsZero id = false.
Proof.
  destruct r as [id0|]; [|done]. cbn [randomSessionID]. intros [= <-].
  inv_vec id0. intros b rest. unfold IsZero. cbn.
  pose proof (lor_one_byte b). by destruct (Z.eqb_spec (b2z (z2b (Z.lor (b2z b) 1))) 0).
Qed.

(** The signed transcript determines the session and the ephemeral key. *)
Lemma transcript_inj e1 e2 id1 id2 :
  transcript e1 id1 = transcript e2 id2 → id1 = id2 ∧ e1 = e2.
Proof.
  unfold transcript. intros E%(inj (app _)). apply app_inj_1 in E as [Hid He]; [|by rewrite !length_vec_to_list].
  split; [|done]. by apply vec_to_list_inj2.
Qed.

(** Both sides derive the same key. *)
Lemma derive_agree `{!X25519Laws} a b id :
  length a = 32%nat → length b = 32%nat →
  DeriveSessionKey a (x25519_pub b) id = DeriveSessionKey b (x25519_pub a) id.
Proof.
  intros Ha Hb. unfold DeriveSessionKey.
  rewrite !x25519_pub_length, Ha, Hb by done. rewrite (x25519_agree a b) by done. done.
Qed.

Lemma derive_length `{!HKDFLaws} a p id key :
  DeriveSessionKey a p id = Ok key → length key = keySize.
Proof.
  unfold DeriveSessionKey. repeat case_decide; [done..|]. case_match; [|done].
  intros [= <-]. apply hkdf_key_length. unfold keySize. lia.
Qed.

Lemma fresh_eq timestamp now tolerance :
  CheckHandshakeFresh timestamp now tolerance =
    if abs_duration (Sub now (Unix timestamp)) >? tolerance then Err ErrStaleHandshake else Ok ().
Proof. unfold CheckHandshakeFresh, abs_duration. cbv zeta. reflexivity. Qed.

(** What a completed handshake rests on. *)
Lemma Complete_spec `{!HKDFLaws} (hs : ClientHandshake) (serverHello : bytes) (cap : Z) :
  0 < cap ≤ 2 ^ 63 - 64 →
  ∃ r, Complete hs serverHello cap = Ret r ∧
    ∀ s, r = Ok s →
      ∃ eph sig ip key,
        EncodeServerHello (hs_sessionID hs) eph sig ip = Ret (Ok serverHello) ∧
        ed25519_verify (hs_gatewayIdentity hs) (transcript eph (hs_sessionID hs)) sig = true ∧
        DeriveSessionKey (hs_ephemeralPriv hs) eph (hs_sessionID hs) = Ok key ∧
        session_ok s [] ∧ sid s = hs_sessionID hs ∧ slr s = mkSealer key ∧
        role s = RoleInitiator ∧ next s = 0 ∧ AssignedIPv4 s = ip.
Proof.
  intros Hcap. unfold Complete.
  destruct (DecodeServerHello_spec serverHello) as [[e ->]|(h & -> & Hok & ->)]; mstep; [by eexists|].
  case_decide as Hid; [by eexists|].
  destruct (VerifyHandshake _ _ _ _) as [[]|e] eqn:Hv; mstep; [|by eexists].
  destruct (DeriveSessionKey _ _ _) as [key|e] eqn:Hk; mstep; [|by eexists].
  destruct (NewSession_total (sh_id h) key RoleInitiator cap Hcap) as [[s|e] Hs]; rewrite Hs; mstep; [|by eexists].
  eexists. split; [done|]. intros s' [= <-].
  apply NewSession_inv in Hs as (Hsok & Hsid & Hr & Hslr & Hn); [|unfold is_i64; lia].
  exists (sh_eph h), (sh_sig h), (sh_ip h), key. rewrite <-Hid. split; [by apply EncodeServerHello_layout|].
  split; [|by split_and!; try done; destruct Hsok].
  unfold VerifyHandshake in Hv. repeat case_decide; try done. by destruct (ed25519_verify _ _ _).
Qed.

(** ** Properties *)

(** C14: The client accepts a ServerHello only from the pinned gateway: when
    [Complete] returns a session, the message carried the client's own session
    id and a signature over that id and the very ephemeral key the session key
    is derived from, valid under the pinned identity; the session is a fresh
    initiator session with the key of that exchange and the assigned address.
    For every window capacity of practical size it returns on any input. *)
Theorem complete_authenticates `{!HKDFLaws} (hs : ClientHandshake) (serverHello : bytes) (cap : Z) :
  0 < cap ≤ 2 ^ 63 - 64 →
  ∃ r, Complete hs serverHello cap = Ret r ∧
    ∀ s, r = Ok s →
      ∃ eph sig ip key,
        EncodeServerHello (hs_sessionID hs) eph sig ip = Ret (Ok serverHello) ∧
        ed25519_verify (hs_gatewayIdentity hs) (transcript eph (hs_sessionID hs)) sig = true ∧
        DeriveSessionKey (hs_ephemeralPriv hs) eph (hs_sessionID hs) = Ok key ∧
        session_ok s [] ∧ sid s = hs_sessionID hs ∧ slr s = mkSealer key ∧
        role s = RoleInitiator ∧ next s = 0 ∧ AssignedIPv4 s = ip.
Proof. apply Complete_spec. Qed.

End ops.

(** The freshness check, exactly.  For a clock reading [now] and a ClientHello
    timestamp whose instant is representable, it accepts when the two are at most
    the tolerance apart, in either direction, and refuses otherwise, with one
    exception: a timestamp 2^63 nanoseconds (about 292 years) or more in the
    future is accepted, because the saturated negative skew survives negation.
    A timestamp that overflows the instant wraps into the past and is refused. *)
Theorem handshake_freshness (timestamp : Z) (now : Time) (tolerance : Z) :
  plain now → 0 < sec now → is_i64 timestamp → 0 ≤ tolerance < maxDuration →
  let delta := nanos now - (timestamp + unixToInternal) * Second in
  (timestamp + unixToInternal < 2 ^ 63 → minDuration < delta →
     CheckHandshakeFresh timestamp now tolerance = Ok () ↔ Z.abs delta ≤ tolerance) ∧
  (timestamp + unixToInternal < 2 ^ 63 → delta ≤ minDuration →
     CheckHandshakeFresh timestamp now tolerance = Ok ()) ∧
  (2 ^ 63 ≤ timestamp + unixToInternal →
     CheckHandshakeFresh timestamp now tolerance = Err ErrStaleHandshake).
Proof.
  intros Hnow Hpos Hts Htol delta. rewrite fresh_eq, skew_spec by (done || apply Unix_wf).
  rewrite Z.gtb_ltb. unfold is_i64, maxDuration, minDuration, unixToInternal in *.
  assert (timestamp + 62135596800 < 2 ^ 63 → nanos now - nanos (Unix timestamp) = delta) as Hin.
  { intros Hlt. unfold delta, nanos at 2, Unix, unixToInternal. cbn [sec nsec].
    rewrite i64_small by (unfold is_i64; lia). lia. }
  split_and!.
  - intros Hlt Hd. rewrite Hin by done. destruct (Z.leb_spec delta (- 2 ^ 63)); [lia|].
    destruct (Z.ltb_spec tolerance (Z.min (2 ^ 63 - 1) (Z.abs delta))); split; intros; done || lia.
  - intros Hlt Hd. rewrite Hin by done. destruct (Z.leb_spec delta (- 2 ^ 63)); [|lia].
    by destruct (Z.ltb_spec tolerance (- 2 ^ 63)); [lia|].
  - intros Hge. assert (2 ^ 63 ≤ nanos now - nanos (Unix timestamp)) as Hfar.
    { unfold nanos, Unix, unixToInternal. cbn [sec nsec]. unfold i64, plain, Second in *.
      rewrite <-(Z_mod_plus_full _ (-1)), Z.mod_small; lia. }
    destruct (Z.leb_spec (nanos now - nanos (Unix timestamp)) (- 2 ^ 63)); [lia|].
    destruct (Z.ltb_spec tolerance (Z.min (2 ^ 63 - 1) (Z.abs (nanos now - nanos (Unix timestamp))))); done || lia.
Qed.

(** 2026-01-01 00:00:00 UTC *)
Definition now1 : Time := Unix 1767225600.

Lemma now1_plain : plain now1 ∧ 0 < sec now1 ∧ nanos now1 = (1767225600 + unixToInternal) * Second.
Proof. vm_compute. repeat split; congruence. Qed.

Lemma handshake_freshness_witness :
  CheckHandshakeFresh 1767225660 now1 DefaultHandshakeTolerance = Ok () ∧
  CheckHandshakeFresh (2 ^ 62) now1 DefaultHandshakeTolerance = Ok ().
Proof.
  destruct now1_plain as (Hp & Hs & Hn). unfold DefaultHandshakeTolerance. split.
  - destruct (handshake_freshness 1767225660 now1 (60 * Second)) as (H1 & _ & _);
      [exact Hp|exact Hs|unfold is_i64; lia|unfold maxDuration, Second; lia|].
    rewrite Hn in H1. apply H1; unfold unixToInternal, minDuration, Second; lia.
  - destruct (handshake_freshness (2 ^ 62) now1 (60 * Second)) as (_ & H2 & _);
      [exact Hp|exact Hs|unfold is_i64; lia|unfold maxDuration, Second; lia|].
    rewrite Hn in H2. apply H2; unfold unixToInternal, minDuration, Second; lia.
Defined.

(** ** Witnesses, at the toy primitives *)

Module Witness.
Import Toy.

Definition identity1 : bytes := ed25519_key (gs "identity-seed-of-the-gateway-000").
Definition gwpriv1 : bytes := gs "gateway-ephemeral-private-key-01".
Definition clpriv1 : bytes := gs "client-ephemeral-private-key-001".
Definition sid1 : SessionID := arr 16 (gs "session-id-00001").
Definition hs1 : ClientHandshake := mkClientHandshake sid1 clpriv1 (ed25519_public identity1).
Definition ip1 : vec byte 4 := arr 4 (z2b <$> [10; 77; 0; 2]).
Definition sh1 : bytes :=
  server_hello_bytes (mkServerHello sid1 (x25519_pub gwpriv1)
    (ed25519_sign identity1 (transcript (x25519_pub gwpriv1) sid1)) ip1).

Lemma complete_authenticates_witness :
  ∃ r, Complete hs1 sh1 64 = Ret r ∧ is_ok r = true ∧
    ∀ s, r = Ok s →
      ∃ eph sig ip key,
        EncodeServerHello (hs_sessionID hs1) eph sig ip = Ret (Ok sh1) ∧
        ed25519_verify (hs_gatewayIdentity hs1) (transcript eph (hs_sessionID hs1)) sig = true ∧
        DeriveSessionKey (hs_ephemeralPriv hs1) eph (hs_sessionID hs1) = Ok key ∧
        session_ok s [] ∧ sid s = hs_sessionID hs1 ∧ slr s = mkSealer key ∧
        role s = RoleInitiator ∧ next s = 0 ∧ AssignedIPv4 s = ip.
Proof.
  destruct (complete_authenticates hs1 sh1 64) as (r & Hr & H); [lia|].
  exists r. split; [exact Hr|]. split; [|exact H].
  assert (match Complete hs1 sh1 64 with Ret r => is_ok r | Panic => false end = true) as E
    by (vm_compute; reflexivity).
  rewrite Hr in E. exact E.
Defined.

End Witness.
End Handshake.
