(* ===== verification/Netip.v ===== *)
(** * Package net/netip, as the program uses it

    Addresses (the zero value, IPv4, IPv6 with a zone), prefixes and address and
    port pairs, with [Next], [Is4], [Is6], [As4], [AddrFrom4], [Masked] and
    [Contains]. *)

From S2P Require Import Prelude.

Module Netip.

(** The value of an IPv4 address is its 32-bit number. *)
Inductive Addr :=
| AddrZero
| Addr4 (n : Z)
| Addr6 (n : Z) (zone : string).
#[global] Instance Addr_eq_dec : EqDecision Addr.
Proof. solve_decision. Defined.
#[global] Instance Addr_countable : Countable Addr.
Proof.
  refine (inj_countable'
    (λ a, match a with AddrZero => None | Addr4 n => Some (inl n) | Addr6 n z => Some (inr (n, z)) end)
    (λ x, match x with None => AddrZero | Some (inl n) => Addr4 n | Some (inr (n, z)) => Addr6 n z end) _).
  by intros [].
Defined.

Definition IsValid (a : Addr) : bool := match a with AddrZero => false | _ => true end.
Definition Is4 (a : Addr) : bool := match a with Addr4 _ => true | _ => false end.
Definition Is6 (a : Addr) : bool := match a with Addr6 _ _ => true | _ => false end.

Definition AddrFrom4 (b : vec byte 4) : Addr := Addr4 (be_val b).

(** [As4] accepts IPv4 and IPv4-mapped IPv6 addresses and panics otherwise. *)
Definition As4 (a : Addr) : go (vec byte 4) :=
  match a with
  | Addr4 n => Ret (arr 4 (be_bytes 4 n))
  | Addr6 n _ => if Z.shiftr n 32 =? 0xffff then Ret (arr 4 (be_bytes 4 n)) else Panic
  | AddrZero => Panic
  end.

(** "Next returns the address following ip.  If there is none, it returns the
    zero Addr." *)
Definition Next (a : Addr) : Addr :=
  match a with
  | AddrZero => AddrZero
  | Addr4 n => if n =? 2 ^ 32 - 1 then AddrZero else Addr4 (n + 1)
  | Addr6 n z => if n =? 2 ^ 128 - 1 then AddrZero else Addr6 (n + 1) z
  end.

(** [Bits] is -1 for an invalid prefix. *)
Record Prefix := mkPrefix { paddr : Addr; pbits : Z }.

Definition prefix_valid (p : Prefix) : bool := 0 <=? pbits p.

Definition mask (n width bits : Z) : Z := Z.shiftl (Z.shiftr n (width - bits)) (width - bits).

Definition Masked (p : Prefix) : Prefix :=
  match paddr p with
  | Addr4 n => mkPrefix (Addr4 (mask n 32 (pbits p))) (pbits p)
  | Addr6 n _ => mkPrefix (Addr6 (mask n 128 (pbits p)) EmptyString) (pbits p)
  | AddrZero => mkPrefix AddrZero (-1)
  end.

Definition Contains (p : Prefix) (a : Addr) : bool :=
  prefix_valid p &&
  match paddr p, a with
  | Addr4 x, Addr4 y => Z.shiftr (Z.lxor y x) (32 - pbits p) =? 0
  | Addr6 x _, Addr6 y EmptyString => Z.shiftr (Z.lxor y x) (128 - pbits p) =? 0
  | _, _ => false
  end.

Record AddrPort := mkAddrPort { apAddr : Addr; apPort : Z }.
#[global] Instance AddrPort_eq_dec : EqDecision AddrPort.
Proof. solve_decision. Defined.

(** A prefix as [netip.ParsePrefix] returns it. *)
Definition addr_ok (a : Addr) : Prop :=
  match a with
  | AddrZero => True | Addr4 n => 0 ≤ n < 2 ^ 32 | Addr6 n _ => 0 ≤ n < 2 ^ 128
  end.
Definition prefix_ok (p : Prefix) : Prop :=
  addr_ok (paddr p) ∧
  match paddr p with
  | AddrZero => pbits p = -1 | Addr4 _ => -1 ≤ pbits p ≤ 32 | Addr6 _ _ => -1 ≤ pbits p ≤ 128
  end.

Lemma mask_eq n w b : b ≤ w → mask n w b = n / 2 ^ (w - b) * 2 ^ (w - b).
Proof. intros Hb. unfold mask. by rewrite Z.shiftl_mul_pow2, Z.shiftr_div_pow2 by lia. Qed.

(** Membership of an IPv4 prefix: the quotients by the block size agree. *)
Lemma contains4 x y b :
  0 ≤ b ≤ 32 →
  Contains (mkPrefix (Addr4 x) b) (Addr4 y) = (y / 2 ^ (32 - b) =? x / 2 ^ (32 - b)).
Proof.
  intros Hb. unfold Contains, prefix_valid. cbn [paddr pbits].
  destruct (Z.leb_spec 0 b); [|lia]. cbn [andb].
  rewrite Z.shiftr_lxor, !Z.shiftr_div_pow2 by lia.
  destruct (Z.eqb_spec (y / 2 ^ (32 - b)) (x / 2 ^ (32 - b))) as [->|Hne].
  - by rewrite Z.lxor_nilpotent.
  - apply Z.eqb_neq. by rewrite Z.lxor_eq_0_iff.
Qed.

Lemma contains_zero p : Contains p AddrZero = false.
Proof. unfold Contains. destruct (paddr p); apply andb_false_r. Qed.

End Netip.
