(* ===== verification/Allocator.v ===== *)
(** * internal/exit/allocator.go: the tunnel address pool

    [NewAllocator], [Allocate], [LeaseOf], [Lookup] and [Release] over the
    forward map (session to address), the reverse map and the free list, with
    the invariant that the two maps are inverse and that leased and free
    addresses partition the pool. *)

From S2P Require Import Prelude Protocol Netip.
Import Protocol Netip.

Module Allocator.

Inductive error := ErrPoolExhausted | ErrInvalidPool.
#[global] Instance error_eq_dec : EqDecision error.
Proof. solve_decision. Defined.

Record Allocator := mkAllocator {
  prefix : Prefix;
  forward : gmap SessionID Addr;
  reverse : gmap Addr SessionID;
  free : list Addr
}.

(** The collecting loop of [NewAllocator]; [None] when the fuel runs out. *)
Fixpoint collect (fuel : nat) (base : Prefix) (addr : Addr) (acc : list Addr) : option (list Addr) :=
  match fuel with
  | O => None
  | S fuel =>
      let addr := Next addr in
      if negb (Contains base addr) then Some acc
      else if negb (Contains base (Next addr)) then Some acc
      else collect fuel base addr (acc ++ [addr])
  end.

(** The loop visits each address of the block at most once. *)
Definition block_size (p : Prefix) : Z :=
  match paddr p with Addr4 _ => 2 ^ (32 - pbits p) | _ => 0 end.

Definition NewAllocator (pool : Prefix) : go (result error Allocator) :=
  if negb (prefix_valid pool) || Is6 (paddr pool) then err ErrInvalidPool else
  let base := Masked pool in
  match collect (Z.to_nat (block_size base)) base (Next (paddr base)) [] with
  | None => Panic
  | Some [] => err ErrInvalidPool
  | Some free => ok (mkAllocator base ∅ ∅ free)
  end.

Definition Allocate (a : Allocator) (id : SessionID) : Allocator * result error Addr :=
  match forward a !! id with
  | Some addr => (a, Ok addr)
  | None =>
      match last (free a) with
      | None => (a, Err ErrPoolExhausted)
      | Some addr =>
          (mkAllocator (prefix a) (<[id := addr]> (forward a)) (<[addr := id]> (reverse a))
             (take (length (free a) - 1) (free a)), Ok addr)
      end
  end.

Definition LeaseOf (a : Allocator) (id : SessionID) : option Addr := forward a !! id.
Definition Lookup (a : Allocator) (addr : Addr) : option SessionID := reverse a !! addr.

Definition Release (a : Allocator) (id : SessionID) : Allocator :=
  match forward a !! id with
  | None => a
  | Some addr =>
      mkAllocator (prefix a) (delete id (forward a)) (delete addr (reverse a)) (free a ++ [addr])
  end.

(** ** The pool [NewAllocator] computes *)

(** The addresses strictly between the gateway host and the broadcast address. *)
Definition usable (base size : Z) : list Addr :=
  (λ i, Addr4 (base + 2 + Z.of_nat i)) <$> seq 0 (Z.to_nat (size - 3)).

Lemma contains_block base b y :
  0 ≤ b ≤ 32 → base mod 2 ^ (32 - b) = 0 →
  Contains (mkPrefix (Addr4 base) b) (Addr4 y) = bool_decide (base ≤ y < base + 2 ^ (32 - b)).
Proof.
  intros Hb Hm. rewrite contains4 by done. set (s := 2 ^ (32 - b)) in *.
  assert (0 < s) by (apply Z.pow_pos_nonneg; lia).
  pose proof (Z.div_mod base s ltac:(lia)) as Eb. pose proof (Z.div_mod y s ltac:(lia)) as Ey.
  pose proof (Z.mod_pos_bound y s ltac:(lia)).
  case_bool_decide; [apply Z.eqb_eq|apply Z.eqb_neq]; nia.
Qed.

Section block.
Variables (base b : Z).
Hypothesis Hb : 0 ≤ b ≤ 32.
Hypothesis Hbase : base mod 2 ^ (32 - b) = 0.
Hypothesis Hrange : 0 ≤ base ∧ base + 2 ^ (32 - b) ≤ 2 ^ 32.
Let size := 2 ^ (32 - b).
Let p := mkPrefix (Addr4 base) b.

(** Stepping to the next address of the block, or out of it. *)
Lemma contains_next y :
  base ≤ y < base + size → Contains p (Next (Addr4 y)) = bool_decide (y + 1 < base + size).
Proof.
  intros Hy. unfold Next. destruct (Z.eqb_spec y (2 ^ 32 - 1)) as [->|].
  - rewrite contains_zero. symmetry. apply bool_decide_eq_false. unfold size in *. lia.
  - unfold p. rewrite contains_block by done. apply bool_decide_ext. unfold size in *. lia.
Qed.

Lemma next_in y : base ≤ y → y + 1 < base + size → Next (Addr4 y) = Addr4 (y + 1).
Proof. intros ??. unfold Next. destruct (Z.eqb_spec y (2 ^ 32 - 1)); [unfold size in *; lia|done]. Qed.

Lemma collect_block fuel k acc :
  1 + Z.of_nat k < size → size - 2 - Z.of_nat k ≤ Z.of_nat fuel → (0 < fuel)%nat →
  collect fuel p (Addr4 (base + 1 + Z.of_nat k)) acc
  = Some (acc ++ ((λ i, Addr4 (base + 2 + Z.of_nat i)) <$> seq k (Z.to_nat (size - 3 - Z.of_nat k)))).
Proof.
  revert k acc. induction fuel as [|fuel IH]; intros k acc Hk Hf Hpos; [lia|]. cbn [collect].
  rewrite contains_next by lia. case_bool_decide as H1; cbn [negb].
  2: { replace (Z.to_nat (size - 3 - Z.of_nat k)) with 0%nat by lia. by rewrite app_nil_r. }
  rewrite next_in by lia. rewrite contains_next by lia. case_bool_decide as H2; cbn [negb].
  2: { replace (Z.to_nat (size - 3 - Z.of_nat k)) with 0%nat by lia. by rewrite app_nil_r. }
  replace (base + 1 + Z.of_nat k + 1) with (base + 1 + Z.of_nat (S k)) by lia.
  rewrite IH by lia. replace (Z.to_nat (size - 3 - Z.of_nat k)) with (S (Z.to_nat (size - 3 - Z.of_nat (S k)))) by lia.
  cbn [seq fmap list_fmap]. rewrite <-app_assoc. cbn [app]. do 4 f_equal. lia.
Qed.

Lemma collect_pool :
  collect (Z.to_nat size) p (Next (Addr4 base)) [] = Some (usable base size).
Proof.
  assert (0 < size) by (apply Z.pow_pos_nonneg; lia).
  destruct (Z.to_nat size) as [|f] eqn:Hf; [lia|].
  destruct (decide (size = 1)) as [H1|H1].
  - unfold usable. rewrite H1. cbn [collect].
    assert (Contains p (Next (Next (Addr4 base))) = false) as ->; [|done].
    unfold Next at 2. destruct (Z.eqb_spec base (2 ^ 32 - 1)); [apply contains_zero|].
    unfold Next. destruct (Z.eqb_spec (base + 1) (2 ^ 32 - 1)); [apply contains_zero|].
    unfold p. rewrite contains_block by done. apply bool_decide_eq_false. unfold size in H1. lia.
  - rewrite next_in by lia. replace (base + 1) with (base + 1 + Z.of_nat 0) by lia.
    rewrite collect_block by lia. rewrite app_nil_l. unfold usable. do 3 f_equal. lia.
Qed.

End block.

Lemma mask_block n b :
  0 ≤ n < 2 ^ 32 → 0 ≤ b ≤ 32 →
  mask n 32 b mod 2 ^ (32 - b) = 0 ∧ 0 ≤ mask n 32 b ∧ mask n 32 b + 2 ^ (32 - b) ≤ 2 ^ 32 ∧
  mask n 32 b ≤ n < mask n 32 b + 2 ^ (32 - b).
Proof.
  intros Hn Hb. rewrite mask_eq by lia. set (s := 2 ^ (32 - b)).
  assert (0 < s) by (apply Z.pow_pos_nonneg; lia).
  assert (2 ^ 32 = 2 ^ b * s) as Hs by (unfold s; rewrite <-Z.pow_add_r by lia; f_equal; lia).
  assert (0 < 2 ^ b) by (apply Z.pow_pos_nonneg; lia).
  pose proof (Z.div_mod n s ltac:(lia)). pose proof (Z.mod_pos_bound n s ltac:(lia)).
  rewrite Z_mod_mult. assert (n / s < 2 ^ b) by (apply Z.div_lt_upper_bound; lia).
  assert (0 ≤ n / s) by (apply Z.div_pos; lia). split_and!; nia.
Qed.

(** What [NewAllocator] returns for every prefix. *)
Lemma NewAllocator_eq n b :
  0 ≤ n < 2 ^ 32 → 0 ≤ b ≤ 32 →
  NewAllocator (mkPrefix (Addr4 n) b) =
    if decide (b ≤ 30) then
      ok (mkAllocator (mkPrefix (Addr4 (mask n 32 b)) b) ∅ ∅ (usable (mask n 32 b) (2 ^ (32 - b))))
    else err ErrInvalidPool.
Proof.
  intros Hn Hb. unfold NewAllocator, prefix_valid. cbn [paddr pbits Is6].
  destruct (Z.leb_spec 0 b); [|lia]. cbn [negb orb Masked paddr pbits block_size].
  destruct (mask_block n b Hn Hb) as (Hm & ? & ? & _).
  rewrite collect_pool by done. unfold usable at 1.
  case_decide as H30.
  - assert (2 ^ 2 ≤ 2 ^ (32 - b)) by (apply Z.pow_le_mono_r; lia).
    destruct (Z.to_nat (2 ^ (32 - b) - 3)) as [|k] eqn:Hk; [lia|].
    unfold usable. rewrite Hk. done.
  - assert (b = 31 ∨ b = 32) as [-> | ->] by lia; done.
Qed.

(** ** The invariant *)

(** [pool] is the fixed set of usable addresses. *)
Record alloc_ok (pool : list Addr) (a : Allocator) : Prop := {
  ao_inverse id x : forward a !! id = Some x ↔ reverse a !! x = Some id;
  ao_pool x : x ∈ pool ↔ x ∈ free a ∨ is_Some (reverse a !! x);
  ao_free x : x ∈ free a → reverse a !! x = None;
  ao_nodup : NoDup (free a);
  ao_count : (length (free a) + size (forward a) = length pool)%nat
}.

Lemma alloc_ok_new p n b :
  NoDup (usable n b) → alloc_ok (usable n b) (mkAllocator p ∅ ∅ (usable n b)).
Proof.
  intros Hnd. split; cbn [forward reverse free].
  - intros id x. by rewrite !lookup_empty.
  - intros x. rewrite lookup_empty. split; [by left|intros [|[? ?]]; done].
  - intros x _. apply lookup_empty.
  - done.
  - rewrite map_size_empty. lia.
Qed.

Lemma usable_nodup n s : NoDup (usable n s).
Proof.
  apply NoDup_fmap_2_strong; [|apply NoDup_seq]. intros i j _ _ [= E]. lia.
Qed.

Lemma elem_usable n s x : x ∈ usable n s ↔ ∃ m, x = Addr4 m ∧ n + 1 < m < n + s - 1.
Proof.
  unfold usable. rewrite list_elem_of_fmap. split.
  - intros (i & -> & Hi%elem_of_seq). eexists. split; [done|]. lia.
  - intros (m & -> & Hm). exists (Z.to_nat (m - n - 2)). split; [f_equal; lia|]. apply elem_of_seq. lia.
Qed.

Lemma last_take {A} (l : list A) x : last l = Some x → l = take (length l - 1) l ++ [x].
Proof.
  intros [l' ->]%last_Some. rewrite length_app. cbn [length].
  replace (length l' + 1 - 1)%nat with (length l') by lia. by rewrite take_app_length.
Qed.

Lemma Allocate_ok pool a id :
  alloc_ok pool a → alloc_ok pool (Allocate a id).1.
Proof.
  intros Ha. pose proof Ha as [Hinv Hpool Hfree Hnd Hcount]. unfold Allocate.
  destruct (forward a !! id) as [x|] eqn:Hid; [done|].
  destruct (last (free a)) as [x|] eqn:Hl; [|done]. cbn [fst].
  apply last_take in Hl. set (l := take (length (free a) - 1) (free a)) in *. clearbody l.
  rewrite Hl in Hnd, Hpool, Hfree, Hcount. rewrite length_app in Hcount. cbn [length] in Hcount.
  apply NoDup_app in Hnd as (Hnd & Hx & _).
  assert (reverse a !! x = None) as Hrx by (apply Hfree; set_solver).
  split; cbn [forward reverse free].
  - intros id' y. rewrite !lookup_insert_Some, <-Hinv. split.
    + intros [[-> ->]|[Hne Hf]]; [by left|right]. split; [|done].
      intros ->. apply Hinv in Hf. congruence.
    + intros [[-> ->]|[Hne Hf]]; [by left|right]. split; [|done]. intros ->. congruence.
  - intros y. rewrite Hpool, elem_of_app, list_elem_of_singleton, lookup_insert_is_Some.
    destruct (decide (x = y)); naive_solver.
  - intros y Hy. rewrite lookup_insert_ne by set_solver. apply Hfree. set_solver.
  - done.
  - rewrite map_size_insert_None by done. lia.
Qed.

Lemma Release_ok pool a id : alloc_ok pool a → alloc_ok pool (Release a id).
Proof.
  intros Ha. pose proof Ha as [Hinv Hpool Hfree Hnd Hcount]. unfold Release.
  destruct (forward a !! id) as [x|] eqn:Hid; [|done].
  assert (reverse a !! x = Some id) as Hrx by (by apply Hinv).
  split; cbn [forward reverse free].
  - intros id' y. rewrite !lookup_delete_Some, <-Hinv. split; intros [Hne Hf]; (split; [|done]).
    + intros ->. apply Hinv in Hf. congruence.
    + intros ->. congruence.
  - intros y. rewrite Hpool, elem_of_app, list_elem_of_singleton, lookup_delete_is_Some. destruct (decide (x = y)); naive_solver.
  - intros y [Hy| ->%list_elem_of_singleton]%elem_of_app; [|apply lookup_delete_eq].
    apply lookup_delete_None. right. by apply Hfree.
  - apply NoDup_app. split; [done|]. split; [|apply NoDup_singleton].
    intros y Hy ->%list_elem_of_singleton. apply Hfree in Hy. congruence.
  - rewrite length_app. simpl. rewrite map_size_delete_Some by (by eexists).
    assert (size (forward a) ≠ 0%nat) by (eapply map_size_ne_0_lookup_2; by eexists). lia.
Qed.

(** ** Sequences of calls *)

Inductive op := OpAllocate (id : SessionID) | OpRelease (id : SessionID).

Definition apply_op (a : Allocator) (o : op) : Allocator :=
  match o with OpAllocate id => (Allocate a id).1 | OpRelease id => Release a id end.
Definition run (a : Allocator) (ops : list op) : Allocator := foldl apply_op a ops.

Lemma alloc_run_ok pool a ops : alloc_ok pool a → alloc_ok pool (run a ops).
Proof.
  revert a. induction ops as [|[id|id] ops IH]; intros a Ha; [done|..]; cbn; apply IH;
    [by apply Allocate_ok|by apply Release_ok].
Qed.

Lemma NewAllocator_inv p a :
  prefix_ok p → NewAllocator p = Ret (Ok a) →
  ∃ n b, paddr p = Addr4 n ∧ pbits p = b ∧ 0 ≤ b ≤ 30 ∧ 0 ≤ n < 2 ^ 32 ∧
    a = mkAllocator (Masked p) ∅ ∅ (usable (mask n 32 b) (2 ^ (32 - b))).
Proof.
  destruct p as [[|n|n z] b]; intros [Ha Hb] Hn; cbn in *.
  - subst b. done.
  - destruct (decide (b = -1)) as [->|]; [done|].
    rewrite NewAllocator_eq in Hn by lia. case_decide; [|done]. injection Hn as <-.
    exists n, b. by split_and!; try lia.
  - unfold NewAllocator in Hn. cbn in Hn. rewrite orb_true_r in Hn. done.
Qed.

Lemma NewAllocator_total p : prefix_ok p → ∃ r, NewAllocator p = Ret r.
Proof.
  destruct p as [[|n|n z] b]; intros [Ha Hb]; cbn in Ha, Hb.
  - subst b. by eexists.
  - destruct (decide (b = -1)) as [->|]; [by eexists|]. rewrite NewAllocator_eq by lia. case_decide; by eexists.
  - unfold NewAllocator. cbn. rewrite orb_true_r. by eexists.
Qed.

Lemma NewAllocator_ok p a : prefix_ok p → NewAllocator p = Ret (Ok a) → alloc_ok (free a) a.
Proof.
  intros Hp Ha. apply NewAllocator_inv in Ha as (n & b & _ & _ & _ & _ & ->); [|done].
  apply alloc_ok_new, usable_nodup.
Qed.

(** ** Properties *)

(** The pool.  For every prefix [NewAllocator] returns (its loop ends), it
    succeeds exactly on IPv4 prefixes of at most 30 bits, and the free list then
    holds, once each, exactly the addresses strictly between the gateway host
    (network + 1) and the broadcast address. *)
Theorem new_allocator_pool (p : Prefix) :
  prefix_ok p →
  ∃ r, NewAllocator p = Ret r ∧
    match r with
    | Err e => e = ErrInvalidPool ∧ ¬ (Is4 (paddr p) = true ∧ 0 ≤ pbits p ≤ 30)
    | Ok a => ∃ n net, paddr p = Addr4 n ∧ 0 ≤ pbits p ≤ 30 ∧ paddr (Masked p) = Addr4 net ∧
        NoDup (free a) ∧ forward a = ∅ ∧
        (∀ x, x ∈ free a ↔ ∃ m, x = Addr4 m ∧ Contains p x = true ∧
                m ≠ net ∧ m ≠ net + 1 ∧ m ≠ net + 2 ^ (32 - pbits p) - 1)
    end.
Proof.
  intros Hp. destruct p as [[|n|n z] b]; destruct Hp as [Ha Hb]; cbn in Ha, Hb.
  - exists (Err ErrInvalidPool). subst b. split; [done|]. split; [done|]. by intros [? _].
  - destruct (decide (b = -1)) as [->|].
    { exists (Err ErrInvalidPool). split; [done|]. split; [done|]. cbn. lia. }
    rewrite NewAllocator_eq by lia. case_decide as H30.
    2: { exists (Err ErrInvalidPool). split; [done|]. split; [done|]. cbn. lia. }
    eexists. split; [done|]. exists n, (mask n 32 b). cbn [paddr pbits Masked free forward].
    destruct (mask_block n b) as (Hm & ? & ? & Hn); [lia..|].
    split_and!; try done; try lia; [apply usable_nodup|].
    intros x. rewrite elem_usable. apply exist_proper. intros m.
    assert (∀ y, Contains (mkPrefix (Addr4 n) b) (Addr4 y) = Contains (mkPrefix (Addr4 (mask n 32 b)) b) (Addr4 y)) as Hc.
    { intros y. rewrite !contains4 by lia. rewrite mask_eq, Z.div_mul by (lia || apply Z.pow_nonzero; lia). done. }
    split; intros [-> Hx]; (split; [done|]).
    + rewrite Hc, contains_block by (done || lia). rewrite bool_decide_true by lia. split; [done|lia].
    + destruct Hx as (Hx & ?). rewrite Hc, contains_block, bool_decide_eq_true in Hx by (done || lia). lia.
  - exists (Err ErrInvalidPool). split; [unfold NewAllocator; cbn; by rewrite orb_true_r|].
    split; [done|]. by intros [? _].
Qed.

(** 10.77.0.0/29 *)
Definition pool1 : Prefix := mkPrefix (Addr4 (10 * 2 ^ 24 + 77 * 2 ^ 16)) 29.

Lemma new_allocator_pool_witness :
  ∃ r, NewAllocator pool1 = Ret r ∧
    match r with
    | Err e => e = ErrInvalidPool ∧ ¬ (Is4 (paddr pool1) = true ∧ 0 ≤ pbits pool1 ≤ 30)
    | Ok a => ∃ n net, paddr pool1 = Addr4 n ∧ 0 ≤ pbits pool1 ≤ 30 ∧ paddr (Masked pool1) = Addr4 net ∧
        NoDup (free a) ∧ forward a = ∅ ∧
        (∀ x, x ∈ free a ↔ ∃ m, x = Addr4 m ∧ Contains pool1 x = true ∧
                m ≠ net ∧ m ≠ net + 1 ∧ m ≠ net + 2 ^ (32 - pbits pool1) - 1)
    end.
Proof. apply (new_allocator_pool pool1). unfold prefix_ok, addr_ok, pool1. cbn [paddr pbits]. lia. Defined.

(** C30: Leases.  After any sequence of [Allocate] and [Release], [Lookup] is the
    inverse of [LeaseOf] (so no address is leased to two sessions and the return
    path finds the owner), every lease is a usable address of the pool, and
    [Allocate] returns the existing lease or a free address without disturbing
    any other session, failing only when every address of the pool is leased. *)
Theorem allocator_leases (p : Prefix) (a0 : Allocator) (ops : list op) :
  prefix_ok p → NewAllocator p = Ret (Ok a0) →
  let a := run a0 ops in
  (∀ id x, LeaseOf a id = Some x ↔ Lookup a x = Some id) ∧
  (∀ id x, LeaseOf a id = Some x → x ∈ free a0) ∧
  ∀ id, match Allocate a id with
        | (a', Ok x) =>
            LeaseOf a' id = Some x ∧ (∀ id', id' ≠ id → LeaseOf a' id' = LeaseOf a id') ∧
            (LeaseOf a id = Some x ∨ LeaseOf a id = None ∧ Lookup a x = None ∧ x ∈ free a0)
        | (a', Err e) => a' = a ∧ e = ErrPoolExhausted ∧ LeaseOf a id = None ∧
            size (forward a) = length (free a0)
        end.
Proof.
  intros Hp Ha0. pose proof (alloc_run_ok _ _ ops (NewAllocator_ok p a0 Hp Ha0)) as [Hinv Hpool Hfree Hnd Hcount].
  cbn zeta. set (a := run a0 ops) in *. clearbody a. unfold LeaseOf, Lookup. split; [done|]. split.
  { intros id x Hx%Hinv. apply Hpool. right. by eexists. }
  intros id. unfold Allocate. destruct (forward a !! id) as [x|] eqn:Hid; [by auto|].
  destruct (last (free a)) as [x|] eqn:Hl; cbn [forward reverse].
  - rewrite lookup_insert_eq. split; [done|]. split; [intros; by rewrite lookup_insert_ne|].
    right. split; [done|]. apply last_Some_elem_of in Hl. split; [by apply Hfree|]. apply Hpool. by left.
  - apply last_None in Hl. rewrite Hl in Hcount. by split_and!.
Qed.

Definition alloc1 : Allocator :=
  mkAllocator (Masked pool1) ∅ ∅ (usable (10 * 2 ^ 24 + 77 * 2 ^ 16) 8).
Definition s1 : SessionID := arr 16 (gs "session-id-00001").
Definition s2 : SessionID := arr 16 (gs "session-id-00002").
Definition ops1 : list op := [OpAllocate s1; OpAllocate s2; OpRelease s1; OpAllocate s1].

Lemma allocator_leases_witness :
  let a := run alloc1 ops1 in
  (∀ id x, LeaseOf a id = Some x ↔ Lookup a x = Some id) ∧
  (∀ id x, LeaseOf a id = Some x → x ∈ free alloc1) ∧
  ∀ id, match Allocate a id with
        | (a', Ok x) =>
            LeaseOf a' id = Some x ∧ (∀ id', id' ≠ id → LeaseOf a' id' = LeaseOf a id') ∧
            (LeaseOf a id = Some x ∨ LeaseOf a id = None ∧ Lookup a x = None ∧ x ∈ free alloc1)
        | (a', Err e) => a' = a ∧ e = ErrPoolExhausted ∧ LeaseOf a id = None ∧
            size (forward a) = length (free alloc1)
        end.
Proof.
  apply (allocator_leases pool1 alloc1 ops1).
  - unfold prefix_ok, addr_ok, pool1. cbn [paddr pbits]. lia.
  - vm_compute. reflexivity.
Defined.

(** The leases of [ops1]. *)
Lemma ops1_leases :
  LeaseOf (run alloc1 ops1) s1 = Some (Addr4 (10 * 2 ^ 24 + 77 * 2 ^ 16 + 6)) ∧
  LeaseOf (run alloc1 ops1) s2 = Some (Addr4 (10 * 2 ^ 24 + 77 * 2 ^ 16 + 5)).
Proof. vm_compute. split; reflexivity. Qed.

End Allocator.
