(* ===== verification/PathSet.v ===== *)
(** * internal/exit/pathset.go: the fresh source endpoints of each session

    [NewPathSet], [Record] (here [record], the Rocq command being reserved) and
    [Fresh], with the clock reading each call takes as an argument.  The set is
    proved to refine the table of last observations. *)

From S2P Require Import Prelude Protocol Netip GoTime.
Import Protocol Netip GoTime.

Module PathSet.

Definition defaultPathTTL : Z := 30 * Second.

Record pathEntry := mkEntry { addr : AddrPort; lastSeen : Time }.

Record PathSet := mkPathSet {
  ttl : Z;
  paths : gmap SessionID (list pathEntry)
}.

Definition NewPathSet (t : Z) : PathSet :=
  mkPathSet (if t <=? 0 then defaultPathTTL else t) ∅.

(** The search loop of [Record]: refresh the first entry of [a]. *)
Fixpoint refresh (a : AddrPort) (now : Time) (entries : list pathEntry) : option (list pathEntry) :=
  match entries with
  | [] => None
  | e :: es =>
      if decide (addr e = a) then Some (mkEntry (addr e) now :: es)
      else (cons e) <$> refresh a now es
  end.

Definition entries_of (ps : PathSet) (id : SessionID) : list pathEntry := default [] (paths ps !! id).

Definition record (ps : PathSet) (id : SessionID) (a : AddrPort) (now : Time) : PathSet :=
  let entries := entries_of ps id in
  match refresh a now entries with
  | Some es => mkPathSet (ttl ps) (<[id := es]> (paths ps))
  | None => mkPathSet (ttl ps) (<[id := entries ++ [mkEntry a now]]> (paths ps))
  end.

Definition Fresh (ps : PathSet) (id : SessionID) (now : Time) : PathSet * list AddrPort :=
  match entries_of ps id with
  | [] => (ps, [])
  | entries =>
      let cutoff := Add now (i64 (- ttl ps)) in
      let live := filter (λ e, After (lastSeen e) cutoff = true) entries in
      match live with
      | [] => (mkPathSet (ttl ps) (delete id (paths ps)), [])
      | _ => (mkPathSet (ttl ps) (<[id := live]> (paths ps)), addr <$> live)
      end
  end.

(** ** The abstract table of last observations *)

Inductive event := ERecord (id : SessionID) (a : AddrPort) (t : Time) | EFresh (id : SessionID) (t : Time).

Definition event_time (e : event) : Time := match e with ERecord _ _ t | EFresh _ t => t end.
Definition apply_event (ps : PathSet) (e : event) : PathSet :=
  match e with ERecord id a t => record ps id a t | EFresh id t => (Fresh ps id t).1 end.
Definition run (ps : PathSet) (es : list event) : PathSet := foldl apply_event ps es.

(** When [a] was last recorded for [id]. *)
Definition seen (id : SessionID) (a : AddrPort) (e : event) : option Time :=
  match e with
  | ERecord id' a' t => if decide (id' = id ∧ a' = a) then Some t else None
  | EFresh _ _ => None
  end.
Definition last_seen (id : SessionID) (a : AddrPort) (es : list event) : option Time :=
  foldl (λ acc e, match seen id a e with Some t => Some t | None => acc end) None es.

(** Clock readings are plain instants that do not go backwards; [clock from es]
    says so of [es], starting at [from]. *)
Fixpoint clock (from : Z) (es : list event) : Prop :=
  match es with
  | [] => True
  | e :: es => plain (event_time e) ∧ from ≤ nanos (event_time e) ∧ clock (nanos (event_time e)) es
  end.

(** ** Refinement *)

(** The entries of [id] are the last observations that have not expired. *)
Record ps_ok (now : Z) (es : list event) (ps : PathSet) : Prop := {
  po_ttl : 0 < ttl ps < 2 ^ 63;
  po_nodup id : NoDup (addr <$> entries_of ps id);
  po_entry id e : e ∈ entries_of ps id → last_seen id (addr e) es = Some (lastSeen e);
  po_seen id a t : last_seen id a es = Some t →
    0 ≤ nsec t < Second ∧ (mkEntry a t ∈ entries_of ps id ∨ nanos t + ttl ps ≤ now)
}.

Lemma entries_insert ps id es id' t :
  entries_of (mkPathSet t (<[id := es]> (paths ps))) id' = if decide (id = id') then es else entries_of ps id'.
Proof.
  unfold entries_of. cbn [paths]. case_decide as Hd.
  - subst. by rewrite lookup_insert_eq.
  - by rewrite lookup_insert_ne.
Qed.

Lemma entries_delete ps id id' t :
  entries_of (mkPathSet t (delete id (paths ps))) id' = if decide (id = id') then [] else entries_of ps id'.
Proof.
  unfold entries_of. cbn [paths]. case_decide as Hd.
  - subst. by rewrite lookup_delete_eq.
  - by rewrite lookup_delete_ne.
Qed.

(** What [record] does to the entries, in one form for both branches. *)
Lemma refresh_spec a now es :
  match refresh a now es with
  | Some es' => a ∈ addr <$> es ∧ addr <$> es' = addr <$> es ∧
      (NoDup (addr <$> es) → ∀ e, e ∈ es' ↔ (e = mkEntry a now ∨ e ∈ es ∧ addr e ≠ a))
  | None => a ∉ addr <$> es
  end.
Proof.
  induction es as [|e es IH]; cbn [refresh]; [set_solver|]. case_decide as Ha.
  - subst a. split; [set_solver|]. split; [done|]. intros [Hn Hnd]%NoDup_cons e'.
    rewrite !elem_of_cons. split.
    + intros [->|He]; [by left|right]. split; [by right|]. intros E. apply Hn. rewrite <-E.
      by apply list_elem_of_fmap_2.
    + intros [->|[[->|He] Hne]]; [by left|done|by right].
  - destruct (refresh a now es) as [es'|]; cbn [fmap option_fmap option_map].
    + destruct IH as (Hin & Hmap & IH). split; [set_solver|]. split; [by rewrite !fmap_cons, Hmap|].
      intros [Hn Hnd]%NoDup_cons e'. rewrite !elem_of_cons, IH by done. naive_solver.
    + rewrite fmap_cons, not_elem_of_cons. done.
Qed.

Lemma record_entries ps id a now id' e :
  NoDup (addr <$> entries_of ps id') →
  NoDup (addr <$> entries_of (record ps id a now) id') ∧
  (e ∈ entries_of (record ps id a now) id' ↔
     if decide (id = id') then e = mkEntry a now ∨ e ∈ entries_of ps id' ∧ addr e ≠ a
     else e ∈ entries_of ps id').
Proof.
  intros Hnd. unfold record. pose proof (refresh_spec a now (entries_of ps id)) as Hr.
  destruct (refresh a now (entries_of ps id)) as [es|]; rewrite entries_insert; case_decide as Hd; try done; subst id'.
  - destruct Hr as (_ & -> & Hr). split; [done|]. by apply Hr.
  - rewrite fmap_app, NoDup_app. split.
    + split; [done|]. split; [|apply NoDup_singleton]. intros x Hx ->%list_elem_of_singleton. done.
    + rewrite elem_of_app, list_elem_of_singleton. split; [|naive_solver].
      intros [He| ->]; [right|by left]. split; [done|]. intros <-. by apply Hr, list_elem_of_fmap_2.
Qed.

Lemma last_seen_snoc id a es e :
  last_seen id a (es ++ [e]) = match seen id a e with Some t => Some t | None => last_seen id a es end.
Proof. unfold last_seen. by rewrite foldl_app. Qed.

Lemma ps_ok_mono now now' es ps : now ≤ now' → ps_ok now es ps → ps_ok now' es ps.
Proof.
  intros Hle [Ht Hnd He Hs]. split; [done..|]. intros id a t Hl.
  destruct (Hs id a t Hl) as [? [|]]; split; auto with lia.
Qed.

Lemma ttl_record ps id a now : ttl (record ps id a now) = ttl ps.
Proof. unfold record. by case_match. Qed.

Lemma record_ok now es ps id a t :
  ps_ok now es ps → 0 ≤ nsec t < Second → ps_ok now (es ++ [ERecord id a t]) (record ps id a t).
Proof.
  intros [Ht Hnd He Hs] Hns. split.
  - by rewrite ttl_record.
  - intros id'. by destruct (record_entries ps id a t id' (mkEntry a t)) as [? _].
  - intros id' e Hin. rewrite last_seen_snoc. cbn [seen].
    destruct (record_entries ps id a t id' e) as [_ Hiff]; [done|]. rewrite Hiff in Hin.
    destruct (decide (id = id')) as [->|Hid].
    + destruct Hin as [->|[Hin Hne]]; [by rewrite decide_True|]. rewrite decide_False by naive_solver. by apply He.
    + rewrite decide_False by naive_solver. by apply He.
  - intros id' a' t'. rewrite last_seen_snoc, ttl_record. cbn [seen].
    destruct (record_entries ps id a t id' (mkEntry a' t')) as [_ ->]; [done|].
    case_decide as Hd; [destruct Hd as [-> ->]|].
    + intros [= ->]. split; [done|]. rewrite decide_True by done. by left; left.
    + intros Hl. destruct (Hs id' a' t' Hl) as [? [Hin|]]; split; [done| |done|by right].
      left. case_decide; [right|done]. split; [done|]. cbn. naive_solver.
Qed.

(** The three exits of [Fresh] have one effect. *)
Lemma Fresh_eq ps id t :
  let live := filter (λ e, After (lastSeen e) (Add t (i64 (- ttl ps))) = true) (entries_of ps id) in
  (∀ id', entries_of (Fresh ps id t).1 id' = if decide (id = id') then live else entries_of ps id') ∧
  (Fresh ps id t).2 = addr <$> live ∧ ttl (Fresh ps id t).1 = ttl ps.
Proof.
  cbn zeta. unfold Fresh. destruct (entries_of ps id) as [|e es] eqn:He.
  { rewrite filter_nil. split; [|done]. intros id'. case_decide; by subst. }
  destruct (filter _ (e :: es)) as [|e' live]; cbn [fst snd ttl]; (split; [|done]); intros id'.
  - apply entries_delete.
  - apply entries_insert.
Qed.

(** [Fresh] keeps and returns the entries younger than the TTL. *)
Lemma Fresh_spec now es ps id t :
  ps_ok now es ps → plain t → now ≤ nanos t →
  (∀ id' e, e ∈ entries_of (Fresh ps id t).1 id' ↔
     e ∈ entries_of ps id' ∧ (id' = id → nanos t < nanos (lastSeen e) + ttl ps)) ∧
  (Fresh ps id t).2 = addr <$> entries_of (Fresh ps id t).1 id ∧
  (∀ id', NoDup (addr <$> entries_of (Fresh ps id t).1 id')) ∧ ttl (Fresh ps id t).1 = ttl ps.
Proof.
  intros [Ht Hnd He Hs] Hpl Hnow.
  assert (∀ e, e ∈ entries_of ps id → After (lastSeen e) (Add t (i64 (- ttl ps))) = true ↔
    nanos t < nanos (lastSeen e) + ttl ps) as Hafter.
  { intros e Hin. rewrite i64_small by (unfold is_i64; lia).
    destruct (Add_exact t (- ttl ps) Hpl) as [Hadd Hns]; [unfold is_i64; lia|].
    apply He, Hs in Hin as [Hns' _]. rewrite After_spec, Hadd, Z.ltb_lt by done. lia. }
  destruct (Fresh_eq ps id t) as (Heq & -> & ->). split; [|split; [|split; [|done]]].
  - intros id' e. rewrite Heq. case_decide as Hd.
    + subst id'. rewrite list_elem_of_filter. split; [intros [HP Hin]|intros [Hin HP]]; (split; [|try done]).
      * done.
      * intros _. by apply Hafter.
      * apply Hafter; auto.
    + split; [|by intros []]. intros Hin. split; [done|]. by intros ->.
  - by rewrite Heq, decide_True.
  - intros id'. rewrite Heq. case_decide; [subst|done].
    eapply sublist_NoDup; [apply (Hnd id')|]. apply fmap_sublist, sublist_filter.
Qed.

Lemma Fresh_ok now es ps id t :
  ps_ok now es ps → plain t → now ≤ nanos t → ps_ok (nanos t) (es ++ [EFresh id t]) (Fresh ps id t).1.
Proof.
  intros Hok Hpl Hnow. destruct (Fresh_spec now es ps id t Hok Hpl Hnow) as (Hin & _ & Hnd & Httl).
  destruct Hok as [Ht _ He Hs]. split.
  - by rewrite Httl.
  - done.
  - intros id' e [Hin' _]%Hin. rewrite last_seen_snoc. by apply He.
  - intros id' a t'. rewrite last_seen_snoc, Httl, Hin. cbn [seen lastSeen]. intros Hl.
    destruct (Hs id' a t' Hl) as [? [|]]; (split; [done|]); [|right; lia].
    destruct (decide (nanos t < nanos t' + ttl ps)); [by left|right; lia].
Qed.

Lemma ps_run_ok now es0 ps es :
  ps_ok now es0 ps → clock now es →
  ∃ now', ps_ok now' (es0 ++ es) (run ps es) ∧ ttl (run ps es) = ttl ps ∧
    (∀ n, now ≤ n → Forall (λ e, nanos (event_time e) ≤ n) es → now' ≤ n).
Proof.
  revert now es0 ps. induction es as [|e es IH]; intros now es0 ps Hok Hc.
  { exists now. rewrite app_nil_r. done. }
  destruct Hc as (Hpl & Hle & Hc). unfold run. cbn [foldl]. fold (run (apply_event ps e) es).
  assert (ps_ok (nanos (event_time e)) (es0 ++ [e]) (apply_event ps e) ∧ ttl (apply_event ps e) = ttl ps) as [Hok' Httl].
  { destruct e as [id a t|id t]; cbn in *.
    - split; [|apply ttl_record]. apply record_ok; [by eapply ps_ok_mono|apply Hpl].
    - split; [by eapply Fresh_ok|]. by destruct (Fresh_spec now es0 ps id t Hok Hpl Hle) as (_ & _ & _ & ?). }
  destruct (IH _ _ _ Hok' Hc) as (now' & Hok'' & Httl' & Hmax).
  exists now'. rewrite <-app_assoc in Hok''. cbn [app] in Hok''. split; [done|]. split; [congruence|].
  intros n Hn [Hn1 Hn2]%Forall_cons. by apply Hmax.
Qed.

Lemma ps_ok_new t : is_i64 t → ps_ok (- 2 ^ 126) [] (NewPathSet t).
Proof.
  intros Ht. split.
  - unfold NewPathSet, is_i64, defaultPathTTL, Second in *. cbn [ttl]. destruct (Z.leb_spec t 0); lia.
  - intros id. apply NoDup_nil_2.
  - intros id e He. by apply elem_of_nil in He.
  - intros id a t'. done.
Qed.

(** ** Properties *)

(** The return paths.  For any sequence of observations and queries under a
    clock that does not go backwards, [Fresh] returns each endpoint of the session
    whose last observation is less than the TTL old, once, and no other endpoint;
    in particular pruning never loses a fresh endpoint and never mixes sessions. *)
Theorem fresh_is_recent (t : Z) (es : list event) (id : SessionID) (now : Time) :
  is_i64 t → clock (- 2 ^ 126) es → plain now → Forall (λ e, nanos (event_time e) ≤ nanos now) es →
  let ps := run (NewPathSet t) es in
  NoDup (Fresh ps id now).2 ∧
  ∀ a, a ∈ (Fresh ps id now).2 ↔
    ∃ seen_at, last_seen id a es = Some seen_at ∧ nanos now - nanos seen_at < ttl (NewPathSet t).
Proof.
  intros Ht Hc Hpl Hall ps.
  destruct (ps_run_ok (- 2 ^ 126) [] (NewPathSet t) es (ps_ok_new t Ht) Hc) as (now' & Hok & Httl & Hmax).
  cbn [app] in Hok. fold ps in Hok, Httl. rewrite <-Httl.
  assert (now' ≤ nanos now) as Hle.
  { apply Hmax; [|done]. unfold plain, nanos, Second in *. lia. }
  destruct (Fresh_spec now' es ps id now Hok Hpl Hle) as (Hin & -> & Hnd & _). split; [done|].
  intros a. rewrite list_elem_of_fmap. split.
  - intros (e & -> & [He Hrec]%Hin). exists (lastSeen e). split; [by apply (po_entry _ _ _ Hok)|].
    specialize (Hrec eq_refl). lia.
  - intros (t' & Hl & Hrec). exists (mkEntry a t'). split; [done|]. apply Hin.
    destruct (po_seen _ _ _ Hok id a t' Hl) as [_ [He|]]; [|lia]. split; [done|]. cbn. lia.
Qed.

Definition sA : SessionID := arr 16 (gs "session-id-00001").
Definition wifi : AddrPort := mkAddrPort (Addr4 3405803777) 40001.
Definition cell : AddrPort := mkAddrPort (Addr4 3405803778) 40002.
Definition events1 : list event :=
  [ERecord sA wifi (Unix 100); ERecord sA cell (Unix 200); EFresh sA (Unix 210); ERecord sA cell (Unix 215)].

Lemma fresh_is_recent_witness :
  let ps := run (NewPathSet 0) events1 in
  NoDup (Fresh ps sA (Unix 240)).2 ∧
  ∀ a, a ∈ (Fresh ps sA (Unix 240)).2 ↔
    ∃ seen_at, last_seen sA a events1 = Some seen_at ∧
      nanos (Unix 240) - nanos seen_at < ttl (NewPathSet 0).
Proof.
  apply (fresh_is_recent 0 events1 sA (Unix 240)).
  - unfold is_i64. lia.
  - vm_compute. repeat split; congruence.
  - vm_compute. repeat split; congruence.
  - repeat constructor; vm_compute; congruence.
Defined.

(** At 240 s the 30 s TTL has expired the endpoint last seen at 100 s. *)
Lemma events1_fresh : (Fresh (run (NewPathSet 0) events1) sA (Unix 240)).2 = [cell].
Proof. vm_compute. reflexivity. Qed.

End PathSet.
