(* ===== verification/Router.v ===== *)
(** * internal/exit/ipv4.go and router.go: the exit path

    [parseIPv4], [Egress] with its reverse-path filter, and [ServeReturn].  The
    interfaces of the package are classes: [Metrics] and [Framer] act on the
    state of whoever implements them ([DataGateway] does, in Gateway.v; the
    no-op metrics on [unit]); the answers of the TUN device and of the socket are
    arguments, and what is written to them is part of the result. *)

From S2P Require Import Prelude Protocol Netip GoTime Allocator PathSet.
Import Protocol Netip GoTime.

Module Router.

Inductive error := ErrReversePath | ErrNoLease | errInnerPacket | errDevice.
#[global] Instance error_eq_dec : EqDecision error.
Proof. solve_decision. Defined.

(** ** ipv4.go *)

Definition ipv4HeaderMinLen : nat := 20.

Definition parseIPv4 (packet : bytes) : go (option (Addr * Addr)) :=
  if decide (length packet < ipv4HeaderMinLen)%nat then Ret None else
  b0 ← byte_at packet 0;
  if negb (Z.shiftr (b2z b0) 4 =? 4) then Ret None else
  let ihl := Z.land (b2z b0) 15 * 4 in
  if (ihl <? Z.of_nat ipv4HeaderMinLen) || (Z.of_nat (length packet) <? ihl) then Ret None else
  s ← slice packet 12 16;
  d ← slice packet 16 20;
  Ret (Some (AddrFrom4 (arr 4 s), AddrFrom4 (arr 4 d))).

(** ** The interfaces *)

Class Metrics (S : Type) := {
  Forwarded : Z → S → go S;
  Dropped : string → S → go S;
  Returned : Z → S → go S
}.

#[global] Instance noopMetrics : Metrics () :=
  {| Forwarded _ s := Ret s; Dropped _ s := Ret s; Returned _ s := Ret s |}.

(** [FrameReturn(id, payload)]: the framed datagram, or an error. *)
Class Framer (S : Type) := FrameReturn : SessionID → bytes → S → go (S * option bytes).

Record Router := mkRouter { alloc : Allocator.Allocator; paths : PathSet.PathSet }.

Definition NewRouter (a : Allocator.Allocator) (ps : PathSet.PathSet) : Router := mkRouter a ps.

Definition Lease (r : Router) (id : SessionID) : Router * result Allocator.error Addr :=
  let '(a, x) := Allocator.Allocate (alloc r) id in (mkRouter a (paths r), x).

Definition RecordPath (r : Router) (id : SessionID) (ap : AddrPort) (now : Time) : Router :=
  mkRouter (alloc r) (PathSet.record (paths r) id ap now).

Section ops.
Context {S : Type} `{Metrics S, Framer S}.

(** [Egress]: [write_ok] is the device's answer to the write; the result carries
    the packet handed to the device, if one was. *)
Definition Egress (r : Router) (s : S) (id : SessionID) (innerPacket : bytes) (write_ok : bool)
  : go (S * result error () * option bytes) :=
  match Allocator.LeaseOf (alloc r) id with
  | None => s ← Dropped "no-lease" s; Ret (s, Err ErrNoLease, None)
  | Some leased =>
      p ← parseIPv4 innerPacket;
      match p with
      | None => s ← Dropped "bad-inner-packet" s; Ret (s, Err errInnerPacket, None)
      | Some (src, _) =>
          if decide (src ≠ leased) then s ← Dropped "reverse-path" s; Ret (s, Err ErrReversePath, None) else
          if negb write_ok then s ← Dropped "tun-write-error" s; Ret (s, Err errDevice, Some innerPacket) else
          s ← Forwarded (Z.of_nat (length innerPacket)) s; Ret (s, Ok (), Some innerPacket)
      end
  end.

(** The delivery loop of [ServeReturn]: one [SendTo] per fresh endpoint. *)
Fixpoint send_all (s : S) (framed : bytes) (dsts : list AddrPort) (send_ok : AddrPort → bool) : go S :=
  match dsts with
  | [] => Ret s
  | ep :: dsts =>
      s ← (if send_ok ep then Returned (Z.of_nat (length framed)) s else Ret s);
      send_all s framed dsts send_ok
  end.

(** One iteration of [ServeReturn] for a packet read from the device; the result
    lists the datagrams handed to the sink. *)
Definition return_one (r : Router) (s : S) (packet : bytes) (now : Time) (send_ok : AddrPort → bool)
  : go (Router * S * list (bytes * AddrPort)) :=
  p ← parseIPv4 packet;
  match p with
  | None => s ← Dropped "bad-return-packet" s; Ret (r, s, [])
  | Some (_, dst) =>
      match Allocator.Lookup (alloc r) dst with
      | None => s ← Dropped "unknown-dst" s; Ret (r, s, [])
      | Some id =>
          '(s, f) ← FrameReturn id packet s;
          match f with
          | None => s ← Dropped "frame-error" s; Ret (r, s, [])
          | Some framed =>
              let '(ps, dsts) := PathSet.Fresh (paths r) id now in
              s ← send_all s framed dsts send_ok;
              Ret (mkRouter (alloc r) ps, s, (framed,.) <$> dsts)
          end
      end
  end.

(** [ServeReturn]: the packets read before the device fails, then its error,
    which is not reported when the context was cancelled. *)
Fixpoint ServeReturn (r : Router) (s : S) (reads : list (bytes * Time)) (ctx_done : bool)
    (send_ok : AddrPort → bool) : go (Router * S * list (bytes * AddrPort) * result error ()) :=
  match reads with
  | [] => Ret (r, s, [], if ctx_done then Ok () else Err errDevice)
  | (packet, now) :: reads =>
      '(r, s, out) ← return_one r s packet now send_ok;
      '(r, s, out', e) ← ServeReturn r s reads ctx_done send_ok;
      Ret (r, s, out ++ out', e)
  end.

End ops.

(** What the router needs of its metrics sink: under an invariant of its owner,
    recording a decision returns and keeps the invariant. *)
Class MetricsLaws (S : Type) `{Metrics S} (I : S → Prop) : Prop := {
  forwarded_ok n s : I s → ∃ s', Forwarded n s = Ret s' ∧ I s';
  dropped_ok reason s : I s → ∃ s', Dropped reason s = Ret s' ∧ I s';
  returned_ok n s : I s → ∃ s', Returned n s = Ret s' ∧ I s'
}.
#[global] Instance noopMetrics_laws : MetricsLaws () (λ _, True).
Proof. split; intros; by eexists. Qed.

(** ** parseIPv4 *)

Lemma parseIPv4_total p : ∃ r, parseIPv4 p = Ret r.
Proof.
  unfold parseIPv4. case_decide as Hl; [by eexists|]. unfold ipv4HeaderMinLen in Hl.
  destruct (byte_at_is_ret p 0) as (b & -> & _); [lia|]. mstep.
  destruct (negb _); [by eexists|]. destruct (orb _ _); [by eexists|].
  rewrite !slice_ret by lia. mstep. by eexists.
Qed.

(** The packets [parseIPv4] accepts, and the addresses it reads. *)
Definition ipv4_ok (p : bytes) : bool :=
  match p with
  | b0 :: _ => bool_decide (20 ≤ length p)%nat && (Z.shiftr (b2z b0) 4 =? 4) &&
      (5 <=? Z.land (b2z b0) 15) && (Z.land (b2z b0) 15 * 4 <=? Z.of_nat (length p))
  | [] => false
  end.
Definition src_of (p : bytes) : Addr := Addr4 (be_val (take 4 (drop 12 p))).
Definition dst_of (p : bytes) : Addr := Addr4 (be_val (take 4 (drop 16 p))).

Lemma parseIPv4_eq p :
  parseIPv4 p = Ret (if ipv4_ok p then Some (src_of p, dst_of p) else None).
Proof.
  unfold parseIPv4, ipv4HeaderMinLen. case_decide as Hl.
  { destruct p as [|b0 p]; [done|]. cbn [ipv4_ok]. by rewrite bool_decide_false by lia. }
  destruct p as [|b0 p']; [simpl in Hl; lia|]. set (p := b0 :: p') in *.
  change (byte_at p 0) with (@Ret byte b0). mstep.
  cbn [ipv4_ok p]. fold p. rewrite bool_decide_true by lia. cbn [andb].
  destruct (Z.shiftr (b2z b0) 4 =? 4); [|done]. cbn [negb andb].
  destruct (Z.ltb_spec (Z.land (b2z b0) 15 * 4) (Z.of_nat 20)), (Z.leb_spec 5 (Z.land (b2z b0) 15)); [lia|done| |lia].
  cbn [orb andb]. rewrite Z.leb_antisym. destruct (Z.ltb_spec (Z.of_nat (length p)) (Z.land (b2z b0) 15 * 4)); [done|].
  cbn [negb]. rewrite !slice_ret by lia. mstep. unfold AddrFrom4, src_of, dst_of.
  by rewrite !vec_arr by (rewrite length_take, length_drop; lia).
Qed.

(** [Egress] by the outcome of its three tests. *)
Definition passes (r : Router) (id : SessionID) (p : bytes) : bool :=
  ipv4_ok p && bool_decide (Allocator.LeaseOf (alloc r) id = Some (src_of p)).

Lemma Egress_eq {S} `{Metrics S} {I} `{!MetricsLaws S I} (r : Router) (s : S) id p ok :
  I s →
  ∃ s' res, Egress r s id p ok = Ret (s', res, if passes r id p then Some p else None) ∧ I s' ∧
    (res = Ok () ↔ passes r id p = true ∧ ok = true) ∧
    (res = Err ErrNoLease ↔ Allocator.LeaseOf (alloc r) id = None).
Proof.
  intros Hs. unfold Egress, passes. rewrite parseIPv4_eq.
  destruct (Allocator.LeaseOf (alloc r) id) as [leased|].
  2: { destruct (dropped_ok "no-lease" s Hs) as (s' & -> & Hs'). mstep.
       rewrite andb_false_r. eexists _, _. split; [done|]. naive_solver. }
  mstep. destruct (ipv4_ok p); cbn [andb].
  2: { destruct (dropped_ok "bad-inner-packet" s Hs) as (s' & -> & Hs'). mstep.
       eexists _, _. split; [done|]. naive_solver. }
  case_decide as Hsrc.
  { destruct (dropped_ok "reverse-path" s Hs) as (s' & -> & Hs'). mstep.
    rewrite bool_decide_false by congruence. eexists _, _. split; [done|]. naive_solver. }
  rewrite bool_decide_true by congruence. destruct ok; cbn [negb].
  - destruct (forwarded_ok (Z.of_nat (length p)) s Hs) as (s' & -> & Hs'). mstep.
    eexists _, _. split; [done|]. naive_solver.
  - destruct (dropped_ok "tun-write-error" s Hs) as (s' & -> & Hs'). mstep.
    eexists _, _. split; [done|]. naive_solver.
Qed.

(** No packet passes the filter for two sessions. *)
Lemma passes_unique pool r id id' p :
  Allocator.alloc_ok pool (alloc r) → passes r id p = true → passes r id' p = true → id' = id.
Proof.
  unfold passes, Allocator.LeaseOf. intros Hpool. destruct (ipv4_ok p); [|done]. cbn [andb].
  rewrite !bool_decide_eq_true, !(Allocator.ao_inverse _ _ Hpool). congruence.
Qed.

Lemma send_all_ok {S} `{Metrics S} {I} `{!MetricsLaws S I} (s : S) framed dsts ok :
  I s → ∃ s', send_all s framed dsts ok = Ret s' ∧ I s'.
Proof.
  revert s. induction dsts as [|ep dsts IH]; intros s Hs; [by eexists|]. cbn [send_all].
  destruct (ok ep); [|by apply IH].
  destruct (returned_ok (Z.of_nat (length framed)) s Hs) as (s' & -> & Hs'). mstep. by apply IH.
Qed.

(** ** Properties *)

(** The reverse-path filter.  [Egress] returns on every packet; it hands the
    device the packet itself, and exactly when the packet is a well-formed IPv4
    packet whose source is the address leased to the sending session; otherwise
    it hands it nothing and reports why.  Hence, under the lease invariant, no
    packet is accepted from two different sessions: a session cannot speak from
    another one's address. *)
Theorem egress_reverse_path (r : Router) (id : SessionID) (p : bytes) (write_ok : bool) :
  ∃ res out, Egress r () id p write_ok = Ret ((), res, out) ∧
    out = (if ipv4_ok p && bool_decide (Allocator.LeaseOf (alloc r) id = Some (src_of p)) then Some p else None) ∧
    (res = Ok () ↔ is_Some out ∧ write_ok = true) ∧
    (res = Err ErrNoLease ↔ Allocator.LeaseOf (alloc r) id = None) ∧
    (∀ pool id' ok1 res2, Allocator.alloc_ok pool (alloc r) → is_Some out →
       Egress r () id' p ok1 = Ret ((), res2, Some p) → id' = id).
Proof.
  destruct (Egress_eq (I := λ _, True) r () id p write_ok I) as ([] & res & HE & _ & Hok & Hno).
  eexists _, _. split; [exact HE|]. split; [done|]. split; [|split; [done|]].
  - rewrite Hok. destruct (passes r id p); [split; intros [_ ->]; [split; [by exists p|done]|done]|].
    split; [by intros [? _]|by intros [[? ?] _]].
  - intros pool id' ok1 res2 Hpool [x Hout] HE'.
    destruct (Egress_eq (I := λ _, True) r () id' p ok1 I) as ([] & res3 & HE3 & _).
    rewrite HE' in HE3. injection HE3 as _ Hout'.
    destruct (passes r id p) eqn:H1; [|done]. destruct (passes r id' p) eqn:H2; [|done].
    by eapply passes_unique.
Qed.

End Router.
