(* ===== verification/Entitlement.v ===== *)
(** * internal/entitlement: tokens, the admission service and the test provider

    token.go ([Issue], [Verify], [sign]), service.go ([Admit],
    [OnPaymentEvent]), provider.go and testing.go ([FakeProvider]).  The payment
    provider is a class; HMAC-SHA256 is the [HMAC] class of Crypto.v. *)

From S2P Require Import Prelude GoText GoTime Crypto.
Import GoTime.

Module Entitlement.

(** [%w]-wrapped errors are the error they wrap ([errors.Is]); [ProviderError]
    keeps the operation and the message. *)
Inductive error :=
| ErrMalformedToken | ErrBadSignature | ErrExpired | ErrInvalidClaims | ErrNoKey
| ErrNotConfigured | ProviderError (op msg : string).
#[global] Instance error_eq_dec : EqDecision error.
Proof. solve_decision. Defined.

Abbreviation Tier := bytes (only parsing).
Definition TierHosted : Tier := gs "hosted".
Definition TierSelfHosted : Tier := gs "self-hosted".
Definition validTier (t : Tier) : bool := bool_decide (t = TierHosted).

Record Claims := mkClaims { Subject : bytes; CTier : Tier; Expiry : Z }.
#[global] Instance Claims_eq_dec : EqDecision Claims.
Proof. solve_decision. Defined.

Definition bar : byte := "|"%char.
Definition dot : byte := "."%char.

(** ** provider.go *)

Record CheckoutSession := mkCheckout { ID : bytes; csSubject : bytes; csTier : Tier; URL : bytes }.
Record PaymentEvent := mkEvent { evSubject : bytes; evTier : Tier; Paid : bool }.

Class PaymentProvider (P : Type) := {
  CreateCheckout : P → bytes → Tier → P * result error CheckoutSession;
  VerifyWebhook : P → Time → bytes → bytes → result error PaymentEvent
}.

(** ** service.go *)

Inductive Mode := ModeOpen | ModeHosted.

Record Service (P : Type) := mkService {
  SMode : Mode;
  Key : bytes;
  Provider : option P;
  TokenTTL : Z
}.
Arguments mkService {_}.
Arguments SMode {_}.
Arguments Key {_}.
Arguments Provider {_}.
Arguments TokenTTL {_}.

Section ops.
Context `{HMAC}.

(** ** token.go *)

Definition sign (payload key : bytes) : bytes := B64.encode (hmac_sha256 key payload).

Definition Issue (c : Claims) (key : bytes) : result error bytes :=
  if decide (length key = 0)%nat then Err ErrNoKey else
  if bool_decide (Subject c = []) || Strings.contains (Subject c) [bar] then Err ErrInvalidClaims else
  if negb (validTier (CTier c)) then Err ErrInvalidClaims else
  if Expiry c <=? 0 then Err ErrInvalidClaims else
  let raw := Subject c ++ [bar] ++ CTier c ++ [bar] ++ Strconv.format_int (Expiry c) in
  let payload := B64.encode raw in
  let sig := sign payload key in
  Ok (payload ++ [dot] ++ sig).

Definition Verify (token key : bytes) (now : Time) : result error Claims :=
  if decide (length key = 0)%nat then Err ErrNoKey else
  match Strings.cut dot token with
  | None => Err ErrMalformedToken
  | Some (payload, gotSig) =>
      if decide (payload = [] ∨ gotSig = []) then Err ErrMalformedToken else
      let wantSig := sign payload key in
      if decide (gotSig ≠ wantSig) then Err ErrBadSignature else
      match B64.decode payload with
      | None => Err ErrMalformedToken
      | Some raw =>
          match Strings.split bar raw with
          | [p0; p1; p2] =>
              match Strconv.parse_int p2 with
              | None => Err ErrMalformedToken
              | Some exp =>
                  let c := mkClaims p0 p1 exp in
                  if negb (validTier (CTier c)) then Err ErrInvalidClaims else
                  if unix now >? Expiry c then Err ErrExpired else Ok c
              end
          | _ => Err ErrMalformedToken
          end
      end
  end.

Definition OnPaymentEvent `{PaymentProvider P} (s : Service P) (now : Time) (payload signature : bytes)
  : result error bytes :=
  match Provider s with
  | None => Err ErrNotConfigured
  | Some p =>
      if decide (length (Key s) = 0)%nat then Err ErrNotConfigured else
      match VerifyWebhook p now payload signature with
      | Err e => Err e
      | Ok ev =>
          if negb (Paid ev) then Err ErrInvalidClaims else
          Issue (mkClaims (evSubject ev) (evTier ev) (unix (Add now (TokenTTL s)))) (Key s)
      end
  end.

Definition Admit {P} (s : Service P) (token : bytes) (now : Time) : result error Claims :=
  match SMode s with
  | ModeOpen => Ok (mkClaims [] TierSelfHosted 0)
  | ModeHosted =>
      if decide (length (Key s) = 0)%nat then Err ErrNotConfigured else
      if decide (token = []) then Err ErrMalformedToken else
      match Verify token (Key s) now with
      | Err e => Err e
      | Ok claims => if decide (CTier claims ≠ TierHosted) then Err ErrInvalidClaims else Ok claims
      end
  end.

(** ** testing.go *)

Record FakeProvider := mkFake { secret : bytes; sessions : gmap (list ascii) CheckoutSession }.

Definition NewFakeProvider (secret : bytes) : FakeProvider := mkFake secret ∅.

Definition digest (key msg : bytes) : bytes := hmac_sha256 key msg.

Definition FakeCreateCheckout (p : FakeProvider) (subject : bytes) (tier : Tier)
  : FakeProvider * result error CheckoutSession :=
  if decide (subject = []) then (p, Err (ProviderError "checkout" "empty subject")) else
  if negb (validTier tier) then (p, Err (ProviderError "checkout" "unknown tier")) else
  let id := gs "cs_" ++ take 24 (Hex.encode (digest (secret p) (subject ++ [bar] ++ tier))) in
  let sess := mkCheckout id subject tier (gs "https://checkout.example.test/" ++ id) in
  (mkFake (secret p) (<[id := sess]> (sessions p)), Ok sess).

Definition SignedWebhook (p : FakeProvider) (sessionID : bytes) : bytes * bytes :=
  match sessions p !! sessionID with
  | None => let payload := gs "unknown:" ++ sessionID in
            (payload, Hex.encode (digest (secret p) payload))
  | Some sess =>
      let payload := gs "paid|" ++ csSubject sess ++ [bar] ++ csTier sess in
      (payload, Hex.encode (digest (secret p) payload))
  end.

Definition FakeVerifyWebhook (p : FakeProvider) (now : Time) (payload signature : bytes)
  : result error PaymentEvent :=
  let want := digest (secret p) payload in
  match Hex.decode signature with
  | None => Err (ProviderError "webhook" "malformed signature")
  | Some got =>
      if decide (got ≠ want) then Err (ProviderError "webhook" "signature mismatch") else
      match Strings.splitN 2 bar payload with
      | [f0; f1; f2] =>
          if decide (f0 ≠ gs "paid") then Err (ProviderError "webhook" "unrecognised event") else
          if negb (validTier f2) then Err (ProviderError "webhook" "unknown tier") else
          Ok (mkEvent f1 f2 true)
      | _ => Err (ProviderError "webhook" "unrecognised event")
      end
  end.

#[export] Instance FakeProvider_provider : PaymentProvider FakeProvider :=
  {| CreateCheckout := FakeCreateCheckout; VerifyWebhook := FakeVerifyWebhook |}.

(** ** Tokens *)

(** The claims [Issue] accepts. *)
Definition issuable (c : Claims) : Prop :=
  Subject c ≠ [] ∧ bar ∉ Subject c ∧ CTier c = TierHosted ∧ 0 < Expiry c.

Definition raw_of (c : Claims) : bytes :=
  Subject c ++ [bar] ++ CTier c ++ [bar] ++ Strconv.format_int (Expiry c).
Definition token_of (c : Claims) (key : bytes) : bytes :=
  B64.encode (raw_of c) ++ dot :: sign (B64.encode (raw_of c)) key.

Lemma Issue_inv c key tok :
  Issue c key = Ok tok ↔ key ≠ [] ∧ issuable c ∧ tok = token_of c key.
Proof.
  unfold Issue, issuable, validTier. destruct key as [|k key]; [by split; [|intros []]|].
  rewrite decide_False by done. pose proof (Strings.contains_single (Subject c) bar) as Hc.
  case_bool_decide as H1; cbn [orb]; [split; [done|naive_solver]|].
  destruct (Strings.contains (Subject c) [bar]); [split; [done|]; intros (_ & (_ & Hn & _) & _); by destruct Hn; apply Hc|].
  case_bool_decide as H2; cbn [negb]; [|split; [done|naive_solver]].
  destruct (Z.leb_spec (Expiry c) 0); [split; [done|]; intros (_ & (_ & _ & _ & ?) & _); lia|].
  assert (bar ∉ Subject c) by (by rewrite <-Hc). split; [intros [= <-]; by split_and!|by intros (_ & _ & ->)].
Qed.

Lemma B64_ne l : l ≠ [] → B64.encode l ≠ [].
Proof. destruct l as [|a [|b [|c l]]]; cbn; done. Qed.

Lemma sign_ne `{!HMACLaws} p key : sign p key ≠ [].
Proof.
  apply B64_ne. intros E. apply (f_equal length) in E. rewrite hmac_length in E. done.
Qed.

(** The raw payload splits into its three fields. *)
Lemma split_raw c : issuable c → Strings.split bar (raw_of c) = [Subject c; CTier c; Strconv.format_int (Expiry c)].
Proof.
  intros (_ & Hb & Ht & He). unfold raw_of. cbn [app]. rewrite Strings.split_app by done.
  rewrite Ht, Strings.split_app by (vm_compute; set_solver).
  rewrite Strings.split_nosep; [done|]. unfold Strconv.format_int.
  destruct (Z.ltb_spec (Expiry c) 0); [lia|]. apply Strconv.format_digits_chars; [lia..|]. vm_compute. auto.
Qed.

(** A signed payload passes every check but the clock. *)
Lemma Verify_token `{!HMACLaws} c key now :
  key ≠ [] → issuable c → is_i64 (Expiry c) →
  Verify (token_of c key) key now = if unix now >? Expiry c then Err ErrExpired else Ok c.
Proof.
  intros Hk Hc He. unfold Verify, token_of.
  rewrite decide_False by (destruct key; cbn; lia || done).
  rewrite Strings.cut_app by apply B64.encode_nodot.
  rewrite decide_False.
  2: { intros [E|E]; [|by apply sign_ne in E]. apply B64_ne in E; [done|].
       unfold raw_of. destruct Hc as [Hs _]. by destruct (Subject c). }
  rewrite decide_False by (intros Hne; by apply Hne).
  rewrite B64.b64_decode_encode, split_raw by done. rewrite Strconv.parse_format_int by done.
  destruct Hc as (_ & _ & Ht & _). unfold validTier. cbn [CTier Expiry].
  rewrite bool_decide_true by done. by destruct c.
Qed.

(** What a verified token is. *)
Lemma Verify_inv tok key now c :
  Verify tok key now = Ok c →
  ∃ payload raw exp, tok = payload ++ dot :: sign payload key ∧ key ≠ [] ∧
    B64.decode payload = Some raw ∧ raw = Subject c ++ [bar] ++ TierHosted ++ [bar] ++ exp ∧
    Strconv.parse_int exp = Some (Expiry c) ∧ CTier c = TierHosted ∧ unix now ≤ Expiry c.
Proof.
  unfold Verify. case_decide as Hk; [done|].
  destruct (Strings.cut dot tok) as [[payload gotSig]|] eqn:Hcut; [|done].
  apply Strings.cut_some in Hcut as [-> _]. case_decide; [done|]. case_decide as Hs; [done|].
  subst gotSig.
  destruct (B64.decode payload) as [raw|] eqn:Hd; [|done].
  pose proof (Strings.join_split bar raw) as Hj.
  destruct (Strings.split bar raw) as [|p0 [|p1 [|p2 [|]]]]; try done.
  destruct (Strconv.parse_int p2) as [exp|] eqn:He; [|done]. unfold validTier. cbn [CTier].
  case_bool_decide as Ht; [|done]. cbn [negb Expiry]. rewrite Z.gtb_ltb.
  destruct (Z.ltb_spec exp (unix now)); [done|]. intros [= <-]. cbn [Subject CTier Expiry].
  exists payload, raw, p2. split_and!; try done; [by destruct key|]. rewrite <-Hj, Ht. done.
Qed.

(** The test provider: a checkout's webhook is accepted as the payment it was
    made for, when the subject has no separator in it. *)
Lemma fake_webhook_roundtrip p subject tier p' sess now :
  FakeCreateCheckout p subject tier = (p', Ok sess) → bar ∉ subject →
  FakeVerifyWebhook p' now (SignedWebhook p' (ID sess)).1 (SignedWebhook p' (ID sess)).2
  = Ok (mkEvent subject tier true).
Proof.
  unfold FakeCreateCheckout. case_decide; [done|]. destruct (validTier tier) eqn:Ht; [|done].
  cbn [negb]. intros [= <- <-] Hb. unfold SignedWebhook. cbn [sessions ID secret]. rewrite lookup_insert_eq.
  cbn [fst snd csSubject csTier]. unfold FakeVerifyWebhook. cbn [secret].
  rewrite Hex.hex_decode_encode, decide_False by (intros Hne; by apply Hne).
  change (gs "paid|" ++ subject ++ [bar] ++ tier) with (gs "paid" ++ bar :: subject ++ bar :: tier).
  cbn [Strings.splitN]. rewrite Strings.cut_app by (vm_compute; set_solver).
  rewrite Strings.cut_app by done. rewrite decide_False by (intros Hne; by apply Hne). by rewrite Ht.
Qed.

(** ** Properties *)

(** An issued token verifies under its key to exactly the claims it was
    issued for, up to and including the expiry second, and is reported as
    expired after it. *)
Theorem token_roundtrip `{!HMACLaws} (c : Claims) (key tok : bytes) (now : Time) :
  is_i64 (Expiry c) → Issue c key = Ok tok →
  Verify tok key now = if unix now <=? Expiry c then Ok c else Err ErrExpired.
Proof.
  intros He (Hk & Hc & ->)%Issue_inv. rewrite Verify_token by done.
  rewrite Z.gtb_ltb, Z.leb_antisym. by destruct (Expiry c <? unix now).
Qed.

(** A hosted gateway admits nothing but tokens minted under its key: an
    admitted token is a payload followed by that payload's HMAC under the
    service key, carries the hosted tier and the returned subject, and has not
    expired; with no key configured nothing is admitted. *)
Theorem hosted_admission_sound {P} (s : Service P) (tok : bytes) (now : Time) (c : Claims) :
  SMode s = ModeHosted → Admit s tok now = Ok c →
  ∃ payload exp, tok = payload ++ dot :: B64.encode (hmac_sha256 (Key s) payload) ∧ Key s ≠ [] ∧
    B64.decode payload = Some (Subject c ++ [bar] ++ TierHosted ++ [bar] ++ exp) ∧
    Strconv.parse_int exp = Some (Expiry c) ∧ CTier c = TierHosted ∧ unix now ≤ Expiry c.
Proof.
  intros Hm. unfold Admit. rewrite Hm. case_decide; [done|]. case_decide; [done|].
  destruct (Verify tok (Key s) now) as [c'|] eqn:Hv; [|done]. case_decide; [done|]. intros [= ->].
  apply Verify_inv in Hv as (payload & raw & exp & -> & Hk & Hd & -> & ?). by exists payload, exp.
Qed.

(** Payment opens the gate.  When the service mints a token from a webhook,
    the provider verified that webhook as a completed payment, and the hosted
    gate admits the token, with the payer as subject, until it expires. *)
Theorem paid_webhook_admits `{!HMACLaws, PaymentProvider P} (s : Service P) (now now' : Time)
    (payload signature tok : bytes) :
  SMode s = ModeHosted → OnPaymentEvent s now payload signature = Ok tok →
  unix now' ≤ unix (Add now (TokenTTL s)) →
  ∃ p ev, Provider s = Some p ∧ VerifyWebhook p now payload signature = Ok ev ∧ Paid ev = true ∧
    Admit s tok now' = Ok (mkClaims (evSubject ev) TierHosted (unix (Add now (TokenTTL s)))).
Proof.
  intros Hm Ho Hexp. unfold OnPaymentEvent in Ho. destruct (Provider s) as [p|]; [|done].
  case_decide as Hk; [done|]. destruct (VerifyWebhook p now payload signature) as [ev|] eqn:Hev; [|done].
  destruct (Paid ev) eqn:Hp; [|done]. cbn [negb] in Ho. exists p, ev. split_and!; try done.
  apply Issue_inv in Ho as (Hne & Hc & ->).
  unfold Admit. rewrite Hm, decide_False by done.
  rewrite decide_False by (unfold token_of; intros E%app_nil; naive_solver).
  rewrite Verify_token by (done || apply i64_range). cbn [Expiry]. rewrite Z.gtb_ltb.
  destruct Hc as (_ & _ & Ht & _). cbn [CTier] in Ht.
  destruct (Z.ltb_spec (unix (Add now (TokenTTL s))) (unix now')); [lia|]. cbn [CTier].
  rewrite Ht, decide_False; [done|]. intros Hne'. by apply Hne'.
Qed.

End ops.

(** ** Witnesses, at the toy primitives *)

Module Witness.
Import Toy.

Definition claims1 : Claims := mkClaims (gs "cus_42") TierHosted 1767225600.
Definition key1 : bytes := gs "signing-key".
Definition tok1 : bytes := token_of claims1 key1.
Definition fake1 : FakeProvider := (FakeCreateCheckout (NewFakeProvider (gs "whsec")) (gs "cus_42") TierHosted).1.
Definition service1 : Service FakeProvider := mkService ModeHosted key1 (Some fake1) (30 * 24 * Hour).
Definition webhook1 : bytes * bytes :=
  SignedWebhook fake1 (gs "cs_" ++ take 24 (Hex.encode (Entitlement.digest (gs "whsec") (gs "cus_42|hosted")))).
Definition tok2 : bytes := match OnPaymentEvent service1 (Unix 1767225600) webhook1.1 webhook1.2 with Ok t => t | Err _ => [] end.

Lemma token_roundtrip_witness :
  Verify tok1 key1 (Unix 1767225600) = Ok claims1 ∧ Verify tok1 key1 (Unix 1767225601) = Err ErrExpired.
Proof.
  split.
  - refine (token_roundtrip claims1 key1 tok1 (Unix 1767225600) _ _).
    + unfold is_i64. cbn [Expiry claims1]. lia.
    + vm_compute. reflexivity.
  - refine (token_roundtrip claims1 key1 tok1 (Unix 1767225601) _ _).
    + unfold is_i64. cbn [Expiry claims1]. lia.
    + vm_compute. reflexivity.
Defined.

Lemma hosted_admission_sound_witness :
  ∃ payload exp, tok1 = payload ++ dot :: B64.encode (hmac_sha256 (Key service1) payload) ∧ Key service1 ≠ [] ∧
    B64.decode payload = Some (Subject claims1 ++ [bar] ++ TierHosted ++ [bar] ++ exp) ∧
    Strconv.parse_int exp = Some (Expiry claims1) ∧ CTier claims1 = TierHosted ∧
    unix (Unix 1767225500) ≤ Expiry claims1.
Proof.
  apply (hosted_admission_sound service1 tok1 (Unix 1767225500) claims1); vm_compute; reflexivity.
Defined.

Lemma paid_webhook_admits_witness :
  ∃ p ev, Provider service1 = Some p ∧
    VerifyWebhook p (Unix 1767225600) webhook1.1 webhook1.2 = Ok ev ∧ Paid ev = true ∧
    Admit service1 tok2 (Unix 1767225700)
    = Ok (mkClaims (evSubject ev) TierHosted (unix (Add (Unix 1767225600) (TokenTTL service1)))).
Proof.
  apply (paid_webhook_admits service1 (Unix 1767225600) (Unix 1767225700) webhook1.1 webhook1.2 tok2).
  - reflexivity.
  - vm_compute. reflexivity.
  - vm_compute. congruence.
Defined.

End Witness.
End Entitlement.
