(* ===== verification/Metrics.v ===== *)
(** * internal/metrics: the registry and its exposition text

    A registry owns its vectors; the [*CounterVec] and [*GaugeVec] pointers the
    callers keep are positions in it.  [sampleFor] panics on a label count
    mismatch; [render] walks the series map in an unspecified order and sorts. *)

From stdpp Require Import sorting.
From S2P Require Import Prelude GoText.

Module Metrics.

Record sample := mkSample { labelValues : list bytes; value : Z }.

Record metric := mkMetric {
  name : bytes;
  help : bytes;
  labelNames : list bytes;
  series : gmap (list ascii) sample
}.

Record Registry := mkRegistry { counters : list metric; gauges : list metric }.

Definition NewRegistry : Registry := mkRegistry [] [].

Definition new_metric (n h : string) (ls : list string) : metric := mkMetric (gs n) (gs h) (gs <$> ls) ∅.

(** [Counter] and [Gauge] return the position of the new vector. *)
Definition Counter (r : Registry) (n h : string) (ls : list string) : Registry * nat :=
  (mkRegistry (counters r ++ [new_metric n h ls]) (gauges r), length (counters r)).
Definition Gauge (r : Registry) (n h : string) (ls : list string) : Registry * nat :=
  (mkRegistry (counters r) (gauges r ++ [new_metric n h ls]), length (gauges r)).

Definition key_of (values : list bytes) : bytes := Strings.join "000"%char values.

(** [sampleFor] creates the series on first use; updating its value is writing
    the sample back. *)
Definition sampleFor (m : metric) (values : list bytes) : go sample :=
  if decide (length values ≠ length (labelNames m)) then Panic else
  Ret (default (mkSample values 0) (series m !! key_of values)).

Definition update_sample (m : metric) (values : list bytes) (f : Z → Z) : go metric :=
  s ← sampleFor m values;
  Ret (mkMetric (name m) (help m) (labelNames m)
         (<[key_of values := mkSample (labelValues s) (f (value s))]> (series m))).

(** [CounterVec.Add] and [Inc]; [GaugeVec.Set], [Inc] and [Dec]. *)
Definition CounterAdd (m : metric) (delta : Z) (values : list bytes) : go metric :=
  update_sample m values (λ v, i64 (v + delta)).
Definition CounterInc (m : metric) (values : list bytes) : go metric := CounterAdd m 1 values.
Definition GaugeSet (m : metric) (v : Z) (values : list bytes) : go metric :=
  update_sample m values (λ _, v).
Definition GaugeInc (m : metric) (values : list bytes) : go metric :=
  update_sample m values (λ v, i64 (v + 1)).
Definition GaugeDec (m : metric) (values : list bytes) : go metric :=
  update_sample m values (λ v, i64 (v - 1)).

(** A call through a vector pointer: the vector at its position is updated. *)
Definition on_counter (r : Registry) (h : nat) (f : metric → go metric) : go Registry :=
  match counters r !! h with
  | None => Panic
  | Some m => m' ← f m; Ret (mkRegistry (<[h := m']> (counters r)) (gauges r))
  end.
Definition on_gauge (r : Registry) (h : nat) (f : metric → go metric) : go Registry :=
  match gauges r !! h with
  | None => Panic
  | Some m => m' ← f m; Ret (mkRegistry (counters r) (<[h := m']> (gauges r)))
  end.
Definition Inc (r : Registry) (h : nat) (labels : list string) : go Registry :=
  on_counter r h (λ m, CounterInc m (gs <$> labels)).
Definition Add (r : Registry) (h : nat) (delta : Z) (labels : list string) : go Registry :=
  on_counter r h (λ m, CounterAdd m delta (gs <$> labels)).
Definition Set_ (r : Registry) (h : nat) (v : Z) (labels : list string) : go Registry :=
  on_gauge r h (λ m, GaugeSet m v (gs <$> labels)).

(** ** Rendering *)

(** Lexicographic order, the shorter prefix first. *)
Fixpoint lex {A} `{EqDecision A} (lt : A → A → bool) (a b : list A) : bool :=
  match a, b with
  | _, [] => false
  | [], _ :: _ => true
  | x :: a, y :: b => if decide (x = y) then lex lt a b else lt x y
  end.

Definition byte_lt (x y : byte) : bool := b2z x <? b2z y.
Definition str_lt : bytes → bytes → bool := lex byte_lt.
Definition less : list bytes → list bytes → bool := lex str_lt.

Fixpoint insert_sample (s : sample) (l : list sample) : list sample :=
  match l with
  | [] => [s]
  | t :: l' => if less (labelValues s) (labelValues t) then s :: l else t :: insert_sample s l'
  end.
Definition sort_samples (l : list sample) : list sample := foldr insert_sample [] l.

Definition quote : byte := z2b 34.
Definition newline : byte := z2b 10.
Definition backslash : byte := z2b 92.

Definition escape_byte (b : byte) : bytes :=
  if decide (b = backslash) then [backslash; backslash]
  else if decide (b = quote) then [backslash; quote]
  else if decide (b = newline) then [backslash; "n"%char]
  else [b].
(** [strings.ContainsAny] guards the replacer; without a match it is the identity. *)
Definition escape (v : bytes) : bytes := flat_map escape_byte v.

Fixpoint label_pairs (names values : list bytes) : go (list bytes) :=
  match names with
  | [] => Ret []
  | n :: names =>
      match values with
      | [] => Panic
      | v :: values => rest ← label_pairs names values;
                       Ret ((n ++ gs "=" ++ [quote] ++ escape v ++ [quote]) :: rest)
      end
  end.

Definition writeLabels (names values : list bytes) : go bytes :=
  match names with
  | [] => Ret []
  | _ => ps ← label_pairs names values;
         Ret (gs "{" ++ Strings.join ","%char ps ++ gs "}")
  end.

Fixpoint render_samples (m : metric) (l : list sample) : go bytes :=
  match l with
  | [] => Ret []
  | s :: l =>
      ls ← writeLabels (labelNames m) (labelValues s);
      rest ← render_samples m l;
      Ret (name m ++ ls ++ gs " " ++ Strconv.format_int (value s) ++ [newline] ++ rest)
  end.

(** [order] is the order in which the series map was walked. *)
Definition render_in (m : metric) (typ : string) (order : list sample) : go bytes :=
  body ← render_samples m (sort_samples order);
  Ret (gs "# HELP " ++ name m ++ gs " " ++ help m ++ [newline] ++
       gs "# TYPE " ++ name m ++ gs " " ++ gs typ ++ [newline] ++ body).

Definition render (m : metric) (typ : string) : go bytes :=
  render_in m typ ((map_to_list (series m)).*2).

Fixpoint render_all (ms : list metric) (typ : string) : go bytes :=
  match ms with
  | [] => Ret []
  | m :: ms => a ← render m typ; b ← render_all ms typ; Ret (a ++ b)
  end.

Definition Render (r : Registry) : go bytes :=
  a ← render_all (counters r) "counter"; b ← render_all (gauges r) "gauge"; Ret (a ++ b).

(** ** The label order is a strict total order *)

Record strict_total {A} (lt : A → A → bool) : Prop := {
  st_irrefl x : lt x x = false;
  st_trans x y z : lt x y = true → lt y z = true → lt x z = true;
  st_total x y : x ≠ y → lt x y = true ∨ lt y x = true
}.

Lemma lex_strict_total {A} `{EqDecision A} (lt : A → A → bool) : strict_total lt → strict_total (lex lt).
Proof.
  intros [Hi Ht Hto]. split.
  - intros a. induction a as [|x a IH]; [done|]. cbn. by rewrite decide_True.
  - intros a. induction a as [|x a IH]; intros [|y b] [|z c]; cbn; try done.
    destruct (decide (x = y)) as [->|Hxy], (decide (y = z)) as [->|Hyz]; try done.
    + apply IH.
    + intros H1 _. by rewrite decide_False.
    + intros H1 H2. destruct (decide (x = z)) as [->|]; [|by eapply Ht].
      pose proof (Ht _ _ _ H1 H2) as H3. by rewrite Hi in H3.
  - intros a. induction a as [|x a IH]; intros [|y b] Hab; cbn; auto.
    destruct (decide (x = y)) as [->|Hxy].
    + rewrite decide_True by done. apply IH. congruence.
    + rewrite decide_False by done. by apply Hto.
Qed.

Lemma byte_lt_strict_total : strict_total byte_lt.
Proof.
  unfold byte_lt. split.
  - intros x. apply Z.ltb_irrefl.
  - intros x y z. rewrite !Z.ltb_lt. lia.
  - intros x y Hne. rewrite !Z.ltb_lt. assert (b2z x ≠ b2z y) by (intros E; by apply Hne, (inj b2z)). lia.
Qed.

Lemma less_strict_total : strict_total less.
Proof. apply lex_strict_total, lex_strict_total, byte_lt_strict_total. Qed.

(** ** Sorting by labels *)

Definition before (s t : sample) : Prop := less (labelValues s) (labelValues t) = true.

#[local] Instance before_antisymm : AntiSymm (=) before.
Proof.
  intros s t H1 H2. destruct less_strict_total as [Hi Ht _].
  pose proof (Ht _ _ _ H1 H2) as H3. by rewrite Hi in H3.
Qed.

Lemma insert_sample_perm s l : insert_sample s l ≡ₚ s :: l.
Proof.
  induction l as [|t l IH]; [done|]. cbn. destruct (less _ _); [done|].
  rewrite IH. apply Permutation_swap.
Qed.

Lemma sort_samples_perm l : sort_samples l ≡ₚ l.
Proof.
  induction l as [|s l IH]; [done|]. cbn. rewrite insert_sample_perm. by f_equiv.
Qed.

Lemma insert_sample_sorted s l :
  StronglySorted before l → labelValues s ∉ labelValues <$> l → StronglySorted before (insert_sample s l).
Proof.
  destruct less_strict_total as [_ Ht Hto].
  induction l as [|t l IH]; intros Hs Hn; cbn; [repeat constructor|].
  apply StronglySorted_cons in Hs as [Hf Hs]. rewrite fmap_cons, not_elem_of_cons in Hn. destruct Hn as [Hne Hn].
  destruct (less (labelValues s) (labelValues t)) eqn:Hl.
  - apply StronglySorted_cons. split; [|by apply StronglySorted_cons].
    constructor; [done|]. eapply Forall_impl; [done|]. intros u Hu. by eapply Ht.
  - apply StronglySorted_cons. split; [|by apply IH].
    rewrite insert_sample_perm. constructor; [|done].
    unfold before. destruct (Hto _ _ Hne); congruence.
Qed.

Lemma sort_samples_sorted l : NoDup (labelValues <$> l) → StronglySorted before (sort_samples l).
Proof.
  induction l as [|s l IH]; intros Hnd; cbn; [constructor|].
  rewrite fmap_cons, NoDup_cons in Hnd. destruct Hnd as [Hn Hnd].
  apply insert_sample_sorted; [by apply IH|]. by rewrite sort_samples_perm.
Qed.

Lemma sort_samples_unique l1 l2 :
  NoDup (labelValues <$> l1) → l1 ≡ₚ l2 → sort_samples l1 = sort_samples l2.
Proof.
  intros Hnd Hp. eapply (StronglySorted_unique before).
  - by apply sort_samples_sorted.
  - apply sort_samples_sorted. by rewrite <-Hp.
  - by rewrite !sort_samples_perm.
Qed.

(** ** The series map *)

(** Every sample sits under the key of its own label values. *)
Record metric_ok (m : metric) : Prop := {
  mo_key k s : series m !! k = Some s → k = key_of (labelValues s);
  mo_arity k s : series m !! k = Some s → length (labelValues s) = length (labelNames m)
}.

Lemma new_metric_ok n h ls : metric_ok (new_metric n h ls).
Proof. split; intros k s Hs; cbn [series new_metric] in Hs; by rewrite lookup_empty in Hs. Qed.

(** Labels as call sites pass them: the right number, without NUL bytes. *)
Definition labels_ok (m : metric) (values : list bytes) : Prop :=
  length values = length (labelNames m) ∧ Forall (λ v, "000"%char ∉ v) values.

Definition reading (m : metric) (values : list bytes) : Z :=
  default 0 (value <$> series m !! key_of values).

Lemma key_of_inj m v w : labels_ok m v → labels_ok m w → key_of v = key_of w → v = w.
Proof. intros [H1 H2] [H3 H4] E. eapply Strings.join_inj; [congruence|done..]. Qed.

Lemma update_sample_spec m values f :
  metric_ok m → length values = length (labelNames m) →
  ∃ m', update_sample m values f = Ret m' ∧ metric_ok m' ∧
    name m' = name m ∧ help m' = help m ∧ labelNames m' = labelNames m ∧
    reading m' values = f (reading m values) ∧
    (∀ w, key_of w ≠ key_of values → reading m' w = reading m w).
Proof.
  intros [Hk Ha] Hl. unfold update_sample, sampleFor. rewrite decide_False by lia. mstep.
  eexists. split; [done|]. split_and!; try done.
  - split; intros k s; cbn [series labelNames]; intros [[<- <-]|[_ Hs]]%lookup_insert_Some; cbn [labelValues]; eauto;
      destruct (series m !! key_of values) as [s|] eqn:E; cbn [default labelValues]; eauto.
  - unfold reading. cbn [series]. rewrite lookup_insert_eq. by destruct (series m !! key_of values).
  - intros w Hw. unfold reading. cbn [series]. by rewrite lookup_insert_ne.
Qed.

(** A registry whose vectors have the given numbers of labels. *)
Definition arity (m : metric) : nat := length (labelNames m).
Record reg_ok (cs gs : list nat) (r : Registry) : Prop := {
  ro_counters : Forall metric_ok (counters r);
  ro_gauges : Forall metric_ok (gauges r);
  ro_cs : arity <$> counters r = cs;
  ro_gs : arity <$> gauges r = gs
}.

Lemma fmap_insert_same {A B} (f : A → B) (l : list A) i x y :
  l !! i = Some x → f y = f x → f <$> <[i := y]> l = f <$> l.
Proof.
  intros Hi Hf. rewrite list_fmap_insert, Hf. apply list_insert_id. by rewrite list_lookup_fmap, Hi.
Qed.

Lemma on_counter_ok cs gs r h labels f :
  reg_ok cs gs r → cs !! h = Some (length labels) →
  ∃ r', on_counter r h (λ m, update_sample m (Prelude.gs <$> labels) f) = Ret r' ∧ reg_ok cs gs r'.
Proof.
  intros [Hc Hg Hcs Hgs] Hh. rewrite <-Hcs in Hh.
  apply list_lookup_fmap_Some in Hh as (m & Ha & Hm). unfold on_counter. rewrite Hm.
  destruct (update_sample_spec m (Prelude.gs <$> labels) f) as (m' & -> & Hm' & _ & _ & Hn & _).
  { exact (Forall_lookup_1 _ _ _ _ Hc Hm). }
  { by rewrite length_fmap. }
  mstep. eexists. split; [done|]. split; cbn [counters gauges]; try done.
  - by apply Forall_insert.
  - rewrite <-Hcs. eapply fmap_insert_same; [done|]. unfold arity. by rewrite Hn.
Qed.

Lemma on_gauge_ok cs gs r h labels f :
  reg_ok cs gs r → gs !! h = Some (length labels) →
  ∃ r', on_gauge r h (λ m, update_sample m (Prelude.gs <$> labels) f) = Ret r' ∧ reg_ok cs gs r'.
Proof.
  intros [Hc Hg Hcs Hgs] Hh. rewrite <-Hgs in Hh.
  apply list_lookup_fmap_Some in Hh as (m & Ha & Hm). unfold on_gauge. rewrite Hm.
  destruct (update_sample_spec m (Prelude.gs <$> labels) f) as (m' & -> & Hm' & _ & _ & Hn & _).
  { exact (Forall_lookup_1 _ _ _ _ Hg Hm). }
  { by rewrite length_fmap. }
  mstep. eexists. split; [done|]. split; cbn [counters gauges]; try done.
  - by apply Forall_insert.
  - rewrite <-Hgs. eapply fmap_insert_same; [done|]. unfold arity. by rewrite Hn.
Qed.

Lemma Inc_ok cs gs r h labels :
  reg_ok cs gs r → cs !! h = Some (length labels) → ∃ r', Inc r h labels = Ret r' ∧ reg_ok cs gs r'.
Proof. apply on_counter_ok. Qed.
Lemma Add_ok cs gs r h d labels :
  reg_ok cs gs r → cs !! h = Some (length labels) → ∃ r', Add r h d labels = Ret r' ∧ reg_ok cs gs r'.
Proof. apply on_counter_ok. Qed.
Lemma Set_ok cs gs r h v labels :
  reg_ok cs gs r → gs !! h = Some (length labels) → ∃ r', Set_ r h v labels = Ret r' ∧ reg_ok cs gs r'.
Proof. apply on_gauge_ok. Qed.

Lemma Counter_ok cs gs r n h ls :
  reg_ok cs gs r → reg_ok (cs ++ [length ls]) gs (Counter r n h ls).1 ∧ (Counter r n h ls).2 = length cs.
Proof.
  intros [Hc Hg Hcs Hgs]. unfold Counter. cbn [fst snd]. split; [split; cbn [counters gauges]; try done|].
  - apply Forall_app. split; [done|]. constructor; [apply new_metric_ok|done].
  - rewrite fmap_app, Hcs. unfold arity at 1. cbn. by rewrite length_fmap.
  - by rewrite <-Hcs, length_fmap.
Qed.

Lemma Gauge_ok cs gs r n h ls :
  reg_ok cs gs r → reg_ok cs (gs ++ [length ls]) (Gauge r n h ls).1 ∧ (Gauge r n h ls).2 = length gs.
Proof.
  intros [Hc Hg Hcs Hgs]. unfold Gauge. cbn [fst snd]. split; [split; cbn [counters gauges]; try done|].
  - apply Forall_app. split; [done|]. constructor; [apply new_metric_ok|done].
  - rewrite fmap_app, Hgs. unfold arity at 1. cbn. by rewrite length_fmap.
  - by rewrite <-Hgs, length_fmap.
Qed.

Fixpoint add_all (m : metric) (ops : list (Z * list bytes)) : go metric :=
  match ops with
  | [] => Ret m
  | (d, values) :: ops => m ← CounterAdd m d values; add_all m ops
  end.

(** The total of the deltas given for a label set. *)
Definition total (values : list bytes) (ops : list (Z * list bytes)) : Z :=
  foldr (λ op acc, (if decide (op.2 = values) then op.1 else 0) + acc) 0 ops.

Lemma i64_add_l a b : i64 (i64 a + b) = i64 (a + b).
Proof.
  unfold i64. f_equal.
  replace ((a + 2 ^ 63) mod 2 ^ 64 - 2 ^ 63 + b + 2 ^ 63) with ((a + 2 ^ 63) mod 2 ^ 64 + b) by lia.
  rewrite Zplus_mod_idemp_l. f_equal. lia.
Qed.

Lemma add_all_spec m ops :
  metric_ok m → Forall (λ op, labels_ok m op.2) ops →
  ∃ m', add_all m ops = Ret m' ∧ metric_ok m' ∧ labelNames m' = labelNames m ∧
    ∀ w, labels_ok m w → i64 (reading m' w) = i64 (reading m w + total w ops).
Proof.
  intros Hm Hops. revert m Hm Hops. induction ops as [|[d v] ops IH]; intros m Hm Hops.
  { exists m. split_and!; try done. intros w _. cbn. by rewrite Z.add_0_r. }
  apply Forall_cons in Hops as [Hv Hops]. cbn [add_all].
  destruct (update_sample_spec m v (λ x, i64 (x + d)) Hm (proj1 Hv)) as (m1 & Hu & Hm1 & _ & _ & Hn & Hr & Ho).
  unfold CounterAdd. rewrite Hu. mstep.
  assert (∀ w, labels_ok m1 w ↔ labels_ok m w) as Hlo by (intros w; unfold labels_ok; by rewrite Hn).
  destruct (IH m1 Hm1) as (m' & Ha & Hm' & Hn' & Ht).
  { eapply Forall_impl; [done|]. intros op. by rewrite Hlo. }
  exists m'. split_and!; try done; [congruence|]. intros w Hw. rewrite Ht by by apply Hlo.
  cbn [total foldr fst snd]. case_decide as Hd.
  - subst w. rewrite Hr, i64_add_l. f_equal. fold (total v ops). lia.
  - rewrite Ho; [done|]. intros E. apply Hd. by eapply key_of_inj.
Qed.

(** ** The text *)

Lemma label_pairs_total names values :
  length values = length names → ∃ ps, label_pairs names values = Ret ps.
Proof.
  revert values. induction names as [|n names IH]; intros [|v values] Hl; try done; [by eexists|].
  cbn. destruct (IH values) as [ps ->]; [simpl in Hl; lia|]. mstep. by eexists.
Qed.

Lemma render_samples_total m l :
  Forall (λ s, length (labelValues s) = length (labelNames m)) l → ∃ b, render_samples m l = Ret b.
Proof.
  induction 1 as [|s l Hs _ IH]; [by eexists|]. cbn.
  assert (∃ b, writeLabels (labelNames m) (labelValues s) = Ret b) as [b ->].
  { unfold writeLabels. destruct (labelNames m) eqn:E; [by eexists|]. rewrite <-E in *.
    destruct (label_pairs_total (labelNames m) (labelValues s) Hs) as [ps ->]. mstep. by eexists. }
  mstep. destruct IH as [b' ->]. mstep. by eexists.
Qed.

Lemma values_nodup m : metric_ok m → NoDup (labelValues <$> (map_to_list (series m)).*2).
Proof.
  intros [Hk _]. pose proof (NoDup_fst_map_to_list (series m)) as Hnd.
  rewrite <-list_fmap_compose. 
  assert ((map_to_list (series m)).*1 = key_of <$> (labelValues ∘ snd <$> map_to_list (series m))) as E.
  { rewrite <-list_fmap_compose. apply list_fmap_ext. intros i [k s] Hi. cbn.
    apply Hk, elem_of_map_to_list. by eapply list_elem_of_lookup_2. }
  rewrite E in Hnd. by apply NoDup_fmap_1 in Hnd.
Qed.

(** The exposition format's reader of a quoted label value. *)
Fixpoint read_quoted (l : bytes) : option (bytes * bytes) :=
  match l with
  | [] => None
  | b :: l =>
      if decide (b = quote) then Some ([], l)
      else if decide (b = newline) then None
      else if decide (b = backslash) then
        match l with
        | [] => None
        | c :: l => '(v, rest) ← read_quoted l;
            if decide (c = backslash) then Some (backslash :: v, rest)
            else if decide (c = quote) then Some (quote :: v, rest)
            else if decide (c = "n"%char) then Some (newline :: v, rest) else None
        end
      else '(v, rest) ← read_quoted l; Some (b :: v, rest)
  end.

Lemma read_quoted_escape v rest : read_quoted (escape v ++ quote :: rest) = Some (v, rest).
Proof.
  induction v as [|b v IH]; [done|]. unfold escape in *. cbn [flat_map].
  rewrite <-app_assoc. unfold escape_byte at 1.
  destruct (decide (b = backslash)) as [->|Hb]; [cbn [app read_quoted]; by rewrite IH|].
  destruct (decide (b = quote)) as [->|Hq]; [cbn [app read_quoted]; by rewrite IH|].
  destruct (decide (b = newline)) as [->|Hn]; [cbn [app read_quoted]; by rewrite IH|].
  cbn [app read_quoted]. rewrite !decide_False by done. by rewrite IH.
Qed.

(** ** Properties *)

(** A counter counts.  Adding to a counter never panics when the number of
    labels is right, and afterwards the value of each label set is the sum, modulo
    2^64, of exactly the deltas given for that label set: distinct label sets
    (without NUL bytes, which the key uses as separator) never share a series. *)
Theorem counter_tally (n h : string) (ls : list string) (ops : list (Z * list bytes)) (w : list bytes) :
  Forall (λ op, labels_ok (new_metric n h ls) op.2) ops → labels_ok (new_metric n h ls) w →
  ∃ m, add_all (new_metric n h ls) ops = Ret m ∧ i64 (reading m w) = i64 (total w ops).
Proof.
  intros Hops Hw. destruct (add_all_spec _ ops (new_metric_ok n h ls) Hops) as (m & Hm & _ & _ & Ht).
  exists m. split; [done|]. by rewrite Ht.
Qed.

Lemma counter_tally_witness :
  ∃ m, add_all (new_metric "packets_total" "Packets." ["decision"; "path"])
         [(1, [gs "first-copy"; gs "wi-fi"]); (2, [gs "duplicate"; gs "wi-fi"]); (4, [gs "first-copy"; gs "wi-fi"])] = Ret m ∧
    i64 (reading m [gs "first-copy"; gs "wi-fi"])
    = i64 (total [gs "first-copy"; gs "wi-fi"]
         [(1, [gs "first-copy"; gs "wi-fi"]); (2, [gs "duplicate"; gs "wi-fi"]); (4, [gs "first-copy"; gs "wi-fi"])]).
Proof.
  apply counter_tally.
  - repeat constructor; vm_compute; set_solver.
  - repeat constructor; vm_compute; set_solver.
Defined.

(** The exposition text is deterministic and cannot be broken out of.  [Render]
    of a metric returns, the text does not depend on the order in which the
    series map is walked, and a label value is read back exactly, whatever
    quotes, backslashes or newlines it contains. *)
Theorem render_deterministic (m : metric) (typ : string) (order : list sample) :
  metric_ok m → order ≡ₚ (map_to_list (series m)).*2 →
  (∃ text, render m typ = Ret text ∧ render_in m typ order = Ret text) ∧
  ∀ v rest, read_quoted (escape v ++ quote :: rest) = Some (v, rest).
Proof.
  intros Hm Hp. split; [|apply read_quoted_escape]. unfold render, render_in.
  assert (sort_samples order = sort_samples (map_to_list (series m)).*2) as ->
    by (symmetry; apply sort_samples_unique; [by apply values_nodup|by symmetry]).
  destruct (render_samples_total m (sort_samples (map_to_list (series m)).*2)) as [b ->].
  { rewrite sort_samples_perm, Forall_fmap, Forall_forall. intros [k s] Hin%elem_of_map_to_list.
    by eapply (mo_arity _ Hm). }
  mstep. by eexists.
Qed.

Definition metric1 : metric :=
  mkMetric (gs "x_total") (gs "X.") [gs "reason"]
    (<[key_of [gs "b"] := mkSample [gs "b"] 2]> (<[key_of [gs "a"] := mkSample [gs "a"] 1]> ∅)).

Lemma render_deterministic_witness :
  (∃ text, render metric1 "counter" = Ret text ∧
     render_in metric1 "counter" (reverse (map_to_list (series metric1)).*2) = Ret text) ∧
  ∀ v rest, read_quoted (escape v ++ quote :: rest) = Some (v, rest).
Proof.
  apply (render_deterministic metric1 "counter" (reverse (map_to_list (series metric1)).*2)).
  - split; intros k s; cbn [series metric1];
      intros [[<- <-]|[_ [[<- <-]|[_ Hs]]%lookup_insert_Some]]%lookup_insert_Some;
      reflexivity || (rewrite lookup_empty in Hs; discriminate).
  - apply reverse_Permutation.
Defined.

End Metrics.
