(* ===== verification/ProbeServer.v ===== *)
(** * internal/gateway/server.go: the Stage-1 probe server

    [NewServer], [Handle], [Stats], [rejectReason] and [firstPathTag], over the
    dedup window and the metrics registry.  Logging is not modelled: it has no
    effect on the state and [Handle] is not given a source address. *)

From S2P Require Import Prelude GoText Protocol DedupWindow Metrics.
Import Protocol.

Module ProbeServer.

Definition maxDatagram : nat := 1500.
Definition summaryEvery : Z := 1000.

Inductive Decision := DecisionRejected | DecisionFirstCopy | DecisionDuplicate.
#[global] Instance Decision_eq_dec : EqDecision Decision.
Proof. solve_decision. Defined.

Definition Decision_String (d : Decision) : string :=
  match d with
  | DecisionFirstCopy => "first-copy"
  | DecisionDuplicate => "duplicate"
  | DecisionRejected => "rejected"
  end.

Record PRecord := mkRecord { rDecision : Decision; rPath : PathTag; FirstPath : PathTag; CopyCount : Z }.

Record Stats := mkStats { FirstCopies : Z; Duplicates : Z; Rejected : Z }.

Record Server := mkServer {
  window : option Dedup.Window;
  firstCopies : Z; duplicates : Z; rejected : Z;   (* atomic.Uint64 *)
  metrics : Metrics.Registry;
  packets : nat; rejects : nat                     (* *CounterVec *)
}.

Definition NewServer (capacity : Z) : result Dedup.error Server :=
  match Dedup.NewWindow capacity with
  | Err e => Err e
  | Ok w =>
      let reg := Metrics.NewRegistry in
      let '(reg, packets) := Metrics.Counter reg "gemina_packets_total"
        "Probe datagrams handled, by decision and path." ["decision"; "path"]%string in
      let '(reg, rejects) := Metrics.Counter reg "gemina_rejected_total"
        "Datagrams rejected before dedup, by reason." ["reason"]%string in
      Ok (mkServer (Some w) 0 0 0 reg packets rejects)
  end.

Definition rejectReason (e : Protocol.error) : string :=
  match e with
  | ErrShortProbe => "short"
  | ErrBadMagic => "bad-magic"
  | ErrUnsupportedVersion => "unsupported-version"
  | ErrInvalidProbe => "invalid-identity"
  | _ => "other"
  end.

Definition firstPathTag (p : Dedup.PathID) : PathTag :=
  if String.eqb (PathTag_String PathWiFi) p then PathWiFi
  else if String.eqb (PathTag_String PathAndroidUSBTether) p then PathAndroidUSBTether
  else PathUnknown.

Definition count_first (s : Server) (w : option Dedup.Window) (m : Metrics.Registry) : Server :=
  mkServer w (u64 (firstCopies s + 1)) (duplicates s) (rejected s) m (packets s) (rejects s).
Definition count_dup (s : Server) (w : option Dedup.Window) (m : Metrics.Registry) : Server :=
  mkServer w (firstCopies s) (u64 (duplicates s + 1)) (rejected s) m (packets s) (rejects s).
Definition count_rejected (s : Server) (w : option Dedup.Window) (m : Metrics.Registry) : Server :=
  mkServer w (firstCopies s) (duplicates s) (u64 (rejected s + 1)) m (packets s) (rejects s).

Definition rejected_record : PRecord := mkRecord DecisionRejected PathUnknown PathUnknown 0.

Definition Handle (s : Server) (datagram : bytes) : go (Server * PRecord) :=
  r ← UnmarshalProbe datagram;
  match r with
  | Err e =>
      m ← Metrics.Inc (metrics s) (packets s) [Decision_String DecisionRejected; PathTag_String PathUnknown];
      m ← Metrics.Inc m (rejects s) [rejectReason e];
      Ret (count_rejected s (window s) m, rejected_record)
  | Ok probe =>
      '(w, result) ← Dedup.Observe (window s) (ID probe) (PathTag_String (Path probe));
      match Dedup.decision result with
      | Dedup.DecisionFirstCopy =>
          m ← Metrics.Inc (metrics s) (packets s) [Decision_String DecisionFirstCopy; PathTag_String (Path probe)];
          Ret (count_first s w m,
               mkRecord DecisionFirstCopy (Path probe) (Path probe) (Dedup.copy_count result))
      | Dedup.DecisionDuplicate =>
          m ← Metrics.Inc (metrics s) (packets s) [Decision_String DecisionDuplicate; PathTag_String (Path probe)];
          Ret (count_dup s w m,
               mkRecord DecisionDuplicate (Path probe) (firstPathTag (Dedup.first_path result))
                 (Dedup.copy_count result))
      | Dedup.DecisionInvalid =>
          m ← Metrics.Inc (metrics s) (packets s) [Decision_String DecisionRejected; PathTag_String PathUnknown];
          m ← Metrics.Inc m (rejects s) ["invalid-identity"%string];
          Ret (count_rejected s w m, rejected_record)
      end
  end.

Definition server_stats (s : Server) : Stats := mkStats (firstCopies s) (duplicates s) (rejected s).

(** The read loop of [Serve]: every datagram is truncated to the buffer and
    handled; [summaries] counts the interval log lines. *)
Fixpoint Serve (s : Server) (processed summaries : Z) (datagrams : list bytes)
  : go (Server * Z * list PRecord) :=
  match datagrams with
  | [] => Ret (s, summaries, [])
  | d :: ds =>
      '(s, r) ← Handle s (take maxDatagram d);
      let processed := u64 (processed + 1) in
      m ← gmod processed summaryEvery;
      '(s, n, rs) ← Serve s processed (if m =? 0 then summaries + 1 else summaries) ds;
      Ret (s, n, r :: rs)
  end.

(** ** Specification: the records of a bounded first-in first-out queue *)

Definition record_of (probe : ProbePacket) (r : Dedup.Result) : PRecord :=
  match Dedup.decision r with
  | Dedup.DecisionFirstCopy => mkRecord DecisionFirstCopy (Path probe) (Path probe) (Dedup.copy_count r)
  | Dedup.DecisionDuplicate => mkRecord DecisionDuplicate (Path probe) (firstPathTag (Dedup.first_path r)) (Dedup.copy_count r)
  | Dedup.DecisionInvalid => rejected_record
  end.

Fixpoint spec_records (cap : nat) (q : Dedup.Fifo) (datagrams : list bytes) : list PRecord :=
  match datagrams with
  | [] => []
  | d :: ds =>
      match UnmarshalProbe (take maxDatagram d) with
      | Ret (Ok probe) =>
          let '(q, r) := Dedup.fifo_observe cap q (ID probe) (PathTag_String (Path probe)) in
          record_of probe r :: spec_records cap q ds
      | _ => rejected_record :: spec_records cap q ds
      end
  end.

Definition tally (d : Decision) (rs : list PRecord) : Z :=
  Z.of_nat (length (filter (λ r, rDecision r = d) rs)).

(** ** Refinement *)

Record server_ok (cap : nat) (q : Dedup.Fifo) (s : Server) : Prop := {
  so_window : ∃ w, window s = Some w ∧ Dedup.sim cap w q;
  so_metrics : Metrics.reg_ok [2; 1]%nat [] (metrics s);
  so_packets : packets s = 0%nat;
  so_rejects : rejects s = 1%nat
}.

Definition counted (s s' : Server) (d : Decision) : Prop :=
  firstCopies s' = u64 (firstCopies s + if decide (d = DecisionFirstCopy) then 1 else 0) ∧
  duplicates s' = u64 (duplicates s + if decide (d = DecisionDuplicate) then 1 else 0) ∧
  rejected s' = u64 (rejected s + if decide (d = DecisionRejected) then 1 else 0).

Definition counters_u64 (s : Server) : Prop :=
  is_u64 (firstCopies s) ∧ is_u64 (duplicates s) ∧ is_u64 (rejected s).

(** [Metrics.Inc] with as many labels as the vector has names. *)
Lemma inc_packets s m a b :
  packets s = 0%nat → Metrics.reg_ok [2; 1]%nat [] m →
  ∃ m', Metrics.Inc m (packets s) [a; b] = Ret m' ∧ Metrics.reg_ok [2; 1]%nat [] m'.
Proof. intros -> Hm. by apply (Metrics.Inc_ok _ _ _ _ [a; b] Hm). Qed.
Lemma inc_rejects s m a :
  rejects s = 1%nat → Metrics.reg_ok [2; 1]%nat [] m →
  ∃ m', Metrics.Inc m (rejects s) [a] = Ret m' ∧ Metrics.reg_ok [2; 1]%nat [] m'.
Proof. intros -> Hm. by apply (Metrics.Inc_ok _ _ _ _ [a] Hm). Qed.

Lemma path_valid t : Dedup.PathID_Valid (PathTag_String t) = true.
Proof. unfold PathTag_String. by repeat case_decide. Qed.

(** A decoded probe is never invalid for the window. *)
Lemma observe_decides cap q id t :
  Valid id = true →
  Dedup.decision (Dedup.fifo_observe cap q id (PathTag_String t)).2 ≠ Dedup.DecisionInvalid.
Proof.
  intros Hv. unfold Dedup.fifo_observe. rewrite Hv, path_valid. cbn [negb orb]. by case_match.
Qed.

Lemma Handle_rejects cap q s d e :
  server_ok cap q s → counters_u64 s → UnmarshalProbe d = Ret (Err e) →
  ∃ s', Handle s d = Ret (s', rejected_record) ∧ server_ok cap q s' ∧
    counted s s' DecisionRejected ∧ counters_u64 s'.
Proof.
  intros [Hw Hm Hp Hr] (H1 & H2 & H3) Hd. unfold Handle. rewrite Hd. mstep.
  destruct (inc_packets s (metrics s) (Decision_String DecisionRejected) (PathTag_String PathUnknown) Hp Hm)
    as (m1 & -> & Hm1). mstep.
  destruct (inc_rejects s m1 (rejectReason e) Hr Hm1) as (m2 & -> & Hm2). mstep.
  eexists. split; [done|]. split; [done|]. unfold counted, count_rejected. cbn.
  rewrite !Z.add_0_r, !(u64_small (firstCopies s)), !(u64_small (duplicates s)) by done.
  split; [done|]. split_and!; try done. apply u64_range.
Qed.

Lemma Handle_accepts cap q s d probe :
  server_ok cap q s → counters_u64 s → UnmarshalProbe d = Ret (Ok probe) →
  let '(q', r) := Dedup.fifo_observe cap q (ID probe) (PathTag_String (Path probe)) in
  ∃ s', Handle s d = Ret (s', record_of probe r) ∧ server_ok cap q' s' ∧
    counted s s' (rDecision (record_of probe r)) ∧ counters_u64 s' ∧
    rDecision (record_of probe r) ≠ DecisionRejected.
Proof.
  intros [(w & Hw & Hsim) Hm Hp Hr] (H1 & H2 & H3) Hd.
  assert (Valid (ID probe) = true) as Hv.
  { destruct (Unmarshal_spec d) as (r & Hr' & Hs). rewrite Hd in Hr'. apply (inj Ret) in Hr' as <-.
    by destruct (Hs probe eq_refl). }
  pose proof (observe_decides cap q (ID probe) (Path probe) Hv) as Hdec.
  destruct (Dedup.observe_sim cap w q (ID probe) (PathTag_String (Path probe)) Hsim) as (w' & Hobs & Hsim').
  unfold Handle. rewrite Hd, Hw. mstep. rewrite Hobs. mstep.
  destruct (Dedup.fifo_observe cap q (ID probe) (PathTag_String (Path probe))) as [q' r]. cbn [fst snd] in *.
  unfold record_of. destruct (Dedup.decision r); [done|..].
  - destruct (inc_packets s (metrics s) (Decision_String DecisionFirstCopy) (PathTag_String (Path probe)) Hp Hm)
      as (m1 & -> & Hm1). mstep. eexists. split; [done|]. split; [split; try done; by eexists|].
    unfold counted, counters_u64, count_first. cbn.
    rewrite !Z.add_0_r, !(u64_small (rejected s)), !(u64_small (duplicates s)) by done.
    split_and!; try done. apply u64_range.
  - destruct (inc_packets s (metrics s) (Decision_String DecisionDuplicate) (PathTag_String (Path probe)) Hp Hm)
      as (m1 & -> & Hm1). mstep. eexists. split; [done|]. split; [split; try done; by eexists|].
    unfold counted, counters_u64, count_dup. cbn.
    rewrite !Z.add_0_r, !(u64_small (rejected s)), !(u64_small (firstCopies s)) by done.
    split_and!; try done. apply u64_range.
Qed.

Lemma NewServer_ok cap s :
  0 < cap ≤ 2 ^ 62 → NewServer cap = Ok s →
  server_ok (Z.to_nat cap) (Dedup.mkFifo [] ∅) s ∧ counters_u64 s ∧ server_stats s = mkStats 0 0 0.
Proof.
  intros Hc. unfold NewServer. destruct (Dedup.NewWindow cap) as [w|] eqn:Hw; [|done].
  cbn. intros [= <-]. split; [|split; [unfold counters_u64, is_u64; cbn; lia|done]].
  split; cbn; try done.
  - exists w. split; [done|]. by apply Dedup.new_sim.
  - split; cbn; try done; repeat constructor; try apply Metrics.new_metric_ok;
      intros k x Hx; by rewrite lookup_empty in Hx.
Qed.

Lemma tally_cons d r rs : tally d (r :: rs) = (if decide (rDecision r = d) then 1 else 0) + tally d rs.
Proof.
  unfold tally. case_decide; [rewrite filter_cons_True|rewrite filter_cons_False]; try done. cbn [length]. lia.
Qed.

Lemma counted_tally s s' s'' r rs :
  counted s s' (rDecision r) →
  firstCopies s'' = u64 (firstCopies s' + tally DecisionFirstCopy rs) ∧
  duplicates s'' = u64 (duplicates s' + tally DecisionDuplicate rs) ∧
  rejected s'' = u64 (rejected s' + tally DecisionRejected rs) →
  firstCopies s'' = u64 (firstCopies s + tally DecisionFirstCopy (r :: rs)) ∧
  duplicates s'' = u64 (duplicates s + tally DecisionDuplicate (r :: rs)) ∧
  rejected s'' = u64 (rejected s + tally DecisionRejected (r :: rs)).
Proof.
  intros (-> & -> & ->) (-> & -> & ->). unfold u64. rewrite !Zplus_mod_idemp_l, !tally_cons.
  split_and!; f_equal; lia.
Qed.

Lemma Serve_spec cap q s processed n ds :
  server_ok cap q s → counters_u64 s →
  ∃ s' n', Serve s processed n ds = Ret (s', n', spec_records cap q ds) ∧
    firstCopies s' = u64 (firstCopies s + tally DecisionFirstCopy (spec_records cap q ds)) ∧
    duplicates s' = u64 (duplicates s + tally DecisionDuplicate (spec_records cap q ds)) ∧
    rejected s' = u64 (rejected s + tally DecisionRejected (spec_records cap q ds)) ∧
    ∀ i d r, ds !! i = Some d → spec_records cap q ds !! i = Some r →
      rDecision r = DecisionRejected ↔ ∃ e, UnmarshalProbe (take maxDatagram d) = Ret (Err e).
Proof.
  revert q s processed n. induction ds as [|d ds IH]; intros q s processed n Hs Hu.
  { destruct Hu as (H1 & H2 & H3). exists s, n. unfold tally. cbn. rewrite !Z.add_0_r, !u64_small by done. done. }
  cbn [Serve spec_records].
  assert (∃ s1 q1 r, Handle s (take maxDatagram d) = Ret (s1, r) ∧ server_ok cap q1 s1 ∧ counters_u64 s1 ∧
    counted s s1 (rDecision r) ∧
    (match UnmarshalProbe (take maxDatagram d) with
     | Ret (Ok probe) =>
         let '(q, r) := Dedup.fifo_observe cap q (ID probe) (PathTag_String (Path probe)) in
         record_of probe r :: spec_records cap q ds
     | _ => rejected_record :: spec_records cap q ds
     end) = r :: spec_records cap q1 ds ∧
    (rDecision r = DecisionRejected ↔ ∃ e, UnmarshalProbe (take maxDatagram d) = Ret (Err e)))
    as (s1 & q1 & r & HH & Hs1 & Hu1 & Hc & -> & Hrej).
  { destruct (Unmarshal_spec (take maxDatagram d)) as ([probe|e] & Hd & _); rewrite Hd.
    - pose proof (Handle_accepts cap q s _ probe Hs Hu Hd) as Ha.
      destruct (Dedup.fifo_observe _ _ _ _) as [q' r]. destruct Ha as (s1 & ? & ? & ? & ? & ?).
      exists s1, q', (record_of probe r). split_and!; try done. split; [done|by intros [? ?]].
    - destruct (Handle_rejects cap q s _ e Hs Hu Hd) as (s1 & ? & ? & ? & ?).
      exists s1, q, rejected_record. split_and!; try done. split; [by exists e|done]. }
  rewrite HH. mstep. rewrite gmod_pos by (apply u64_range || done). mstep.
  destruct (IH q1 s1 (u64 (processed + 1)) (if u64 (processed + 1) mod summaryEvery =? 0 then n + 1 else n) Hs1 Hu1)
    as (s' & n' & -> & H1 & H2 & H3 & Hall). mstep.
  destruct (counted_tally s s1 s' r (spec_records cap q1 ds) Hc) as (? & ? & ?); [done|].
  exists s', n'. split_and!; try done.
  intros [|i] d' r'; cbn; [by intros [= <-] [= <-]|by apply Hall].
Qed.

Lemma unmarshal_own p :
  Valid (ID p) = true → is_u64 (Number (ID p)) →
  UnmarshalProbe (take maxDatagram (probe_bytes p)) = Ret (Ok p).
Proof.
  intros Hv Hn. destruct (Unmarshal_marshalled p [] Hv Hn) as [Hl Hu]. rewrite app_nil_r in Hu.
  rewrite take_ge; [done|]. rewrite Hl. apply Nat.leb_le. by vm_compute.
Qed.

(** ** Probes in any order *)

Definition good_probe (p : ProbePacket) : Prop := Valid (ID p) = true ∧ is_u64 (Number (ID p)).
Definition ids (ps : list ProbePacket) : gset PacketID := list_to_set (ID <$> ps).

(** An identity the window has room for is a first copy when it is new, and a
    duplicate otherwise; nothing is forgotten. *)
Lemma observe_room cap q id t :
  (0 < cap)%nat → Dedup.fifo_ok cap q → Valid id = true → (size ({[id]} ∪ dom (Dedup.info q)) ≤ cap)%nat →
  let '(q', r) := Dedup.fifo_observe cap q id (PathTag_String t) in
  Dedup.fifo_ok cap q' ∧ dom (Dedup.info q') = {[id]} ∪ dom (Dedup.info q) ∧
  Dedup.decision r = if decide (id ∈ dom (Dedup.info q)) then Dedup.DecisionDuplicate else Dedup.DecisionFirstCopy.
Proof.
  intros Hc Hq Hv Hsize. pose proof (Dedup.fifo_observe_ok cap q id (PathTag_String t) Hc Hq) as Hq'.
  unfold Dedup.fifo_observe in *. rewrite Hv, path_valid in *. cbn [negb orb] in *.
  destruct (Dedup.info q !! id) as [e|] eqn:E; (split; [done|]); cbn [Dedup.info Dedup.decision]; rewrite dom_insert_L.
  - apply elem_of_dom_2 in E. by rewrite decide_True.
  - apply not_elem_of_dom in E. rewrite decide_False by done. split; [|done].
    assert (Dedup.fifo_room cap q = q) as ->; [|done].
    unfold Dedup.fifo_room. destruct (Dedup.queue q) as [|o l] eqn:El; [done|]. case_decide as Hl; [|done]. exfalso.
    rewrite size_union, size_singleton, (Dedup.ok_dom _ _ Hq), size_list_to_set, El in Hsize; [lia|apply (Dedup.ok_nodup _ _ Hq)|set_solver].
Qed.

(** While the identities fit into the window, the first copy of each is counted once
    and everything else is a duplicate. *)
Lemma any_order_records cap q ps :
  (0 < cap)%nat → Dedup.fifo_ok cap q → Forall good_probe ps →
  (size (dom (Dedup.info q) ∪ ids ps) ≤ cap)%nat →
  let rs := spec_records cap q (map probe_bytes ps) in
  tally DecisionFirstCopy rs = Z.of_nat (size (ids ps ∖ dom (Dedup.info q))) ∧
  tally DecisionDuplicate rs = Z.of_nat (length ps) - Z.of_nat (size (ids ps ∖ dom (Dedup.info q))) ∧
  tally DecisionRejected rs = 0.
Proof.
  intros Hc Hq Hps. revert q Hq. induction Hps as [|p ps [Hv Hn] _ IH]; intros q Hq Hsize; cbn zeta.
  { cbn. replace (ids [] ∖ _) with (∅ : gset PacketID) by set_solver. by rewrite size_empty. }
  cbn [map spec_records]. rewrite unmarshal_own by done. change (ids (p :: ps)) with ({[ID p]} ∪ ids ps) in *.
  assert (size ({[ID p]} ∪ dom (Dedup.info q)) ≤ cap)%nat as Hroom.
  { etrans; [|exact Hsize]. apply subseteq_size. set_solver. }
  pose proof (observe_room cap q (ID p) (Path p) Hc Hq Hv Hroom) as Hobs.
  destruct (Dedup.fifo_observe _ _ _ _) as [q' r]. destruct Hobs as (Hq' & Hdom & Hdec).
  destruct (IH q' Hq') as (H1 & H2 & H3); clear IH.
  { rewrite Hdom. etrans; [|exact Hsize]. apply subseteq_size. set_solver. }
  assert (rDecision (record_of p r) = if decide (ID p ∈ dom (Dedup.info q)) then DecisionDuplicate else DecisionFirstCopy) as Hd.
  { unfold record_of. rewrite Hdec. by case_decide. }
  rewrite !tally_cons, H1, H2, H3, Hd, Hdom. cbn [length].
  destruct (decide (ID p ∈ dom (Dedup.info q))) as [Hin|Hin].
  - replace (({[ID p]} ∪ ids ps) ∖ dom (Dedup.info q)) with (ids ps ∖ ({[ID p]} ∪ dom (Dedup.info q))) by set_solver.
    repeat case_decide; try done. split_and!; lia.
  - assert (({[ID p]} ∪ ids ps) ∖ dom (Dedup.info q) = {[ID p]} ∪ (ids ps ∖ ({[ID p]} ∪ dom (Dedup.info q)))) as ->.
    { apply set_eq. intros x. destruct (decide (x = ID p)) as [->|]; set_solver. }
    rewrite (size_union {[ID p]}), size_singleton by set_solver. repeat case_decide; try done. split_and!; lia.
Qed.

Lemma ids_size ps : (size (ids ps) ≤ length ps)%nat.
Proof.
  induction ps as [|p ps IH]; [done|]. change (ids (p :: ps)) with ({[ID p]} ∪ ids ps). rewrite size_union_alt, size_singleton.
  assert (size (ids ps ∖ {[ID p]}) ≤ size (ids ps))%nat by (apply subseteq_size; set_solver). cbn [length]. lia.
Qed.

(** A fresh server that receives the probes in any order. *)
Lemma any_order_accounts cap s ps ds :
  0 < cap ≤ 2 ^ 62 → NewServer cap = Ok s → Forall good_probe ps →
  Z.of_nat (size (ids ps)) ≤ cap → Z.of_nat (length ps) < 2 ^ 64 → ds ≡ₚ map probe_bytes ps →
  ∃ s' n rs, Serve s 0 0 ds = Ret (s', n, rs) ∧
    server_stats s' = mkStats (Z.of_nat (size (ids ps))) (Z.of_nat (length ps) - Z.of_nat (size (ids ps))) 0.
Proof.
  intros Hc Hs Hgood Hsize Hlen Hperm. apply Permutation_map_inv in Hperm as (ps' & -> & Hperm).
  assert (ids ps = ids ps') as Hids by (unfold ids; by rewrite Hperm). rewrite Hperm in Hgood.
  assert (length ps = length ps') as Hl by (by rewrite Hperm). rewrite Hl in Hlen. rewrite Hids in Hsize. rewrite Hids, Hl.
  apply NewServer_ok in Hs as (Hok & Hu & Hst); [|done].
  destruct (so_window _ _ _ Hok) as (w & _ & Hsim).
  destruct (Serve_spec _ _ s 0 0 (map probe_bytes ps') Hok Hu) as (s' & n & HS & H1 & H2 & H3 & _).
  destruct (any_order_records (Z.to_nat cap) (Dedup.mkFifo [] ∅) ps') as (T1 & T2 & T3); [lia|apply (Dedup.sim_ok _ _ _ Hsim)|done|..].
  { cbn. rewrite dom_empty_L, union_empty_l_L. lia. }
  cbn [Dedup.info] in *. rewrite dom_empty_L, difference_empty_L in *.
  injection Hst as E1 E2 E3. rewrite E1, T1, Z.add_0_l in H1. rewrite E2, T2, Z.add_0_l in H2. rewrite E3, T3 in H3.
  assert (size (ids ps') ≤ length ps')%nat as Hle.
  { apply ids_size. }
  exists s', n. eexists. split; [done|]. unfold server_stats. rewrite H1, H2, H3. rewrite !u64_small; unfold is_u64; try done; lia.
Qed.

(** ** Properties *)

(** The probe server, over any sequence of datagrams: it never panics, its
    records are those of a bounded first-in first-out queue over the probes that
    decode, a datagram is rejected exactly when it does not decode as a probe (the
    defensive branch of [Handle] is never taken), and the three counters are the
    numbers of records of each decision. *)
Theorem probe_server_accounts (cap : Z) (s : Server) (ds : list bytes) :
  0 < cap ≤ 2 ^ 62 → NewServer cap = Ok s →
  let rs := spec_records (Z.to_nat cap) (Dedup.mkFifo [] ∅) ds in
  ∃ s' n, Serve s 0 0 ds = Ret (s', n, rs) ∧
    server_stats s' = mkStats (u64 (tally DecisionFirstCopy rs)) (u64 (tally DecisionDuplicate rs))
                        (u64 (tally DecisionRejected rs)) ∧
    ∀ i d r, ds !! i = Some d → rs !! i = Some r →
      rDecision r = DecisionRejected ↔ ∃ e, UnmarshalProbe (take maxDatagram d) = Ret (Err e).
Proof.
  intros Hc Hs rs. apply NewServer_ok in Hs as (Hok & Hu & Hst); [|done].
  destruct (Serve_spec _ _ s 0 0 ds Hok Hu) as (s' & n & HS & H1 & H2 & H3 & Hall).
  unfold server_stats in *. injection Hst as E1 E2 E3. rewrite E1, E2, E3 in *.
  exists s', n. split; [done|]. split; [|done]. by rewrite H1, H2, H3.
Qed.

Definition probe1 (n : Z) (t : PathTag) : bytes :=
  probe_bytes (mkProbe (mkPacketID (arr 16 (gs "session-id-00001")) n) t).
Definition server1 : Server := match NewServer 4 with Ok s => s | Err _ => mkServer None 0 0 0 Metrics.NewRegistry 0 0 end.
Definition datagrams1 : list bytes :=
  [probe1 1 PathWiFi; probe1 1 PathAndroidUSBTether; gs "CVPR"; probe1 2 PathWiFi; probe1 0 PathWiFi].

Lemma probe_server_accounts_witness :
  let rs := spec_records (Z.to_nat 4) (Dedup.mkFifo [] ∅) datagrams1 in
  ∃ s' n, Serve server1 0 0 datagrams1 = Ret (s', n, rs) ∧
    server_stats s' = mkStats (u64 (tally DecisionFirstCopy rs)) (u64 (tally DecisionDuplicate rs))
                        (u64 (tally DecisionRejected rs)) ∧
    ∀ i d r, datagrams1 !! i = Some d → rs !! i = Some r →
      rDecision r = DecisionRejected ↔ ∃ e, UnmarshalProbe (take maxDatagram d) = Ret (Err e).
Proof. apply (probe_server_accounts 4 server1 datagrams1); [lia|reflexivity]. Defined.

Lemma datagrams1_tally :
  let rs := spec_records 4 (Dedup.mkFifo [] ∅) datagrams1 in
  (tally DecisionFirstCopy rs, tally DecisionDuplicate rs, tally DecisionRejected rs) = (2, 1, 2).
Proof. vm_compute. reflexivity. Qed.

End ProbeServer.
