(* ===== verification/ProbeProcess.v ===== *)
(** * The probe gateway's process: [Server.Serve] and the metrics endpoint

    The goroutines of internal/gateway/server.go's [Serve] (the reader and the closer
    of the socket) and of [startMetricsServer] in cmd/gateway/main.go (the HTTP
    server, its handlers and the goroutine that shuts it down), interleaved in any
    order with arriving datagrams, read errors, requests and the cancellation of the
    context.  The reader and a handler share the registry, so neither [Handle] nor
    [Render] is one step: [Handle] takes one per atomic counter, per look-up of a
    series under the vector's lock and per atomic addition, and [Render] one per
    collection of a vector's series and per load of a value.  [Render] holds the
    registry's own lock throughout, so requests are rendered one after the other;
    that lock does not stop the reader.  A handler that is still rendering when
    [Shutdown] returns runs on. *)

From stdpp Require Import sorting.
From S2P Require Import Prelude GoText Protocol DedupWindow Metrics ProbeServer.
Import Protocol.

Module ProbeProcess.
Import ProbeServer.

(** ** [Handle] in steps *)

(** A shared access of the reader: an atomic counter of the server, [sampleFor] of a
    vector, or the atomic addition on the sample it returned. *)
Inductive update :=
| CountFirst | CountDuplicate | CountRejected
| Series (v : nat) (labels : list string)
| Bump (v : nat) (labels : list string).

Definition Inc_steps (v : nat) (labels : list string) : list update := [Series v labels; Bump v labels].

Definition with_metrics (s : Server) (m : Metrics.Registry) : Server :=
  mkServer (window s) (firstCopies s) (duplicates s) (rejected s) m (packets s) (rejects s).
Definition with_window (s : Server) (w : option Dedup.Window) : Server :=
  mkServer w (firstCopies s) (duplicates s) (rejected s) (metrics s) (packets s) (rejects s).

(** Decoding and the window, which only the reader uses, and what is then to count. *)
Definition begin_handle (s : Server) (datagram : bytes) : go (Server * list update) :=
  r ← UnmarshalProbe datagram;
  match r with
  | Err e =>
      Ret (s, CountRejected :: Inc_steps (packets s) [Decision_String DecisionRejected; PathTag_String PathUnknown] ++
              Inc_steps (rejects s) [rejectReason e])
  | Ok probe =>
      '(w, result) ← Dedup.Observe (window s) (ID probe) (PathTag_String (Path probe));
      Ret (with_window s w,
        match Dedup.decision result with
        | Dedup.DecisionFirstCopy =>
            CountFirst :: Inc_steps (packets s) [Decision_String DecisionFirstCopy; PathTag_String (Path probe)]
        | Dedup.DecisionDuplicate =>
            CountDuplicate :: Inc_steps (packets s) [Decision_String DecisionDuplicate; PathTag_String (Path probe)]
        | Dedup.DecisionInvalid =>
            CountRejected :: Inc_steps (packets s) [Decision_String DecisionRejected; PathTag_String PathUnknown] ++
              Inc_steps (rejects s) ["invalid-identity"%string]
        end)
  end.

(** [value.Add(1)] on a sample of the vector. *)
Definition add_value (m : Metrics.metric) (values : list bytes) : go Metrics.metric :=
  match Metrics.series m !! Metrics.key_of values with
  | None => Panic
  | Some x =>
      Ret (Metrics.mkMetric (Metrics.name m) (Metrics.help m) (Metrics.labelNames m)
             (<[Metrics.key_of values := Metrics.mkSample (Metrics.labelValues x) (i64 (Metrics.value x + 1))]> (Metrics.series m)))
  end.

Definition apply_update (u : update) (s : Server) : go Server :=
  match u with
  | CountFirst => Ret (count_first s (window s) (metrics s))
  | CountDuplicate => Ret (count_dup s (window s) (metrics s))
  | CountRejected => Ret (count_rejected s (window s) (metrics s))
  | Series v labels =>
      m ← Metrics.on_counter (metrics s) v (λ m, Metrics.update_sample m (gs <$> labels) (λ x, x)); Ret (with_metrics s m)
  | Bump v labels => m ← Metrics.on_counter (metrics s) v (λ m, add_value m (gs <$> labels)); Ret (with_metrics s m)
  end.

Fixpoint apply_all (us : list update) (s : Server) : go Server :=
  match us with [] => Ret s | u :: us => s ← apply_update u s; apply_all us s end.

(** ** [Render] in steps *)

Record response := mkResponse { status : Z; contentType : bytes; body : bytes }.

Definition exposition : bytes := gs "text/plain; version=0.0.4; charset=utf-8".
(** The mux has the one pattern "/metrics", for every method. *)
Definition not_found : response := mkResponse 404 (gs "text/plain; charset=utf-8") (gs "404 page not found" ++ [z2b 10]).

(** The vectors in the order of [Render]. *)
Definition vectors (r : Metrics.Registry) : list (string * Metrics.metric) :=
  (pair "counter"%string <$> Metrics.counters r) ++ (pair "gauge"%string <$> Metrics.gauges r).

(** The samples of a vector, sorted by their labels. *)
Definition listed (m : Metrics.metric) : list (list bytes) :=
  Metrics.labelValues <$> Metrics.sort_samples (map_to_list (Metrics.series m)).*2.

(** What [Render] has written: the vectors done, each with its lines, and the one it
    is at, with its lines and the samples whose values are still to be loaded. *)
Record render := mkRender {
  began : nat;                               (* the datagrams handled when it began *)
  pages : list (list Metrics.sample);
  current : option (list Metrics.sample * list (list bytes))
}.

Definition vector_head (typ : string) (m : Metrics.metric) : bytes :=
  gs "# HELP " ++ Metrics.name m ++ gs " " ++ Metrics.help m ++ [Metrics.newline] ++
  gs "# TYPE " ++ Metrics.name m ++ gs " " ++ gs typ ++ [Metrics.newline].

(** The text of the lines written. *)
Fixpoint text (vs : list (string * Metrics.metric)) (pages : list (list Metrics.sample)) : go bytes :=
  match vs, pages with
  | (typ, m) :: vs, pg :: pages => a ← Metrics.render_samples m pg; b ← text vs pages; Ret (vector_head typ m ++ a ++ b)
  | _, _ => Ret []
  end.

(** ** States *)

Inductive read_error := ErrClosed | ErrRead.

Inductive closer := CloserWaits | CloserConn | CloserDone.
Inductive reader := Reading | Handling (d : bytes) | Counting (d : bytes) (us : list update) | Returned (r : option read_error).
(** [WebOff] without a configured address; [WebFailed] when the listener fails. *)
Inductive web := WebOff | WebServing | WebShut | WebStopped | WebFailed.

(** A request answered: the datagrams handled when [Render] had the lock, and those
    handled or in handling when it returned. *)
Record scrape := mkScrape { path : bytes; from : nat; upto : nat; answer : response }.

Record state := mkState {
  cancelled : bool;
  conn_closed : bool;
  inbox : list bytes;
  closing : closer;
  reading : reader;
  site : web;
  server : Server;
  processed : Z;                             (* uint64 *)
  handled : list bytes;                      (* the datagrams handled, in order *)
  summaries : list Stats;                    (* the interval log lines *)
  waiting : nat;                             (* requests waiting for the registry's lock *)
  rendering : option render;                 (* the one that has it *)
  scrapes : list scrape
}.

Definition start (s : Server) (metricsAddr : bytes) : state :=
  mkState false false [] CloserWaits Reading (if decide (metricsAddr = []) then WebOff else WebServing) s 0 [] [] 0 None [].

(** The datagrams handled, with the one being counted. *)
Definition taken (s : state) : list bytes :=
  match reading s with Counting d _ => handled s ++ [d] | _ => handled s end.

Definition set_closing (c : closer) (closed : bool) (s : state) : state :=
  mkState (cancelled s) closed (inbox s) c (reading s) (site s) (server s) (processed s) (handled s) (summaries s)
    (waiting s) (rendering s) (scrapes s).
Definition set_reading (r : reader) (q : list bytes) (s : state) : state :=
  mkState (cancelled s) (conn_closed s) q (closing s) r (site s) (server s) (processed s) (handled s) (summaries s)
    (waiting s) (rendering s) (scrapes s).
Definition set_server (r : reader) (srv : Server) (s : state) : state :=
  mkState (cancelled s) (conn_closed s) (inbox s) (closing s) r (site s) srv (processed s) (handled s) (summaries s)
    (waiting s) (rendering s) (scrapes s).
Definition set_site (w : web) (s : state) : state :=
  mkState (cancelled s) (conn_closed s) (inbox s) (closing s) (reading s) w (server s) (processed s) (handled s) (summaries s)
    (waiting s) (rendering s) (scrapes s).
Definition set_render (n : nat) (r : option render) (xs : list scrape) (s : state) : state :=
  mkState (cancelled s) (conn_closed s) (inbox s) (closing s) (reading s) (site s) (server s) (processed s) (handled s) (summaries s)
    n r (scrapes s ++ xs).
Definition cancel (s : state) : state :=
  mkState true (conn_closed s) (inbox s) (closing s) (reading s) (site s) (server s) (processed s) (handled s) (summaries s)
    (waiting s) (rendering s) (scrapes s).

(** ** The steps of the goroutines *)

Definition serve_result (s : state) (e : read_error) : option read_error :=
  match e with ErrClosed => None | ErrRead => if cancelled s then None else Some ErrRead end.

(** [logSummary]: only the reader writes the counters it loads. *)
Definition summary_line (s : Server) : Stats := server_stats s.

(** The end of an iteration: the count and the interval line. *)
Definition iterate (d : bytes) (s : state) : list state :=
  match gmod (u64 (processed s + 1)) summaryEvery with
  | Ret m =>
      [mkState (cancelled s) (conn_closed s) (inbox s) (closing s) Reading (site s) (server s) (u64 (processed s + 1)) (handled s ++ [d])
         (summaries s ++ if m =? 0 then [summary_line (server s)] else []) (waiting s) (rendering s) (scrapes s)]
  | Panic => []
  end.

Definition closer_moves (s : state) : list state :=
  match closing s with
  | CloserWaits => if cancelled s then [set_closing CloserConn (conn_closed s) s] else []
  | CloserConn => [set_closing CloserDone true s]
  | CloserDone => []
  end.

Definition reader_moves (s : state) : list state :=
  match reading s with
  | Reading =>
      if conn_closed s then [set_reading (Returned (serve_result s ErrClosed)) (inbox s) s] else
      match inbox s with [] => [] | d :: q => [set_reading (Handling d) q s] end
  | Handling d =>
      match begin_handle (server s) (take maxDatagram d) with Ret (srv, us) => [set_server (Counting d us) srv s] | Panic => [] end
  | Counting d (u :: us) =>
      match apply_update u (server s) with Ret srv => [set_server (Counting d us) srv s] | Panic => [] end
  | Counting d [] => iterate d s
  | Returned _ => []
  end.

(** [Shutdown] after the cancellation; then [ListenAndServe] returns [ErrServerClosed]. *)
Definition web_moves (s : state) : list state :=
  match site s with
  | WebServing => if cancelled s then [set_site WebShut s] else []
  | WebShut => [set_site WebStopped s]
  | _ => []
  end.

(** The handlers of "/metrics": taking the lock, then the loops of [Registry.Render]
    and [metric.render]; with every vector done, the answer. *)
Definition render_moves (s : state) : list state :=
  match rendering s with
  | None =>
      match waiting s with O => [] | S n => [set_render n (Some (mkRender (length (handled s)) [] None)) [] s] end
  | Some r =>
      match current r, vectors (metrics (server s)) !! length (pages r) with
      | Some (pg, x :: xs), Some (_, m) =>
          [set_render (waiting s) (Some (mkRender (began r) (pages r) (Some (pg ++ [Metrics.mkSample x (Metrics.reading m x)], xs)))) [] s]
      | Some (pg, x :: xs), None => []
      | Some (pg, []), _ => [set_render (waiting s) (Some (mkRender (began r) (pages r ++ [pg]) None)) [] s]
      | None, Some (_, m) => [set_render (waiting s) (Some (mkRender (began r) (pages r) (Some ([], listed m)))) [] s]
      | None, None =>
          match text (vectors (metrics (server s))) (pages r) with
          | Ret b =>
              [set_render (waiting s) None
                 [mkScrape (gs "/metrics") (began r) (length (taken s)) (mkResponse 200 exposition b)] s]
          | Panic => []
          end
      end
  end.

Definition moves (s : state) : list state := closer_moves s ++ reader_moves s ++ web_moves s ++ render_moves s.

(** ** The steps of the world *)

(** A request to the mux: "/metrics" goes to its handler, another path is not found. *)
Definition request (p : bytes) (s : state) : state :=
  if decide (p = gs "/metrics") then set_render (S (waiting s)) (rendering s) [] s
  else set_render (waiting s) (rendering s) [mkScrape p (length (handled s)) (length (taken s)) not_found] s.

Inductive world : state → state → Prop :=
| WCancel s : world s (cancel s)
| WDatagram s d : world s (set_reading (reading s) (inbox s ++ [d]) s)
| WReadError s : reading s = Reading → world s (set_reading (Returned (serve_result s ErrRead)) (inbox s) s)
| WListenFailed s : site s = WebServing → world s (set_site WebFailed s)
| WRequest s p : site s = WebServing → world s (request p s).

Definition tick (s s' : state) : Prop := s' ∈ moves s ∨ world s s'.

(** ** The server a sequence of datagrams leads to *)

Fixpoint handle_all (s : Server) (ds : list bytes) : go Server :=
  match ds with
  | [] => Ret s
  | d :: ds => '(s, _) ← Handle s (take maxDatagram d); handle_all s ds
  end.

Lemma handle_all_app s ds1 ds2 : handle_all s (ds1 ++ ds2) = (s' ← handle_all s ds1; handle_all s' ds2).
Proof.
  revert s. induction ds1 as [|d ds1 IH]; intros s; cbn [app handle_all]; [by mstep|].
  destruct (Handle s _) as [[s' r]|]; mstep; [apply IH|done].
Qed.

Lemma apply_all_app us1 us2 s : apply_all (us1 ++ us2) s = (s' ← apply_all us1 s; apply_all us2 s').
Proof.
  revert s. induction us1 as [|u us1 IH]; intros s; cbn [app apply_all]; [by mstep|].
  destruct (apply_update u s) as [s'|]; mstep; [apply IH|done].
Qed.

(** Counters and registry of a server in use. *)
Definition usable (s : Server) : Prop := ∃ cap q, server_ok cap q s ∧ counters_u64 s.

Lemma Handle_usable s d : usable s → ∃ s' r, Handle s d = Ret (s', r) ∧ usable s'.
Proof.
  intros (cap & q & Hok & Hu). destruct (Unmarshal_spec d) as ([probe|e] & Hd & _).
  - pose proof (Handle_accepts cap q s d probe Hok Hu Hd) as Ha. destruct (Dedup.fifo_observe _ _ _ _) as [q' r].
    destruct Ha as (s' & HH & Hok' & _ & Hu' & _). exists s', (record_of probe r). split; [done|]. by exists cap, q'.
  - destruct (Handle_rejects cap q s d e Hok Hu Hd) as (s' & HH & Hok' & _ & Hu'). exists s', rejected_record. split; [done|]. by exists cap, q.
Qed.

Lemma handle_all_usable s ds : usable s → ∃ s', handle_all s ds = Ret s' ∧ usable s'.
Proof.
  revert s. induction ds as [|d ds IH]; intros s Hs; cbn [handle_all]; [by exists s|].
  destruct (Handle_usable s (take maxDatagram d) Hs) as (s' & r & -> & Hs'). mstep. by apply IH.
Qed.

(** [Inc] is the look-up of the series and then the addition. *)
Lemma Inc_split r v labels :
  Metrics.Inc r v labels =
    (r' ← Metrics.on_counter r v (λ m, Metrics.update_sample m (gs <$> labels) (λ x, x));
     Metrics.on_counter r' v (λ m, add_value m (gs <$> labels))).
Proof.
  unfold Metrics.Inc, Metrics.on_counter, Metrics.CounterInc, Metrics.CounterAdd, Metrics.update_sample, Metrics.sampleFor.
  destruct (Metrics.counters r !! v) as [m|] eqn:Hv; [|done]. case_decide; [done|]. mstep. cbn [Metrics.counters].
  rewrite list_lookup_insert_eq by (by eapply lookup_lt_Some). unfold add_value. cbn [Metrics.series]. rewrite lookup_insert_eq.
  mstep. cbn [Metrics.name Metrics.help Metrics.labelNames Metrics.series Metrics.gauges Metrics.labelValues Metrics.value].
  by rewrite list_insert_insert_eq, insert_insert_eq.
Qed.

Lemma apply_Inc s v labels us :
  apply_all (Inc_steps v labels ++ us) s = (m ← Metrics.Inc (metrics s) v labels; apply_all us (with_metrics s m)).
Proof.
  rewrite Inc_split. unfold Inc_steps. cbn [app apply_all apply_update].
  destruct (Metrics.on_counter (metrics s) v _) as [m|]; mstep; [|done]. cbn [with_metrics metrics].
  destruct (Metrics.on_counter m v _) as [m'|]; by mstep.
Qed.

(** Two counters of a rejected datagram. *)
Lemma apply_reject s labels1 labels2 :
  apply_all (CountRejected :: Inc_steps (packets s) labels1 ++ Inc_steps (rejects s) labels2) s =
    (m ← Metrics.Inc (metrics s) (packets s) labels1; m ← Metrics.Inc m (rejects s) labels2; Ret (count_rejected s (window s) m)).
Proof.
  cbn [apply_all apply_update]. mstep. rewrite apply_Inc. cbn [count_rejected metrics].
  destruct (Metrics.Inc (metrics s) (packets s) labels1) as [m|]; mstep; [|done].
  rewrite <-(app_nil_r (Inc_steps _ _)), apply_Inc. cbn [with_metrics metrics].
  by destruct (Metrics.Inc m (rejects s) labels2) as [m'|]; mstep.
Qed.

(** The steps of a datagram, taken without interruption, are [Handle]. *)
Lemma Handle_steps s d :
  (s' ← Handle s d; Ret s'.1) = ('(s1, us) ← begin_handle s d; apply_all us s1).
Proof.
  unfold Handle, begin_handle. destruct (UnmarshalProbe d) as [[probe|e]|]; mstep; [| |done].
  - destruct (Dedup.Observe (window s) (ID probe) _) as [[w res]|]; mstep; [|done].
    destruct (Dedup.decision res);
      [rewrite (apply_reject (with_window s w))|cbn [apply_all apply_update]; mstep; rewrite <-(app_nil_r (Inc_steps _ _)), apply_Inc..];
      cbn [count_first count_dup with_window metrics packets rejects window];
      destruct (Metrics.Inc (metrics s) _ _) as [m|]; mstep; try done.
    by destruct (Metrics.Inc m _ _) as [m'|]; mstep.
  - rewrite apply_reject. destruct (Metrics.Inc (metrics s) _ _) as [m|]; mstep; [|done].
    by destruct (Metrics.Inc m _ _) as [m'|]; mstep.
Qed.

(** ** What an update does to the registry *)

(** The value of a series, 0 without one. *)
Definition figure (r : Metrics.Registry) (p : nat) (ls : list bytes) : Z :=
  match vectors r !! p with Some (_, m) => Metrics.reading m ls | None => 0 end.

Definition labels_of (r : Metrics.Registry) (p : nat) : list (list bytes) :=
  match vectors r !! p with Some (_, m) => listed m | None => [] end.

(** What [Render] prints of a vector besides its samples. *)
Definition shape (x : string * Metrics.metric) : string * bytes * bytes * list bytes :=
  (x.1, Metrics.name x.2, Metrics.help x.2, Metrics.labelNames x.2).

Definition vectors_ok (r : Metrics.Registry) : Prop := Forall (λ x, Metrics.metric_ok x.2) (vectors r).

Lemma usable_vectors s : usable s → vectors_ok (metrics s).
Proof.
  intros (cap & q & [_ [Hc Hg _ _] _ _] & _). unfold vectors_ok, vectors. apply Forall_app. split; by apply Forall_fmap.
Qed.

(** No series is lost. *)
Definition grew (r r' : Metrics.Registry) : Prop :=
  shape <$> vectors r' = shape <$> vectors r ∧ ∀ p, labels_of r p ⊆ labels_of r' p.

#[local] Instance grew_preorder : PreOrder grew.
Proof.
  split; [by intros r|]. intros r1 r2 r3 [H1 H2] [H3 H4]. split; [congruence|]. intros p. by rewrite H2.
Qed.

(** The vectors whose series an update adds to. *)
Definition bumps (us : list update) : list nat := omap (λ u, match u with Bump v _ => Some v | _ => None end) us.

Lemma elem_of_listed m ls : ls ∈ listed m ↔ ∃ k x, Metrics.series m !! k = Some x ∧ Metrics.labelValues x = ls.
Proof.
  unfold listed. rewrite list_elem_of_fmap. setoid_rewrite Metrics.sort_samples_perm. split.
  - intros (x & -> & ([k y] & -> & Hk%elem_of_map_to_list)%list_elem_of_fmap). by exists k, y.
  - intros (k & x & Hk & <-). exists x. split; [done|]. apply list_elem_of_fmap. exists (k, x). by rewrite elem_of_map_to_list.
Qed.

Lemma touch_effect m values m' :
  Metrics.metric_ok m → Metrics.update_sample m values (λ x, x) = Ret m' →
  Metrics.metric_ok m' ∧ (∀ typ, shape (typ, m') = shape (typ, m)) ∧ listed m ⊆ listed m' ∧
  ∀ ls, Metrics.reading m' ls = Metrics.reading m ls.
Proof.
  intros Hm H. assert (length values = length (Metrics.labelNames m)) as Hl.
  { unfold Metrics.update_sample, Metrics.sampleFor in H. case_decide; [by autorewrite with gomonad in H|lia]. }
  destruct (Metrics.update_sample_spec m values (λ x, x) Hm Hl) as (m2 & E & Hok & Hn & Hh & Hls & Hr & Hrest).
  rewrite H in E. apply (inj Ret) in E as <-. split; [done|]. split; [intros typ; unfold shape; cbn; by rewrite Hn, Hh, Hls|]. split.
  - intros ls. rewrite !elem_of_listed. intros (k & x & Hk & Hx).
    unfold Metrics.update_sample, Metrics.sampleFor in H. case_decide; [lia|]. autorewrite with gomonad in H. apply (inj Ret) in H as <-. cbn [Metrics.series].
    destruct (decide (k = Metrics.key_of values)) as [->|Hne].
    + eexists _, _. rewrite lookup_insert_eq. split; [done|]. by rewrite Hk.
    + exists k, x. by rewrite lookup_insert_ne.
  - intros ls. destruct (decide (Metrics.key_of ls = Metrics.key_of values)) as [E|E]; [|by apply Hrest].
    transitivity (Metrics.reading m' values); [by unfold Metrics.reading; rewrite E|].
    rewrite Hr. by unfold Metrics.reading; rewrite E.
Qed.

Lemma add_effect m values m' :
  Metrics.metric_ok m → add_value m values = Ret m' →
  Metrics.metric_ok m' ∧ (∀ typ, shape (typ, m') = shape (typ, m)) ∧ listed m ⊆ listed m'.
Proof.
  intros [Hk Ha] H. unfold add_value in H. destruct (Metrics.series m !! Metrics.key_of values) as [y|] eqn:Ey; [|done].
  apply (inj Ret) in H as <-. split_and!; [|done|].
  - split; intros k s; cbn [Metrics.series Metrics.labelNames]; intros [[<- <-]|[_ Hs]]%lookup_insert_Some; cbn [Metrics.labelValues]; eauto.
  - intros ls. rewrite !elem_of_listed. intros (k & x & Hx & Hl). cbn [Metrics.series].
    destruct (decide (k = Metrics.key_of values)) as [->|Hne].
    + eexists _, _. rewrite lookup_insert_eq. split; [done|]. cbn. congruence.
    + exists k, x. by rewrite lookup_insert_ne.
Qed.

Lemma on_counter_vectors r h f r' :
  Metrics.on_counter r h f = Ret r' →
  ∃ m m', f m = Ret m' ∧ vectors r !! h = Some ("counter"%string, m) ∧ vectors r' = <[h := ("counter"%string, m')]> (vectors r).
Proof.
  unfold Metrics.on_counter. destruct (Metrics.counters r !! h) as [m|] eqn:Eh; [|done]. destruct (f m) as [m'|] eqn:Ef; mstep; [|done].
  intros [= <-]. exists m, m'. split; [done|]. unfold vectors. cbn [Metrics.counters Metrics.gauges]. split.
  - rewrite lookup_app_l by (rewrite length_fmap; by eapply lookup_lt_Some). by rewrite list_lookup_fmap, Eh.
  - rewrite insert_app_l by (rewrite length_fmap; by eapply lookup_lt_Some). by rewrite list_fmap_insert.
Qed.

(** A vector replaced by one of the same shape with as many series. *)
Lemma replaced r r' h m m' :
  vectors_ok r → vectors r !! h = Some ("counter"%string, m) → vectors r' = <[h := ("counter"%string, m')]> (vectors r) →
  Metrics.metric_ok m' → shape ("counter"%string, m') = shape ("counter"%string, m) → listed m ⊆ listed m' →
  vectors_ok r' ∧ grew r r' ∧ ∀ p ls, p ≠ h ∨ Metrics.reading m' ls = Metrics.reading m ls → figure r' p ls = figure r p ls.
Proof.
  intros Hr Hh Hv Hm' Hs Hl. unfold vectors_ok, grew, labels_of, figure. rewrite Hv. split; [by apply Forall_insert|]. split.
  - split; [by eapply Metrics.fmap_insert_same|]. intros p. destruct (decide (p = h)) as [->|].
    + rewrite list_lookup_insert_eq by (by eapply lookup_lt_Some). by rewrite Hh.
    + by rewrite list_lookup_insert_ne.
  - intros p ls Hp. destruct (decide (p = h)) as [->|].
    + rewrite list_lookup_insert_eq by (by eapply lookup_lt_Some). rewrite Hh. by destruct Hp.
    + by rewrite list_lookup_insert_ne.
Qed.

Lemma update_effect u s s' :
  vectors_ok (metrics s) → apply_update u s = Ret s' →
  vectors_ok (metrics s') ∧ grew (metrics s) (metrics s') ∧
  ∀ p ls, p ∉ bumps [u] → figure (metrics s') p ls = figure (metrics s) p ls.
Proof.
  intros Hs H. destruct u as [| | |v labels|v labels]; cbn [apply_update] in H;
    [apply (inj Ret) in H as <-; split_and!; done..| |];
    (destruct (Metrics.on_counter _ _ _) as [r|] eqn:Ev; autorewrite with gomonad in H; [|done]); apply (inj Ret) in H as <-; cbn [with_metrics metrics];
    apply on_counter_vectors in Ev as (m & m' & Ef & Hh & Hv); pose proof (Forall_lookup_1 _ _ _ _ Hs Hh) as Hm; cbn in Hm.
  - apply touch_effect in Ef as (Hm' & Hsh & Hl & Hrd); [|done]. destruct (replaced _ _ _ _ _ Hs Hh Hv Hm' (Hsh _) Hl) as (H1 & H2 & H3).
    split_and!; try done. intros p ls _. apply H3. right. apply Hrd.
  - apply add_effect in Ef as (Hm' & Hsh & Hl); [|done]. destruct (replaced _ _ _ _ _ Hs Hh Hv Hm' (Hsh _) Hl) as (H1 & H2 & H3).
    split_and!; try done. intros p ls Hp. apply H3. left. intros ->. apply Hp. cbn. set_solver.
Qed.

Lemma updates_effect us s s' :
  vectors_ok (metrics s) → apply_all us s = Ret s' →
  vectors_ok (metrics s') ∧ grew (metrics s) (metrics s') ∧
  ∀ p ls, p ∉ bumps us → figure (metrics s') p ls = figure (metrics s) p ls.
Proof.
  revert s. induction us as [|u us IH]; intros s Hs H; cbn [apply_all] in H; [by apply (inj Ret) in H as <-|].
  destruct (apply_update u s) as [s1|] eqn:Eu; autorewrite with gomonad in H; [|done].
  destruct (update_effect u s s1 Hs Eu) as (H1 & H2 & H3). destruct (IH s1 H1 H) as (H4 & H5 & H6).
  split; [done|]. split; [by etrans|]. intros p ls Hp. change (u :: us) with ([u] ++ us) in Hp. unfold bumps in Hp. rewrite omap_app in Hp.
  apply not_elem_of_app in Hp as [Hp1 Hp2]. rewrite H6 by done. by apply H3.
Qed.

(** A datagram's updates are at most five, and add to a vector at most once. *)
Lemma begin_handle_shape s d s1 us :
  packets s ≠ rejects s → begin_handle s d = Ret (s1, us) → metrics s1 = metrics s ∧ (length us ≤ 5)%nat ∧ NoDup (bumps us).
Proof.
  intros Hne. unfold begin_handle. destruct (UnmarshalProbe d) as [[probe|e]|]; mstep; [| |done].
  - destruct (Dedup.Observe _ _ _) as [[w res]|]; mstep; [|done]. intros [= <- <-].
    destruct (Dedup.decision res); (split; [done|]); (split; [cbn; lia|]); cbn; repeat constructor; set_solver.
  - intros [= <- <-]. split; [done|]. split; [cbn; lia|]. cbn. repeat constructor; set_solver.
Qed.

Lemma Handle_grew s d s' r : usable s → Handle s d = Ret (s', r) → grew (metrics s) (metrics s').
Proof.
  intros Hs HH. pose proof (Handle_steps s d) as E. rewrite HH in E. autorewrite with gomonad in E.
  destruct (begin_handle s d) as [[s1 us]|] eqn:Eb; autorewrite with gomonad in E; [|done]. cbn [fst] in E. symmetry in E.
  destruct Hs as (cap & q & Hok & Hu). destruct (begin_handle_shape s d s1 us) as (Em & _); [|done|].
  { by rewrite (so_packets _ _ _ Hok), (so_rejects _ _ _ Hok). }
  rewrite <-Em. apply (updates_effect us); [|done]. rewrite Em. apply usable_vectors. by exists cap, q.
Qed.

Lemma handle_all_grew s ds s' : usable s → handle_all s ds = Ret s' → grew (metrics s) (metrics s').
Proof.
  revert s. induction ds as [|d ds IH]; intros s Hs H; cbn [handle_all] in H; [by apply (inj Ret) in H as <-|].
  destruct (Handle_usable s (take maxDatagram d) Hs) as (s1 & r & HH & Hs1). rewrite HH in H. autorewrite with gomonad in H.
  etrans; [by eapply Handle_grew|]. by apply IH.
Qed.

(** A longer prefix of the datagrams has the series of a shorter one. *)
Lemma prefix_grew s0 tk i j si sj :
  usable s0 → (i ≤ j)%nat → handle_all s0 (take i tk) = Ret si → handle_all s0 (take j tk) = Ret sj → grew (metrics si) (metrics sj).
Proof.
  intros H0 Hij Hi Hj. replace j with (i + (j - i))%nat in Hj by lia. rewrite <-take_take_drop, handle_all_app, Hi in Hj.
  autorewrite with gomonad in Hj. eapply handle_all_grew; [|done].
  destruct (handle_all_usable s0 (take i tk) H0) as (x & E & Hx). rewrite Hi in E. by apply (inj Ret) in E as <-.
Qed.

(** ** The server in the middle of a datagram *)

Definition at_datagram (s0 : Server) (s : state) : Prop :=
  match reading s with
  | Counting d us => ∃ b b1 us0, handle_all s0 (handled s) = Ret b ∧
      begin_handle b (take maxDatagram d) = Ret (b1, us0 ++ us) ∧ apply_all us0 b1 = Ret (server s)
  | _ => handle_all s0 (handled s) = Ret (server s)
  end.

(** Each figure is the one before the datagram or the one after it. *)
Lemma now_between s0 s :
  usable s0 → at_datagram s0 s → ∃ lo hi, handle_all s0 (handled s) = Ret lo ∧ handle_all s0 (taken s) = Ret hi ∧
    vectors_ok (metrics (server s)) ∧ grew (metrics lo) (metrics (server s)) ∧ grew (metrics (server s)) (metrics hi) ∧
    ∀ p ls, figure (metrics (server s)) p ls = figure (metrics lo) p ls ∨ figure (metrics (server s)) p ls = figure (metrics hi) p ls.
Proof.
  intros H0. unfold at_datagram, taken.
  assert (handle_all s0 (handled s) = Ret (server s) → vectors_ok (metrics (server s))) as Hv.
  { intros E. destruct (handle_all_usable s0 (handled s) H0) as (x & E' & Hx). rewrite E in E'. apply (inj Ret) in E' as <-. by apply usable_vectors. }
  destruct (reading s) as [|d|d us|r]; try (intros E; exists (server s), (server s); split_and!; auto; done).
  intros (b & b1 & us0 & Hb & Hbegin & Hus0). exists b.
  destruct (handle_all_usable s0 (handled s) H0) as (x & E & Hx). rewrite Hb in E. apply (inj Ret) in E as <-.
  destruct (Handle_usable b (take maxDatagram d) Hx) as (hi & r & HH & _). exists hi. split; [done|]. split.
  { rewrite handle_all_app, Hb. mstep. cbn [handle_all]. rewrite HH. by mstep. }
  pose proof (Handle_steps b (take maxDatagram d)) as Hst. rewrite HH, Hbegin in Hst. autorewrite with gomonad in Hst. cbn [fst] in Hst.
  rewrite apply_all_app, Hus0 in Hst. autorewrite with gomonad in Hst. symmetry in Hst.
  destruct (begin_handle_shape b (take maxDatagram d) b1 (us0 ++ us)) as (Em & _ & Hnd); [|done|].
  { destruct Hx as (cap & q & Hok & _). by rewrite (so_packets _ _ _ Hok), (so_rejects _ _ _ Hok). }
  apply usable_vectors in Hx. rewrite <-Em in Hx |- *.
  destruct (updates_effect us0 b1 (server s) Hx Hus0) as (H1 & H2 & H3). destruct (updates_effect us (server s) hi H1 Hst) as (_ & H5 & H6).
  split_and!; try done. intros p ls. unfold bumps in Hnd. rewrite omap_app in Hnd. apply NoDup_app in Hnd as (_ & Hnd & _).
  destruct (decide (p ∈ bumps us0)) as [Hin|Hin]; [right; symmetry; by apply H6, Hnd|left; by apply H3].
Qed.

(** A figure read now is that after some number of datagrams. *)
Lemma figure_now s0 s p ls :
  usable s0 → at_datagram s0 s →
  ∃ k srv, (length (handled s) ≤ k ≤ length (taken s))%nat ∧ handle_all s0 (take k (taken s)) = Ret srv ∧
    figure (metrics (server s)) p ls = figure (metrics srv) p ls.
Proof.
  intros H0 Hat. assert (∃ t, taken s = handled s ++ t) as [t Et].
  { unfold taken. destruct (reading s); eexists; try reflexivity; by rewrite app_nil_r. }
  destruct (now_between s0 s H0 Hat) as (lo & hi & Hlo & Hhi & _ & _ & _ & Hf). destruct (Hf p ls) as [E|E].
  - exists (length (handled s)), lo. rewrite Et, take_app_length, length_app. split_and!; [lia..|done|done].
  - exists (length (taken s)), hi. rewrite firstn_all. split_and!; [rewrite Et, length_app; lia|done..].
Qed.

(** ** A page *)

Definition sorted_labels : list (list bytes) → Prop := StronglySorted (λ a b, Metrics.less a b = true).

(** The samples [labels] of a vector, of which the lines [pg] are written: they are
    sorted, have every series there was after [b] datagrams and none there is not
    after [e]; and every value is that of its series after some number of datagrams
    from [b] to [e]. *)
Definition page_ok (s0 : Server) (tk : list bytes) (b e p : nat) (labels : list (list bytes)) (pg : list Metrics.sample) : Prop :=
  sorted_labels labels ∧
  (∀ srv, handle_all s0 (take b tk) = Ret srv → labels_of (metrics srv) p ⊆ labels) ∧
  (∀ srv, handle_all s0 (take e tk) = Ret srv → labels ⊆ labels_of (metrics srv) p) ∧
  Forall (λ x, ∃ k srv, (b ≤ k ≤ e)%nat ∧ handle_all s0 (take k tk) = Ret srv ∧
    Metrics.value x = figure (metrics srv) p (Metrics.labelValues x)) pg.

Lemma page_ok_later s0 tk tk' b e e' p labels pg :
  usable s0 → (b ≤ e ≤ length tk)%nat → (e ≤ e')%nat → tk `prefix_of` tk' → page_ok s0 tk b e p labels pg → page_ok s0 tk' b e' p labels pg.
Proof.
  intros H0 He He' [t ->] (H1 & H2 & H3 & H4). split; [done|]. split; [|split].
  - intros srv. rewrite take_app_le by lia. apply H2.
  - intros srv Hs. destruct (handle_all_usable s0 (take e tk) H0) as (se & Ee & _). rewrite (H3 _ Ee).
    rewrite <-(take_app_le tk t) in Ee by lia. by eapply (prefix_grew s0 (tk ++ t) e e').
  - eapply Forall_impl; [exact H4|]. intros x (k & srv & Hk & Hs & Hx). exists k, srv. rewrite take_app_le by lia. split; [lia|done].
Qed.

Lemma listed_sorted m : Metrics.metric_ok m → sorted_labels (listed m).
Proof.
  intros Hm. unfold sorted_labels, listed.
  pose proof (Metrics.sort_samples_sorted _ (Metrics.values_nodup m Hm)) as H.
  induction H as [|x l H IH Hx]; [constructor|]. rewrite fmap_cons. constructor; [done|]. by apply Forall_fmap.
Qed.

(** The samples of a vector, as they are collected. *)
Lemma page_collected s0 s b p typ m :
  usable s0 → at_datagram s0 s → (b ≤ length (handled s))%nat → vectors (metrics (server s)) !! p = Some (typ, m) →
  page_ok s0 (taken s) b (length (taken s)) p (listed m) [].
Proof.
  intros H0 Hat Hb Hp. destruct (now_between s0 s H0 Hat) as (lo & hi & Hlo & Hhi & Hv & Hg1 & Hg2 & _).
  assert (listed m = labels_of (metrics (server s)) p) as E by (unfold labels_of; by rewrite Hp).
  split; [apply listed_sorted; exact (Forall_lookup_1 _ _ _ _ Hv Hp)|]. rewrite E. split_and!; [| |done].
  - intros srv Hs. assert (∃ t, taken s = handled s ++ t) as [t Et].
    { unfold taken. destruct (reading s); eexists; try reflexivity; by rewrite app_nil_r. }
    rewrite Et, take_app_le in Hs by lia. rewrite <-(firstn_all (handled s)) in Hlo.
    destruct (prefix_grew s0 (handled s) b _ srv lo H0 Hb Hs Hlo) as [_ Hg]. rewrite (Hg p). apply Hg1.
  - intros srv Hs. rewrite firstn_all, Hhi in Hs. apply (inj Ret) in Hs as <-. apply Hg2.
Qed.

(** A value loaded. *)
Lemma page_loaded s0 s b p typ m x pg left :
  usable s0 → at_datagram s0 s → (b ≤ length (handled s))%nat → vectors (metrics (server s)) !! p = Some (typ, m) →
  page_ok s0 (taken s) b (length (taken s)) p ((Metrics.labelValues <$> pg) ++ x :: left) pg →
  page_ok s0 (taken s) b (length (taken s)) p ((Metrics.labelValues <$> pg ++ [Metrics.mkSample x (Metrics.reading m x)]) ++ left)
    (pg ++ [Metrics.mkSample x (Metrics.reading m x)]).
Proof.
  intros H0 Hat Hb Hp (H1 & H2 & H3 & H4). rewrite fmap_app, <-app_assoc. split_and!; try done.
  apply Forall_app. split; [done|]. constructor; [|done]. destruct (figure_now s0 s p x H0 Hat) as (k & srv & Hk & Hs & Hf).
  exists k, srv. split; [lia|]. split; [done|]. cbn. rewrite <-Hf. unfold figure. by rewrite Hp.
Qed.

(** ** The text *)

Lemma render_samples_shape typ m m' l : shape (typ, m') = shape (typ, m) → Metrics.render_samples m' l = Metrics.render_samples m l.
Proof.
  intros [= E1 _ E3]. induction l as [|x l IH]; [done|]. cbn [Metrics.render_samples]. by rewrite E1, E3, IH.
Qed.

Lemma text_shape vs vs' pgs : shape <$> vs' = shape <$> vs → text vs' pgs = text vs pgs.
Proof.
  revert vs pgs. induction vs' as [|[typ' m'] vs' IH]; intros [|[typ m] vs] [|pg pgs] E; try done.
  rewrite !fmap_cons in E. injection E as E1 E2 E3 E4 E5. cbn [text].
  rewrite (render_samples_shape typ' m m') by (unfold shape; cbn; congruence). rewrite (IH vs) by done.
  by replace (vector_head typ' m') with (vector_head typ m) by (unfold vector_head; congruence).
Qed.

Lemma text_total vs pgs :
  (∀ p pg typ m, pgs !! p = Some pg → vs !! p = Some (typ, m) → Forall (λ x, length (Metrics.labelValues x) = length (Metrics.labelNames m)) pg) →
  ∃ b, text vs pgs = Ret b.
Proof.
  revert pgs. induction vs as [|[typ m] vs IH]; intros [|pg pgs] H; try by eexists. cbn [text].
  destruct (Metrics.render_samples_total m pg) as [a ->]; [by apply (H 0%nat pg typ m)|]. mstep.
  destruct (IH pgs) as [b ->]; [|mstep; by eexists]. intros p pg' typ' m' H1 H2. by apply (H (S p) pg' typ' m').
Qed.

Lemma text_app vs1 vs2 pgs1 pgs2 :
  length vs1 = length pgs1 → text (vs1 ++ vs2) (pgs1 ++ pgs2) = (a ← text vs1 pgs1; b ← text vs2 pgs2; Ret (a ++ b)).
Proof.
  revert pgs1. induction vs1 as [|[typ m] vs1 IH]; intros [|pg pgs1] Hl; try done; cbn [app text].
  - mstep. by destruct (text vs2 pgs2); mstep.
  - injection Hl as Hl. destruct (Metrics.render_samples m pg) as [a|]; mstep; [|done]. rewrite (IH pgs1 Hl).
    destruct (text vs1 pgs1) as [b|]; mstep; [|done]. destruct (text vs2 pgs2) as [c|]; mstep; [|done]. by rewrite <-!app_assoc.
Qed.

(** The lines of a vector at rest. *)
Definition at_rest (x : string * Metrics.metric) : list Metrics.sample :=
  Metrics.sort_samples (map_to_list (Metrics.series x.2)).*2.

Lemma text_vectors typ ms : text (pair typ <$> ms) (at_rest <$> (pair typ <$> ms)) = Metrics.render_all ms typ.
Proof.
  induction ms as [|m ms IH]; [done|]. rewrite !fmap_cons. cbn [Metrics.render_all text]. unfold Metrics.render, Metrics.render_in.
  change (at_rest (typ, m)) with (Metrics.sort_samples (map_to_list (Metrics.series m)).*2).
  destruct (Metrics.render_samples m _) as [a|]; mstep; [|done]. rewrite IH. destruct (Metrics.render_all ms typ) as [b|]; mstep; [|done].
  unfold vector_head. by rewrite <-!app_assoc.
Qed.

(** [Render] of a registry nobody changes meanwhile. *)
Lemma text_at_rest r : text (vectors r) (at_rest <$> vectors r) = Metrics.Render r.
Proof.
  unfold vectors, Metrics.Render. rewrite fmap_app, text_app by (by rewrite !length_fmap). by rewrite !text_vectors.
Qed.

Lemma sorted_labels_nodup l : sorted_labels l → NoDup l.
Proof.
  destruct Metrics.less_strict_total as [Hi _ _]. induction 1 as [|x l H IH Hx]; [constructor|]. constructor; [|done].
  intros Hin. rewrite Forall_forall in Hx. apply Hx in Hin. by rewrite Hi in Hin.
Qed.

Lemma sorted_labels_unique l l' : sorted_labels l → sorted_labels l' → l ⊆ l' → l' ⊆ l → l = l'.
Proof.
  intros H H' H1 H2. assert (AntiSymm eq (λ a b, Metrics.less a b = true)) as Ha.
  { intros a b Hab Hba. destruct Metrics.less_strict_total as [Hi Ht _]. pose proof (Ht _ _ _ Hab Hba) as E. by rewrite Hi in E. }
  eapply StronglySorted_unique; [done..|]. apply NoDup_Permutation; [by apply sorted_labels_nodup..|]. set_solver.
Qed.

Lemma at_rest_figures typ m :
  Metrics.metric_ok m → at_rest (typ, m) = (λ ls, Metrics.mkSample ls (Metrics.reading m ls)) <$> listed m.
Proof.
  intros Hm. unfold listed, at_rest. cbn [snd]. rewrite <-list_fmap_compose.
  assert (Forall (λ x, x = Metrics.mkSample (Metrics.labelValues x) (Metrics.reading m (Metrics.labelValues x)))
    (Metrics.sort_samples (map_to_list (Metrics.series m)).*2)) as H.
  { rewrite Metrics.sort_samples_perm, Forall_fmap, Forall_forall. intros [k x] Hin%elem_of_map_to_list. cbn.
    unfold Metrics.reading. rewrite <-(Metrics.mo_key _ Hm k x Hin), Hin. by destruct x. }
  induction H as [|x l Hx H IH]; [done|]. rewrite fmap_cons. f_equal; [exact Hx|exact IH].
Qed.

(** ** The invariant *)

(** An answer: not found, or the text of pages each of which is [page_ok]. *)
Definition scrape_ok (s0 : Server) (tk : list bytes) (x : scrape) : Prop :=
  (from x ≤ upto x ≤ length tk)%nat ∧
  if decide (path x = gs "/metrics") then
    ∃ pgs b, answer x = mkResponse 200 exposition b ∧ text (vectors (metrics s0)) pgs = Ret b ∧
      length pgs = length (vectors (metrics s0)) ∧
      ∀ p pg, pgs !! p = Some pg → page_ok s0 tk (from x) (upto x) p (Metrics.labelValues <$> pg) pg
  else answer x = not_found.

Lemma scrape_ok_later s0 tk tk' x : usable s0 → tk `prefix_of` tk' → scrape_ok s0 tk x → scrape_ok s0 tk' x.
Proof.
  intros H0 Hpre [Hx H]. split; [apply prefix_length in Hpre; lia|]. case_decide as Hd; [|done].
  destruct H as (pgs & b & H1 & H2 & H3 & H4). exists pgs, b. split_and!; try done. intros p pg Hp. eapply page_ok_later; eauto.
Qed.

(** A request during which no datagram was handled gets [Render] of the registry. *)
Lemma scrape_quiet s0 tk x :
  usable s0 → scrape_ok s0 tk x → path x = gs "/metrics" → from x = upto x →
  ∃ srv, handle_all s0 (take (from x) tk) = Ret srv ∧ Metrics.Render (metrics srv) = Ret (body (answer x)).
Proof.
  intros H0 [_ H] Hp Hq. rewrite decide_True in H by done. destruct H as (pgs & b & Ha & Ht & Hl & Hpg). rewrite <-Hq in Hpg.
  destruct (handle_all_usable s0 (take (from x) tk) H0) as (srv & Hs & Hu). exists srv. split; [done|]. rewrite Ha. cbn [body].
  destruct (handle_all_grew _ _ _ H0 Hs) as [Hsh _]. rewrite <-text_at_rest, (text_shape _ _ _ Hsh), <-Ht. f_equal.
  assert (length (vectors (metrics srv)) = length (vectors (metrics s0))) as Hlv by (apply (f_equal length) in Hsh; by rewrite !length_fmap in Hsh).
  apply list_eq_same_length with (n := length pgs); [done|by rewrite length_fmap; congruence|]. intros p y pg _ Hy Hpgp.
  apply list_lookup_fmap_Some in Hy as ([typ m] & -> & Hm). destruct (Hpg p pg Hpgp) as (P1 & P2 & P3 & P4).
  specialize (P2 _ Hs). specialize (P3 _ Hs). unfold labels_of in P2, P3. rewrite Hm in P2, P3.
  pose proof (Forall_lookup_1 _ _ _ _ (usable_vectors _ Hu) Hm) as Hok. cbn in Hok.
  rewrite (at_rest_figures typ m Hok), <-(sorted_labels_unique _ _ P1 (listed_sorted m Hok) P3 P2), <-list_fmap_compose.
  rewrite <-(list_fmap_id pg) at 2. apply list_fmap_ext. intros i z Hz. rewrite Forall_forall in P4.
  destruct (P4 z (list_elem_of_lookup_2 _ _ _ Hz)) as (k & srv' & Hk & Hs' & Hv). replace k with (from x) in Hs' by lia.
  rewrite Hs in Hs'. apply (inj Ret) in Hs' as <-. unfold figure in Hv. rewrite Hm in Hv. cbn. rewrite <-Hv. by destruct z.
Qed.

Record render_ok (s0 : Server) (s : state) (r : render) : Prop := {
  rk_began : (began r ≤ length (handled s))%nat;
  rk_length : (length (pages r) ≤ length (vectors (metrics s0)))%nat;
  rk_pages p pg : pages r !! p = Some pg → page_ok s0 (taken s) (began r) (length (taken s)) p (Metrics.labelValues <$> pg) pg;
  rk_current pg left : current r = Some (pg, left) → (length (pages r) < length (vectors (metrics s0)))%nat ∧
    page_ok s0 (taken s) (began r) (length (taken s)) (length (pages r)) ((Metrics.labelValues <$> pg) ++ left) pg
}.

Lemma handled_taken s : (length (handled s) ≤ length (taken s))%nat.
Proof. unfold taken. destruct (reading s); rewrite ?length_app; lia. Qed.

Lemma render_ok_later s0 s s' r :
  usable s0 → (length (handled s) ≤ length (handled s'))%nat → taken s `prefix_of` taken s' → render_ok s0 s r → render_ok s0 s' r.
Proof.
  intros H0 Hh Hpre [R1 R2 R3 R4]. pose proof (handled_taken s). pose proof (prefix_length _ _ Hpre). split; [lia|done|..].
  - intros p pg Hp. eapply page_ok_later; [done| | |done|by apply R3]; lia.
  - intros pg left Hc. destruct (R4 pg left Hc) as [Hlt Hpg]. split; [done|]. eapply page_ok_later; [done| | |done|done]; lia.
Qed.

Record inv (s0 : Server) (s : state) : Prop := {
  inv_usable : usable s0;
  inv_at : at_datagram s0 s;
  inv_count : processed s = u64 (Z.of_nat (length (handled s)));
  inv_cancelled : closing s ≠ CloserWaits → cancelled s = true;
  inv_conn : closing s = CloserDone → conn_closed s = true;
  inv_summaries : Z.of_nat (length (handled s)) < 2 ^ 64 → Z.of_nat (length (summaries s)) = Z.of_nat (length (handled s)) / summaryEvery;
  inv_render r : rendering s = Some r → render_ok s0 s r;
  inv_scrapes : Forall (scrape_ok s0 (taken s)) (scrapes s)
}.

(** A step of anything but the renderer. *)
Lemma inv_step s0 s s' :
  inv s0 s → at_datagram s0 s' → (length (handled s) ≤ length (handled s'))%nat → taken s `prefix_of` taken s' →
  processed s' = u64 (Z.of_nat (length (handled s'))) →
  (Z.of_nat (length (handled s')) < 2 ^ 64 → Z.of_nat (length (summaries s')) = Z.of_nat (length (handled s')) / summaryEvery) →
  (closing s' ≠ CloserWaits → cancelled s' = true) → (closing s' = CloserDone → conn_closed s' = true) →
  rendering s' = rendering s → scrapes s' = scrapes s → inv s0 s'.
Proof.
  intros [I1 _ _ _ _ _ I7 I8] Hat Hh Hpre Hp Hs Hc Hd Er Es. split; try done.
  - intros r Hr. rewrite Er in Hr. by apply (render_ok_later s0 s s'), I7.
  - rewrite Es. eapply Forall_impl; [exact I8|]. intros x. by apply scrape_ok_later.
Qed.

(** Such a step that leaves the reader's datagram alone. *)
Lemma inv_kept s0 s s' :
  inv s0 s → (match reading s with Counting _ _ => reading s' = reading s | _ => ∀ d us, reading s' ≠ Counting d us end) →
  server s' = server s → handled s' = handled s → processed s' = processed s → summaries s' = summaries s →
  rendering s' = rendering s → scrapes s' = scrapes s →
  (closing s' ≠ CloserWaits → cancelled s' = true) → (closing s' = CloserDone → conn_closed s' = true) → inv s0 s'.
Proof.
  intros Hi Hr E1 E2 E3 E4 E5 E6 H1 H2. destruct (Hi) as [_ I2 I3 _ _ I6 _ _].
  eapply inv_step; [exact Hi| | | | | | | | |]; rewrite ?E2, ?E3, ?E4; try done.
  - unfold at_datagram in *. rewrite E1, E2. destruct (reading s); try (destruct (reading s'); naive_solver).
  - unfold taken. rewrite E2. destruct (reading s); try (destruct (reading s'); naive_solver).
Qed.

Lemma probe_iterate_spec s0 s d :
  inv s0 s → reading s = Counting d [] →
  ∃ s', iterate d s = [s'] ∧ inv s0 s' ∧ reading s' = Reading ∧ inbox s' = inbox s ∧ closing s' = closing s ∧ site s' = site s.
Proof.
  intros Hi Hr. unfold iterate. rewrite gmod_pos by (apply u64_range || done). eexists. split; [done|]. split; [|done].
  destruct (Hi) as [I1 I2 I3 I4 I5 I6 _ _].
  eapply inv_step; [exact Hi| | | | | | | | |]; unfold taken; cbn [reading server handled processed closing cancelled conn_closed scrapes summaries rendering]; try done.
  - unfold at_datagram in I2. rewrite Hr in I2. destruct I2 as (b & b1 & us0 & Hb & Hbegin & Hus). rewrite app_nil_r in Hbegin.
    unfold at_datagram. cbn [reading server handled]. rewrite handle_all_app, Hb. mstep. cbn [handle_all].
    pose proof (Handle_steps b (take maxDatagram d)) as E. rewrite Hbegin in E. autorewrite with gomonad in E. rewrite Hus in E.
    destruct (Handle b (take maxDatagram d)) as [[x r]|]; autorewrite with gomonad in E; mstep; done.
  - rewrite length_app. lia.
  - by rewrite Hr.
  - rewrite length_app, I3. unfold u64. rewrite Zplus_mod_idemp_l. f_equal. cbn [length]. lia.
  - intros Hlt. rewrite !length_app in *. cbn [length] in *. rewrite I3. rewrite (u64_small (Z.of_nat (length (handled s)))) by (unfold is_u64; lia).
    rewrite u64_small by (unfold is_u64; lia). rewrite Nat2Z.inj_add, I6 by lia. unfold summaryEvery.
    destruct (Z.eqb_spec ((Z.of_nat (length (handled s)) + 1) mod 1000) 0); cbn [length]; Z.to_euclidean_division_equations; lia.
Qed.

(** Between two datagrams the server is the sequential one. *)
Lemma at_rest_server s0 s : at_datagram s0 s → (∀ d us, reading s ≠ Counting d us) → handle_all s0 (handled s) = Ret (server s).
Proof. unfold at_datagram. destruct (reading s); naive_solver. Qed.

Lemma begin_spec s0 s d :
  inv s0 s → reading s = Handling d →
  ∃ srv us, begin_handle (server s) (take maxDatagram d) = Ret (srv, us) ∧ (length us ≤ 5)%nat ∧ inv s0 (set_server (Counting d us) srv s).
Proof.
  intros Hi Hr. destruct (Hi) as [I1 I2 I3 I4 I5 I6 _ _]. assert (handle_all s0 (handled s) = Ret (server s)) as Hs.
  { apply at_rest_server; [done|]. by rewrite Hr. }
  destruct (handle_all_usable s0 (handled s) I1) as (x & E & Hx). rewrite Hs in E. apply (inj Ret) in E as <-.
  destruct (Handle_usable (server s) (take maxDatagram d) Hx) as (s' & r & HH & _). pose proof (Handle_steps (server s) (take maxDatagram d)) as E.
  rewrite HH in E. destruct (begin_handle (server s) (take maxDatagram d)) as [[srv us]|] eqn:Eb; autorewrite with gomonad in E; [|done].
  exists srv, us. split; [done|]. split.
  { apply begin_handle_shape in Eb as (_ & H & _); [done|]. destruct Hx as (cap & q & Hok & _). by rewrite (so_packets _ _ _ Hok), (so_rejects _ _ _ Hok). }
  eapply inv_step; [exact Hi| | | | | | | | |]; try done.
  - unfold at_datagram. cbn [set_server reading handled server]. by exists (server s), srv, [].
  - unfold taken. rewrite Hr. cbn. by exists [d].
Qed.

Lemma update_spec s0 s d u us :
  inv s0 s → reading s = Counting d (u :: us) →
  ∃ srv, apply_update u (server s) = Ret srv ∧ inv s0 (set_server (Counting d us) srv s).
Proof.
  intros Hi Hr. destruct (Hi) as [I1 I2 I3 I4 I5 I6 _ _]. unfold at_datagram in I2. rewrite Hr in I2.
  destruct I2 as (b & b1 & us0 & Hb & Hbegin & Hus).
  destruct (handle_all_usable s0 (handled s) I1) as (x & E & Hx). rewrite Hb in E. apply (inj Ret) in E as <-.
  destruct (Handle_usable b (take maxDatagram d) Hx) as (s' & r & HH & _). pose proof (Handle_steps b (take maxDatagram d)) as E.
  rewrite HH, Hbegin in E. autorewrite with gomonad in E. rewrite apply_all_app, Hus in E. autorewrite with gomonad in E. cbn [apply_all] in E.
  destruct (apply_update u (server s)) as [srv|] eqn:Eu; autorewrite with gomonad in E; [|done]. exists srv. split; [done|].
  eapply inv_step; [exact Hi| | | | | | | | |]; try done.
  - unfold at_datagram. cbn [set_server reading handled server]. exists b, b1, (us0 ++ [u]). split; [done|]. split; [by rewrite <-app_assoc|].
    rewrite apply_all_app, Hus. mstep. cbn [apply_all]. rewrite Eu. by mstep.
  - unfold taken. by rewrite Hr.
Qed.

(** ** The renderer *)

Lemma now_shape s0 s : inv s0 s → shape <$> vectors (metrics (server s)) = shape <$> vectors (metrics s0).
Proof.
  intros Hi. destruct (now_between s0 s (inv_usable _ _ Hi) (inv_at _ _ Hi)) as (lo & hi & Hlo & _ & _ & [E _] & _).
  destruct (handle_all_grew _ _ _ (inv_usable _ _ Hi) Hlo) as [E' _]. congruence.
Qed.

Lemma now_vectors s0 s : inv s0 s → length (vectors (metrics (server s))) = length (vectors (metrics s0)).
Proof. intros Hi%now_shape%(f_equal length). by rewrite !length_fmap in Hi. Qed.

Lemma inv_set_render s0 s n r xs :
  inv s0 s → (∀ r', r = Some r' → render_ok s0 s r') → Forall (scrape_ok s0 (taken s)) xs → inv s0 (set_render n r xs s).
Proof.
  intros [I1 I2 I3 I4 I5 I6 I7 I8] Hr Hx. split; try done.
  - intros r' Hr'. apply (render_ok_later s0 s); [done..|]. by apply Hr.
  - cbn [set_render scrapes]. by apply Forall_app.
Qed.

(** The text of a page can be written. *)
Lemma page_arity s0 tk b p pg typ m :
  usable s0 → page_ok s0 tk b (length tk) p (Metrics.labelValues <$> pg) pg → vectors (metrics s0) !! p = Some (typ, m) →
  Forall (λ x, length (Metrics.labelValues x) = length (Metrics.labelNames m)) pg.
Proof.
  intros H0 (_ & _ & H3 & _) Hp. destruct (handle_all_usable s0 (take (length tk) tk) H0) as (srv & Hs & Hu). specialize (H3 _ Hs).
  destruct (handle_all_grew _ _ _ H0 Hs) as [Hsh _]. apply (f_equal (lookup p)) in Hsh. rewrite !list_lookup_fmap, Hp in Hsh.
  destruct (vectors (metrics srv) !! p) as [[typ' m']|] eqn:Ep; [|done]. injection Hsh as _ _ _ Hn.
  pose proof (Forall_lookup_1 _ _ _ _ (usable_vectors _ Hu) Ep) as Hok. cbn in Hok. unfold labels_of in H3. rewrite Ep in H3.
  apply Forall_forall. intros x Hx. assert (Metrics.labelValues x ∈ listed m') as (k & y & Hk & <-)%elem_of_listed.
  { apply H3, list_elem_of_fmap. by exists x. }
  rewrite <-Hn. by eapply (Metrics.mo_arity _ Hok).
Qed.

(** The steps a rendering still has, if the registry stays as it is. *)
Definition vectors_left (r : Metrics.Registry) (i : nat) : nat :=
  sum_list ((λ x, 2 + length (listed x.2))%nat <$> drop i (vectors r)).
Definition render_left (reg : Metrics.Registry) (r : option render) : nat :=
  match r with
  | None => 0
  | Some r =>
      S match current r with
        | None => vectors_left reg (length (pages r))
        | Some (_, xs) => S (length xs) + vectors_left reg (S (length (pages r)))
        end
  end.

Lemma vectors_left_S r i typ m : vectors r !! i = Some (typ, m) → vectors_left r i = (2 + length (listed m) + vectors_left r (S i))%nat.
Proof. intros H. unfold vectors_left. by rewrite (drop_S _ _ _ H). Qed.

Lemma render_spec s0 s r :
  inv s0 s → rendering s = Some r →
  ∃ r' xs, render_moves s = [set_render (waiting s) r' xs s] ∧ inv s0 (set_render (waiting s) r' xs s) ∧
    (render_left (metrics (server s)) r' < render_left (metrics (server s)) (Some r))%nat.
Proof.
  intros Hi Hr. pose proof (inv_usable _ _ Hi) as H0. pose proof (inv_at _ _ Hi) as Hat. pose proof (inv_render _ _ Hi r Hr) as [R1 R2 R3 R4].
  pose proof (handled_taken s) as Hht. pose proof (now_vectors _ _ Hi) as Hlen. unfold render_moves. rewrite Hr. cbn [render_left].
  destruct (current r) as [[pg [|x xs]]|] eqn:Hc.
  - destruct (R4 pg [] eq_refl) as [Hlt Hpg]. rewrite app_nil_r in Hpg.
    exists (Some (mkRender (began r) (pages r ++ [pg]) None)), []. split; [by destruct (vectors (metrics (server s)) !! length (pages r)) as [[typ m]|]|].
    split; [|cbn [render_left current pages]; rewrite length_app; cbn [length]; rewrite Nat.add_1_r; lia].
    apply inv_set_render; [done| |done]. intros r' [= <-]. split; cbn [began pages current]; [done|rewrite length_app; cbn [length]; lia| |done].
    intros p pg' [Hp|[Hle Hp]]%lookup_app_Some; [by apply R3|].
    apply list_lookup_singleton_Some in Hp as [Hp <-]. by replace p with (length (pages r)) by lia.
  - destruct (R4 pg (x :: xs) eq_refl) as [Hlt Hpg]. destruct (lookup_lt_is_Some_2 (vectors (metrics (server s))) (length (pages r))) as [[typ m] Hm]; [lia|].
    rewrite Hm. eexists _, []. split; [done|]. split; [|cbn; lia].
    apply inv_set_render; [done| |done]. intros r' [= <-]. split; cbn [began pages current]; try done.
    intros pg' ys [= <- <-]. split; [done|]. by eapply page_loaded.
  - destruct (vectors (metrics (server s)) !! length (pages r)) as [[typ m]|] eqn:Hm.
    + eexists _, []. split; [done|]. split; [|cbn [render_left current pages]; rewrite (vectors_left_S _ _ _ _ Hm); lia].
      apply inv_set_render; [done| |done]. intros r' [= <-]. split; cbn [began pages current]; try done.
      intros pg' ys [= <- <-]. split; [rewrite <-Hlen; by eapply lookup_lt_Some|]. by eapply page_collected.
    + apply lookup_ge_None in Hm. rewrite (text_shape _ _ _ (now_shape _ _ Hi)).
      destruct (text_total (vectors (metrics s0)) (pages r)) as [b Hb].
      { intros p pg typ m Hp Hv. eapply page_arity; [done|by apply R3|done]. }
      rewrite Hb. eexists None, _. split; [done|]. split; [|cbn; lia]. apply inv_set_render; [done|done|]. constructor; [|done].
      split; [cbn; lia|]. rewrite decide_True by done. exists (pages r), b. split_and!; try done. lia.
Qed.

(** ** Every step *)

Lemma probe_moves_inv s0 s s' : inv s0 s → s' ∈ moves s → inv s0 s'.
Proof.
  intros Hi. pose proof (inv_cancelled _ _ Hi) as I4. pose proof (inv_conn _ _ Hi) as I5.
  unfold moves. rewrite !elem_of_app. intros [Hm|[Hm|[Hm|Hm]]].
  - unfold closer_moves in Hm. destruct (closing s) eqn:Ec; [destruct (cancelled s) eqn:E| |];
      first [by apply elem_of_nil in Hm|apply list_elem_of_singleton in Hm as ->]; eapply inv_kept; cbn; try done; auto; by destruct (reading s).
  - unfold reader_moves in Hm. destruct (reading s) as [|d|d [|u us]|r] eqn:Er.
    + destruct (conn_closed s) eqn:E; [|destruct (inbox s)];
        first [by apply elem_of_nil in Hm|apply list_elem_of_singleton in Hm as ->]; eapply inv_kept; cbn; rewrite ?Er, ?E; try done; auto.
    + destruct (begin_spec s0 s d Hi Er) as (srv & us & E & _ & Hi'). rewrite E in Hm. by apply list_elem_of_singleton in Hm as ->.
    + destruct (probe_iterate_spec s0 s d Hi Er) as (s1 & E & Hi1 & _). rewrite E in Hm. by apply list_elem_of_singleton in Hm as ->.
    + destruct (update_spec s0 s d u us Hi Er) as (srv & E & Hi'). rewrite E in Hm. by apply list_elem_of_singleton in Hm as ->.
    + by apply elem_of_nil in Hm.
  - unfold web_moves in Hm. destruct (site s); [|destruct (cancelled s) eqn:E| | |];
      first [by apply elem_of_nil in Hm|apply list_elem_of_singleton in Hm as ->]; eapply inv_kept; cbn; rewrite ?E; try done; by destruct (reading s).
  - destruct (rendering s) as [r|] eqn:Er.
    + destruct (render_spec s0 s r Hi Er) as (r' & xs & E & Hi' & _). rewrite E in Hm. by apply list_elem_of_singleton in Hm as ->.
    + unfold render_moves in Hm. rewrite Er in Hm. destruct (waiting s); [by apply elem_of_nil in Hm|]. apply list_elem_of_singleton in Hm as ->.
      apply inv_set_render; [done| |done]. intros r' [= <-]. split; cbn [began pages current length]; [done|lia| |done]. by intros p pg Hp.
Qed.

Lemma probe_world_inv s0 s s' : inv s0 s → world s s' → inv s0 s'.
Proof.
  intros Hi Hw. pose proof (inv_cancelled _ _ Hi) as I4. pose proof (inv_conn _ _ Hi) as I5.
  destruct Hw as [s|s d|s Hr|s Hr|s p Hr]; try (eapply inv_kept; cbn; try done; by destruct (reading s)).
  unfold request. case_decide as Hp; (apply inv_set_render; [done|apply Hi|]); [done|]. constructor; [|done].
  split; [cbn; pose proof (handled_taken s); lia|]. by rewrite decide_False.
Qed.

Lemma probe_start_inv cap s0 addr : 0 < cap ≤ 2 ^ 62 → NewServer cap = Ok s0 → inv s0 (start s0 addr).
Proof.
  intros Hc Hn. apply NewServer_ok in Hn as (Hok & Hu & _); [|done]. split; cbn; try done. by eexists _, _.
Qed.

Lemma probe_reach_inv cap s0 addr s :
  0 < cap ≤ 2 ^ 62 → NewServer cap = Ok s0 → rtc tick (start s0 addr) s → inv s0 s.
Proof.
  intros Hc Hn. revert s. apply rtc_ind_r; [by eapply probe_start_inv|].
  intros s s' _ [Hm|Hw] IH; [by eapply probe_moves_inv|by eapply probe_world_inv].
Qed.

(** ** Termination *)

Definition closer_left (c : closer) : nat := match c with CloserWaits => 2 | CloserConn => 1 | CloserDone => 0 end.
Definition reader_left (r : reader) : nat := match r with Handling _ => 8 | Counting _ us => 2 + length us | Reading => 1 | Returned _ => 0 end.
Definition web_left (w : web) : nat := match w with WebServing => 2 | WebShut => 1 | _ => 0 end.

(** The steps without the renderer's, and the renderer's while none of those is taken. *)
Definition steps_left (s : state) : nat :=
  closer_left (closing s) + (8 * length (inbox s) + reader_left (reading s)) + web_left (site s).
Definition renders_left (s : state) : nat :=
  render_left (metrics (server s)) (rendering s) + waiting s * (2 + vectors_left (metrics (server s)) 0).

Lemma probe_moves_decrease s0 s s' :
  inv s0 s → s' ∈ moves s → (steps_left s' < steps_left s ∨ steps_left s' = steps_left s ∧ renders_left s' < renders_left s)%nat.
Proof.
  intros Hi. unfold moves, steps_left. rewrite !elem_of_app. intros [Hm|[Hm|[Hm|Hm]]].
  - left. unfold closer_moves in Hm. destruct (closing s); [destruct (cancelled s)| |];
      first [by apply elem_of_nil in Hm|apply list_elem_of_singleton in Hm as ->]; cbn; lia.
  - left. unfold reader_moves in Hm. destruct (reading s) as [|d|d [|u us]|r] eqn:Er.
    + destruct (conn_closed s); [|destruct (inbox s) eqn:E]; first [by apply elem_of_nil in Hm|apply list_elem_of_singleton in Hm as ->; cbn; lia].
    + destruct (begin_spec s0 s d Hi Er) as (srv & us & E & Hus & _). rewrite E in Hm. apply list_elem_of_singleton in Hm as ->. cbn. lia.
    + destruct (probe_iterate_spec s0 s d Hi Er) as (s1 & E & _ & Hr & Hb & Hcl & Hw). rewrite E in Hm. apply list_elem_of_singleton in Hm as ->.
      rewrite Hr, Hb, Hcl, Hw. cbn. lia.
    + destruct (update_spec s0 s d u us Hi Er) as (srv & E & _). rewrite E in Hm. apply list_elem_of_singleton in Hm as ->. cbn. lia.
    + by apply elem_of_nil in Hm.
  - left. unfold web_moves in Hm. destruct (site s); [|destruct (cancelled s)| | |];
      first [by apply elem_of_nil in Hm|apply list_elem_of_singleton in Hm as ->]; cbn; lia.
  - right. unfold renders_left. destruct (rendering s) as [r|] eqn:Er.
    + destruct (render_spec s0 s r Hi Er) as (r' & xs & E & _ & Hlt). rewrite E in Hm. apply list_elem_of_singleton in Hm as ->.
      split; [done|]. cbn [set_render server rendering waiting]. lia.
    + unfold render_moves in Hm. rewrite Er in Hm. destruct (waiting s) as [|n] eqn:Ew; [by apply elem_of_nil in Hm|].
      apply list_elem_of_singleton in Hm as ->. split; [done|]. cbn [set_render server rendering waiting render_left current pages length]. lia.
Qed.

(** The goroutines' own steps end. *)
Lemma probe_moves_end s0 s : inv s0 s → Acc (λ s2 s1, s2 ∈ moves s1) s.
Proof.
  remember (steps_left s) as n eqn:En. revert s En. induction (lt_wf n) as [n _ IHn]. intros s En.
  remember (renders_left s) as k eqn:Ek. revert s En Ek. induction (lt_wf k) as [k _ IHk]. intros s -> -> Hi.
  constructor. intros s' Hm. pose proof (probe_moves_inv s0 s s' Hi Hm) as Hi'.
  destruct (probe_moves_decrease s0 s s' Hi Hm) as [Hlt|[E Hlt]]; [by eapply IHn|by eapply IHk].
Qed.

(** [Serve] has returned, its socket is closed, and the endpoint is down. *)
Definition ended (s : state) : Prop :=
  closing s = CloserDone ∧ conn_closed s = true ∧ (∃ r, reading s = Returned r) ∧ site s ≠ WebServing ∧ site s ≠ WebShut.

Lemma probe_stuck_ended s0 s : inv s0 s → cancelled s = true → moves s = [] → ended s.
Proof.
  intros Hi Hc Hm. unfold moves in Hm. apply app_eq_nil in Hm as [Hcm [Hrm [Hwm _]%app_eq_nil]%app_eq_nil].
  assert (closing s = CloserDone) as Hd by (unfold closer_moves in Hcm; destruct (closing s); [by rewrite Hc in Hcm|done|done]).
  pose proof (inv_conn _ _ Hi Hd) as Hcc. split; [done|]. split; [done|]. split.
  - unfold reader_moves in Hrm. rewrite Hcc in Hrm. destruct (reading s) as [|d|d [|u us]|r] eqn:Er; [done| | | |by eexists].
    + destruct (begin_spec s0 s d Hi Er) as (srv & us & E & _). by rewrite E in Hrm.
    + destruct (probe_iterate_spec s0 s d Hi Er) as (s1 & E & _). by rewrite E in Hrm.
    + destruct (update_spec s0 s d u us Hi Er) as (srv & E & _). by rewrite E in Hrm.
  - unfold web_moves in Hwm. rewrite Hc in Hwm. by destruct (site s).
Qed.

(** Every request has been answered. *)
Lemma probe_stuck_answered s0 s : inv s0 s → moves s = [] → waiting s = 0%nat ∧ rendering s = None.
Proof.
  intros Hi Hm. unfold moves in Hm. apply app_eq_nil in Hm as [_ [_ [_ Hm]%app_eq_nil]%app_eq_nil].
  destruct (rendering s) as [r|] eqn:Er; [destruct (render_spec s0 s r Hi Er) as (? & ? & E & _); by rewrite E in Hm|].
  unfold render_moves in Hm. rewrite Er in Hm. by destruct (waiting s).
Qed.

(** ** Properties *)

(** C33: The probe gateway's process.  In every interleaving of the reader's single
    accesses, the closer, the metrics handlers' single reads, arriving datagrams, read
    errors, requests and the cancellation: between two datagrams the server is the one
    that handled them one after the other; a request to another path than "/metrics"
    is not found; an answer of "/metrics" has each vector's header and then lines sorted by
    their labels, with every series there was when rendering began and none there was
    not when it ended, and each figure is that of its series after some number of
    datagrams between those handled at the beginning and those taken up by the end (not
    the same number for every figure: a datagram can show in one vector and not yet in
    another); if no datagram was handled meanwhile the answer is [Render] of the
    registry; there is one summary line per thousand datagrams; the goroutines' own
    steps end; once none is left every request has been answered, and if the context is
    cancelled, [Serve] has returned, the socket is closed and the endpoint is down. *)
Theorem probe_process (cap : Z) (s0 : Server) (metricsAddr : bytes) (s : state) :
  0 < cap ≤ 2 ^ 62 → NewServer cap = Ok s0 → rtc tick (start s0 metricsAddr) s →
  ((∀ d us, reading s ≠ Counting d us) → handle_all s0 (handled s) = Ret (server s)) ∧
  Forall (scrape_ok s0 (taken s)) (scrapes s) ∧
  Forall (λ x, path x = gs "/metrics" → from x = upto x →
    ∃ srv, handle_all s0 (take (from x) (taken s)) = Ret srv ∧ Metrics.Render (metrics srv) = Ret (body (answer x))) (scrapes s) ∧
  (Z.of_nat (length (handled s)) < 2 ^ 64 → Z.of_nat (length (summaries s)) = Z.of_nat (length (handled s)) / 1000) ∧
  Acc (λ s2 s1, s2 ∈ moves s1) s ∧
  (moves s = [] → waiting s = 0%nat ∧ rendering s = None ∧ (cancelled s = true → ended s)).
Proof.
  intros Hc Hn Hr. pose proof (probe_reach_inv cap s0 metricsAddr s Hc Hn Hr) as Hi. split; [apply at_rest_server, Hi|].
  split; [apply Hi|]. split.
  { eapply Forall_impl; [apply (inv_scrapes _ _ Hi)|]. intros x Hx. apply scrape_quiet; [apply Hi|done]. }
  split; [apply Hi|]. split; [by eapply probe_moves_end|]. intros Hm. destruct (probe_stuck_answered s0 s Hi Hm) as [H1 H2].
  split; [done|]. split; [done|]. intros Hcan. by eapply probe_stuck_ended.
Qed.

Module Witness.

(** The goroutines take the steps named by their positions in [moves]. *)
Fixpoint picks (ks : list nat) (s : state) : state :=
  match ks with [] => s | i :: ks => picks ks (default s (moves s !! i)) end.

Lemma picks_reached ks s : rtc tick s (picks ks s).
Proof.
  revert s. induction ks as [|i ks IH]; intros s; [apply rtc_refl|]. cbn [picks]. destruct (moves s !! i) as [s'|] eqn:E; [|apply IH].
  eapply rtc_l; [left; by eapply list_elem_of_lookup_2|apply IH].
Qed.

(** A datagram that is no probe, and a request rendered between its two counters. *)
Definition s1 : state := set_reading Reading [gs "CVPR"] (start server1 (gs ":9100")).
Definition s2 : state := request (gs "/metrics") s1.
Definition s3 : state := picks [0; 0; 0; 0; 0; 1; 1; 1; 1; 1; 1; 1]%nat s2.
Definition s4 : state := picks [0; 0; 0]%nat s3.

Lemma s4_reached : rtc tick (start server1 (gs ":9100")) s4.
Proof.
  eapply (rtc_l _ _ s1); [right; exact (WDatagram (start server1 (gs ":9100")) (gs "CVPR"))|].
  eapply (rtc_l _ _ s2); [right; exact (WRequest s1 (gs "/metrics") eq_refl)|].
  etrans; [exact (picks_reached [0; 0; 0; 0; 0; 1; 1; 1; 1; 1; 1; 1]%nat s2 : rtc tick s2 s3)|exact (picks_reached [0; 0; 0]%nat s3 : rtc tick s3 s4)].
Qed.

(** The answer shows the datagram as handled, and no reason yet. *)
Definition half_counted : bytes :=
  gs "# HELP gemina_packets_total Probe datagrams handled, by decision and path." ++ [z2b 10] ++
  gs "# TYPE gemina_packets_total counter" ++ [z2b 10] ++
  gs "gemina_packets_total{decision=" ++ [z2b 34] ++ gs "rejected" ++ [z2b 34] ++ gs ",path=" ++ [z2b 34] ++ gs "unknown" ++ [z2b 34] ++
  gs "} 1" ++ [z2b 10] ++
  gs "# HELP gemina_rejected_total Datagrams rejected before dedup, by reason." ++ [z2b 10] ++
  gs "# TYPE gemina_rejected_total counter" ++ [z2b 10].

Lemma s4_values :
  scrapes s4 = [mkScrape (gs "/metrics") 0 1 (mkResponse 200 exposition half_counted)] ∧ handled s4 = [gs "CVPR"] ∧ reading s4 = Reading.
Proof. split; [|split]; vm_compute; reflexivity. Qed.

Lemma probe_process_witness :
  handle_all server1 [gs "CVPR"] = Ret (server s4) ∧ scrapes s4 = [mkScrape (gs "/metrics") 0 1 (mkResponse 200 exposition half_counted)].
Proof.
  destruct s4_values as (Hs & Hh & Hr).
  destruct (probe_process 4 server1 (gs ":9100") s4) as (H & _); [lia|reflexivity|exact s4_reached|].
  split; [|exact Hs]. rewrite <-Hh. apply H. intros d us. rewrite Hr. discriminate.
Defined.

End Witness.

End ProbeProcess.
