(* ===== verification/Gateway.v ===== *)
(** * internal/gateway: admission, the data plane and the data gateway

    admission.go ([SessionStore], [Admitter]), dataplane.go ([DataPlane]) and
    datagateway.go ([DataGateway], [HandleDatagram], the read loop of [Serve]).
    The session store is shared by the admitter and the data plane; here it is
    one field of the gateway that both read and write.  Bytes from crypto/rand,
    the clock and the answers of the TUN device and the socket are arguments. *)

From S2P Require Import Prelude GoText GoTime Protocol ReplayWindow Wire Crypto Session Handshake.
From S2P Require Import Netip Allocator PathSet Router Entitlement Metrics.
Import Protocol Wire Session Handshake GoTime Netip.

Module Gateway.

Inductive error :=
| ErrCore (e : Wire.error)
| ErrEntitlement (e : Entitlement.error)
| ErrSessionReused | ErrLeaseFailed | ErrUnknownSession.
#[global] Instance error_eq_dec : EqDecision error.
Proof. solve_decision. Defined.

Definition lift {A} (r : result Wire.error A) : result error A :=
  match r with Ok a => Ok a | Err e => Err (ErrCore e) end.

(** ** admission.go: SessionStore *)

Record SessionStore := mkStore { keys : gmap SessionID bytes }.

Definition NewSessionStore : SessionStore := mkStore ∅.
Definition SessionKey (s : SessionStore) (id : SessionID) : option bytes := keys s !! id.

Definition register (s : SessionStore) (id : SessionID) (key : bytes) : SessionStore * bool :=
  match keys s !! id with
  | Some _ => (s, false)
  | None => (mkStore (<[id := key]> (keys s)), true)
  end.

Definition StoreForget (s : SessionStore) (id : SessionID) : SessionStore := mkStore (delete id (keys s)).
Definition store_len (s : SessionStore) : Z := Z.of_nat (size (keys s)).

(** ** dataplane.go *)

Record DataPlane := mkDataPlane { capacity : Z; sessions : gmap SessionID Session }.

Definition NewDataPlane (dedupCapacity : Z) : DataPlane := mkDataPlane dedupCapacity ∅.

Definition set_session (d : DataPlane) (id : SessionID) (s : Session) : DataPlane :=
  mkDataPlane (capacity d) (<[id := s]> (sessions d)).

Definition sessionFor (store : SessionStore) (d : DataPlane) (id : SessionID)
  : go (DataPlane * result error Session) :=
  match sessions d !! id with
  | Some s => Ret (d, Ok s)
  | None =>
      match SessionKey store id with
      | None => Ret (d, Err ErrUnknownSession)
      | Some key =>
          s ← NewSession id key RoleResponder (capacity d);
          match s with
          | Err e => Ret (d, Err (ErrCore e))
          | Ok s => Ret (set_session d id s, Ok s)
          end
      end
  end.

(** [Forget] of the data plane: the store can forget keys, so it does. *)
Definition Forget (store : SessionStore) (d : DataPlane) (id : SessionID) : SessionStore * DataPlane :=
  (StoreForget store id, mkDataPlane (capacity d) (delete id (sessions d))).

(** ** datagateway.go: state *)

Record DataRecord := mkDataRecord {
  Kind : string;
  WasAdmitted : bool;
  Deliver : bool;
  Payload : bytes;
  RSession : SessionID;
  TunnelIP : Addr
}.
Definition plain_record (kind : string) : DataRecord :=
  mkDataRecord kind false false [] zeroSession AddrZero.

Section gateway.
Context `{CA : AEAD, CX : X25519, CK : HKDF, CE : Ed25519, CM : HMAC} {P : Type}.

(** [service] and [tolerance] are the admitter's; the router's [Lease] is the
    admitter's leaser when the exit path is on. *)
Record DataGateway := mkGateway {
  identityPriv : bytes;
  service : Entitlement.Service P;
  tolerance : Z;
  store : SessionStore;
  dataPlane : DataPlane;
  exit : option Router.Router;
  metrics : Metrics.Registry;
  handshakes : nat; dataPackets : nat; activeSession : nat;
  exitForwarded : nat; exitForwardedBytes : nat;
  exitReturned : nat; exitReturnedBytes : nat; exitDropped : nat
}.

Definition set_store (g : DataGateway) (st : SessionStore) : DataGateway :=
  mkGateway (identityPriv g) (service g) (tolerance g) st (dataPlane g) (exit g) (metrics g)
    (handshakes g) (dataPackets g) (activeSession g) (exitForwarded g) (exitForwardedBytes g)
    (exitReturned g) (exitReturnedBytes g) (exitDropped g).
Definition set_plane (g : DataGateway) (d : DataPlane) : DataGateway :=
  mkGateway (identityPriv g) (service g) (tolerance g) (store g) d (exit g) (metrics g)
    (handshakes g) (dataPackets g) (activeSession g) (exitForwarded g) (exitForwardedBytes g)
    (exitReturned g) (exitReturnedBytes g) (exitDropped g).
Definition set_exit (g : DataGateway) (r : option Router.Router) : DataGateway :=
  mkGateway (identityPriv g) (service g) (tolerance g) (store g) (dataPlane g) r (metrics g)
    (handshakes g) (dataPackets g) (activeSession g) (exitForwarded g) (exitForwardedBytes g)
    (exitReturned g) (exitReturnedBytes g) (exitDropped g).
Definition set_metrics (g : DataGateway) (m : Metrics.Registry) : DataGateway :=
  mkGateway (identityPriv g) (service g) (tolerance g) (store g) (dataPlane g) (exit g) m
    (handshakes g) (dataPackets g) (activeSession g) (exitForwarded g) (exitForwardedBytes g)
    (exitReturned g) (exitReturnedBytes g) (exitDropped g).

Definition NewDataGateway (priv : bytes) (svc : Entitlement.Service P) (dedupCapacity : Z) : DataGateway :=
  let reg := Metrics.NewRegistry in
  let '(reg, h0) := Metrics.Counter reg "gemina_handshakes_total" "Handshakes by result." ["result"]%string in
  let '(reg, h1) := Metrics.Counter reg "gemina_data_packets_total" "Data datagrams by decision." ["decision"]%string in
  let '(reg, g0) := Metrics.Gauge reg "gemina_active_sessions" "Sessions currently admitted on the gateway." [] in
  let '(reg, h2) := Metrics.Counter reg "gemina_exit_forwarded_total" "Inner packets forwarded to the internet." [] in
  let '(reg, h3) := Metrics.Counter reg "gemina_exit_forwarded_bytes_total" "Inner bytes forwarded to the internet." [] in
  let '(reg, h4) := Metrics.Counter reg "gemina_exit_returned_total" "Return datagrams sent back to clients." [] in
  let '(reg, h5) := Metrics.Counter reg "gemina_exit_returned_bytes_total" "Return bytes sent back to clients." [] in
  let '(reg, h6) := Metrics.Counter reg "gemina_exit_dropped_total" "Exit-path drops by reason." ["reason"]%string in
  mkGateway priv svc DefaultHandshakeTolerance NewSessionStore (NewDataPlane dedupCapacity) None reg
    h0 h1 g0 h2 h3 h4 h5 h6.

Definition EnableExit (g : DataGateway) (r : Router.Router) : DataGateway := set_exit g (Some r).

(** ** The router's interfaces, implemented by the gateway *)

Definition inc (g : DataGateway) (h : nat) (labels : list string) : go DataGateway :=
  m ← Metrics.Inc (metrics g) h labels; Ret (set_metrics g m).
Definition add (g : DataGateway) (h : nat) (d : Z) : go DataGateway :=
  m ← Metrics.Add (metrics g) h d []; Ret (set_metrics g m).

#[export] Instance gateway_metrics : Router.Metrics DataGateway := {|
  Router.Forwarded n g := g ← inc g (exitForwarded g) []; add g (exitForwardedBytes g) n;
  Router.Dropped reason g := inc g (exitDropped g) [reason];
  Router.Returned n g := g ← inc g (exitReturned g) []; add g (exitReturnedBytes g) n
|}.

(** ** dataplane.go: operations *)

Definition HandleClassified (g : DataGateway) (datagram : bytes)
  : go (DataGateway * result error (bytes * Replay.ReplayDecision)) :=
  sid ← SessionIDFromDatagram datagram;
  match sid with
  | Err e => Ret (g, Err (ErrCore e))
  | Ok id =>
      '(d, s) ← sessionFor (store g) (dataPlane g) id;
      match s with
      | Err e => Ret (set_plane g d, Err e)
      | Ok s =>
          '(s, r) ← InboundClassified s datagram;
          Ret (set_plane g (set_session d id s), lift r)
      end
  end.

(** [Handle]: as [HandleClassified], with the decision reduced to whether the
    payload is a first copy. *)
Definition Handle (g : DataGateway) (datagram : bytes) : go (DataGateway * result error (bytes * bool)) :=
  sid ← SessionIDFromDatagram datagram;
  match sid with
  | Err e => Ret (g, Err (ErrCore e))
  | Ok id =>
      '(d, s) ← sessionFor (store g) (dataPlane g) id;
      match s with
      | Err e => Ret (set_plane g d, Err e)
      | Ok s =>
          '(s, r) ← Inbound s datagram;
          Ret (set_plane g (set_session d id s), lift r)
      end
  end.

Definition FrameReturn (g : DataGateway) (id : SessionID) (payload : bytes)
  : go (DataGateway * result error bytes) :=
  '(d, s) ← sessionFor (store g) (dataPlane g) id;
  match s with
  | Err e => Ret (set_plane g d, Err e)
  | Ok s =>
      '(s, r) ← Outbound s payload;
      Ret (set_plane g (set_session d id s), lift r)
  end.

#[export] Instance gateway_framer : Router.Framer DataGateway :=
  λ id payload g, '(g, r) ← FrameReturn g id payload;
    Ret (g, match r with Ok b => Some b | Err _ => None end).

(** ** admission.go: Admitter *)

Definition Admit (g : DataGateway) (token : bytes) (id : SessionID) (key : bytes) (now : Time)
  : DataGateway * result error Entitlement.Claims :=
  match Entitlement.Admit (service g) token now with
  | Err e => (g, Err (ErrEntitlement e))
  | Ok claims =>
      let '(st, free) := register (store g) id key in
      if negb free then (g, Err ErrSessionReused) else (set_store g st, Ok claims)
  end.

(** The lease of an admitted session: no address when the exit path is off. *)
Definition lease (g : DataGateway) (id : SessionID) : DataGateway * result error (option Addr) :=
  match exit g with
  | None => (g, Ok None)
  | Some r =>
      let '(r, a) := Router.Lease r id in
      let g := set_exit g (Some r) in
      match a with
      | Err _ => (g, Err ErrLeaseFailed)
      | Ok addr => if Is4 addr then (g, Ok (Some addr)) else (g, Err ErrLeaseFailed)
      end
  end.

(** [Admitter.Handshake]; [rkey] is the fresh gateway ephemeral private key. *)
Definition AdmitHandshake (g : DataGateway) (clientHello : bytes) (rkey : option bytes) (now : Time)
  : go (DataGateway * result error (bytes * Entitlement.Claims * SessionID * Addr)) :=
  h ← DecodeClientHello clientHello;
  match h with Err e => Ret (g, Err (ErrCore e)) | Ok h =>
  match CheckHandshakeFresh (ch_timestamp h) now (tolerance g) with Err e => Ret (g, Err (ErrCore e)) | Ok _ =>
  match GenerateKeyPair rkey with Err e => Ret (g, Err (ErrCore e)) | Ok (ephPriv, ephPub) =>
  match DeriveSessionKey ephPriv (ch_eph h) (ch_id h) with Err e => Ret (g, Err (ErrCore e)) | Ok key =>
  let '(g, a) := Admit g (ch_token h) (ch_id h) key now in
  match a with Err e => Ret (g, Err e) | Ok claims =>
  let '(g, l) := lease g (ch_id h) in
  match l with Err e => Ret (set_store g (StoreForget (store g) (ch_id h)), Err e) | Ok leased =>
  ip ← (match leased with Some addr => As4 addr | None => Ret zeroIPv4 end);
  sig ← SignHandshake (identityPriv g) ephPub (ch_id h);
  sh ← EncodeServerHello (ch_id h) ephPub sig ip;
  match sh with
  | Err e => Ret (set_store g (StoreForget (store g) (ch_id h)), Err (ErrCore e))
  | Ok sh => Ret (g, Ok (sh, claims, ch_id h, default AddrZero leased))
  end end end end end end end.

(** ** datagateway.go: the handlers *)

Definition handleHandshake (g : DataGateway) (datagram : bytes) (rkey : option bytes) (now : Time)
  : go (DataGateway * option bytes * DataRecord) :=
  '(g, r) ← AdmitHandshake g datagram rkey now;
  match r with
  | Err _ =>
      g ← inc g (handshakes g) ["rejected"%string];
      Ret (g, None, plain_record "client-hello")
  | Ok (serverHello, _, id, tunnelIP) =>
      g ← inc g (handshakes g) ["admitted"%string];
      m ← Metrics.Set_ (metrics g) (activeSession g) (store_len (store g)) [];
      Ret (set_metrics g m, Some serverHello, mkDataRecord "client-hello" true false [] id tunnelIP)
  end.

Definition handleData (g : DataGateway) (datagram : bytes) : go (DataGateway * DataRecord) :=
  sid ← SessionIDFromDatagram datagram;
  let id := match sid with Ok id => id | Err _ => zeroSession end in
  '(g, r) ← HandleClassified g datagram;
  match r with
  | Err _ =>
      g ← inc g (dataPackets g) ["rejected"%string];
      Ret (g, plain_record "data")
  | Ok (payload, Replay.ReplayFirstCopy) =>
      g ← inc g (dataPackets g) ["first-copy"%string];
      Ret (g, mkDataRecord "data" false true payload id AddrZero)
  | Ok (_, Replay.ReplayStale) =>
      g ← inc g (dataPackets g) ["stale"%string];
      Ret (g, mkDataRecord "data" false false [] id AddrZero)
  | Ok (_, _) =>
      g ← inc g (dataPackets g) ["duplicate"%string];
      Ret (g, mkDataRecord "data" false false [] id AddrZero)
  end.

Definition HandleDatagram (g : DataGateway) (datagram : bytes) (rkey : option bytes) (now : Time)
  : go (DataGateway * option bytes * DataRecord) :=
  k ← ClassifyDatagram datagram;
  match k with
  | KindClientHello => handleHandshake g datagram rkey now
  | KindData => '(g, rec) ← handleData g datagram; Ret (g, None, rec)
  | KindPing =>
      p ← DecodePing datagram;
      match p with
      | Ok (false, n) => pong ← EncodePong n; Ret (g, Some pong, plain_record "ping")
      | _ => Ret (g, None, plain_record "ping")
      end
  | _ => g ← inc g (dataPackets g) ["rejected"%string]; Ret (g, None, plain_record "unknown")
  end.

(** ** The loops *)

Definition maxRead : nat := 2048.

(** One datagram of the read loop of [Serve] from the UDP source [src] (or a
    non-UDP one): the reply sent to it and the packet written to the TUN device. *)
Definition serve_one (g : DataGateway) (datagram : bytes) (src : option AddrPort)
    (rkey : option bytes) (now : Time) (write_ok : bool)
  : go (DataGateway * option bytes * option bytes) :=
  '(g, reply, rec) ← HandleDatagram g (take maxRead datagram) rkey now;
  match exit g with
  | None => Ret (g, reply, None)
  | Some r =>
      if String.eqb (Kind rec) "data" && negb (IsZero (RSession rec)) then
        let g := match src with
                 | Some ap => set_exit g (Some (Router.RecordPath r (RSession rec) ap now))
                 | None => g
                 end in
        if Deliver rec then
          match exit g with
          | Some r => '(g, _, out) ← Router.Egress r g (RSession rec) (Payload rec) write_ok; Ret (g, reply, out)
          | None => Ret (g, reply, None)
          end
        else Ret (g, reply, None)
      else Ret (g, reply, None)
  end.

(** One packet of the return loop ([exit.ServeReturn], run by [Serve]). *)
Definition return_one (g : DataGateway) (packet : bytes) (now : Time) (send_ok : AddrPort → bool)
  : go (DataGateway * list (bytes * AddrPort)) :=
  match exit g with
  | None => Ret (g, [])
  | Some r => '(r, g, out) ← Router.return_one r g packet now send_ok; Ret (set_exit g (Some r), out)
  end.

(** ** The invariant *)

(** A cached responder session belongs to an admitted id and uses its key. *)
Definition cached (st : SessionStore) (id : SessionID) (s : Session) : Prop :=
  ∃ key prior, keys st !! id = Some key ∧ sid s = id ∧ role s = RoleResponder ∧
    slr s = mkSealer key ∧ session_ok s prior.

(** [pool] are the addresses the exit path may lease. *)
Record gw_ok (pool : list Addr) (g : DataGateway) : Prop := {
  gw_priv : length (identityPriv g) = 64%nat;
  gw_cap : 0 < capacity (dataPlane g) ≤ 2 ^ 63 - 64;
  gw_keys id key : keys (store g) !! id = Some key → length key = keySize;
  gw_sessions id s : sessions (dataPlane g) !! id = Some s → cached (store g) id s;
  gw_exit r : exit g = Some r → Allocator.alloc_ok pool (Router.alloc r);
  gw_pool : Forall (λ a, Is4 a = true) pool;
  gw_metrics : Metrics.reg_ok [1; 1; 0; 0; 0; 0; 1]%nat [0]%nat (metrics g);
  gw_handles : (handshakes g, dataPackets g, activeSession g, exitForwarded g, exitForwardedBytes g,
     exitReturned g, exitReturnedBytes g, exitDropped g) = (0, 1, 0, 2, 3, 4, 5, 6)%nat
}.

Lemma gw_ok_metrics pool g m :
  gw_ok pool g → Metrics.reg_ok [1; 1; 0; 0; 0; 0; 1]%nat [0]%nat m → gw_ok pool (set_metrics g m).
Proof. by intros [] ?. Qed.

Lemma gw_ok_plane pool g d :
  gw_ok pool g → capacity d = capacity (dataPlane g) →
  (∀ id s, sessions d !! id = Some s → cached (store g) id s) → gw_ok pool (set_plane g d).
Proof. intros [] Hc Hs. split; try done. cbn. by rewrite Hc. Qed.

Lemma gw_ok_exit pool g r :
  gw_ok pool g → Allocator.alloc_ok pool (Router.alloc r) → gw_ok pool (set_exit g (Some r)).
Proof. intros [] Hr. split; try done. by intros r' [= <-]. Qed.

Lemma inc_ok pool g h labels :
  gw_ok pool g → [1; 1; 0; 0; 0; 0; 1]%nat !! h = Some (length labels) →
  ∃ m, inc g h labels = Ret (set_metrics g m) ∧ gw_ok pool (set_metrics g m).
Proof.
  intros Hg Hh. unfold inc. destruct (Metrics.Inc_ok _ _ _ h labels (gw_metrics _ _ Hg) Hh) as (m & -> & Hm).
  mstep. exists m. split; [done|]. by apply gw_ok_metrics.
Qed.

Lemma add_ok pool g h d :
  gw_ok pool g → [1; 1; 0; 0; 0; 0; 1]%nat !! h = Some 0%nat →
  ∃ m, add g h d = Ret (set_metrics g m) ∧ gw_ok pool (set_metrics g m).
Proof.
  intros Hg Hh. unfold add. destruct (Metrics.Add_ok _ _ _ h d [] (gw_metrics _ _ Hg) Hh) as (m & -> & Hm).
  mstep. exists m. split; [done|]. by apply gw_ok_metrics.
Qed.

(** Recording a router decision changes the metrics and nothing else. *)
Definition only_metrics (pool : list Addr) (g0 g : DataGateway) : Prop :=
  gw_ok pool g ∧ ∃ m, g = set_metrics g0 m.

Lemma handles_eq pool g : gw_ok pool g →
  handshakes g = 0%nat ∧ dataPackets g = 1%nat ∧ activeSession g = 0%nat ∧ exitForwarded g = 2%nat ∧
  exitForwardedBytes g = 3%nat ∧ exitReturned g = 4%nat ∧ exitReturnedBytes g = 5%nat ∧ exitDropped g = 6%nat.
Proof. intros Hg. pose proof (gw_handles _ _ Hg) as E. by injection E. Qed.

#[export] Instance gateway_metrics_laws pool g0 : Router.MetricsLaws DataGateway (only_metrics pool g0).
Proof.
  assert (∀ h1 h2 d (g : DataGateway), only_metrics pool g0 g →
    [1; 1; 0; 0; 0; 0; 1]%nat !! h1 = Some 0%nat → [1; 1; 0; 0; 0; 0; 1]%nat !! h2 = Some 0%nat →
    ∃ g1 g2, inc g h1 [] = Ret g1 ∧ add g1 h2 d = Ret g2 ∧ only_metrics pool g0 g2) as Hincadd.
  { intros h1 h2 d g [Hg [m ->]] H1 H2. destruct (inc_ok _ _ h1 [] Hg H1) as (m1 & HI & Hg1).
    destruct (add_ok _ _ h2 d Hg1 H2) as (m2 & HA & Hg2). eexists _, _. split; [done|]. split; [done|].
    split; [done|]. by exists m2. }
  split.
  - intros n g Hg. destruct (handles_eq _ _ (proj1 Hg)) as (_ & _ & _ & E1 & E2 & _).
    destruct (Hincadd 2%nat 3%nat n g Hg) as (g1 & g2 & HI & HA & Hg2); [done..|].
    exists g2. split; [|done]. cbn. rewrite E1, HI. mstep.
    assert (exitForwardedBytes g1 = 3%nat) as ->; [|done].
    unfold inc in HI. destruct (Metrics.Inc _ _ _); [|done]. injection HI as <-. done.
  - intros reason g [Hg [m ->]]. destruct (handles_eq _ _ Hg) as (_ & _ & _ & _ & _ & _ & _ & E).
    cbn. destruct (inc_ok _ _ (exitDropped g0) [reason] Hg) as (m1 & -> & Hg1); [cbn in E; by rewrite E|].
    eexists. split; [done|]. split; [done|]. by exists m1.
  - intros n g Hg. destruct (handles_eq _ _ (proj1 Hg)) as (_ & _ & _ & _ & _ & E1 & E2 & _).
    destruct (Hincadd 4%nat 5%nat n g Hg) as (g1 & g2 & HI & HA & Hg2); [done..|].
    exists g2. split; [|done]. cbn. rewrite E1, HI. mstep.
    assert (exitReturnedBytes g1 = 5%nat) as ->; [|done].
    unfold inc in HI. destruct (Metrics.Inc _ _ _); [|done]. injection HI as <-. done.
Qed.

(** ** The data plane *)

(** A session that has observed nothing, with a window of the data plane's capacity. *)
Definition new_session (cap : Z) (s : Session) : Prop := session_ok s [] ∧ cap ≤ Replay.width (window s).

(** [sessionFor] returns the cached session, creates one for an admitted id, or
    refuses; nothing else in the cache changes. *)
Lemma sessionFor_ok pool g id :
  gw_ok pool g →
  ∃ d r, sessionFor (store g) (dataPlane g) id = Ret (d, r) ∧ gw_ok pool (set_plane g d) ∧
    capacity d = capacity (dataPlane g) ∧
    (∀ id', id' ≠ id → sessions d !! id' = sessions (dataPlane g) !! id') ∧
    match r with
    | Ok s => sessions d !! id = Some s ∧ cached (store g) id s ∧
              (sessions (dataPlane g) !! id = Some s ∨
               sessions (dataPlane g) !! id = None ∧ new_session (capacity (dataPlane g)) s)
    | Err e => d = dataPlane g ∧ (e = ErrUnknownSession ↔ keys (store g) !! id = None)
    end.
Proof.
  intros Hg. unfold sessionFor, SessionKey.
  assert (gw_ok pool (set_plane g (dataPlane g))) as Hsame by (apply gw_ok_plane; [done..|apply Hg]).
  destruct (sessions (dataPlane g) !! id) as [s|] eqn:Hs.
  { exists (dataPlane g), (Ok s). split_and!; try done; [by apply (gw_sessions _ _ Hg)|by left]. }
  destruct (keys (store g) !! id) as [key|] eqn:Hk.
  2: { exists (dataPlane g), (Err ErrUnknownSession). by split_and!. }
  destruct (NewSession_total id key RoleResponder (capacity (dataPlane g)) (gw_cap _ _ Hg)) as ([s|e] & HN); rewrite HN; mstep.
  2: { exists (dataPlane g), (Err (ErrCore e)). by split_and!. }
  assert (is_i64 (capacity (dataPlane g))) as Hcap by (pose proof (gw_cap _ _ Hg); unfold is_i64; lia).
  pose proof (NewSession_width _ _ _ _ _ Hcap HN) as Hwd.
  apply NewSession_inv in HN as (Hok & Hsid & Hr & Hslr & _); [|done].
  assert (cached (store g) id s) as Hc by (exists key, []; done).
  eexists _, _. split; [done|]. split_and!; try done.
  - apply gw_ok_plane; [done..|]. intros id' s'. cbn. rewrite lookup_insert_Some.
    intros [[<- <-]|[_ ?]]; [done|]. by apply (gw_sessions _ _ Hg).
  - intros id' Hne. cbn. by rewrite lookup_insert_ne.
  - cbn. by rewrite lookup_insert_eq.
  - by right.
Qed.

(** Updating a cached session after it handled a packet. *)
Lemma gw_ok_session pool g d id s s' prior :
  gw_ok pool (set_plane g d) → cached (store g) id s →
  sid s' = sid s → role s' = role s → slr s' = slr s → session_ok s' prior →
  gw_ok pool (set_plane g (set_session d id s')).
Proof.
  intros Hg (key & pr & Hk & Hsid & Hr & Hslr & _) E1 E2 E3 Hok.
  pose proof (gw_sessions _ _ Hg) as Hss. cbn in Hss. destruct Hg. split; try done.
  cbn. intros id' x. rewrite lookup_insert_Some. intros [[<- <-]|[_ ?]]; [|by apply Hss].
  exists key, prior. by rewrite E1, E2, E3.
Qed.

(** The datagram opened under the key admitted for the session it names. *)
Definition authenticated (g : DataGateway) (datagram : bytes) (id : SessionID) (n : Z) (p : bytes) : Prop :=
  ∃ key, keys (store g) !! id = Some key ∧
    parseHeader datagram = Ret (Ok (mkPacketID id n, dirInitiator, dataHeaderSize)) ∧
    aead_open key (nonce_bytes dirInitiator n) (drop dataHeaderSize datagram) (take dataHeaderSize datagram) = Some p.

(** Packet [n] of session [id] would not be taken for a first copy. *)
Definition spent (g : DataGateway) (id : SessionID) (n : Z) : Prop :=
  ∃ s, sessions (dataPlane g) !! id = Some s ∧ Replay.spent (window s) n.

(** No packet becomes acceptable again. *)
Definition plane_kept (g g' : DataGateway) : Prop :=
  ∀ id n, is_u64 n → spent g id n → spent g' id n.

(** Every cached window is at least as wide as the capacity. *)
Definition widths (g : DataGateway) : Prop :=
  ∀ id s, sessions (dataPlane g) !! id = Some s → capacity (dataPlane g) ≤ Replay.width (window s).

(** From [g] to [g'] at most the packet [x] was observed: nothing becomes acceptable
    again, and nothing else becomes unacceptable than that packet and those of its
    session that the window leaves behind. *)
Record plane_moved (g g' : DataGateway) (x : option (SessionID * Z)) : Prop := {
  pm_kept : plane_kept g g';
  pm_cap : capacity (dataPlane g') = capacity (dataPlane g);
  pm_width : widths g → widths g';
  pm_new : widths g → ∀ id m, is_u64 m → m ≠ 0 → spent g' id m →
    spent g id m ∨ ∃ n, x = Some (id, n) ∧ (m = n ∨ capacity (dataPlane g) ≤ n - m)
}.

(** Packet [n] of session [id] arrived, for the first time or not. *)
Definition plane_step (g g' : DataGateway) (id : SessionID) (n : Z) (first : bool) : Prop :=
  plane_moved g g' (Some (id, n)) ∧ is_u64 n ∧ spent g' id n ∧ (first = true ↔ ¬ spent g id n).

Lemma plane_same g g' : dataPlane g' = dataPlane g → plane_moved g g' None.
Proof.
  intros E. unfold plane_kept, widths, spent. split; [intros id n _; unfold spent; by rewrite E|by rewrite E|unfold widths; by rewrite E|].
  intros _ id m _ _. unfold spent. rewrite E. by left.
Qed.

(** What a data plane with the same content does to another gateway. *)
Lemma plane_moved_eq g g1 g2 x : dataPlane g2 = dataPlane g1 → plane_moved g g1 x → plane_moved g g2 x.
Proof. intros E []. split; unfold plane_kept, widths, spent in *; by rewrite E. Qed.

(** The session of [id] becomes [s'], which was [s] before, cached or new. *)
Lemma plane_moved_session g d id s s' x :
  (∀ id', id' ≠ id → sessions d !! id' = sessions (dataPlane g) !! id') → capacity d = capacity (dataPlane g) →
  sessions (dataPlane g) !! id = Some s ∨ sessions (dataPlane g) !! id = None ∧ new_session (capacity (dataPlane g)) s →
  Replay.width (window s') = Replay.width (window s) →
  (∀ m, is_u64 m → Replay.spent (window s) m → Replay.spent (window s') m) →
  (∀ m, is_u64 m → m ≠ 0 → Replay.spent (window s') m →
    Replay.spent (window s) m ∨ ∃ n, x = Some (id, n) ∧ (m = n ∨ Replay.width (window s) ≤ n - m)) →
  plane_moved g (set_plane g (set_session d id s')) x.
Proof.
  intros Hother Hcap Hold Hwd Hfor Hback.
  assert (widths g → capacity (dataPlane g) ≤ Replay.width (window s)) as Hwide.
  { intros Hg. destruct Hold as [Hs|[_ [_ Hw]]]; [by eapply Hg|done]. }
  split; [|done| |].
  - intros id' m Hm (y & Hy & Hsp). destruct (decide (id' = id)) as [->|Hne].
    + exists s'. cbn. rewrite lookup_insert_eq. split; [done|]. destruct Hold as [Hs|[Hs _]]; rewrite Hs in Hy; [|done].
      injection Hy as <-. by apply Hfor.
    + exists y. cbn. by rewrite lookup_insert_ne, Hother.
  - intros Hg id' y. cbn. rewrite Hcap, lookup_insert_Some. intros [[_ <-]|[Hne Hy]]; [rewrite Hwd; by apply Hwide|].
    rewrite Hother in Hy by done. by eapply Hg.
  - intros Hg id' m Hm H0 (y & Hy & Hsp). cbn in Hy. apply lookup_insert_Some in Hy as [[<- <-]|[Hne Hy]].
    + destruct (Hback m Hm H0 Hsp) as [Hs|(n & -> & Hn)].
      * left. destruct Hold as [E|[_ [Hnew _]]]; [by exists s|]. by apply (Replay.spent_new _ _ (so_window _ _ Hnew) Hm) in Hs.
      * right. exists n. split; [done|]. specialize (Hwide Hg). destruct Hn; [by left|right; lia].
    + left. exists y. split; [by rewrite <-Hother|done].
Qed.

(** The session [s] of [id], cached or new, observes packet [n]. *)
Lemma plane_observed g d id s prior n win :
  (∀ id', id' ≠ id → sessions d !! id' = sessions (dataPlane g) !! id') → capacity d = capacity (dataPlane g) →
  sessions (dataPlane g) !! id = Some s ∨ sessions (dataPlane g) !! id = None ∧ new_session (capacity (dataPlane g)) s →
  session_ok s prior → 0 < n < 2 ^ 64 →
  session_ok (set_window s win) (n :: prior) → Replay.width win = Replay.width (window s) →
  plane_step g (set_plane g (set_session d id (set_window s win))) id n
    (bool_decide (Replay.decide_spec (Replay.width (window s)) prior n = Replay.ReplayFirstCopy)).
Proof.
  intros Hother Hcap Hold Hok Hn Hok' Hwin. assert (is_u64 n) as Hu by (unfold is_u64; lia).
  pose proof (so_window _ _ Hok) as Hsim. pose proof (so_window _ _ Hok') as Hsim'. cbn in Hsim'.
  split_and!; [|done| |].
  - apply (plane_moved_session g d id s); try done.
    + intros m Hm Hsp. apply (Replay.spent_observed (window s) win prior n m); auto.
    + intros m Hm H0 Hsp. destruct (Replay.spent_by (window s) win prior n m) as [|H]; auto. right. by exists n.
  - exists (set_window s win). cbn. rewrite lookup_insert_eq. split; [done|].
    apply (Replay.spent_observed (window s) win prior n n); auto.
  - rewrite bool_decide_eq_true. destruct Hold as [Hs|[Hs [Hnew _]]]; unfold spent; rewrite Hs.
    + split; [intros Hd (s' & [= <-] & Hsp); by apply (Replay.spent_decide _ _ _ Hsim Hu) in Hsp|].
      intros Hsp. apply dec_stable. intros Hd. apply Hsp. exists s. split; [done|]. by apply (Replay.spent_decide _ _ _ Hsim Hu).
    + split; [intros _ (s' & [=] & _)|]. intros _. apply dec_stable. intros Hd.
      apply (Replay.spent_decide _ _ _ Hsim Hu), (Replay.spent_new _ _ (so_window _ _ Hnew) Hu) in Hd. lia.
Qed.

Lemma SessionIDFromDatagram_total b : ∃ r, SessionIDFromDatagram b = Ret r.
Proof.
  unfold SessionIDFromDatagram.
  destruct (parseHeader_spec b) as [[e ->]|(id & dir & f & rest & -> & _)]; by eexists.
Qed.

(** The two entry points of the data plane agree. *)
Lemma Handle_classified g datagram :
  Handle g datagram =
  ('(g, r) ← HandleClassified g datagram;
   Ret (g, match r with
           | Ok (p, dec) => Ok (p, bool_decide (dec = Replay.ReplayFirstCopy))
           | Err e => Err e
           end)).
Proof.
  unfold Handle, HandleClassified, Inbound. destruct (SessionIDFromDatagram datagram) as [[id|e]|]; mstep; try done.
  destruct (sessionFor (store g) (dataPlane g) id) as [[d [s|e]]|]; mstep; try done.
  by destruct (InboundClassified s datagram) as [[s' [[p dec]|e]]|]; mstep.
Qed.

Lemma HandleClassified_ok pool g datagram :
  gw_ok pool g →
  ∃ d r, HandleClassified g datagram = Ret (set_plane g d, r) ∧ gw_ok pool (set_plane g d) ∧
    match r with
    | Err _ => plane_moved g (set_plane g d) None
    | Ok (p, dec) => ∃ id n, SessionIDFromDatagram datagram = Ret (Ok id) ∧ authenticated g datagram id n p ∧
        plane_step g (set_plane g d) id n (bool_decide (dec = Replay.ReplayFirstCopy))
    end.
Proof.
  intros Hg. unfold HandleClassified.
  assert (gw_ok pool (set_plane g (dataPlane g))) as Hsame by (apply gw_ok_plane; [done..|apply Hg]).
  assert (g = set_plane g (dataPlane g)) as Eg by by destruct g.
  destruct (SessionIDFromDatagram_total datagram) as [[id|e] Hid]; rewrite Hid; mstep.
  2: { exists (dataPlane g), (Err (ErrCore e)). rewrite <-Eg. split; [done|]. split; [done|by apply plane_same]. }
  destruct (sessionFor_ok pool g id Hg) as (d & r & -> & Hd & Hcap & Hother & Hr). mstep.
  destruct r as [s|e].
  2: { destruct Hr as [-> _]. exists (dataPlane g), (Err e). split; [done|]. split; [done|by apply plane_same]. }
  destruct Hr as (Hs & Hc & Hold). pose proof Hc as (key & prior & Hk & Hsid & Hrole & Hslr & Hok).
  destruct (Inbound_cases s datagram prior Hok)
    as [[e ->]|(pid & aad & ct & p & win & Hp & Hn & -> & Ha & Hopen & -> & Hok' & Hwin)]; mstep.
  - eexists _, _. split; [done|]. split; [by eapply gw_ok_session|]. apply (plane_moved_session g d id s); auto.
  - eexists _, _. split; [done|]. split; [by eapply gw_ok_session|]. cbn [lift].
    exists id, (Number pid). split; [done|]. split; [|by apply plane_observed]. exists key. split; [done|].
    rewrite <-Ha, take_app_length, drop_app_length. rewrite Hrole, Hslr in *. split; [|done].
    unfold SessionIDFromDatagram in Hid. rewrite Hp in Hid. injection Hid as <-.
    rewrite Ha, Hp. by destruct pid.
Qed.

Lemma FrameReturn_ok pool g id payload :
  gw_ok pool g →
  ∃ d r, FrameReturn g id payload = Ret (set_plane g d, r) ∧ gw_ok pool (set_plane g d) ∧
    plane_moved g (set_plane g d) None ∧
    match r with
    | Err _ => True
    | Ok b => ∃ key n, keys (store g) !! id = Some key ∧ is_u64 n ∧ b = frame_of id key RoleResponder n payload
    end.
Proof.
  intros Hg. unfold FrameReturn.
  destruct (sessionFor_ok pool g id Hg) as (d & r & -> & Hd & Hcap & Hother & Hr). mstep.
  destruct r as [s|e].
  2: { destruct Hr as [-> _]. eexists _, (Err e). split; [done|]. split; [done|]. split; [by apply plane_same|done]. }
  destruct Hr as (Hs & Hc & Hold). pose proof Hc as (key & prior & Hk & Hsid & Hrole & Hslr & Hok).
  assert (∀ s', window s' = window s → plane_moved g (set_plane g (set_session d id s')) None) as Hkept.
  { intros s' Hw. apply (plane_moved_session g d id s); rewrite ?Hw; auto. }
  destruct (decide (maxPayload < length payload)%nat) as [Hl|Hl].
  - unfold Outbound. rewrite decide_True by done. mstep. eexists _, _. split; [done|].
    split; [by eapply gw_ok_session|]. split; [by apply Hkept|done].
  - rewrite Outbound_eq by lia. mstep. eexists _, _. split; [done|]. split; [|split; [by apply Hkept|]].
    + eapply gw_ok_session; try done. apply session_ok_next; [done|apply u64_range].
    + rewrite Hsid, Hrole, Hslr. eexists _, _. split; [done|]. split; [|done]. apply u64_range.
Qed.

(** ** Admission *)

Lemma gw_ok_store pool g st :
  gw_ok pool g → keys (store g) ⊆ keys st →
  (∀ id key, keys st !! id = Some key → length key = keySize) → gw_ok pool (set_store g st).
Proof.
  intros [] Hsub Hl. split; try done. intros id s Hs. cbn in *.
  destruct (gw_sessions0 id s Hs) as (key & prior & Hk & ?). exists key, prior. split; [|done].
  by eapply lookup_weaken.
Qed.

(** Leasing touches the allocator only, and yields an IPv4 address. *)
Lemma lease_ok pool g id :
  gw_ok pool g →
  ∃ ex l, lease g id = (set_exit g ex, l) ∧ gw_ok pool (set_exit g ex) ∧
    (Router.paths <$> ex) = (Router.paths <$> exit g) ∧
    match l with
    | Err e => e = ErrLeaseFailed ∧ ∃ r, exit g = Some r ∧ is_ok (Router.Lease r id).2 = false
    | Ok None => exit g = None
    | Ok (Some a) => ∃ r r', exit g = Some r ∧ ex = Some r' ∧ Router.paths r' = Router.paths r ∧
        (∃ n, a = Addr4 n) ∧ Allocator.LeaseOf (Router.alloc r') id = Some a
    end.
Proof.
  intros Hg. unfold lease. assert (g = set_exit g (exit g)) as Eg by by destruct g.
  destruct (exit g) as [r|] eqn:Hx.
  2: { exists None, (Ok None). by rewrite <-Eg. }
  pose proof (gw_exit _ _ Hg r Hx) as Ha. pose proof (Allocator.Allocate_ok _ _ id Ha) as Ha'.
  assert (∀ e a, Allocator.Allocate (Router.alloc r) id = (a, Err e) → is_ok (Router.Lease r id).2 = false) as Hfail.
  { intros e a HA. unfold Router.Lease. by rewrite HA. }
  unfold Router.Lease at 1. destruct (Allocator.Allocate (Router.alloc r) id) as [a x] eqn:HA. cbn [fst] in Ha'.
  pose proof (gw_ok_exit _ _ (Router.mkRouter a (Router.paths r)) Hg Ha') as Hg'.
  destruct x as [addr|e]; [|eexists _, _; split; [done|]; split; [done|]; split; [done|]; split; [done|]; eauto].
  assert (Allocator.LeaseOf a id = Some addr ∧ addr ∈ pool) as [Hl Hin].
  { unfold Allocator.Allocate in HA. unfold Allocator.LeaseOf.
    destruct (Allocator.forward (Router.alloc r) !! id) as [y|] eqn:Hf.
    - injection HA as <- <-. split; [done|]. apply (Allocator.ao_pool _ _ Ha). right.
      exists id. by apply (Allocator.ao_inverse _ _ Ha).
    - destruct (last (Allocator.free (Router.alloc r))) as [y|] eqn:Hl; [|done]. injection HA as <- <-.
      cbn. rewrite lookup_insert_eq. split; [done|]. apply (Allocator.ao_pool _ _ Ha). left.
      by apply last_Some_elem_of. }
  pose proof (proj1 (Forall_forall _ _) (gw_pool _ _ Hg) addr Hin) as H4. rewrite H4.
  eexists _, _. split; [done|]. split; [done|]. split; [done|]. eexists r, _.
  split_and!; try done. destruct addr; try done. by eexists.
Qed.

Lemma Admit_spec g token id key now :
  match Admit g token id key now with
  | (g', Err e) => g' = g
  | (g', Ok claims) => Entitlement.Admit (service g) token now = Ok claims ∧
      keys (store g) !! id = None ∧ g' = set_store g (mkStore (<[id := key]> (keys (store g))))
  end.
Proof.
  unfold Admit, register. destruct (Entitlement.Admit (service g) token now) as [claims|e]; [|done].
  destruct (keys (store g) !! id) eqn:Hk; cbn [negb]; done.
Qed.

Section laws.
Context `{!X25519Laws, !HKDFLaws, !Ed25519Laws}.

(** The answer of an admitted handshake. *)
Definition answer (g : DataGateway) (id : SessionID) (ephPriv : bytes) (ip : vec byte 4) : bytes :=
  server_hello_bytes (mkServerHello id (x25519_pub ephPriv)
    (ed25519_sign (identityPriv g) (transcript (x25519_pub ephPriv) id)) ip).

(** What an accepted handshake did: the ClientHello was fresh and its token was
    admitted, the id was free, and the id and the agreed key were registered. *)
Record admitted (g g' : DataGateway) (hello : bytes) (rkey : option bytes) (now : Time)
    (sh : bytes) (claims : Entitlement.Claims) (id : SessionID) (ip : Addr) : Prop := {
  ad_hello : ∃ h, DecodeClientHello hello = Ret (Ok h) ∧ ch_id h = id ∧
    CheckHandshakeFresh (ch_timestamp h) now (tolerance g) = Ok () ∧
    Entitlement.Admit (service g) (ch_token h) now = Ok claims ∧
    ∃ ephPriv key ip4, rkey = Some ephPriv ∧ DeriveSessionKey ephPriv (ch_eph h) id = Ok key ∧
      keys (store g') = <[id := key]> (keys (store g)) ∧ sh = answer g id ephPriv ip4 ∧
      match exit g with
      | None => ip = AddrZero ∧ ip4 = zeroIPv4
      | Some r => As4 ip = Ret ip4 ∧ ∃ r', exit g' = Some r' ∧ Router.paths r' = Router.paths r ∧
                    Allocator.LeaseOf (Router.alloc r') id = Some ip
      end;
  ad_free : keys (store g) !! id = None;
  ad_plane : dataPlane g' = dataPlane g
}.

Lemma insert_weaken (m : gmap SessionID bytes) id key : m !! id = None → m ⊆ <[id := key]> m.
Proof. apply insert_subseteq. Qed.

(** The outcomes of [AdmitHandshake]: refused with the store as it was, or
    admitted. *)
Definition handshake_outcome (pool : list Addr) (g : DataGateway) (hello : bytes) (rkey : option bytes) (now : Time)
    (out : go (DataGateway * result error (bytes * Entitlement.Claims * SessionID * Addr))) : Prop :=
  ∃ st ex r, out = Ret (set_exit (set_store g st) ex, r) ∧ gw_ok pool (set_exit (set_store g st) ex) ∧
    (Router.paths <$> ex) = (Router.paths <$> exit g) ∧
    match r with
    | Err _ => st = store g
    | Ok (sh, claims, id, ip) => admitted g (set_exit (set_store g st) ex) hello rkey now sh claims id ip
    end.

Lemma refused_outcome pool g hello rkey now e :
  gw_ok pool g → handshake_outcome pool g hello rkey now (Ret (g, Err e)).
Proof.
  intros Hg. assert (set_exit (set_store g (store g)) (exit g) = g) as Eg by by destruct g.
  exists (store g), (exit g), (Err e). by rewrite Eg.
Qed.

(** A refused lease unwinds the registration. *)
Lemma unwound_outcome pool g ex id key hello rkey now e :
  let g1 := set_exit (set_store g (mkStore (<[id := key]> (keys (store g))))) ex in
  gw_ok pool g → gw_ok pool g1 → keys (store g) !! id = None →
  (Router.paths <$> ex) = (Router.paths <$> exit g) →
  handshake_outcome pool g hello rkey now (Ret (set_store g1 (StoreForget (store g1) id), Err e)).
Proof.
  intros g1 Hg Hg1 Hfree Hp. exists (store g), ex, (Err e).
  assert (StoreForget (store g1) id = store g) as ->.
  { unfold StoreForget, g1. cbn. rewrite delete_insert_id by done. by destruct (store g). }
  split; [done|]. split; [|by split]. destruct Hg, Hg1. by split.
Qed.

Lemma SignHandshake_ret g eph id :
  length (identityPriv g) = 64%nat →
  SignHandshake (identityPriv g) eph id = Ret (ed25519_sign (identityPriv g) (transcript eph id)).
Proof. intros Hl. unfold SignHandshake. by rewrite decide_False by lia. Qed.

Lemma AdmitHandshake_ok pool g hello rkey now :
  gw_ok pool g → (∀ k, rkey = Some k → length k = 32%nat) →
  handshake_outcome pool g hello rkey now (AdmitHandshake g hello rkey now).
Proof.
  intros Hg Hrk. unfold AdmitHandshake.
  destruct (DecodeClientHello_spec hello) as [[e ->]|(h & HD & Hok & _)]; [by apply refused_outcome|]. rewrite HD. mstep.
  destruct (CheckHandshakeFresh _ _ _) as [[]|] eqn:Hfresh; [|by apply refused_outcome].
  destruct rkey as [ephPriv|]; cbn [GenerateKeyPair]; [|by apply refused_outcome].
  destruct (DeriveSessionKey _ _ _) as [key|] eqn:Hkey; [|by apply refused_outcome].
  pose proof (Admit_spec g (ch_token h) (ch_id h) key now) as HA.
  destruct (Admit g (ch_token h) (ch_id h) key now) as [g1 [claims|e]]; [|subst g1; by apply refused_outcome].
  destruct HA as (Hclaims & Hfree & ->). set (st := mkStore (<[ch_id h := key]> (keys (store g)))).
  assert (gw_ok pool (set_store g st)) as Hg1.
  { apply gw_ok_store; [done|by apply insert_weaken|]. intros id' k'. cbn. rewrite lookup_insert_Some.
    intros [[_ <-]|[_ ?]]; [by eapply derive_length|by eapply (gw_keys _ _ Hg)]. }
  destruct (lease_ok pool (set_store g st) (ch_id h) Hg1) as (ex & l & -> & Hg2 & Hpaths & Hl).
  destruct l as [leased|e]; [|by apply unwound_outcome].
  assert (∃ ip4, (match leased with Some addr => As4 addr | None => Ret zeroIPv4 end) = Ret ip4) as [ip4 Hip].
  { destruct leased as [addr|]; [|by eexists]. destruct Hl as (r & r' & _ & _ & _ & [n ->] & _). by eexists. }
  rewrite Hip. mstep. rewrite SignHandshake_ret by apply Hg. mstep.
  set (sh := mkServerHello (ch_id h) (x25519_pub ephPriv)
    (ed25519_sign (identityPriv g) (transcript (x25519_pub ephPriv) (ch_id h))) ip4).
  assert (server_hello_ok sh) as Hsh.
  { split; cbn; [by apply x25519_pub_length, Hrk|by apply ed25519_sign_length, Hg]. }
  pose proof (EncodeServerHello_layout sh Hsh) as HE. cbn [sh_id sh_eph sh_sig sh_ip sh] in HE.
  cbn [identityPriv set_exit set_store]. rewrite HE. mstep. exists st, ex. eexists. split; [done|]. split; [done|].
  split; [done|]. split; [|done|done]. exists h. split_and!; try done. exists ephPriv, key, ip4. split_and!; try done.
  destruct leased as [addr|]; cbn [default].
  - destruct Hl as (r & r' & Hx & -> & Hpr & _ & Hlease). cbn in Hx. rewrite Hx. split; [done|]. by exists r'.
  - cbn in Hl. rewrite Hl. by injection Hip.
Qed.

(** ** One datagram *)

Definition same_paths (g g' : DataGateway) : Prop :=
  (Router.paths <$> exit g') = (Router.paths <$> exit g).

(** What handling one datagram can do. *)
Inductive outcome (g : DataGateway) (d : bytes) (rkey : option bytes) (now : Time)
  : DataGateway → option bytes → DataRecord → Prop :=
| out_admitted g' sh claims id ip :
    admitted g g' d rkey now sh claims id ip → same_paths g g' →
    outcome g d rkey now g' (Some sh) (mkDataRecord "client-hello" true false [] id ip)
| out_refused g' :
    store g' = store g → same_paths g g' → dataPlane g' = dataPlane g →
    outcome g d rkey now g' None (plain_record "client-hello")
| out_data g' id n p first :
    authenticated g d id n p → store g' = store g → exit g' = exit g → plane_step g g' id n first →
    outcome g d rkey now g' None (mkDataRecord "data" false first (if first : bool then p else []) id AddrZero)
| out_drop g' kind :
    store g' = store g → exit g' = exit g → plane_moved g g' None → kind ∈ ["data"; "unknown"; "ping"]%string →
    outcome g d rkey now g' None (plain_record kind)
| out_pong n pong :
    DecodePing d = Ret (Ok (false, n)) → EncodePong n = Ret pong →
    outcome g d rkey now g (Some pong) (plain_record "ping").

Lemma admitted_metrics g g' m hello rkey now sh claims id ip :
  admitted g g' hello rkey now sh claims id ip → admitted g (set_metrics g' m) hello rkey now sh claims id ip.
Proof. intros []. by split. Qed.

Lemma handleHandshake_ok pool g d rkey now :
  gw_ok pool g → (∀ k, rkey = Some k → length k = 32%nat) →
  ∃ g' reply rec, handleHandshake g d rkey now = Ret (g', reply, rec) ∧ gw_ok pool g' ∧
    outcome g d rkey now g' reply rec.
Proof.
  intros Hg Hrk. unfold handleHandshake.
  destruct (AdmitHandshake_ok pool g d rkey now Hg Hrk) as (st & ex & r & -> & Hg1 & Hpaths & Hr). mstep.
  destruct (handles_eq _ _ Hg1) as (E0 & _ & E2 & _).
  destruct r as [[[[sh claims] id] ip]|e].
  - destruct (inc_ok _ _ (handshakes (set_exit (set_store g st) ex)) ["admitted"%string] Hg1) as (m & -> & Hg2);
      [by rewrite E0|]. mstep.
    set (g2 := set_metrics _ m) in *.
    destruct (Metrics.Set_ok _ _ _ (activeSession g2) (store_len (store g2)) [] (gw_metrics _ _ Hg2)) as (m' & -> & Hm').
    { change (activeSession g2) with (activeSession (set_exit (set_store g st) ex)). by rewrite E2. }
    mstep. eexists _, _, _. split; [done|]. split; [by apply gw_ok_metrics|].
    eapply out_admitted; [by apply admitted_metrics, admitted_metrics|done].
  - destruct (inc_ok _ _ (handshakes (set_exit (set_store g st) ex)) ["rejected"%string] Hg1) as (m & -> & Hg2);
      [by rewrite E0|]. mstep.
    eexists _, _, _. split; [done|]. split; [done|]. by apply out_refused.
Qed.

(** Counting a data decision changes the metrics only. *)
Lemma count_data pool g d label :
  gw_ok pool (set_plane g d) →
  ∃ m, inc (set_plane g d) (dataPackets (set_plane g d)) [label] = Ret (set_metrics (set_plane g d) m) ∧
    gw_ok pool (set_metrics (set_plane g d) m).
Proof.
  intros Hg. destruct (handles_eq _ _ Hg) as (_ & E & _).
  destruct (inc_ok _ _ (dataPackets (set_plane g d)) [label] Hg) as (m & -> & Hm); [by rewrite E|]. by exists m.
Qed.

Lemma handleData_data pool g d dp p dec id :
  let first := bool_decide (dec = Replay.ReplayFirstCopy) in
  gw_ok pool (set_plane g dp) → SessionIDFromDatagram d = Ret (Ok id) →
  HandleClassified g d = Ret (set_plane g dp, Ok (p, dec)) →
  ∃ m, handleData g d = Ret (set_metrics (set_plane g dp) m,
                             mkDataRecord "data" false first (if first then p else []) id AddrZero) ∧
    gw_ok pool (set_metrics (set_plane g dp) m).
Proof.
  intros first Hg Hsid HC. unfold handleData. rewrite Hsid. mstep. rewrite HC. mstep. unfold first. clear first HC.
  assert (∀ label, ∃ m, inc (set_plane g dp) (dataPackets (set_plane g dp)) [label] = Ret (set_metrics (set_plane g dp) m) ∧
    gw_ok pool (set_metrics (set_plane g dp) m)) as Hinc by (intros label; by apply count_data).
  destruct dec; edestruct Hinc as (m & -> & Hm); mstep; by exists m.
Qed.

Lemma handleData_ok pool g d rkey now :
  gw_ok pool g →
  ∃ g' rec, handleData g d = Ret (g', rec) ∧ gw_ok pool g' ∧ outcome g d rkey now g' None rec.
Proof.
  intros Hg. destruct (SessionIDFromDatagram_total d) as [sid Hsid].
  destruct (HandleClassified_ok pool g d Hg) as (dp & r & HC & Hg1 & Hr). destruct r as [[p dec]|e].
  - destruct Hr as (id & n & Hid & Hau & Hstep).
    destruct (handleData_data pool g d dp p dec id Hg1 Hid HC) as (m & -> & Hm).
    eexists _, _. split; [done|]. split; [done|]. apply (out_data _ _ _ _ _ id n p); [done..|].
    destruct Hstep as (Hmv & Hst). split; [by apply (plane_moved_eq _ (set_plane g dp))|done].
  - unfold handleData. rewrite Hsid. mstep. rewrite HC. mstep.
    destruct (count_data _ _ _ "rejected" Hg1) as (m & -> & Hm). mstep.
    eexists _, _. split; [done|]. split; [done|]. apply out_drop; [done..|by apply (plane_moved_eq _ (set_plane g dp))|set_solver].
Qed.

Lemma HandleDatagram_ok pool g d rkey now :
  gw_ok pool g → (∀ k, rkey = Some k → length k = 32%nat) →
  ∃ g' reply rec, HandleDatagram g d rkey now = Ret (g', reply, rec) ∧ gw_ok pool g' ∧
    outcome g d rkey now g' reply rec.
Proof.
  intros Hg Hrk. unfold HandleDatagram.
  assert (∃ m, inc g (dataPackets g) ["rejected"%string] = Ret (set_metrics g m) ∧ gw_ok pool (set_metrics g m))
    as (m & Hinc & Hgm).
  { destruct (handles_eq _ _ Hg) as (_ & E & _). apply inc_ok; [done|by rewrite E]. }
  destruct (ClassifyDatagram_total d) as [k ->]. mstep. destruct k.
  - rewrite Hinc. mstep. eexists _, _, _. split; [done|]. split; [done|].
    apply out_drop; [done..|by apply plane_same|set_solver].
  - destruct (handleData_ok pool g d rkey now Hg) as (g' & rec & -> & ? & ?). mstep. by eexists _, _, _.
  - by apply handleHandshake_ok.
  - rewrite Hinc. mstep. eexists _, _, _. split; [done|]. split; [done|].
    apply out_drop; [done..|by apply plane_same|set_solver].
  - destruct (DecodePing_spec d) as [Hd|[(n & Hn & Hd & _)|(n & Hn & Hd & _)]]; rewrite Hd; mstep.
    + eexists _, _, _. split; [done|]. split; [done|].
    apply out_drop; [done..|by apply plane_same|set_solver].
    + destruct (DecodePing_encoded pingTypePong n Hn) as (pong & Hp & _); [by right|]. unfold EncodePong. rewrite Hp. mstep.
      eexists _, _, _. split; [done|]. split; [done|]. by eapply out_pong.
    + eexists _, _, _. split; [done|]. split; [done|].
    apply out_drop; [done..|by apply plane_same|set_solver].
Qed.

(** ** One iteration of each loop *)

(** The keys after a step: as before, or with one admitted session. *)
Definition keys_step (g g' : DataGateway) (d : bytes) (rkey : option bytes) (now : Time) : Prop :=
  keys (store g') = keys (store g) ∨
  ∃ g1 sh claims id ip, admitted g g1 d rkey now sh claims id ip ∧ keys (store g') = keys (store g1).

(** The paths after a step: as before, or with the source of an authenticated
    datagram recorded for the session it authenticated as. *)
Definition paths_step (g g' : DataGateway) (d : bytes) (src : option AddrPort) (now : Time) : Prop :=
  same_paths g g' ∨
  ∃ id n p ap ps, authenticated g d id n p ∧ src = Some ap ∧
    (Router.paths <$> exit g) = Some ps ∧ (Router.paths <$> exit g') = Some (PathSet.record ps id ap now).

(** The data plane after a datagram: at most the packet it authenticated was observed. *)
Definition observed (g g' : DataGateway) (d : bytes) : Prop :=
  ∃ x, plane_moved g g' x ∧ ∀ id n, x = Some (id, n) → ∃ p, authenticated g d id n p.

(** A packet written to the device: the payload of an authenticated datagram of
    the session that holds the lease of its source address, the first to arrive
    with its number. *)
Definition tun_write (g g' : DataGateway) (d p : bytes) : Prop :=
  ∃ id n r, authenticated g d id n p ∧ plane_step g g' id n true ∧ exit g = Some r ∧ Router.ipv4_ok p = true ∧
    Allocator.LeaseOf (Router.alloc r) id = Some (Router.src_of p).

Lemma outcome_frame g d rkey now g' reply rec :
  outcome g d rkey now g' reply rec →
  keys_step g g' d rkey now ∧ same_paths g g' ∧ observed g g' d.
Proof.
  intros Ho. destruct Ho as [g' sh claims id ip Ha Hp|g' Hst Hp|g' id n p first Hau Hst He Hpl|g' kind Hst He Hpl _|].
  - split; [right; by exists g', sh, claims, id, ip|]. split; [done|]. exists None. split; [by apply plane_same, Ha|done].
  - split; [left; by rewrite Hst|]. split; [done|]. exists None. split; [by apply plane_same|done].
  - split; [left; by rewrite Hst|]. unfold same_paths. rewrite He. split; [done|]. exists (Some (id, n)).
    split; [apply Hpl|]. intros ? ? [= <- <-]. by exists p.
  - split; [left; by rewrite Hst|]. unfold same_paths. rewrite He. split; [done|]. by exists None.
  - split; [by left|]. split; [done|]. exists None. split; [by apply plane_same|done].
Qed.

(** A record with a session is that of an authenticated datagram. *)
Lemma outcome_data g d rkey now g' reply rec :
  outcome g d rkey now g' reply rec → String.eqb (Kind rec) "data" = true → IsZero (RSession rec) = false →
  ∃ n p, authenticated g d (RSession rec) n p ∧ store g' = store g ∧ exit g' = exit g ∧
    plane_step g g' (RSession rec) n (Deliver rec) ∧ (Deliver rec = true → Payload rec = p).
Proof.
  intros Ho. destruct Ho as [g' sh claims id ip Ha Hp|g' Hst Hp|g' id n p first Ha Hst He Hpl|g' kind Hst He _|]; try done.
  intros _ _. exists n, p. split_and!; try done. cbn. by intros ->.
Qed.

Lemma metrics_refl pool g : gw_ok pool g → only_metrics pool g g.
Proof. intros Hg. split; [done|]. exists (metrics g). by destruct g. Qed.

(** The source of a data datagram is recorded for its session. *)
Definition record_path (r : Router.Router) (id : SessionID) (src : option AddrPort) (now : Time) : Router.Router :=
  match src with Some ap => Router.RecordPath r id ap now | None => r end.

(** What [serve_one] does with the record of a data datagram. *)
Lemma serve_data pool g datagram src rkey now wok g1 reply rec r :
  HandleDatagram g (take maxRead datagram) rkey now = Ret (g1, reply, rec) → gw_ok pool g1 → exit g1 = Some r →
  String.eqb (Kind rec) "data" = true → IsZero (RSession rec) = false →
  ∃ g', serve_one g datagram src rkey now wok =
      Ret (g', reply, if Deliver rec && Router.passes r (RSession rec) (Payload rec) then Some (Payload rec) else None) ∧
    gw_ok pool g' ∧ store g' = store g1 ∧ dataPlane g' = dataPlane g1 ∧
    exit g' = Some (record_path r (RSession rec) src now).
Proof.
  intros HH Hg1 Hx Hkind Hz. unfold serve_one. rewrite HH. mstep. rewrite Hx, Hkind, Hz. cbn [andb negb].
  set (g2 := match src with Some ap => set_exit g1 (Some (Router.RecordPath r (RSession rec) ap now)) | None => g1 end).
  assert (exit g2 = Some (record_path r (RSession rec) src now) ∧ store g2 = store g1 ∧ dataPlane g2 = dataPlane g1)
    as (Hx2 & Hst & Hpl) by (unfold g2; by destruct src).
  assert (gw_ok pool g2) as Hg2.
  { unfold g2. destruct src as [ap|]; [|done]. apply gw_ok_exit; [done|]. by apply (gw_exit _ _ Hg1 r Hx). }
  destruct (Deliver rec); cbn [andb]; [|by exists g2]. rewrite Hx2.
  destruct (Router.Egress_eq (I := only_metrics pool g2) (record_path r (RSession rec) src now) g2 (RSession rec)
    (Payload rec) wok (metrics_refl pool g2 Hg2)) as (g3 & res & -> & [Hg3 [m ->]] & _). mstep.
  assert (Router.passes (record_path r (RSession rec) src now) = Router.passes r) as -> by by destruct src.
  by eexists.
Qed.

(** A datagram that is no data is answered, and nothing is written. *)
Lemma serve_other g datagram src rkey now wok g1 reply rec :
  HandleDatagram g (take maxRead datagram) rkey now = Ret (g1, reply, rec) → String.eqb (Kind rec) "data" = false →
  serve_one g datagram src rkey now wok = Ret (g1, reply, None).
Proof. intros HH Hk. unfold serve_one. rewrite HH. mstep. destruct (exit g1); [by rewrite Hk|done]. Qed.

Lemma serve_one_ok pool g datagram src rkey now wok :
  gw_ok pool g → (∀ k, rkey = Some k → length k = 32%nat) →
  ∃ g' reply out, serve_one g datagram src rkey now wok = Ret (g', reply, out) ∧ gw_ok pool g' ∧
    keys_step g g' (take maxRead datagram) rkey now ∧ paths_step g g' (take maxRead datagram) src now ∧
    observed g g' (take maxRead datagram) ∧ ∀ p, out = Some p → tun_write g g' (take maxRead datagram) p.
Proof.
  intros Hg Hrk. set (d := take maxRead datagram).
  destruct (HandleDatagram_ok pool g d rkey now Hg Hrk) as (g1 & reply & rec & HH & Hg1 & Ho).
  destruct (outcome_frame _ _ _ _ _ _ _ Ho) as (Hkeys & Hpaths & Hplane).
  assert (serve_one g datagram src rkey now wok = Ret (g1, reply, None) →
    ∃ g' reply' out, serve_one g datagram src rkey now wok = Ret (g', reply', out) ∧ gw_ok pool g' ∧
      keys_step g g' d rkey now ∧ paths_step g g' d src now ∧ observed g g' d ∧
      ∀ p, out = Some p → tun_write g g' d p) as Hstop.
  { intros ->. eexists _, _, _. split; [done|]. split_and!; try done. by left. }
  destruct (exit g1) as [r|] eqn:Hx; [|apply Hstop; unfold serve_one, d in *; rewrite HH; mstep; by rewrite Hx].
  destruct (String.eqb (Kind rec) "data" && negb (IsZero (RSession rec))) eqn:Hdata.
  2: { apply Hstop. unfold serve_one, d in *. rewrite HH. mstep. by rewrite Hx, Hdata. }
  apply andb_true_iff in Hdata as [Hkind Hz%negb_true_iff]. clear Hstop.
  destruct (outcome_data _ _ _ _ _ _ _ Ho Hkind Hz) as (n & p & Hau & Hst & He & Hstep & Hpay).
  destruct (serve_data pool g datagram src rkey now wok g1 reply rec r HH Hg1 Hx Hkind Hz) as (g' & -> & Hg' & Hst' & Hpl' & Hx').
  set (id := RSession rec) in *. eexists _, _, _. split; [done|]. split; [done|].
  assert (∀ first, plane_step g g1 id n first → plane_step g g' id n first) as Hsame.
  { intros first (Hmv & ? & ? & ?). split; [by apply (plane_moved_eq _ g1)|]. unfold spent in *. by rewrite Hpl'. }
  split_and!.
  - left. by rewrite Hst', Hst.
  - unfold paths_step, same_paths. rewrite Hx', <-He, Hx. unfold record_path. cbn.
    destruct src as [ap|]; [right|by left]. by exists id, n, p, ap, (Router.paths r).
  - exists (Some (id, n)). split; [apply (Hsame _ Hstep)|]. intros ? ? [= <- <-]. by exists p.
  - intros q. destruct (Deliver rec) eqn:Hdel; [|done]. cbn [andb]. destruct (Router.passes r id (Payload rec)) eqn:Hpass; [|done].
    intros [= <-]. unfold Router.passes in Hpass. apply andb_true_iff in Hpass as [Hip Hl%bool_decide_eq_true].
    exists id, n, r. rewrite (Hpay eq_refl) in *. split_and!; try done; [by apply Hsame|congruence].
Qed.

(** A datagram sent back: the packet read from the device, sealed for the session
    that holds the lease of its destination, to a fresh endpoint of that session. *)
Definition sent_back (g : DataGateway) (packet : bytes) (now : Time) (b : bytes) (ep : AddrPort) : Prop :=
  ∃ r id key n, exit g = Some r ∧ Router.ipv4_ok packet = true ∧
    Allocator.Lookup (Router.alloc r) (Router.dst_of packet) = Some id ∧
    keys (store g) !! id = Some key ∧ is_u64 n ∧ b = frame_of id key RoleResponder n packet ∧
    ep ∈ (PathSet.Fresh (Router.paths r) id now).2.

(** The return loop neither admits sessions nor accepts packets. *)
Definition returned (g g' : DataGateway) : Prop :=
  store g' = store g ∧ plane_moved g g' None ∧ (is_Some (exit g) → is_Some (exit g')).

Lemma return_one_ok pool g packet now send_ok :
  gw_ok pool g →
  ∃ g' out, return_one g packet now send_ok = Ret (g', out) ∧ gw_ok pool g' ∧ returned g g' ∧
    ∀ b ep, (b, ep) ∈ out → sent_back g packet now b ep.
Proof.
  intros Hg. unfold return_one. destruct (exit g) as [r|] eqn:Hx.
  2: { eexists _, _. split; [done|]. split; [done|]. split; [|intros b ep Hin; by apply elem_of_nil in Hin].
       split_and!; [done|by apply plane_same|by rewrite Hx]. }
  assert (∀ g0 reason, gw_ok pool g0 → store g0 = store g → plane_moved g g0 None → ∃ g' out,
    ('(r, g, out) ← (s ← Router.Dropped reason g0; Ret (r, s, []) : go (Router.Router * DataGateway * list (bytes * AddrPort)));
     Ret (set_exit g (Some r), out)) = Ret (g', out) ∧ gw_ok pool g' ∧ returned g g' ∧
    ∀ b ep, (b, ep) ∈ out → sent_back g packet now b ep) as Hdrop.
  { intros g0 reason Hg0 Hst Hpl.
    destruct (Router.dropped_ok (I := only_metrics pool g0) reason g0 (metrics_refl pool g0 Hg0)) as (g1 & -> & [Hg1 [m ->]]).
    mstep. eexists _, _. split; [done|]. split; [by apply gw_ok_exit; [|apply (gw_exit _ _ Hg)]|].
    split; [split; [done|]; split; [by apply (plane_moved_eq _ g0)|done]|]. intros b ep Hin. by apply elem_of_nil in Hin. }
  unfold Router.return_one. rewrite Router.parseIPv4_eq. mstep.
  destruct (Router.ipv4_ok packet) eqn:Hip; [|by apply Hdrop, plane_same].
  destruct (Allocator.Lookup (Router.alloc r) (Router.dst_of packet)) as [id|] eqn:Hl; [|by apply Hdrop, plane_same].
  unfold Router.FrameReturn, gateway_framer.
  destruct (FrameReturn_ok pool g id packet Hg) as (d & f & -> & Hg1 & Hpl & Hf). mstep.
  destruct f as [b|e]; [|by apply Hdrop].
  destruct Hf as (key & n & Hk & Hn & ->).
  destruct (PathSet.Fresh (Router.paths r) id now) as [ps dsts] eqn:HF.
  destruct (Router.send_all_ok (I := only_metrics pool (set_plane g d)) (set_plane g d)
    (frame_of id key RoleResponder n packet) dsts send_ok (metrics_refl pool _ Hg1)) as (g2 & -> & [Hg2 [m ->]]). mstep.
  eexists _, _. split; [done|]. split; [apply gw_ok_exit; [done|by apply (gw_exit _ _ Hg r Hx)]|].
  split; [split; [done|]; split; [by apply (plane_moved_eq _ (set_plane g d))|done]|].
  intros b ep (ep' & [= -> ->] & Hin)%list_elem_of_fmap.
  exists r, id, key, n. rewrite HF. by split_and!.
Qed.

(** ** Runs *)

(** The two loops of [Serve], interleaved one iteration at a time. *)
Inductive event :=
| EvDatagram (d : bytes) (src : option AddrPort) (rkey : option bytes) (now : Time) (write_ok : bool)
| EvReturn (packet : bytes) (now : Time) (send_ok : AddrPort → bool).

Inductive output := OutReply (reply : option bytes) (tun : option bytes) | OutReturn (sent : list (bytes * AddrPort)).

Definition step (g : DataGateway) (e : event) : go (DataGateway * output) :=
  match e with
  | EvDatagram d src rkey now wok =>
      '(g, reply, out) ← serve_one g d src rkey now wok; Ret (g, OutReply reply out)
  | EvReturn packet now send_ok => '(g, out) ← return_one g packet now send_ok; Ret (g, OutReturn out)
  end.

Fixpoint run (g : DataGateway) (es : list event) : go (DataGateway * list output) :=
  match es with
  | [] => Ret (g, [])
  | e :: es => '(g, o) ← step g e; '(g, os) ← run g es; Ret (g, o :: os)
  end.

(** [ecdh.X25519().GenerateKey] yields 32-byte keys. *)
Definition event_ok (e : event) : Prop :=
  match e with
  | EvDatagram _ _ (Some k) _ _ => length k = 32%nat
  | _ => True
  end.

Lemma step_datagram g d src rkey now wok g' reply out :
  serve_one g d src rkey now wok = Ret (g', reply, out) →
  step g (EvDatagram d src rkey now wok) = Ret (g', OutReply reply out).
Proof. intros HS. unfold step. by rewrite HS. Qed.

(** What no step undoes: admission, the exit path and the packets spent. *)
Record grows (g g' : DataGateway) : Prop := {
  gr_keys : keys (store g) ⊆ keys (store g');
  gr_exit : is_Some (exit g) → is_Some (exit g');
  gr_spent : plane_kept g g'
}.

#[export] Instance grows_preorder : PreOrder grows.
Proof.
  split; [intros g; split; [done|done|by apply plane_same]|].
  intros g1 g2 g3 [] []. split; [by etransitivity|by auto|]. intros id n Hn Hs. by auto.
Qed.

Lemma keys_step_grows g g' d rkey now : keys_step g g' d rkey now → keys (store g) ⊆ keys (store g').
Proof.
  intros [->|(g1 & sh & claims & id & ip & [Had Hfree _] & ->)]; [done|].
  destruct Had as (h & _ & _ & _ & _ & ephPriv & key & ip4 & _ & _ & -> & _). by apply insert_weaken.
Qed.

Lemma paths_step_exit g g' d src now : paths_step g g' d src now → is_Some (exit g) → is_Some (exit g').
Proof.
  intros [Hs|(id & n & p & ap & ps & _ & _ & _ & Hs)] [r Hr].
  - unfold same_paths in Hs. rewrite Hr in Hs. destruct (exit g'); [by eexists|done].
  - destruct (exit g'); [by eexists|done].
Qed.

(** The datagram [d] carries packet [n] of session [id], sealed by the client under [key]. *)
Definition received_by (key : bytes) (id : SessionID) (e : event) : option Z :=
  match e with
  | EvDatagram d _ _ _ _ =>
      let d := take maxRead d in
      match parseHeader d with
      | Ret (Ok (pid, dir, off)) =>
          if decide (Protocol.Session pid = id ∧ dir = dirInitiator ∧ off = dataHeaderSize) then
            match aead_open key (nonce_bytes dirInitiator (Number pid)) (drop dataHeaderSize d) (take dataHeaderSize d) with
            | Some _ => Some (Number pid)
            | None => None
            end
          else None
      | _ => None
      end
  | EvReturn _ _ _ => None
  end.
(** The packet numbers of a session that the gateway received, in order. *)
Definition received (key : bytes) (id : SessionID) (es : list event) : list Z := omap (received_by key id) es.

(** Number [n] has not been received, and no number received is [cap] or more ahead of it. *)
Definition in_window (cap : Z) (seen : list Z) (n : Z) : Prop := n ∉ seen ∧ Forall (λ m, m - n < cap) seen.
#[export] Instance in_window_dec cap seen n : Decision (in_window cap seen n).
Proof. apply and_dec; apply _. Defined.

(** What an event can have observed. *)
Definition observes (g g' : DataGateway) (e : event) : Prop :=
  ∃ x, plane_moved g g' x ∧
    ∀ id n, x = Some (id, n) → ∃ key, keys (store g) !! id = Some key ∧ received_by key id e = Some n.

Lemma received_authenticated g d id n p src rkey now wok :
  authenticated g (take maxRead d) id n p →
  ∃ key, keys (store g) !! id = Some key ∧ received_by key id (EvDatagram d src rkey now wok) = Some n.
Proof.
  intros (key & Hk & Hp & Ho). exists key. split; [done|]. unfold received_by. rewrite Hp. cbn [Protocol.Session Number].
  rewrite decide_True by done. by rewrite Ho.
Qed.

Lemma step_ok pool g e :
  gw_ok pool g → event_ok e →
  ∃ g' o, step g e = Ret (g', o) ∧ gw_ok pool g' ∧ grows g g' ∧ observes g g' e.
Proof.
  intros Hg He. destruct e as [d src rkey now wok|packet now send_ok]; cbn [step].
  - destruct (serve_one_ok pool g d src rkey now wok Hg) as (g' & reply & out & -> & Hg' & Hk & Hp & (x & Hx & Hau) & _).
    { intros k ->. done. }
    mstep. eexists _, _. split; [done|]. split; [done|].
    split; [split; [by eapply keys_step_grows|by eapply paths_step_exit|apply Hx]|]. exists x. split; [done|].
    intros id n E. destruct (Hau id n E) as [p Hp']. by eapply received_authenticated.
  - destruct (return_one_ok pool g packet now send_ok Hg) as (g' & out & -> & Hg' & (Hst & Hpl & Hx) & _). mstep.
    eexists _, _. split; [done|]. split; [done|]. split; [split; [by rewrite Hst|done|apply Hpl]|]. by exists None.
Qed.

Lemma gw_run_ok pool g es :
  gw_ok pool g → Forall event_ok es → ∃ g' os, run g es = Ret (g', os) ∧ gw_ok pool g' ∧ grows g g'.
Proof.
  intros Hg Hes. revert g Hg. induction Hes as [|e es He _ IH]; intros g Hg; [by eexists _, _|]. cbn [run].
  destruct (step_ok pool g e Hg He) as (g1 & o & -> & Hg1 & Hk1 & _). mstep.
  destruct (IH g1 Hg1) as (g2 & os & -> & Hg2 & Hk2). mstep.
  eexists _, _. split; [done|]. split; [done|]. by etransitivity.
Qed.

(** A number in the window of what was received since [g] is spent only if it was. *)
Lemma run_unspent pool g es g1 os id key n :
  gw_ok pool g → widths g → Forall event_ok es → run g es = Ret (g1, os) → keys (store g1) !! id = Some key →
  is_u64 n → n ≠ 0 → in_window (capacity (dataPlane g)) (received key id es) n → spent g1 id n → spent g id n.
Proof.
  intros Hg Hw Hes Hrun Hk Hn Hnz Hin. revert g os Hg Hw Hrun Hin.
  induction Hes as [|e es He Hes IH]; intros g os Hg Hw Hrun Hin; [by injection Hrun as <- <-|]. cbn [run] in Hrun.
  apply go_bind_inv in Hrun as ([g' o] & Hst & Hrun). apply go_bind_inv in Hrun as ([g2 os'] & Hrun & E). injection E as <- _.
  destruct (step_ok pool g e Hg He) as (g'' & o' & Hst' & Hg' & Hgr & x & Hmv & Hx). rewrite Hst in Hst'. injection Hst' as <- <-.
  destruct (gw_run_ok pool g' es Hg' Hes) as (g3 & os3 & Hrun3 & _ & Hgr'). rewrite Hrun in Hrun3. injection Hrun3 as <- <-.
  destruct Hin as [Hnot Hall]. unfold received in Hnot, Hall. cbn [omap list_omap] in Hnot, Hall.
  intros Hsp. assert (spent g' id n) as Hsp'.
  { eapply IH; [done|by apply (pm_width _ _ _ Hmv)|done| |done]. rewrite (pm_cap _ _ _ Hmv). unfold received.
    destruct (received_by key id e); [|done]. split; [set_solver|by inversion Hall]. }
  destruct (pm_new _ _ _ Hmv Hw id n Hn Hnz Hsp') as [|(m & -> & Hm)]; [done|]. exfalso.
  destruct (Hx id m eq_refl) as (key' & Hk' & Hrec).
  pose proof (lookup_weaken _ _ _ _ (lookup_weaken _ _ _ _ Hk' (gr_keys _ _ Hgr)) (gr_keys _ _ Hgr')) as Hk2.
  rewrite Hk in Hk2. injection Hk2 as <-. rewrite Hrec in Hnot, Hall. apply Forall_cons in Hall as [Hlt _].
  destruct Hm as [->|Hm]; [set_solver|lia].
Qed.

(** ** The gateway as [main] starts it *)

(** With or without the exit path; [pool] are the addresses it may lease. *)
Inductive started : list Addr → DataGateway → Prop :=
| started_probe priv svc cap :
    length priv = 64%nat → 0 < cap ≤ 2 ^ 63 - 64 → started [] (NewDataGateway priv svc cap)
| started_exit priv svc cap p a ttl :
    length priv = 64%nat → 0 < cap ≤ 2 ^ 63 - 64 → prefix_ok p →
    Allocator.NewAllocator p = Ret (Ok a) →
    started (Allocator.free a)
      (EnableExit (NewDataGateway priv svc cap) (Router.NewRouter a (PathSet.NewPathSet ttl))).

Lemma new_gateway_ok priv svc cap pool :
  length priv = 64%nat → 0 < cap ≤ 2 ^ 63 - 64 → Forall (λ a, Is4 a = true) pool →
  gw_ok pool (NewDataGateway priv svc cap).
Proof.
  intros Hp Hc H4. split; try done; cbn; try (intros id s Hs; by rewrite lookup_empty in Hs).
  split; cbn; try done; repeat (constructor; [apply Metrics.new_metric_ok|]); constructor.
Qed.

Lemma started_ok pool g : started pool g → gw_ok pool g.
Proof.
  intros [priv svc cap Hp Hc|priv svc cap p a ttl Hp Hc Hpre Ha]; [by apply new_gateway_ok|].
  apply gw_ok_exit; [|by eapply Allocator.NewAllocator_ok]. apply new_gateway_ok; [done..|].
  apply Allocator.NewAllocator_inv in Ha as (n & b & _ & _ & _ & _ & ->); [|done]. cbn.
  apply Forall_forall. intros x (m & -> & _)%Allocator.elem_usable. done.
Qed.

Lemma started_empty pool g : started pool g → sessions (dataPlane g) = ∅.
Proof. by intros []. Qed.

Lemma reached_ok pool g es g1 os :
  started pool g → Forall event_ok es → run g es = Ret (g1, os) → gw_ok pool g1.
Proof.
  intros Hs Hes Hrun. destruct (gw_run_ok pool g es (started_ok _ _ Hs) Hes) as (g1' & os' & Hr & Hg1 & _).
  rewrite Hrun in Hr. by injection Hr as <- <-.
Qed.

(** A number that was not received before, and is not behind the window, is not spent. *)
Lemma unseen_unspent pool g es g1 os id key n :
  started pool g → Forall event_ok es → run g es = Ret (g1, os) → keys (store g1) !! id = Some key →
  is_u64 n → n ≠ 0 → in_window (capacity (dataPlane g)) (received key id es) n → ¬ spent g1 id n.
Proof.
  intros Hs Hes Hrun Hk Hn Hnz Hin Hsp. pose proof (started_empty _ _ Hs) as He.
  assert (widths g) as Hw by (intros id' s; rewrite He; by rewrite lookup_empty).
  destruct (run_unspent pool g es g1 os id key n (started_ok _ _ Hs) Hw Hes Hrun Hk Hn Hnz Hin Hsp) as (s & E & _).
  rewrite He in E. by rewrite lookup_empty in E.
Qed.

(** The client's ClientHello, as the gateway decodes it. *)
Lemma Begin_inv identity token rid ck now hello hs :
  length ck = 32%nat →
  BeginClientHandshake identity token (Some rid) (Some ck) now = Ret (Ok (hello, hs)) →
  let h := mkClientHello (hs_sessionID hs) (unix now) (x25519_pub ck) token in
  client_hello_ok h ∧ hello = client_hello_bytes h ∧ IsZero (hs_sessionID hs) = false ∧
  hs_ephemeralPriv hs = ck ∧ hs_gatewayIdentity hs = identity ∧ length identity = 32%nat.
Proof.
  intros Hck. unfold BeginClientHandshake. case_decide as Hi; [done|].
  destruct (randomSessionID (Some rid)) as [id|] eqn:Hid; [|done]. cbn [gbind GenerateKeyPair]. intros HB.
  apply gbind_ok_inv in HB as (b & He & HB). injection HB as <- <-.
  destruct (EncodeClientHello_ok (mkClientHello id (unix now) (x25519_pub ck) token) b) as [Hok ->];
    [apply i64_range|done|]. cbn [hs_sessionID hs_ephemeralPriv hs_gatewayIdentity].
  split_and!; try done. by eapply randomSessionID_nonzero.
Qed.

Lemma Classify_client_hello h : ClassifyDatagram (client_hello_bytes h) = Ret KindClientHello.
Proof. unfold client_hello_bytes, hs_header. by rewrite <-!app_assoc, ClassifyDatagram_fields. Qed.

(** The gateway admits a fresh ClientHello with an admitted token and a free id. *)
Lemma AdmitHandshake_admits pool g h gk now claims key :
  gw_ok pool g → length gk = 32%nat → client_hello_ok h →
  CheckHandshakeFresh (ch_timestamp h) now (tolerance g) = Ok () →
  Entitlement.Admit (service g) (ch_token h) now = Ok claims →
  keys (store g) !! ch_id h = None →
  (∀ r, exit g = Some r → is_ok (Router.Lease r (ch_id h)).2 = true) →
  DeriveSessionKey gk (ch_eph h) (ch_id h) = Ok key →
  ∃ g' x, AdmitHandshake g (client_hello_bytes h) (Some gk) now = Ret (g', Ok x).
Proof.
  intros Hg Hgk Hok Hf Ha Hfree Hlease Hder.
  destruct (AdmitHandshake_ok pool g (client_hello_bytes h) (Some gk) now Hg) as (st & ex & r & HE & _ & _ & Hr).
  { by intros k [= <-]. }
  destruct r as [x|e]; [by eexists _, _|exfalso].
  unfold AdmitHandshake in HE. rewrite DecodeClientHello_bytes in HE by done. autorewrite with gomonad in HE.
  rewrite Hf in HE. cbn [GenerateKeyPair] in HE. rewrite Hder in HE. unfold Admit, register in HE.
  rewrite Ha, Hfree in HE. cbn [negb] in HE.
  set (g1 := set_store g (mkStore (<[ch_id h := key]> (keys (store g))))) in *.
  assert (gw_ok pool g1) as Hg1.
  { apply gw_ok_store; [done|by apply insert_weaken|]. intros id' k'. cbn. rewrite lookup_insert_Some.
    intros [[_ <-]|[_ ?]]; [by eapply derive_length|by eapply (gw_keys _ _ Hg)]. }
  destruct (lease_ok pool g1 (ch_id h) Hg1) as (ex' & l & HL & _ & _ & Hl). rewrite HL in HE.
  destruct l as [leased|e']; [|destruct Hl as (_ & r & Hx & Hno); by rewrite Hlease in Hno].
  assert (∃ ip4, (match leased with Some addr => As4 addr | None => Ret zeroIPv4 end) = Ret ip4) as [ip4 Hip].
  { destruct leased as [addr|]; [|by eexists]. destruct Hl as (? & ? & _ & _ & _ & [n ->] & _). by eexists. }
  rewrite Hip in HE. autorewrite with gomonad in HE. cbn [identityPriv set_exit g1 set_store] in HE.
  rewrite SignHandshake_ret in HE by apply Hg. autorewrite with gomonad in HE.
  pose proof (EncodeServerHello_layout (mkServerHello (ch_id h) (x25519_pub gk)
    (ed25519_sign (identityPriv g) (transcript (x25519_pub gk) (ch_id h))) ip4)) as HEn.
  cbn [sh_id sh_eph sh_sig sh_ip] in HEn. rewrite HEn in HE; [done|].
  split; cbn; [by apply x25519_pub_length|by apply ed25519_sign_length, Hg].
Qed.

Lemma handleHandshake_admitted g d rkey now g' x :
  AdmitHandshake g d rkey now = Ret (g', Ok x) →
  ∀ g2 reply rec, handleHandshake g d rkey now = Ret (g2, reply, rec) → WasAdmitted rec = true.
Proof.
  intros HA g2 reply rec. unfold handleHandshake. rewrite HA. mstep. destruct x as [[[sh claims] id] ip].
  intros (g3 & _ & H3)%go_bind_inv. apply go_bind_inv in H3 as (m & _ & H3). by injection H3 as _ _ <-.
Qed.

(** The client accepts the gateway's answer and derives the gateway's key. *)
Lemma Complete_answer g seed id gk ck ip4 cap key :
  identityPriv g = ed25519_key seed → length seed = 32%nat → length gk = 32%nat → length ck = 32%nat → IsZero id = false →
  0 < cap ≤ 2 ^ 63 - 64 → DeriveSessionKey gk (x25519_pub ck) id = Ok key →
  ∃ c, Complete (mkClientHandshake id ck (ed25519_public (identityPriv g))) (answer g id gk ip4) cap = Ret (Ok c) ∧
    sid c = id ∧ slr c = mkSealer key ∧ role c = RoleInitiator ∧ session_ok c [] ∧ AssignedIPv4 c = ip4.
Proof.
  intros Hseed Hs32 Hgk Hck Hz Hc Hder. assert (length (identityPriv g) = 64%nat) as Hp by (rewrite Hseed; by apply ed25519_key_length).
  unfold Complete, answer. rewrite DecodeServerHello_bytes.
  2: { split; cbn; [by apply x25519_pub_length|by apply ed25519_sign_length]. }
  mstep. cbn [sh_id sh_eph sh_sig sh_ip hs_sessionID hs_ephemeralPriv hs_gatewayIdentity].
  rewrite decide_False by (intros Hne; by apply Hne). unfold VerifyHandshake.
  rewrite decide_False by (unfold ed25519_public; rewrite length_drop, Hp; lia).
  rewrite decide_False by (rewrite ed25519_sign_length; [intros Hne; by apply Hne|done]).
  rewrite Hseed, ed25519_verify_sign by done. cbn [negb]. mstep. rewrite derive_agree, Hder by done. mstep.
  destruct (NewSession_ok id key RoleInitiator cap Hz) as [s Hs]; [by eapply derive_length|done|].
  rewrite Hs. mstep. apply NewSession_inv in Hs as ([] & ? & ? & ? & ?); [|unfold is_i64; lia].
  eexists. split; [done|]. by split_and!.
Qed.

(** The data plane opens the gateway's end of an admitted session. *)
Lemma sessionFor_new pool g id key :
  gw_ok pool g → sessions (dataPlane g) !! id = None → keys (store g) !! id = Some key → IsZero id = false →
  ∃ dp s, sessionFor (store g) (dataPlane g) id = Ret (dp, Ok s) ∧
    sid s = id ∧ slr s = mkSealer key ∧ role s = RoleResponder ∧ session_ok s [].
Proof.
  intros Hg Hn Hk Hz. destruct (sessionFor_ok pool g id Hg) as (dp & r & HS & _ & _ & _ & Hr).
  unfold sessionFor, SessionKey in *. rewrite Hn, Hk in *.
  destruct (NewSession_ok id key RoleResponder (capacity (dataPlane g)) Hz) as [s Hs];
    [by eapply (gw_keys _ _ Hg)|apply Hg|]. rewrite Hs in *. autorewrite with gomonad in *.
  apply NewSession_inv in Hs as (? & ? & ? & ? & _); [|pose proof (gw_cap _ _ Hg); unfold is_i64; lia].
  eexists _, _. split; [done|]. by split_and!.
Qed.

(** ** Properties *)

(** C29: The gateway never panics and never rebinds a session.  Over any sequence of
    datagrams, from any sources, and return packets, both loops return; the key
    of an admitted session never changes afterwards; and every session of the
    data plane is a responder session of an admitted id, under that id's key. *)
Theorem gateway_sessions_stable (pool : list Addr) (g : DataGateway) (es es' : list event) :
  started pool g → Forall event_ok es → Forall event_ok es' →
  ∃ g1 os1 g2 os2, run g es = Ret (g1, os1) ∧ run g1 es' = Ret (g2, os2) ∧
    (∀ id key, keys (store g1) !! id = Some key → keys (store g2) !! id = Some key) ∧
    (∀ id s, sessions (dataPlane g2) !! id = Some s →
       role s = RoleResponder ∧ sid s = id ∧ keys (store g2) !! id = Some (skey (slr s))).
Proof.
  intros Hs Hes Hes'. destruct (gw_run_ok pool g es (started_ok _ _ Hs) Hes) as (g1 & os1 & -> & Hg1 & _).
  destruct (gw_run_ok pool g1 es' Hg1 Hes') as (g2 & os2 & Hr & Hg2 & [Hsub _ _]).
  exists g1, os1, g2, os2. split_and!; try done.
  - intros id key Hk. by eapply lookup_weaken.
  - intros id s Hsess. destruct (gw_sessions _ _ Hg2 id s Hsess) as (key & prior & ? & ? & ? & -> & _). done.
Qed.

(** C8: Who gets a session.  A step of the gateway registers a key only for the id of
    a fresh ClientHello that decodes, whose token the entitlement service admits
    (on a hosted gateway: a valid token), and the key is the one agreed with the
    ephemeral key of that ClientHello; every other datagram leaves the keys as
    they were. *)
Theorem only_admitted_registered (pool : list Addr) (g g1 g2 : DataGateway) (es : list event) (os : list output)
    (d : bytes) (src : option AddrPort) (rkey : option bytes) (now : Time) (wok : bool) (o : output) :
  started pool g → Forall event_ok es → run g es = Ret (g1, os) →
  event_ok (EvDatagram d src rkey now wok) → step g1 (EvDatagram d src rkey now wok) = Ret (g2, o) →
  keys (store g2) = keys (store g1) ∨
  ∃ h claims ephPriv key, DecodeClientHello (take maxRead d) = Ret (Ok h) ∧
    CheckHandshakeFresh (ch_timestamp h) now (tolerance g1) = Ok () ∧
    Entitlement.Admit (service g1) (ch_token h) now = Ok claims ∧
    rkey = Some ephPriv ∧ DeriveSessionKey ephPriv (ch_eph h) (ch_id h) = Ok key ∧
    keys (store g1) !! ch_id h = None ∧ keys (store g2) = <[ch_id h := key]> (keys (store g1)).
Proof.
  intros Hs Hes Hrun He Hst. pose proof (reached_ok _ _ _ _ _ Hs Hes Hrun) as Hg1.
  destruct (serve_one_ok pool g1 d src rkey now wok Hg1) as (g' & reply & out & HS & _ & Hk & _).
  { intros k ->. exact He. }
  rewrite (step_datagram _ _ _ _ _ _ _ _ _ HS) in Hst. injection Hst as <- _.
  destruct Hk as [->|(g3 & sh & claims & id & ip & [Had Hfree _] & ->)]; [by left|right].
  destruct Had as (h & HD & <- & Hf & Ha & ephPriv & key & ip4 & Hrk & Hder & Hkeys & _).
  exists h, claims, ephPriv, key. by split_and!.
Qed.

(** C7: What traffic does.  A datagram makes the gateway write to the TUN device, or
    record a return path, only if it opened under the key admitted for the
    session it names; a packet written is that datagram's payload, a well-formed
    IPv4 packet from the address leased to that session, under a packet number the
    session's window still took for new and takes for new no more; and the path
    recorded is the datagram's own source, for that session. *)
Theorem only_authenticated_traffic (pool : list Addr) (g g1 g2 : DataGateway) (es : list event) (os : list output)
    (d : bytes) (src : option AddrPort) (rkey : option bytes) (now : Time) (wok : bool) (reply tun : option bytes) :
  started pool g → Forall event_ok es → run g es = Ret (g1, os) →
  event_ok (EvDatagram d src rkey now wok) →
  step g1 (EvDatagram d src rkey now wok) = Ret (g2, OutReply reply tun) →
  paths_step g1 g2 (take maxRead d) src now ∧
  ∀ p, tun = Some p → tun_write g1 g2 (take maxRead d) p.
Proof.
  intros Hs Hes Hrun He Hst. pose proof (reached_ok _ _ _ _ _ Hs Hes Hrun) as Hg1.
  destruct (serve_one_ok pool g1 d src rkey now wok Hg1) as (g' & reply' & out & HS & _ & _ & Hp & _ & Ht).
  { intros k ->. exact He. }
  rewrite (step_datagram _ _ _ _ _ _ _ _ _ HS) in Hst. injection Hst as <- _ <-. done.
Qed.

(** C12: Return traffic.  Whatever packet arrives from the TUN device, the return loop
    returns, and each datagram it sends is that packet, sealed by the gateway's
    session of the client holding the lease of the packet's destination (so that
    this client's session opens it to the same packet), sent to an endpoint that
    is fresh for that session. *)
Theorem return_traffic_reaches_owner `{!AEADLaws} (pool : list Addr) (g g1 : DataGateway) (es : list event)
    (os : list output) (packet : bytes) (now : Time) (send_ok : AddrPort → bool) :
  started pool g → Forall event_ok es → run g es = Ret (g1, os) →
  ∃ g2 out, step g1 (EvReturn packet now send_ok) = Ret (g2, OutReturn out) ∧
    ∀ b ep, (b, ep) ∈ out →
      ∃ r id key n, exit g1 = Some r ∧ keys (store g1) !! id = Some key ∧
        Allocator.LeaseOf (Router.alloc r) id = Some (Router.dst_of packet) ∧
        ep ∈ (PathSet.Fresh (Router.paths r) id now).2 ∧
        b = frame_of id key RoleResponder n packet ∧
        ∀ c prior, session_ok c prior → sid c = id → slr c = mkSealer key → role c = RoleInitiator → n ≠ 0 →
          ∃ c' dec, InboundClassified c b = Ret (c', Ok (packet, dec)).
Proof.
  intros Hs Hes Hrun. pose proof (reached_ok _ _ _ _ _ Hs Hes Hrun) as Hg1.
  destruct (return_one_ok pool g1 packet now send_ok Hg1) as (g2 & out & HR & _ & _ & Hout).
  exists g2, out. cbn [step]. rewrite HR. split; [done|]. intros b ep Hin.
  destruct (Hout b ep Hin) as (r & id & key & n & Hx & Hip & Hl & Hk & Hn & -> & Hep).
  exists r, id, key, n. split_and!; try done.
  { by apply (Allocator.ao_inverse _ _ (gw_exit _ _ Hg1 r Hx)). }
  intros c prior Hc Hsid Hslr Hrole Hn0.
  destruct (Inbound_frame c prior RoleResponder n packet Hc) as (w & HI & _).
  - by rewrite Hrole.
  - unfold is_u64 in Hn. lia.
  - rewrite Hsid, Hslr in HI. by eexists _, _.
Qed.

(** C10: The handshake opens a channel.  A client that begins a handshake with the
    gateway's identity pinned (a key generated from a seed), a clock within the
    tolerance, an admitted token, a fresh session id and (when the exit path is on) an
    address left in the pool, and whose ClientHello fits the gateway's read buffer of
    2048 bytes, gets a ServerHello from the read loop, completes it, and both ends
    then hold a session with the same id and the same key in opposite roles, the
    client's assigned address being its lease. *)
Theorem handshake_opens_channel (pool : list Addr) (g : DataGateway) (es : list event) (g1 : DataGateway)
    (os : list output) (seed token : bytes) (rid : SessionID) (ck gk : bytes) (now_c now : Time) (cap : Z)
    (hello : bytes) (hs : ClientHandshake) (claims : Entitlement.Claims) (key : bytes) (src : option AddrPort) (wok : bool) :
  started pool g → Forall event_ok es → run g es = Ret (g1, os) →
  identityPriv g1 = ed25519_key seed → length seed = 32%nat →
  length ck = 32%nat → length gk = 32%nat → 0 < cap ≤ 2 ^ 63 - 64 →
  BeginClientHandshake (ed25519_public (identityPriv g1)) token (Some rid) (Some ck) now_c = Ret (Ok (hello, hs)) →
  (length hello ≤ maxRead)%nat →
  CheckHandshakeFresh (unix now_c) now (tolerance g1) = Ok () →
  Entitlement.Admit (service g1) token now = Ok claims →
  keys (store g1) !! hs_sessionID hs = None →
  (∀ r, exit g1 = Some r → is_ok (Router.Lease r (hs_sessionID hs)).2 = true) →
  DeriveSessionKey gk (x25519_pub ck) (hs_sessionID hs) = Ok key →
  ∃ g2 sh c dp s, step g1 (EvDatagram hello src (Some gk) now wok) = Ret (g2, OutReply (Some sh) None) ∧
    Complete hs sh cap = Ret (Ok c) ∧
    sessionFor (store g2) (dataPlane g2) (hs_sessionID hs) = Ret (dp, Ok s) ∧
    sid c = hs_sessionID hs ∧ sid s = hs_sessionID hs ∧ slr c = mkSealer key ∧ slr s = mkSealer key ∧
    role c = RoleInitiator ∧ role s = RoleResponder ∧ session_ok c [] ∧ session_ok s [] ∧
    (∀ r, exit g2 = Some r → ∃ a, Allocator.LeaseOf (Router.alloc r) (hs_sessionID hs) = Some a ∧
       As4 a = Ret (AssignedIPv4 c)).
Proof.
  intros Hs Hes Hrun Hseed Hs32 Hck Hgk Hcap HB Hread Hf Ha Hfree Hlease Hder.
  pose proof (reached_ok _ _ _ _ _ Hs Hes Hrun) as Hg1.
  apply Begin_inv in HB as (Hok & -> & Hz & Hpriv & Hident & _); [|done].
  set (h := mkClientHello _ _ _ _) in *.
  destruct (AdmitHandshake_admits pool g1 h gk now claims key) as (g' & x & HA); try done.
  destruct (HandleDatagram_ok pool g1 (client_hello_bytes h) (Some gk) now Hg1) as (g2 & reply & rec & HH & Hg2 & Ho).
  { by intros k [= <-]. }
  assert (WasAdmitted rec = true) as Hadm.
  { unfold HandleDatagram in HH. rewrite Classify_client_hello in HH. autorewrite with gomonad in HH.
    by eapply handleHandshake_admitted. }
  destruct Ho as [g2 sh claims' id ip [Had Hfr Hpl] Hsp| | | |]; try done.
  destruct Had as (h' & HD & <- & _ & _ & gk' & key' & ip4 & [= <-] & Hder' & Hkeys & -> & Hip).
  rewrite DecodeClientHello_bytes in HD by done. injection HD as <-. cbn [ch_id ch_eph h] in *.
  assert (key' = key) as -> by congruence.
  destruct (Complete_answer g1 seed (hs_sessionID hs) gk ck ip4 cap key) as (c & HC & ? & ? & ? & ? & Hassigned); [done..|].
  destruct (sessionFor_new pool g2 (hs_sessionID hs) key Hg2) as (dp & s & HS & ? & ? & ? & ?); [| |done|].
  { rewrite Hpl. apply eq_None_not_Some. intros [s Hss]. apply (gw_sessions _ _ Hg1) in Hss as (k & _ & Hk & _).
    by rewrite Hfree in Hk. }
  { by rewrite Hkeys, lookup_insert_eq. }
  eexists g2, _, c, dp, s. split_and!; try done.
  - apply step_datagram. rewrite <-(take_ge (client_hello_bytes h) maxRead) in HH by done. by eapply serve_other.
  - destruct hs. cbn in Hpriv, Hident. by subst.
  - intros r Hx. destruct (exit g1) as [r1|] eqn:Hx1.
    + destruct Hip as (Has & r' & Hx' & _ & Hl). exists ip. assert (r' = r) as -> by congruence.
      by rewrite Hassigned.
    + unfold same_paths in Hsp. by rewrite Hx, Hx1 in Hsp.
Qed.

(** [EncodeClientHello] allows a token of 4096 bytes, the read buffer does not: a
    ClientHello longer than the buffer is cut short and gets no answer. *)
Lemma long_hello_unanswered pool (g : DataGateway) (h : ClientHello) src gk now wok :
  gw_ok pool g → length gk = 32%nat → client_hello_ok h → (maxRead < length (client_hello_bytes h))%nat →
  ∃ g', step g (EvDatagram (client_hello_bytes h) src (Some gk) now wok) = Ret (g', OutReply None None) ∧ store g' = store g.
Proof.
  intros Hg Hgk Hok Hlong. set (d := take maxRead (client_hello_bytes h)).
  assert (ClassifyDatagram d = Ret KindClientHello ∧ DecodeClientHello d = Ret (Err errHandshakeField)) as [Hc He].
  { unfold d. change maxRead with (64 + 1984)%nat. split.
    - rewrite client_hello_cut by done. unfold hs_header. by rewrite <-!app_assoc, ClassifyDatagram_fields.
    - apply DecodeClientHello_cut; [done|]. unfold client_hello_bytes, maxRead in Hlong. destruct Hok as (Heph & _).
      unfold hs_header in Hlong. rewrite !length_app, !length_be_bytes, Heph, length_vec_to_list in Hlong. cbn in Hlong. lia. }
  destruct (HandleDatagram_ok pool g d (Some gk) now Hg) as (g2 & reply & rec & HH & Hg2 & Ho).
  { by intros k [= <-]. }
  pose proof HH as HH'. unfold HandleDatagram in HH'. rewrite Hc in HH'. autorewrite with gomonad in HH'.
  unfold handleHandshake, AdmitHandshake in HH'.
  rewrite He in HH'. autorewrite with gomonad in HH'. apply go_bind_inv in HH' as (g3 & Hinc & [= -> <- <-]).
  exists g2. split; [|by inversion Ho]. apply step_datagram. by eapply serve_other.
Qed.

End laws.

End gateway.

(** ** Witnesses, at the toy primitives *)

Module Witness.
Import Toy.

Definition seed1 : bytes := gs "identity-seed-of-the-gateway-000".
Definition identity1 : bytes := ed25519_key seed1.
Definition gk1 : bytes := gs "gateway-ephemeral-private-key-01".
Definition ck1 : bytes := gs "client-ephemeral-private-key-001".
Definition rid1 : SessionID := arr 16 (gs "session-id-00001").
Definition now1 : Time := Unix 1767225600.
Definition wifi : AddrPort := mkAddrPort (Addr4 3405803777) 40001.
Definition svc1 : Entitlement.Service () := Entitlement.mkService Entitlement.ModeOpen [] None 0.
Definition g1 : DataGateway :=
  EnableExit (NewDataGateway identity1 svc1 64) (Router.NewRouter Allocator.alloc1 (PathSet.NewPathSet 0)).

Definition hello_hs : bytes * ClientHandshake :=
  match BeginClientHandshake (ed25519_public identity1) (gs "token") (Some rid1) (Some ck1) now1 with
  | Ret (Ok x) => x
  | _ => ([], mkClientHandshake zeroSession [] [])
  end.
Definition id1 : SessionID := hs_sessionID hello_hs.2.
Definition key1 : bytes := match DeriveSessionKey gk1 (x25519_pub ck1) id1 with Ok k => k | Err _ => [] end.

(** An IPv4 packet from the first leased address, 10.77.0.6, to 1.1.1.1, and one back. *)
Definition packet1 : bytes := z2b <$> [69; 0; 0; 20; 0; 0; 0; 0; 64; 17; 0; 0; 10; 77; 0; 6; 1; 1; 1; 1].
Definition packet2 : bytes := z2b <$> [69; 0; 0; 20; 0; 0; 0; 0; 64; 17; 0; 0; 1; 1; 1; 1; 10; 77; 0; 6].
Definition data1 : bytes := frame_of id1 key1 RoleInitiator 1 packet1.

Definition hello_event : event := EvDatagram hello_hs.1 (Some wifi) (Some gk1) now1 true.
Definition data_event : event := EvDatagram data1 (Some wifi) None now1 true.

Lemma started1 : started (Allocator.free Allocator.alloc1) g1.
Proof.
  apply (started_exit identity1 svc1 64 Allocator.pool1 Allocator.alloc1 0).
  - reflexivity.
  - lia.
  - unfold prefix_ok, addr_ok, Allocator.pool1. cbn [paddr pbits]. lia.
  - vm_compute. reflexivity.
Qed.

Lemma events_ok1 : Forall event_ok [hello_event; data_event].
Proof. repeat constructor. Qed.

(** The run: the handshake is answered, the packet reaches the device, and the
    reply packet goes back to the client's endpoint. *)
Lemma run1_outputs :
  match run g1 [hello_event; data_event; EvReturn packet2 now1 (λ _, true)] with
  | Ret (g, os) => (keys (store g) !! id1, os)
  | Panic => (None, [])
  end = (Some key1,
         [OutReply (Some (answer g1 id1 gk1 (arr 4 (z2b <$> [10; 77; 0; 6])))) None;
          OutReply None (Some packet1);
          OutReturn [(frame_of id1 key1 RoleResponder 1 packet2, wifi)]]).
Proof. vm_compute. reflexivity. Qed.

Lemma gateway_sessions_stable_witness :
  ∃ g2 os1 g3 os2, run g1 [hello_event] = Ret (g2, os1) ∧ run g2 [data_event] = Ret (g3, os2) ∧
    (∀ id key, keys (store g2) !! id = Some key → keys (store g3) !! id = Some key) ∧
    (∀ id s, sessions (dataPlane g3) !! id = Some s →
       role s = RoleResponder ∧ sid s = id ∧ keys (store g3) !! id = Some (skey (slr s))).
Proof.
  apply (gateway_sessions_stable (Allocator.free Allocator.alloc1) g1 [hello_event] [data_event]).
  - exact started1.
  - repeat constructor.
  - repeat constructor.
Defined.

Lemma only_admitted_registered_witness :
  ∃ g2 o, step g1 hello_event = Ret (g2, o) ∧
  (keys (store g2) = keys (store g1) ∨
   ∃ h claims ephPriv key, DecodeClientHello (take maxRead hello_hs.1) = Ret (Ok h) ∧
    CheckHandshakeFresh (ch_timestamp h) now1 (tolerance g1) = Ok () ∧
    Entitlement.Admit (service g1) (ch_token h) now1 = Ok claims ∧
    Some gk1 = Some ephPriv ∧ DeriveSessionKey ephPriv (ch_eph h) (ch_id h) = Ok key ∧
    keys (store g1) !! ch_id h = None ∧ keys (store g2) = <[ch_id h := key]> (keys (store g1))).
Proof.
  destruct (step_ok _ g1 hello_event (started_ok _ _ started1)) as (g2 & o & Hst & _ & _); [reflexivity|].
  exists g2, o. split; [exact Hst|].
  apply (only_admitted_registered (Allocator.free Allocator.alloc1) g1 g1 g2 [] [] hello_hs.1 (Some wifi)
           (Some gk1) now1 true o).
  - exact started1.
  - constructor.
  - reflexivity.
  - reflexivity.
  - exact Hst.
Defined.

Lemma only_authenticated_traffic_witness :
  ∃ g2 os g3 reply tun, run g1 [hello_event] = Ret (g2, os) ∧ step g2 data_event = Ret (g3, OutReply reply tun) ∧
    paths_step g2 g3 (take maxRead data1) (Some wifi) now1 ∧
    ∀ p, tun = Some p → tun_write g2 g3 (take maxRead data1) p.
Proof.
  destruct (gw_run_ok _ g1 [hello_event] (started_ok _ _ started1)) as (g2 & os & Hrun & Hg2 & _);
    [repeat constructor|].
  destruct (serve_one_ok _ g2 data1 (Some wifi) None now1 true Hg2) as (g3 & reply & tun & HS & _);
    [intros k; discriminate|].
  exists g2, os, g3, reply, tun. split; [exact Hrun|]. split; [exact (step_datagram _ _ _ _ _ _ _ _ _ HS)|].
  apply (only_authenticated_traffic (Allocator.free Allocator.alloc1) g1 g2 g3 [hello_event] os data1 (Some wifi)
           None now1 true reply tun).
  - exact started1.
  - repeat constructor.
  - exact Hrun.
  - exact I.
  - exact (step_datagram _ _ _ _ _ _ _ _ _ HS).
Defined.

Lemma return_traffic_reaches_owner_witness :
  ∃ g2 os g3 out, run g1 [hello_event; data_event] = Ret (g2, os) ∧
    step g2 (EvReturn packet2 now1 (λ _, true)) = Ret (g3, OutReturn out) ∧
    ∀ b ep, (b, ep) ∈ out →
      ∃ r id key n, exit g2 = Some r ∧ keys (store g2) !! id = Some key ∧
        Allocator.LeaseOf (Router.alloc r) id = Some (Router.dst_of packet2) ∧
        ep ∈ (PathSet.Fresh (Router.paths r) id now1).2 ∧
        b = frame_of id key RoleResponder n packet2 ∧
        ∀ c prior, session_ok c prior → sid c = id → slr c = mkSealer key → role c = RoleInitiator → n ≠ 0 →
          ∃ c' dec, InboundClassified c b = Ret (c', Ok (packet2, dec)).
Proof.
  destruct (gw_run_ok _ g1 [hello_event; data_event] (started_ok _ _ started1) events_ok1) as (g2 & os & Hrun & _).
  destruct (return_traffic_reaches_owner (Allocator.free Allocator.alloc1) g1 g2 [hello_event; data_event] os packet2
              now1 (λ _, true) started1 events_ok1 Hrun) as (g3 & out & Hst & Hout).
  exists g2, os, g3, out. split; [exact Hrun|]. split; [exact Hst|exact Hout].
Defined.

Lemma handshake_opens_channel_witness :
  ∃ g2 sh c dp s, step g1 (EvDatagram hello_hs.1 (Some wifi) (Some gk1) now1 true) = Ret (g2, OutReply (Some sh) None) ∧
    Complete hello_hs.2 sh 64 = Ret (Ok c) ∧
    sessionFor (store g2) (dataPlane g2) id1 = Ret (dp, Ok s) ∧
    sid c = id1 ∧ sid s = id1 ∧ slr c = mkSealer key1 ∧ slr s = mkSealer key1 ∧
    role c = RoleInitiator ∧ role s = RoleResponder ∧ session_ok c [] ∧ session_ok s [] ∧
    (∀ r, exit g2 = Some r → ∃ a, Allocator.LeaseOf (Router.alloc r) id1 = Some a ∧ As4 a = Ret (AssignedIPv4 c)).
Proof.
  apply (handshake_opens_channel (Allocator.free Allocator.alloc1) g1 [] g1 [] seed1 (gs "token") rid1 ck1 gk1 now1 now1 64
           hello_hs.1 hello_hs.2
           (match Entitlement.Admit svc1 (gs "token") now1 with Ok c => c | Err _ => Entitlement.mkClaims [] [] 0 end)
           key1 (Some wifi) true).
  - exact started1.
  - constructor.
  - reflexivity.
  - reflexivity.
  - reflexivity.
  - reflexivity.
  - reflexivity.
  - lia.
  - vm_compute. reflexivity.
  - apply (bool_decide_unpack _). vm_compute. exact I.
  - vm_compute. reflexivity.
  - vm_compute. reflexivity.
  - vm_compute. reflexivity.
  - intros r Hr. injection Hr as <-. vm_compute. reflexivity.
  - vm_compute. reflexivity.
Defined.

End Witness.
End Gateway.
