(* ===== verification/Tunnel.v ===== *)
(** * The tunnel end to end: client session, gateway, TUN device

    The components composed.  [tunnel_exactly_once] follows every packet number
    through any run of the gateway's two loops; [dual_path_delivery] follows one
    packet from the client's [Outbound] over both paths to the TUN device, with
    any other traffic between the two copies. *)

From S2P Require Import Prelude GoText GoTime Protocol ReplayWindow Wire Crypto Session Handshake.
From S2P Require Import Netip Allocator PathSet Router Entitlement Metrics Gateway.
Import Protocol Wire Session Handshake GoTime Netip Gateway.

Module Tunnel.

Section tunnel.
Context `{CA : AEAD, CX : X25519, CK : HKDF, CE : Ed25519, CM : HMAC} {P : Type}.
Context `{!X25519Laws, !HKDFLaws, !Ed25519Laws}.
Implicit Types g : DataGateway (P := P).

(** The packet number a datagram carries, as the gateway reads it. *)
Definition packet_of (d : bytes) : option PacketID :=
  match parseHeader (take maxRead d) with
  | Ret (Ok (id, _, _)) => Some id
  | _ => None
  end.

(** The packet whose payload a step wrote to the TUN device. *)
Definition forwarded_by (x : event * output) : option PacketID :=
  match x with
  | (EvDatagram d _ _ _ _, OutReply _ (Some _)) => packet_of d
  | _ => None
  end.
Definition forwarded (es : list event) (os : list output) : list PacketID := omap forwarded_by (zip es os).

(** The packets written to the TUN device. *)
Definition written_by (o : output) : option bytes :=
  match o with OutReply _ tun => tun | OutReturn _ => None end.
Definition written (os : list output) : list bytes := omap written_by os.

Definition packet_spent g (x : PacketID) : Prop := spent g (Protocol.Session x) (Number x).

Lemma step_served g d src rkey now wok g' reply out :
  step g (EvDatagram d src rkey now wok) = Ret (g', OutReply reply out) → serve_one g d src rkey now wok = Ret (g', reply, out).
Proof.
  unfold step. destruct (serve_one g d src rkey now wok) as [[[g1 r1] o1]|]; [|discriminate]. intros [= -> -> ->]. reflexivity.
Qed.

(** One step writes at most one packet, and only one not spent before. *)
Lemma step_forwards pool g e :
  gw_ok pool g → event_ok e →
  ∃ g' o, step g e = Ret (g', o) ∧ gw_ok pool g' ∧ grows g g' ∧
    match written_by o with
    | None => forwarded_by (e, o) = None
    | Some _ => ∃ x, forwarded_by (e, o) = Some x ∧ is_u64 (Number x) ∧ ¬ packet_spent g x ∧ packet_spent g' x
    end.
Proof.
  intros Hg He. destruct (step_ok pool g e Hg He) as (g' & o & Hst & Hg' & Hgr & _). exists g', o.
  split_and!; try done. destruct o as [reply [p|]|out]; [|by destruct e|by destruct e]. cbn [written_by].
  destruct e as [d src rkey now wok|packet now send_ok].
  2: { by apply go_bind_inv in Hst as ([? ?] & _ & [=]). }
  destruct (serve_one_ok pool g d src rkey now wok Hg) as (g1 & reply1 & out & HS & _ & _ & _ & _ & Ht).
  { intros k ->. done. }
  apply step_served in Hst. rewrite HS in Hst. injection Hst as -> -> ->.
  destruct (Ht p eq_refl) as (id & n & r & (key & _ & Hp & _) & (_ & Hu & Hsp & Hfirst) & _).
  exists (mkPacketID id n). cbn. unfold packet_of. rewrite Hp. split_and!; try done. by apply Hfirst.
Qed.

Lemma run_forwards pool g es :
  gw_ok pool g → Forall event_ok es →
  ∃ g' os, run g es = Ret (g', os) ∧ length (forwarded es os) = length (written os) ∧ NoDup (forwarded es os) ∧
    Forall (λ x, is_u64 (Number x) ∧ ¬ packet_spent g x) (forwarded es os).
Proof.
  intros Hg Hes. revert g Hg. induction Hes as [|e es He _ IH]; intros g Hg.
  { eexists _, _. split; [done|]. split_and!; [done|constructor|constructor]. }
  destruct (step_forwards pool g e Hg He) as (g1 & o & HS & Hg1 & Hgr & Hf). cbn [run]. rewrite HS. mstep.
  destruct (IH g1 Hg1) as (g2 & os & -> & Hlen & Hnd & Hall). mstep. eexists _, _. split; [done|].
  assert (Forall (λ x, is_u64 (Number x) ∧ ¬ packet_spent g x) (forwarded es os)) as Hback.
  { eapply Forall_impl; [exact Hall|]. intros x [Hu Hsp]. split; [done|]. intros Hg0. by apply Hsp, (gr_spent _ _ Hgr). }
  unfold forwarded, written in *. cbn [zip zip_with omap list_omap].
  destruct (written_by o) as [p|]; [|by rewrite Hf].
  destruct Hf as (x & -> & Hu & Hnew & Hspent). cbn [length]. split_and!.
  - by rewrite <-Hlen.
  - constructor; [|done]. intros Hin. by apply (proj1 (Forall_forall _ _) Hall x Hin).
  - by constructor.
Qed.

(** ** Delivery *)

(** The data plane holds a session for every admitted id, or opens one. *)
Lemma sessionFor_admitted pool g id key :
  gw_ok pool g → keys (store g) !! id = Some key → IsZero id = false →
  ∃ dp s prior, sessionFor (store g) (dataPlane g) id = Ret (dp, Ok s) ∧
    sid s = id ∧ slr s = mkSealer key ∧ role s = RoleResponder ∧ session_ok s prior.
Proof.
  intros Hg Hk Hz. destruct (sessions (dataPlane g) !! id) as [s|] eqn:Hs.
  - destruct (gw_sessions _ _ Hg id s Hs) as (key' & prior & Hk' & ? & ? & ? & ?). rewrite Hk in Hk'. injection Hk' as <-.
    exists (dataPlane g), s, prior. unfold sessionFor. by rewrite Hs.
  - destruct (sessionFor_new pool g id key Hg Hs Hk Hz) as (dp & s & ? & ? & ? & ? & ?). by exists dp, s, [].
Qed.

(** A frame the client of an admitted session sent opens at the gateway. *)
Lemma HandleClassified_frame `{!AEADLaws} pool g id key n p :
  gw_ok pool g → keys (store g) !! id = Some key → IsZero id = false → 0 < n < 2 ^ 64 →
  SessionIDFromDatagram (frame_of id key RoleInitiator n p) = Ret (Ok id) ∧
  ∃ g' dec, HandleClassified g (frame_of id key RoleInitiator n p) = Ret (g', Ok (p, dec)).
Proof.
  intros Hg Hk Hz Hn. assert (is_u64 n) by (unfold is_u64; lia).
  assert (SessionIDFromDatagram (frame_of id key RoleInitiator n p) = Ret (Ok id)) as Hid.
  { unfold SessionIDFromDatagram, frame_of, header_of.
    rewrite parseHeader_header; [done|by apply Valid_intro; [cbn; lia|]|done|by left]. }
  split; [done|]. unfold HandleClassified. rewrite Hid. mstep.
  destruct (sessionFor_admitted pool g id key Hg Hk Hz) as (dp & s & prior & -> & Hsid & Hslr & Hrole & Hok). mstep.
  destruct (Inbound_frame s prior RoleInitiator n p Hok) as (w & HI & _); [by rewrite Hrole|done|].
  rewrite Hsid, Hslr in HI. cbn [skey] in HI. rewrite HI. mstep. by eexists _, _.
Qed.

Lemma Classify_frame id key r n p : ClassifyDatagram (frame_of id key r n p) = Ret KindData.
Proof. unfold frame_of, header_of, header_bytes. by rewrite <-!app_assoc, ClassifyDatagram_fields. Qed.

Lemma length_frame `{!AEADLaws} id key r n p : length (frame_of id key r n p) = (46 + length p)%nat.
Proof. unfold frame_of. rewrite length_app, aead_seal_length. unfold header_of. len. Qed.

(** One copy of a client's frame at the gateway: its path is recorded, and its
    payload is written if it is the first copy and passes the exit's filter. *)
Lemma serve_frame `{!AEADLaws} pool g id key n p src rkey now wok r :
  gw_ok pool g → keys (store g) !! id = Some key → IsZero id = false → 0 < n < 2 ^ 64 →
  exit g = Some r → (length p ≤ maxPayload)%nat →
  ∃ g' first, serve_one g (frame_of id key RoleInitiator n p) src rkey now wok =
      Ret (g', None, if first && Router.passes r id p then Some p else None) ∧
    gw_ok pool g' ∧ plane_step g g' id n first ∧ store g' = store g ∧ exit g' = Some (record_path r id src now).
Proof.
  intros Hg Hk Hz Hn Hx Hp. set (wire := frame_of id key RoleInitiator n p).
  assert (take maxRead wire = wire) as Htake.
  { apply take_ge. unfold wire. rewrite length_frame. unfold maxPayload, maxRead in *. lia. }
  destruct (HandleClassified_frame pool g id key n p Hg Hk Hz Hn) as (Hid & g1 & dec & HC).
  destruct (HandleClassified_ok pool g wire Hg) as (dp & res & HC' & Hg1 & Hr). fold wire in HC, Hid.
  rewrite HC in HC'. injection HC' as -> <-. destruct Hr as (id' & n' & Hid' & (key' & _ & Hpar & _) & Hstep).
  rewrite Hid in Hid'. injection Hid' as <-.
  assert (n' = n) as ->.
  { unfold wire, frame_of, header_of in Hpar. rewrite parseHeader_header in Hpar;
      [by injection Hpar|by apply Valid_intro; [cbn; lia|]|unfold is_u64; cbn; lia|by left]. }
  destruct (handleData_data pool g wire dp p dec id Hg1 Hid HC) as (m & HD & Hg2).
  set (first := bool_decide (dec = Replay.ReplayFirstCopy)) in *.
  destruct (serve_data pool g wire src rkey now wok (set_metrics (set_plane g dp) m) None
    (mkDataRecord "data" false first (if first then p else []) id AddrZero) r) as (g' & HS & Hg' & Hst & Hpl & Hx'); try done.
  { rewrite Htake. unfold HandleDatagram, wire. rewrite Classify_frame. mstep. fold wire. by rewrite HD. }
  exists g', first. split; [rewrite HS; cbn [Deliver Payload RSession]; by destruct first|]. split_and!; try done.
  destruct Hstep as (Hmv & Hu & Hsp & Hfirst). unfold plane_step, spent in *. rewrite Hpl. split_and!; try done.
  by apply (plane_moved_eq _ (set_plane g dp)).
Qed.

(** A packet that was written is not written again. *)
Lemma written_spends pool g d src rkey now wok g' reply p es os g'' :
  gw_ok pool g → event_ok (EvDatagram d src rkey now wok) → Forall event_ok es →
  step g (EvDatagram d src rkey now wok) = Ret (g', OutReply reply (Some p)) → run g' es = Ret (g'', os) →
  ∃ id, packet_of d = Some id ∧ id ∉ forwarded es os.
Proof.
  intros Hg He Hes Hst Hrun. destruct (step_forwards pool g _ Hg He) as (g1 & o & Hst' & Hg1 & _ & Hf).
  rewrite Hst in Hst'. injection Hst' as <- <-. destruct Hf as (id & Hid & _ & _ & Hsp).
  destruct (run_forwards pool g' es Hg1 Hes) as (g2 & os' & Hrun' & _ & _ & Hall). rewrite Hrun in Hrun'. injection Hrun' as <- <-.
  exists id. split; [exact Hid|]. intros Hin. rewrite Forall_forall in Hall. by apply (Hall id Hin).
Qed.

Lemma dual_path_copies `{!AEADLaws} (pool : list Addr) g g1 (es es' : list event) (os : list output)
    (c c' : Session) (prior : list Z) (key p wire : bytes) (r : Router.Router)
    (src src' : option AddrPort) (rkey rkey' : option bytes) (now now' : Time) (wok wok' : bool) :
  started pool g → Forall event_ok es → run g es = Ret (g1, os) → exit g1 = Some r →
  session_ok c prior → slr c = mkSealer key → role c = RoleInitiator → next c < 2 ^ 64 - 1 →
  keys (store g1) !! sid c = Some key →
  Router.ipv4_ok p = true → Allocator.LeaseOf (Router.alloc r) (sid c) = Some (Router.src_of p) →
  Outbound c p = Ret (c', Ok wire) →
  in_window (capacity (dataPlane g)) (received key (sid c) es) (next c') → Forall event_ok es' →
  ∃ g2 g3 g4 os' r',
    step g1 (EvDatagram wire src rkey now wok) = Ret (g2, OutReply None (Some p)) ∧
    exit g2 = Some (record_path r (sid c) src now) ∧
    run g2 es' = Ret (g3, os') ∧ exit g3 = Some r' ∧
    step g3 (EvDatagram wire src' rkey' now' wok') = Ret (g4, OutReply None None) ∧
    exit g4 = Some (record_path r' (sid c) src' now').
Proof.
  intros Hs Hes Hrun Hx Hc Hslr Hrole Hnext Hk Hip Hl HO Hnew Hes'.
  pose proof (reached_ok _ _ _ _ _ Hs Hes Hrun) as Hg1.
  destruct (decide (length p ≤ maxPayload)%nat) as [Hp|Hp]; [|unfold Outbound in HO; by rewrite decide_True in HO by lia].
  rewrite Outbound_eq in HO by done. injection HO as <- <-. rewrite Hslr, Hrole in *. cbn [next set_next skey] in *.
  destruct (so_next _ _ Hc) as [Hn0 _]. rewrite u64_small in * by (unfold is_u64; lia).
  destruct (serve_frame pool g1 (sid c) key (next c + 1) p src rkey now wok r Hg1 Hk (so_id _ _ Hc))
    as (g2 & first & HS & Hg2 & (_ & Hu & Hsp & Hfirst) & Hst & Hx2); [lia|done..|].
  assert (first = true) as -> by (apply Hfirst, (unseen_unspent pool g es g1 os _ key); try done; unfold is_u64; lia).
  assert (Router.passes r (sid c) p = true) as Hpass by (unfold Router.passes; rewrite Hip; by apply bool_decide_eq_true).
  rewrite Hpass in HS. destruct (gw_run_ok pool g2 es' Hg2 Hes') as (g3 & os' & Hrun' & Hg3 & Hgr).
  destruct (gr_exit _ _ Hgr) as [r' Hx3]; [by eexists|].
  destruct (serve_frame pool g3 (sid c) key (next c + 1) p src' rkey' now' wok' r' Hg3)
    as (g4 & second & HS' & _ & (_ & _ & _ & Hsecond) & _ & Hx4); [|apply Hc|lia|done..|].
  { apply (lookup_weaken (keys (store g2))); [by rewrite Hst|apply Hgr]. }
  assert (second = false) as ->.
  { destruct second; [|done]. destruct (proj1 Hsecond eq_refl). by apply (gr_spent _ _ Hgr). }
  exists g2, g3, g4, os', r'. split_and!; try done; by apply step_datagram.
Qed.

(** ** Properties *)

(** C2: Exactly once to the internet.  Over any sequence of datagrams, from any
    sources, and of return packets, both loops of the gateway return, every packet
    written to the TUN device came from a datagram carrying a packet number of its
    session, and no session's packet number is written twice. *)
Theorem tunnel_exactly_once (pool : list Addr) g (es : list event) :
  started pool g → Forall event_ok es →
  ∃ g' os, run g es = Ret (g', os) ∧ length (forwarded es os) = length (written os) ∧ NoDup (forwarded es os).
Proof.
  intros Hs Hes. destruct (run_forwards pool g es (started_ok _ _ Hs) Hes) as (g' & os & ? & ? & ? & _).
  by exists g', os.
Qed.

(** C1: Dual-path delivery.  A client holding the key of an admitted session sends
    a packet from its leased address over both paths.  If no datagram that the
    gateway has received under that key carried the packet's number, or one ahead of
    it by the capacity of the replay window or more, the copy that arrives first is
    written to the TUN device, whatever traffic the gateway serves in between the
    other copy is not, and each copy's source becomes a return path of the session. *)
Theorem dual_path_delivery `{!AEADLaws} (pool : list Addr) g g1 (es es' : list event) (os : list output)
    (c c' : Session) (prior : list Z) (key p wire : bytes) (r : Router.Router)
    (src src' : option AddrPort) (rkey rkey' : option bytes) (now now' : Time) (wok wok' : bool) :
  started pool g → Forall event_ok es → run g es = Ret (g1, os) → exit g1 = Some r →
  session_ok c prior → slr c = mkSealer key → role c = RoleInitiator → next c < 2 ^ 64 - 1 →
  keys (store g1) !! sid c = Some key →
  Router.ipv4_ok p = true → Allocator.LeaseOf (Router.alloc r) (sid c) = Some (Router.src_of p) →
  Outbound c p = Ret (c', Ok wire) →
  in_window (capacity (dataPlane g)) (received key (sid c) es) (next c') → Forall event_ok es' →
  ∃ g2 g3 g4 os' r',
    step g1 (EvDatagram wire src rkey now wok) = Ret (g2, OutReply None (Some p)) ∧
    exit g2 = Some (record_path r (sid c) src now) ∧
    run g2 es' = Ret (g3, os') ∧ exit g3 = Some r' ∧
    step g3 (EvDatagram wire src' rkey' now' wok') = Ret (g4, OutReply None None) ∧
    exit g4 = Some (record_path r' (sid c) src' now').
Proof. apply dual_path_copies. Qed.

End tunnel.

(** ** Witnesses, at the toy primitives *)

Module Witness.
Import Toy Gateway.Witness.

(** The handshake, the packet over Wi-Fi, and its copy over the tether. *)
Definition tether : AddrPort := mkAddrPort (Addr4 3405803778) 40002.
Definition copy_event : event := EvDatagram data1 (Some tether) None now1 true.
Definition es1 : list event := [hello_event; data_event; copy_event].

Lemma es1_ok : Forall event_ok es1.
Proof. repeat constructor. Qed.

Lemma es1_forwarded :
  match run g1 es1 with
  | Ret (_, os) => (forwarded es1 os, written os)
  | Panic => ([], [])
  end = ([mkPacketID id1 1], [packet1]).
Proof. vm_compute. reflexivity. Qed.

Lemma tunnel_exactly_once_witness :
  ∃ g' os, run g1 es1 = Ret (g', os) ∧ length (forwarded es1 os) = length (written os) ∧ NoDup (forwarded es1 os).
Proof. apply (tunnel_exactly_once (Allocator.free Allocator.alloc1) g1 es1); [exact started1|exact es1_ok]. Defined.

(** The gateway after the handshake, its router, and the client's session. *)
Definition served : DataGateway * list output :=
  match run g1 [hello_event] with Ret x => x | Panic => (g1, []) end.
Definition router1 : Router.Router :=
  match exit served.1 with Some r => r | None => Router.NewRouter Allocator.alloc1 (PathSet.NewPathSet 0) end.
Definition client1 : Session := mkSession id1 RoleInitiator (mkSealer key1) zeroIPv4 0 (Replay.fresh_window 1).

Lemma client1_ok : session_ok client1 [].
Proof.
  apply (NewSession_inv id1 key1 RoleInitiator 64 client1); [unfold is_i64; lia|]. vm_compute. reflexivity.
Qed.

Lemma dual_path_delivery_witness :
  ∃ g2 g3 g4 os' r',
    step served.1 data_event = Ret (g2, OutReply None (Some packet1)) ∧
    exit g2 = Some (record_path router1 id1 (Some wifi) now1) ∧
    run g2 [EvReturn packet2 now1 (λ _, true)] = Ret (g3, os') ∧ exit g3 = Some r' ∧
    step g3 copy_event = Ret (g4, OutReply None None) ∧
    exit g4 = Some (record_path r' id1 (Some tether) now1).
Proof.
  apply (dual_path_delivery (Allocator.free Allocator.alloc1) g1 served.1 [hello_event]
    [EvReturn packet2 now1 (λ _, true)] served.2 client1 (set_next client1 1) [] key1 packet1 data1 router1
    (Some wifi) (Some tether) None None now1 now1 true true).
  - exact started1.
  - repeat constructor.
  - vm_compute. reflexivity.
  - vm_compute. reflexivity.
  - exact client1_ok.
  - reflexivity.
  - reflexivity.
  - cbn [next client1]. lia.
  - vm_compute. reflexivity.
  - vm_compute. reflexivity.
  - vm_compute. reflexivity.
  - vm_compute. reflexivity.
  - apply (bool_decide_unpack _). vm_compute. exact I.
  - repeat constructor.
Defined.

End Witness.
End Tunnel.
