(* ===== verification/Concurrent.v ===== *)
(** * The data plane under concurrent callers

    [DataPlane] and the sessions it caches are shared by the goroutines of the
    gateway, and a session by the threads of the application.  Each takes its own
    lock for a few instructions only: [sessionFor] and [register] hold the map's
    lock, [Outbound] the session's lock while it draws a number but not while it
    seals, [InboundClassified] the window's lock while it observes but not while it
    opens.  Here a call is a thread that advances from one critical section to the
    next, interleaved with any others; [data_plane_linearizable] shows that what
    the calls return is what the sequential operations of Gateway.v return in some
    order that respects the order of the calls. *)

From S2P Require Import Prelude GoText GoTime Protocol ReplayWindow Wire Crypto Session Handshake.
From S2P Require Import Netip Allocator PathSet Router Entitlement Metrics Gateway.
Import Protocol Wire Session Handshake GoTime Netip Gateway.

Module Concurrent.

Section concurrent.
Context `{CA : AEAD, CX : X25519, CK : HKDF, CE : Ed25519, CM : HMAC} {P : Type}.
Implicit Types g : DataGateway (P := P).

(** ** Calls and their sequential meaning *)

Inductive op :=
| OpHandle (datagram : bytes)
| OpFrame (id : SessionID) (payload : bytes)
| OpRegister (id : SessionID) (key : bytes).

Inductive answer :=
| AHandle (r : result Gateway.error (bytes * Replay.ReplayDecision))
| AFrame (r : result Gateway.error bytes)
| ARegister (free : bool).

Definition seq_op g (o : op) : go (DataGateway * answer) :=
  match o with
  | OpHandle d => '(g, r) ← HandleClassified g d; Ret (g, AHandle r)
  | OpFrame id p => '(g, r) ← FrameReturn g id p; Ret (g, AFrame r)
  | OpRegister id key =>
      let '(st, free) := register (store g) id key in Ret (set_store g st, ARegister free)
  end.

Fixpoint seq_run g (os : list op) : go (DataGateway * list answer) :=
  match os with
  | [] => Ret (g, [])
  | o :: os => '(g, a) ← seq_op g o; '(g, l) ← seq_run g os; Ret (g, a :: l)
  end.

(** ** Threads *)

(** [InboundClassified] up to the window: it reads only what never changes. *)
Definition inbound_open (r : Role) (k : sealer) (wire : bytes) : go (result Wire.error (Z * bytes)) :=
  h ← parseHeader wire;
  match h with
  | Err e => err e
  | Ok (id, dir, off) =>
      if decide (dir ≠ peerDir r) then err errBadDirection else
      aad ← slice wire 0 off;
      ciphertext ← slice wire off (length wire);
      p ← open k dir id aad ciphertext;
      match p with Err e => err e | Ok p => ok (Number id, p) end
  end.

(** Where a call is: before its first critical section, holding the pointer of a
    session (of which the id is the name), with the datagram opened, with its
    number drawn, or returned. *)
Inductive pc :=
| Handle0 (d : bytes)
| Handle1 (d : bytes) (id : SessionID)
| Handle2 (id : SessionID) (n : Z) (p : bytes)
| Frame0 (id : SessionID) (p : bytes)
| Frame1 (id : SessionID) (p : bytes)
| Frame2 (id : PacketID) (dir : byte) (k : sealer) (p : bytes)
| Register0 (id : SessionID) (key : bytes)
| Done (a : answer).

Definition start (o : op) : pc :=
  match o with
  | OpHandle d => Handle0 d
  | OpFrame id p => Frame0 id p
  | OpRegister id key => Register0 id key
  end.

Definition is_done (x : pc) : bool := match x with Done _ => true | _ => false end.

(** From one critical section to the next; the flag marks the step at which the
    call takes effect. *)
Definition advance g (x : pc) : go (DataGateway * pc * bool) :=
  let with_session id (k : Session → go (DataGateway * pc * bool)) :=
    match sessions (dataPlane g) !! id with Some s => k s | None => Panic end in
  match x with
  | Handle0 d =>
      sid ← SessionIDFromDatagram d;
      match sid with
      | Err e => Ret (g, Done (AHandle (Err (ErrCore e))), true)
      | Ok id =>
          '(dp, s) ← sessionFor (store g) (dataPlane g) id;
          match s with
          | Err e => Ret (set_plane g dp, Done (AHandle (Err e)), true)
          | Ok _ => Ret (set_plane g dp, Handle1 d id, false)
          end
      end
  | Handle1 d id => with_session id (λ s,
      x ← inbound_open (role s) (slr s) d;
      match x with
      | Err e => Ret (g, Done (AHandle (Err (ErrCore e))), true)
      | Ok (n, p) => Ret (g, Handle2 id n p, false)
      end)
  | Handle2 id n p => with_session id (λ s,
      '(w, d) ← Replay.Observe (window s) n;
      Ret (set_plane g (set_session (dataPlane g) id (set_window s w)), Done (AHandle (Ok (p, d))), true))
  | Frame0 id p =>
      '(dp, s) ← sessionFor (store g) (dataPlane g) id;
      match s with
      | Err e => Ret (set_plane g dp, Done (AFrame (Err e)), true)
      | Ok _ => Ret (set_plane g dp, Frame1 id p, false)
      end
  | Frame1 id p => with_session id (λ s,
      if decide (maxPayload < length p)%nat then Ret (g, Done (AFrame (Err (ErrCore errOversize))), true) else
      let s := set_next s (u64 (next s + 1)) in
      Ret (set_plane g (set_session (dataPlane g) id s),
           Frame2 (mkPacketID (sid s) (next s)) (sendDir (role s)) (slr s) p, true))
  | Frame2 id dir k p =>
      header ← frameHeader id dir;
      ciphertext ← seal k dir id header p;
      Ret (g, Done (AFrame (Ok (header ++ ciphertext))), false)
  | Register0 id key =>
      let '(st, free) := register (store g) id key in Ret (set_store g st, Done (ARegister free), true)
  | Done a => Ret (g, Done a, false)
  end.

(** ** Configurations and steps *)

(** The shared state, the calls made and where each is, and the calls that took
    effect, in order. *)
Record config := mkConfig {
  shared : DataGateway (P := P);
  calls : gmap nat op;
  pool : gmap nat pc;
  order : list nat
}.
Definition init g : config := mkConfig g ∅ ∅ [].

(** [register] is given a derived session key. *)
Definition op_ok (o : op) : Prop :=
  match o with OpRegister _ key => length key = keySize | _ => True end.

#[export] Instance op_ok_dec o : Decision (op_ok o).
Proof. destruct o; apply _. Defined.

Inductive cstep : config → config → Prop :=
| cs_call c t o :
    pool c !! t = None → op_ok o →
    cstep c (mkConfig (shared c) (<[t := o]> (calls c)) (<[t := start o]> (pool c)) (order c))
| cs_move c t x g' x' (effect : bool) :
    pool c !! t = Some x → is_done x = false → advance (shared c) x = Ret (g', x', effect) →
    cstep c (mkConfig g' (calls c) (<[t := x']> (pool c)) (if effect then order c ++ [t] else order c)).

(** A schedule, executed. *)
Inductive action := Call (t : nat) (o : op) | Move (t : nat).

Definition act (c : config) (a : action) : option config :=
  match a with
  | Call t o =>
      if decide (pool c !! t = None ∧ op_ok o)
      then Some (mkConfig (shared c) (<[t := o]> (calls c)) (<[t := start o]> (pool c)) (order c)) else None
  | Move t =>
      match pool c !! t with
      | Some x =>
          if is_done x then None else
          match advance (shared c) x with
          | Ret (g', x', effect) =>
              Some (mkConfig g' (calls c) (<[t := x']> (pool c)) (if (effect : bool) then order c ++ [t] else order c))
          | Panic => None
          end
      | None => None
      end
  end.

Fixpoint act_all (c : config) (l : list action) : option config :=
  match l with
  | [] => Some c
  | a :: l => c ← act c a; act_all c l
  end.

Lemma act_all_reaches c l c' : act_all c l = Some c' → rtc cstep c c'.
Proof.
  revert c. induction l as [|a l IH]; intros c H; cbn in H; [by injection H as <-|].
  apply bind_Some in H as (c1 & Ha & H). eapply rtc_l; [|by apply IH]. destruct a as [t o|t]; cbn in Ha.
  - case_decide as Hd; [|done]. injection Ha as <-. destruct Hd. by constructor.
  - destruct (pool c !! t) as [x|] eqn:Hx; [|done]. destruct (is_done x) eqn:Hd; [done|].
    destruct (advance (shared c) x) as [[[g' x'] e]|] eqn:HA; [|done]. injection Ha as <-. by eapply cs_move.
Qed.

(** ** Sessions as the callers see them *)

(** What [sessionFor] answers; it does not matter whether the session has been
    opened yet. *)
Definition view g (id : SessionID) : go (result Gateway.error Session) :=
  '(_, r) ← sessionFor (store g) (dataPlane g) id; Ret r.

#[export] Instance gateway_equiv : Equiv DataGateway := λ g g',
  store g = store g' ∧ capacity (dataPlane g) = capacity (dataPlane g') ∧ ∀ id, view g id = view g' id.

#[export] Instance gateway_equivalence : Equivalence (≡@{DataGateway (P := P)}).
Proof.
  split.
  - by intros g.
  - intros g g' (? & ? & ?). by split_and!.
  - intros g1 g2 g3 (? & ? & H12) (? & ? & H23). split_and!; congruence.
Qed.

#[export] Instance view_proper : Proper ((≡) ==> (=) ==> (=)) view.
Proof. intros g g' (_ & _ & H) id ? <-. apply H. Qed.

Lemma view_inv g id r :
  view g id = Ret r → ∃ dp, sessionFor (store g) (dataPlane g) id = Ret (dp, r).
Proof.
  unfold view. intros H. apply go_bind_inv in H as ([dp r'] & H & [= <-]). by exists dp.
Qed.

Lemma view_cached g id s : sessions (dataPlane g) !! id = Some s → view g id = Ret (Ok s).
Proof. intros H. unfold view, sessionFor. rewrite H. by mstep. Qed.

Lemma sessionFor_cases g id dp r :
  sessionFor (store g) (dataPlane g) id = Ret (dp, r) →
  capacity dp = capacity (dataPlane g) ∧
  match r with
  | Err _ => dp = dataPlane g
  | Ok s => sessions dp !! id = Some s ∧ (∀ id', id' ≠ id → sessions dp !! id' = sessions (dataPlane g) !! id') ∧
            (sessions (dataPlane g) !! id = Some s ∨ sessions (dataPlane g) !! id = None)
  end.
Proof.
  unfold sessionFor. destruct (sessions (dataPlane g) !! id) as [s|] eqn:Hs; [intros [= <- <-]; by split_and!; auto|].
  destruct (SessionKey (store g) id); [|by intros [= <- <-]]. intros H. apply go_bind_inv in H as ([s|e] & _ & [= <- <-]); [|done].
  split; [done|]. cbn. rewrite lookup_insert_eq. split_and!; [done| |by right]. intros id' Hne. by rewrite lookup_insert_ne.
Qed.

(** Replacing or adding the session of one id. *)
Lemma view_session g dp id s :
  capacity dp = capacity (dataPlane g) →
  (∀ id', id' ≠ id → sessions dp !! id' = sessions (dataPlane g) !! id') →
  ∀ id', view (set_plane g (set_session dp id s)) id' = if decide (id' = id) then Ret (Ok s) else view g id'.
Proof.
  intros Hc Hother id'. unfold view, sessionFor. cbn. case_decide as Hid.
  - subst. rewrite lookup_insert_eq. by mstep.
  - rewrite lookup_insert_ne, Hother, Hc by done. destruct (sessions (dataPlane g) !! id'); [by mstep|].
    destruct (SessionKey (store g) id'); [|by mstep]. destruct (NewSession id' _ _ _) as [[]|]; by mstep.
Qed.

(** Opening a session changes nothing a caller can see. *)
Lemma sessionFor_equiv g id dp r :
  sessionFor (store g) (dataPlane g) id = Ret (dp, r) → set_plane g dp ≡ g.
Proof.
  intros H. destruct (sessionFor_cases _ _ _ _ H) as [Hc Hr]. split; [done|]. split; [done|]. intros id'.
  destruct r as [s|e]; [|by subst dp; destruct g].
  destruct Hr as (Hs & Hother & _). transitivity (view (set_plane g (set_session dp id s)) id').
  { unfold set_session. rewrite insert_id by done. by destruct dp. }
  rewrite view_session by done. case_decide as Hid; [|done]. subst. unfold view. by rewrite H.
Qed.

Lemma session_set_equiv g gs dp id s s' :
  gs ≡ g → sessionFor (store gs) (dataPlane gs) id = Ret (dp, Ok s) →
  set_plane gs (set_session dp id s') ≡ set_plane g (set_session (dataPlane g) id s').
Proof.
  intros (Hst & Hcap & Hv) H. destruct (sessionFor_cases _ _ _ _ H) as [Hc (_ & Hother & _)].
  split; [done|]. split; [cbn; congruence|]. intros id'.
  rewrite !view_session by done. by case_decide.
Qed.

(** ** The invariant *)

Lemma inbound_split s d :
  InboundClassified s d =
  (x ← inbound_open (role s) (slr s) d;
   match x with
   | Err e => Ret (s, Err e)
   | Ok (n, p) => '(w, dec) ← Replay.Observe (window s) n; Ret (set_window s w, Ok (p, dec))
   end).
Proof.
  unfold InboundClassified, inbound_open, err, ok. destruct (parseHeader d) as [[[[id dir] off]|e]|]; mstep; try done.
  case_decide; mstep; [done|]. destruct (slice d 0 off); mstep; [|done]. destruct (slice d off (length d)); mstep; [|done].
  by destruct (open _ _ _ _ _) as [[]|]; mstep.
Qed.

(** What a call knows of the shared state, given the operation it runs. *)
Definition pc_ok g (o : op) (x : pc) : Prop :=
  match x with
  | Handle0 d => o = OpHandle d
  | Handle1 d id => o = OpHandle d ∧ SessionIDFromDatagram d = Ret (Ok id) ∧ is_Some (sessions (dataPlane g) !! id)
  | Handle2 id n p => ∃ d s, o = OpHandle d ∧ SessionIDFromDatagram d = Ret (Ok id) ∧
      sessions (dataPlane g) !! id = Some s ∧ inbound_open (role s) (slr s) d = Ret (Ok (n, p))
  | Frame0 id p => o = OpFrame id p
  | Frame1 id p => o = OpFrame id p ∧ is_Some (sessions (dataPlane g) !! id)
  | Register0 id key => o = OpRegister id key
  | Frame2 _ _ _ _ | Done _ => True
  end.

(** The answer of a call that took effect. *)
Definition promised (x : pc) : option answer :=
  match x with
  | Frame2 id dir k p =>
      Some (AFrame (Ok (header_bytes id dir ++ aead_seal (skey k) (nonce_bytes dir (Number id)) p (header_bytes id dir))))
  | Done a => Some a
  | _ => None
  end.

(** Sessions stay, with their role and key. *)
Definition keeps g g' : Prop :=
  ∀ id s, sessions (dataPlane g) !! id = Some s →
    ∃ s', sessions (dataPlane g') !! id = Some s' ∧ role s' = role s ∧ slr s' = slr s.

Lemma keeps_refl g g' : sessions (dataPlane g') = sessions (dataPlane g) → keeps g g'.
Proof. intros E id s Hs. exists s. by rewrite E. Qed.

Lemma pc_ok_keeps g g' o x : keeps g g' → pc_ok g o x → pc_ok g' o x.
Proof.
  intros Hk. destruct x; cbn; try done.
  - intros (? & ? & s & Hs). destruct (Hk _ _ Hs) as (s' & ? & _). by repeat split; [..|exists s'].
  - intros (d & s & ? & ? & Hs & Ho). destruct (Hk _ _ Hs) as (s' & ? & E1 & E2). exists d, s'. by rewrite E1, E2.
  - intros (? & s & Hs). destruct (Hk _ _ Hs) as (s' & ? & _). by split; [|exists s'].
Qed.

Lemma keeps_session g id s s' :
  sessions (dataPlane g) !! id = Some s → role s' = role s → slr s' = slr s →
  keeps g (set_plane g (set_session (dataPlane g) id s')).
Proof.
  intros Hs E1 E2 id' x Hx. cbn. destruct (decide (id' = id)) as [->|Hne].
  - rewrite Hs in Hx. injection Hx as <-. exists s'. by rewrite lookup_insert_eq.
  - exists x. by rewrite lookup_insert_ne.
Qed.

Lemma keeps_sessionFor g id dp r :
  sessionFor (store g) (dataPlane g) id = Ret (dp, r) → keeps g (set_plane g dp).
Proof.
  intros H id' s Hs. destruct (sessionFor_cases _ _ _ _ H) as [_ Hr]. exists s. split; [|done]. cbn.
  destruct r as [s0|e]; [|by subst]. destruct Hr as (Hs0 & Hother & Hold).
  destruct (decide (id' = id)) as [->|Hne]; [|by rewrite Hother]. rewrite Hs in Hold. by destruct Hold as [[= ->]|].
Qed.

(** A step that is not the effect of its call is invisible to the others. *)
Lemma advance_silent g o x g' x' :
  is_done x = false → pc_ok g o x → advance g x = Ret (g', x', false) →
  g' ≡ g ∧ keeps g g' ∧ pc_ok g' o x' ∧ promised x' = promised x.
Proof.
  destruct x as [d|d id|id n p|id p|id p|id dir k p|id key|a]; cbn [is_done pc_ok advance]; intros Hd Hok HA; try done.
  - apply go_bind_inv in HA as ([id|e] & Hid & HA); [|done]. apply go_bind_inv in HA as ([dp [s|e]] & HS & HA); [|done].
    injection HA as <- <-. split; [by eapply sessionFor_equiv|]. split; [by eapply keeps_sessionFor|].
    destruct (sessionFor_cases _ _ _ _ HS) as [_ (? & _)]. split; [|done]. split_and!; [done..|by eexists].
  - destruct Hok as (-> & Hid & s & Hs). rewrite Hs in HA. apply go_bind_inv in HA as ([[n p]|e] & HI & HA); [|done].
    injection HA as <- <-. split; [done|]. split; [by apply keeps_refl|]. split; [|done]. by exists d, s.
  - destruct (sessions _ !! id); [|done]. by apply go_bind_inv in HA as ([w dec] & _ & [=]).
  - apply go_bind_inv in HA as ([dp [s|e]] & HS & HA); [|done]. injection HA as <- <-.
    split; [by eapply sessionFor_equiv|]. split; [by eapply keeps_sessionFor|].
    destruct (sessionFor_cases _ _ _ _ HS) as [_ (? & _)]. split; [|done]. split; [done|by eexists].
  - destruct (sessions _ !! id); [|done]. by case_decide.
  - rewrite frameHeader_layout in HA. autorewrite with gomonad in HA. rewrite seal_eq in HA.
    autorewrite with gomonad in HA. injection HA as <- <-. split; [done|]. split; [by apply keeps_refl|done].
  - by destruct (register _ _ _).
Qed.

(** The sequential operations on a session the callers see. *)
Lemma seq_handle gs d id s s' r :
  SessionIDFromDatagram d = Ret (Ok id) → view gs id = Ret (Ok s) → InboundClassified s d = Ret (s', r) →
  ∃ dp, sessionFor (store gs) (dataPlane gs) id = Ret (dp, Ok s) ∧
    seq_op gs (OpHandle d) = Ret (set_plane gs (set_session dp id s'), AHandle (lift r)).
Proof.
  intros Hid [dp HS]%view_inv HI. exists dp. split; [done|]. cbn. unfold HandleClassified. rewrite Hid. mstep.
  rewrite HS. mstep. rewrite HI. by mstep.
Qed.

Lemma seq_frame gs id p s s' r :
  view gs id = Ret (Ok s) → Outbound s p = Ret (s', r) →
  ∃ dp, sessionFor (store gs) (dataPlane gs) id = Ret (dp, Ok s) ∧
    seq_op gs (OpFrame id p) = Ret (set_plane gs (set_session dp id s'), AFrame (lift r)).
Proof.
  intros [dp HS]%view_inv HO. exists dp. split; [done|]. cbn. unfold FrameReturn. rewrite HS. mstep. rewrite HO. by mstep.
Qed.

Lemma set_plane_cached g id s :
  sessions (dataPlane g) !! id = Some s → set_plane g (set_session (dataPlane g) id s) = g.
Proof. intros Hs. destruct g as [? ? ? ? [] ?]. cbn in *. unfold set_plane, set_session. cbn. by rewrite insert_id. Qed.

(** Registering a key is seen by every caller. *)
Lemma register_equiv g gs id key :
  gs ≡ g → set_store gs (register (store g) id key).1 ≡ set_store g (register (store g) id key).1.
Proof.
  intros (Hst & Hcap & Hv). split; [done|]. split; [done|]. intros id'. specialize (Hv id'). revert Hv.
  unfold view, sessionFor. cbn. rewrite Hcap, Hst. unfold register, SessionKey.
  destruct (keys (store g) !! id) as [k|] eqn:Hk; cbn; [done|]. rewrite lookup_insert.
  destruct (sessions (dataPlane gs) !! id'), (sessions (dataPlane g) !! id'); mstep; try done.
  - case_decide; [|done]. subst. rewrite Hk. by mstep.
  - case_decide; [|done]. subst. rewrite Hk. by mstep.
  - intros _. set (k' := if decide (id = id') then _ else _). destruct k'; [|by mstep].
    destruct (NewSession _ _ _ _) as [[]|]; by mstep.
Qed.

(** The step at which a call takes effect is the sequential operation. *)
Lemma advance_effect g gs o x g' x' :
  gs ≡ g → is_done x = false → pc_ok g o x → advance g x = Ret (g', x', true) →
  keeps g g' ∧ pc_ok g' o x' ∧ promised x = None ∧
  ∃ gs' a, seq_op gs o = Ret (gs', a) ∧ gs' ≡ g' ∧ promised x' = Some a.
Proof.
  intros Heq. assert (∀ id s, sessions (dataPlane g) !! id = Some s → view gs id = Ret (Ok s)) as Hview.
  { intros id s Hs. rewrite Heq. by apply view_cached. }
  destruct x as [d|d id|id n p|id p|id p|id dir k p|id key|a]; cbn [is_done pc_ok advance promised]; intros Hd Hok HA; try done.
  - subst o. apply go_bind_inv in HA as ([id|e] & Hid & HA).
    + apply go_bind_inv in HA as ([dp [s|e]] & HS & HA); [done|]. injection HA as <- <-.
      split; [by eapply keeps_sessionFor|]. split; [done|]. split; [done|].
      assert (view gs id = Ret (Err e)) as [dp' HS']%view_inv by (rewrite Heq; unfold view; by rewrite HS).
      eexists _, _. cbn. unfold HandleClassified. rewrite Hid. mstep. rewrite HS'. mstep. split; [done|].
      split; [|done]. by rewrite (sessionFor_equiv _ _ _ _ HS'), (sessionFor_equiv _ _ _ _ HS).
    + injection HA as <- <-. split; [by apply keeps_refl|]. split; [done|]. split; [done|].
      eexists _, _. cbn. unfold HandleClassified. rewrite Hid. mstep. done.
  - destruct Hok as (-> & Hid & s & Hs). rewrite Hs in HA. apply go_bind_inv in HA as ([[n p]|e] & HI & HA); [done|].
    injection HA as <- <-. split; [by apply keeps_refl|]. split; [done|]. split; [done|].
    destruct (seq_handle gs d id s s (Err e) Hid (Hview _ _ Hs)) as (dp & HS & HO).
    { rewrite inbound_split, HI. by mstep. }
    eexists _, _. split; [exact HO|]. split; [|done].
    rewrite (session_set_equiv g gs dp id s s Heq HS). by rewrite set_plane_cached.
  - destruct Hok as (d & s & -> & Hid & Hs & HI). rewrite Hs in HA. apply go_bind_inv in HA as ([w dec] & HO & HA).
    injection HA as <- <-. split; [by eapply keeps_session|]. split; [done|]. split; [done|].
    destruct (seq_handle gs d id s (set_window s w) (Ok (p, dec)) Hid (Hview _ _ Hs)) as (dp & HS & Hseq).
    { rewrite inbound_split, HI. mstep. rewrite HO. by mstep. }
    eexists _, _. split; [exact Hseq|]. split; [|done]. by apply session_set_equiv with s.
  - subst o. apply go_bind_inv in HA as ([dp [s|e]] & HS & HA); [done|]. injection HA as <- <-.
    split; [by eapply keeps_sessionFor|]. split; [done|]. split; [done|].
    assert (view gs id = Ret (Err e)) as [dp' HS']%view_inv by (rewrite Heq; unfold view; by rewrite HS).
    eexists _, _. cbn. unfold FrameReturn. rewrite HS'. mstep. split; [done|].
    split; [|done]. by rewrite (sessionFor_equiv _ _ _ _ HS'), (sessionFor_equiv _ _ _ _ HS).
  - destruct Hok as (-> & s & Hs). rewrite Hs in HA. case_decide as Hl; injection HA as <- <-.
    + split; [by apply keeps_refl|]. split; [done|]. split; [done|].
      destruct (seq_frame gs id p s s (Err errOversize) (Hview _ _ Hs)) as (dp & HS & HO).
      { unfold Outbound. by rewrite decide_True. }
      eexists _, _. split; [exact HO|]. split; [|done].
      rewrite (session_set_equiv g gs dp id s s Heq HS). by rewrite set_plane_cached.
    + split; [by eapply keeps_session|]. split; [done|]. split; [done|].
      destruct (seq_frame gs id p s _ _ (Hview _ _ Hs) (Outbound_eq s p ltac:(lia))) as (dp & HS & HO).
      eexists _, _. split; [exact HO|]. split; [by apply session_set_equiv with s|done].
  - apply go_bind_inv in HA as (h & _ & HA). by apply go_bind_inv in HA as (ct & _ & [=]).
  - pose proof (register_equiv g gs id key Heq) as HR. destruct Heq as (Hst & _). subst o.
    destruct (register (store g) id key) as [st free] eqn:Hr. injection HA as <- <-.
    split; [by apply keeps_refl|]. split; [done|]. split; [done|].
    eexists _, _. cbn. rewrite Hst, Hr. split; [done|]. split; [exact HR|done].
Qed.

Lemma seq_run_snoc g os o g1 l g2 a :
  seq_run g os = Ret (g1, l) → seq_op g1 o = Ret (g2, a) → seq_run g (os ++ [o]) = Ret (g2, l ++ [a]).
Proof.
  revert g l. induction os as [|o' os IH]; intros g l Hr Ho; cbn [seq_run app] in *.
  - injection Hr as <- <-. rewrite Ho. by mstep.
  - apply go_bind_inv in Hr as ([g' a'] & -> & Hr). apply go_bind_inv in Hr as ([g'' l'] & Hr & [= <- <-]). mstep.
    rewrite (IH _ _ Hr Ho). by mstep.
Qed.

(** The calls that took effect, run one after the other, leave the state the
    callers see and give each call the answer it returns or will return. *)
Record linearized g0 (c : config) (os : list op) gs (l : list answer) : Prop := {
  li_ops : Forall2 (λ t o, calls c !! t = Some o) (order c) os;
  li_run : seq_run g0 os = Ret (gs, l);
  li_len : length l = length (order c);
  li_state : gs ≡ shared c;
  li_nodup : NoDup (order c);
  li_order t : t ∈ order c → is_Some (pool c !! t);
  li_pool t x : pool c !! t = Some x →
    ∃ o, calls c !! t = Some o ∧ op_ok o ∧ pc_ok (shared c) o x ∧
      match promised x with
      | None => t ∉ order c
      | Some a => ∃ i, order c !! i = Some t ∧ l !! i = Some a
      end
}.

Lemma linearized_call g0 c os gs l t o :
  linearized g0 c os gs l → pool c !! t = None → op_ok o →
  linearized g0 (mkConfig (shared c) (<[t := o]> (calls c)) (<[t := start o]> (pool c)) (order c)) os gs l.
Proof.
  intros [Hops Hrun Hlen Hst Hnd Hord Hpool] Hnew Hok.
  assert (∀ t', t' ∈ order c → t' ≠ t) as Hne by (intros t' [x Hx]%Hord ->; by rewrite Hnew in Hx).
  split; cbn; try done.
  - clear Hlen Hrun. assert (∀ t', t' ∈ order c → t' ≠ t) as Hne' by done. clear Hne Hord Hpool Hnd. revert Hne'.
    induction Hops as [|t' o' ts os' Hc _ IH]; intros Hne; constructor.
    + rewrite lookup_insert_ne; [done|]. intros ->. by apply (Hne t'); [left|].
    + apply IH. intros t'' Hin. apply Hne. by right.
  - intros t' Hin. rewrite lookup_insert_ne by (intros ->; by apply (Hne t')). by apply Hord.
  - intros t' x. rewrite lookup_insert_Some. intros [[<- <-]|[Hne' Hx]].
    + exists o. rewrite lookup_insert_eq. split; [done|]. split; [done|]. split; [by destruct o|].
      assert (promised (start o) = None) as -> by by destruct o. intros Hin. by apply (Hne t).
    + rewrite lookup_insert_ne by done. by apply Hpool.
Qed.

Lemma linearized_silent g0 c os gs l t x g' x' :
  linearized g0 c os gs l → pool c !! t = Some x → is_done x = false → advance (shared c) x = Ret (g', x', false) →
  linearized g0 (mkConfig g' (calls c) (<[t := x']> (pool c)) (order c)) os gs l.
Proof.
  intros [Hops Hrun Hlen Hst Hnd Hord Hpool] Hx Hd HA. destruct (Hpool t x Hx) as (o & Hc & Hok & Hpc & Hpr).
  destruct (advance_silent _ o x g' x' Hd Hpc HA) as (Heq & Hk & Hpc' & Hp).
  split; cbn; try done.
  - by rewrite Hst, Heq.
  - intros t' Hin. rewrite lookup_insert. case_decide; [by eexists|by apply Hord].
  - intros t' y. rewrite lookup_insert_Some. intros [[<- <-]|[_ Hy]].
    + exists o. by rewrite Hp.
    + destruct (Hpool t' y Hy) as (o' & ? & ? & ? & ?). exists o'. split_and!; try done. by eapply pc_ok_keeps.
Qed.

Lemma linearized_effect g0 c os gs l t x g' x' :
  linearized g0 c os gs l → pool c !! t = Some x → is_done x = false → advance (shared c) x = Ret (g', x', true) →
  ∃ o gs' a, linearized g0 (mkConfig g' (calls c) (<[t := x']> (pool c)) (order c ++ [t])) (os ++ [o]) gs' (l ++ [a]).
Proof.
  intros [Hops Hrun Hlen Hst Hnd Hord Hpool] Hx Hd HA. destruct (Hpool t x Hx) as (o & Hc & Hok & Hpc & Hpr).
  destruct (advance_effect _ gs o x g' x' Hst Hd Hpc HA) as (Hk & Hpc' & Hnone & gs' & a & Hseq & Heq & Hp).
  rewrite Hnone in Hpr. exists o, gs', a. split; cbn; try done.
  - apply Forall2_app; [done|]. by repeat constructor.
  - by eapply seq_run_snoc.
  - rewrite !length_app, Hlen. done.
  - apply NoDup_app. split_and!; [done| |apply NoDup_singleton]. intros t' Hin ->%list_elem_of_singleton. done.
  - intros t' Hin. rewrite lookup_insert. case_decide as Hne; [by eexists|].
    apply elem_of_app in Hin as [Hin| ->%list_elem_of_singleton]; [by apply Hord|done].
  - intros t' y. rewrite lookup_insert_Some. intros [[<- <-]|[Hne Hy]].
    + exists o. rewrite Hp. split_and!; try done. exists (length (order c)).
      by rewrite !lookup_app_r, Hlen, Nat.sub_diag by lia.
    + destruct (Hpool t' y Hy) as (o' & ? & ? & ? & Hpr'). exists o'. split_and!; try done; [by eapply pc_ok_keeps|].
      destruct (promised y) as [a'|].
      * destruct Hpr' as (i & ? & ?). exists i. split; by apply lookup_app_l_Some.
      * intros [?| ->%list_elem_of_singleton]%elem_of_app; [done|]. done.
Qed.

Lemma reachable_linearized g0 c : rtc cstep (init g0) c → ∃ os gs l, linearized g0 c os gs l.
Proof.
  revert c. apply rtc_ind_r; [|intros c c' _ Hstep (os & gs & l & IH)].
  { exists [], g0, []. split; cbn; try done; try constructor. intros t Hin. by apply elem_of_nil in Hin. }
  destruct Hstep as [c t o Hnew Hok|c t x g' x' [] Hx Hd HA].
  - eexists _, _, _. by apply linearized_call.
  - destruct (linearized_effect _ _ _ _ _ _ _ _ _ IH Hx Hd HA) as (o & gs' & a & H). by eexists _, _, _.
  - eexists _, _, _. by eapply linearized_silent.
Qed.

Lemma order_prefix c c' : rtc cstep c c' → order c `prefix_of` order c'.
Proof.
  induction 1 as [|c1 c2 c3 Hs _ IH]; [done|]. etransitivity; [|exact IH].
  destruct Hs as [|? ? ? ? ? []]; cbn; [done|by apply prefix_app_r|done].
Qed.

(** ** No call blocks or panics *)

(** The critical sections a call has yet to enter. *)
Definition todo (x : pc) : nat :=
  match x with
  | Handle0 _ | Frame0 _ _ => 3
  | Handle1 _ _ | Frame1 _ _ => 2
  | Handle2 _ _ _ | Frame2 _ _ _ _ | Register0 _ _ => 1
  | Done _ => 0
  end.

Lemma inbound_open_number r k d n p :
  inbound_open r k d = Ret (Ok (n, p)) →
  is_u64 n ∧ ∃ id, parseHeader d = Ret (Ok (id, peerDir r, dataHeaderSize)) ∧ Number id = n.
Proof.
  unfold inbound_open. destruct (parseHeader_spec d) as [[e ->]|(id & dir & f & rest & Hp & _ & Hu & _)]; [done|].
  rewrite Hp. mstep. case_decide as Hdir; [done|]. subst dir. intros H.
  apply go_bind_inv in H as (aad & _ & H). apply go_bind_inv in H as (ct & _ & H).
  apply go_bind_inv in H as ([q|e] & _ & H); [|done]. injection H as <- <-. split; [done|]. by exists id.
Qed.

Lemma inbound_open_total s prior d : session_ok s prior → ∃ x, inbound_open (role s) (slr s) d = Ret x.
Proof.
  intros Hs. assert (∃ y, InboundClassified s d = Ret y) as [y HI].
  { destruct (Inbound_cases s d prior Hs) as [[e ->]|(? & ? & ? & ? & ? & _ & _ & _ & _ & _ & -> & _)]; by eexists. }
  rewrite inbound_split in HI. apply go_bind_inv in HI as (x & -> & _). by eexists.
Qed.

Ltac moved := eexists _, _, _; split; [done|]; split; [done|cbn; lia].

Lemma advance_total pl g o x :
  gw_ok pl g → pc_ok g o x → op_ok o → is_done x = false →
  ∃ g' x' effect, advance g x = Ret (g', x', effect) ∧ gw_ok pl g' ∧ (todo x' < todo x)%nat.
Proof.
  intros Hg Hpc Ho Hd.
  destruct x as [d|d id|id n p|id p|id p|id dir k p|id key|a]; cbn [is_done pc_ok advance] in *; try done.
  - destruct (SessionIDFromDatagram_total d) as [[id|e] ->]; mstep; [|moved].
    destruct (sessionFor_ok pl g id Hg) as (dp & [s|e] & -> & Hg' & _); mstep; moved.
  - destruct Hpc as (_ & _ & s & Hs). rewrite Hs. destruct (gw_sessions _ _ Hg id s Hs) as (key & prior & _ & _ & _ & _ & Hok).
    destruct (inbound_open_total s prior d Hok) as [[[n p]|e] ->]; mstep; moved.
  - destruct Hpc as (d & s & _ & _ & Hs & HI). rewrite Hs. pose proof (gw_sessions _ _ Hg id s Hs) as Hc.
    pose proof Hc as (key & prior & _ & _ & _ & _ & Hok). destruct (inbound_open_number _ _ _ _ _ HI) as [Hu _].
    destruct (Replay.Observe_refines _ _ n (so_window _ _ Hok) Hu) as (w & -> & Hsim & _). mstep.
    eexists _, _, _. split; [done|]. split; [|cbn; lia].
    apply (gw_ok_session pl g (dataPlane g) id s (set_window s w) (n :: prior)); try done; [by destruct g|].
    by destruct Hok.
  - destruct (sessionFor_ok pl g id Hg) as (dp & [s|e] & -> & Hg' & _); mstep; moved.
  - destruct Hpc as (_ & s & Hs). rewrite Hs. pose proof (gw_sessions _ _ Hg id s Hs) as Hc.
    pose proof Hc as (key & prior & _ & _ & _ & _ & Hok). case_decide; eexists _, _, _; (split; [done|]); (split; [|cbn; lia]); [done|].
    apply (gw_ok_session pl g (dataPlane g) id s (set_next s (u64 (next s + 1))) prior); try done; [by destruct g|].
    apply session_ok_next; [done|apply u64_range].
  - rewrite frameHeader_layout. mstep. rewrite seal_eq. mstep. moved.
  - subst o. destruct (register (store g) id key) as [st free] eqn:Hr. eexists _, _, _. split; [done|]. split; [|cbn; lia].
    unfold register in Hr. destruct (keys (store g) !! id) eqn:Hk; injection Hr as <- <-; [by destruct g|].
    apply gw_ok_store; [done|by apply insert_subseteq|]. intros id' k'. cbn. rewrite lookup_insert_Some.
    intros [[_ <-]|[_ ?]]; [done|by eapply (gw_keys _ _ Hg)].
Qed.

Lemma reachable_gw_ok pl g0 c : gw_ok pl g0 → rtc cstep (init g0) c → gw_ok pl (shared c).
Proof.
  intros Hg Hc. revert c Hc. apply rtc_ind_r; [done|]. intros c c' Hc Hstep IH.
  destruct Hstep as [c t o Hnew Hok|c t x g' x' effect Hx Hd HA]; [done|]. cbn.
  destruct (reachable_linearized g0 c Hc) as (os & gs & l & HL).
  destruct (li_pool _ _ _ _ _ HL t x Hx) as (o & _ & Ho & Hpc & _).
  destruct (advance_total pl (shared c) o x IH Hpc Ho Hd) as (g1 & x1 & e1 & HA' & Hg1 & _).
  rewrite HA in HA'. by injection HA' as <- _ _.
Qed.

(** ** What the sequential operations guarantee *)

(** The identity a datagram carries. *)
Definition packet_id (d : bytes) : option PacketID :=
  match parseHeader d with
  | Ret (Ok (id, _, _)) => Some id
  | _ => None
  end.

(** The last number a session drew. *)
Definition drawn g (id : SessionID) : Z :=
  match view g id with Ret (Ok s) => next s | _ => 0 end.

Lemma drawn_proper g g' id : g ≡ g' → drawn g id = drawn g' id.
Proof. intros H. unfold drawn. by rewrite H. Qed.

Lemma drawn_session g id dp s s' id' :
  sessionFor (store g) (dataPlane g) id = Ret (dp, Ok s) →
  drawn (set_plane g (set_session dp id s')) id' = if decide (id' = id) then next s' else drawn g id'.
Proof.
  intros HS. destruct (sessionFor_cases _ _ _ _ HS) as [Hc (_ & Hother & _)]. unfold drawn.
  rewrite view_session by done. by case_decide.
Qed.

Lemma drawn_for g id dp s : sessionFor (store g) (dataPlane g) id = Ret (dp, Ok s) → drawn g id = next s.
Proof. intros HS. unfold drawn, view. rewrite HS. by mstep. Qed.

Lemma drawn_register pl g id key free st id' :
  gw_ok pl g → register (store g) id key = (st, free) → drawn (set_store g st) id' = drawn g id'.
Proof.
  intros Hg Hr. unfold register in Hr. destruct (keys (store g) !! id) eqn:Hk; injection Hr as <- <-; [by destruct g|].
  unfold drawn, view, sessionFor, SessionKey. cbn. destruct (sessions (dataPlane g) !! id') eqn:Hs; [by mstep|].
  rewrite lookup_insert. case_decide; [|done]. subst. rewrite Hk. mstep.
  destruct (NewSession_total id' key RoleResponder (capacity (dataPlane g)) (gw_cap _ _ Hg)) as ([s|e] & HN); rewrite HN; mstep; [|done].
  apply NewSession_inv in HN as (_ & _ & _ & _ & Hn); [done|]. pose proof (gw_cap _ _ Hg). unfold is_i64. lia.
Qed.

Lemma InboundClassified_next s d s' r : InboundClassified s d = Ret (s', r) → next s' = next s.
Proof.
  rewrite inbound_split. intros H. apply go_bind_inv in H as ([[n p]|e] & _ & H); [|by injection H as <- <-].
  by apply go_bind_inv in H as ([w dec] & _ & [= <- <-]).
Qed.

Lemma drawn_handled g d g' r id : HandleClassified g d = Ret (g', r) → drawn g' id = drawn g id.
Proof.
  unfold HandleClassified. intros HC. apply go_bind_inv in HC as ([sd|e] & _ & HC); [|by injection HC as <- _].
  apply go_bind_inv in HC as ([dp [s|e]] & HS & HC).
  - apply go_bind_inv in HC as ([s' r'] & HI & HC). injection HC as <- _. rewrite (drawn_session _ _ _ _ _ _ HS).
    case_decide; [|done]. subst. rewrite (InboundClassified_next _ _ _ _ HI). symmetry. by eapply drawn_for.
  - injection HC as <- _. by apply drawn_proper, (sessionFor_equiv _ sd dp (Err e)).
Qed.

Lemma packet_id_frame id key r n p :
  0 < n < 2 ^ 64 → IsZero id = false → packet_id (frame_of id key r n p) = Some (mkPacketID id n).
Proof.
  intros Hn Hz. unfold packet_id, frame_of, header_of.
  rewrite parseHeader_header; [done|by apply Valid_intro; [cbn; lia|]|unfold is_u64; cbn; lia|].
  destruct r; [by left|by right].
Qed.

(** One operation: a first copy was not spent before and is after; a frame carries
    the next number of its session. *)
Lemma seq_op_ok pl g o :
  gw_ok pl g → op_ok o → (∀ id, 0 ≤ drawn g id < 2 ^ 64 - 1) →
  ∃ g' a, seq_op g o = Ret (g', a) ∧ gw_ok pl g' ∧ plane_kept g g' ∧ keys (store g) ⊆ keys (store g') ∧
    (∀ id, drawn g id ≤ drawn g' id ≤ drawn g id + 1) ∧
    match o, a with
    | OpHandle d, AHandle (Ok (p, Replay.ReplayFirstCopy)) => ∃ x, packet_id d = Some x ∧ is_u64 (Number x) ∧
        ¬ spent g (Protocol.Session x) (Number x) ∧ spent g' (Protocol.Session x) (Number x)
    | OpFrame id p, AFrame (Ok w) => drawn g' id = drawn g id + 1 ∧ IsZero id = false ∧
        ∃ key, keys (store g') !! id = Some key ∧ w = frame_of id key RoleResponder (drawn g' id) p
    | OpHandle _, AHandle _ | OpFrame _ _, AFrame _ | OpRegister _ _, ARegister _ => True
    | _, _ => False
    end.
Proof.
  intros Hg Ho Hdr. destruct o as [d|id p|id key]; cbn [seq_op].
  - destruct (HandleClassified_ok pl g d Hg) as (dp & r & HC & Hg' & Hr).
    assert (∀ id, drawn (set_plane g dp) id = drawn g id) as Hsame by (intros id; by eapply drawn_handled).
    rewrite HC. mstep. eexists _, _. split; [done|]. split; [done|].
    destruct r as [[p dec]|e].
    + destruct Hr as (id & n & _ & (key & _ & Hp & _) & (Hk & Hu & Hsp & Hf)). split; [apply Hk|]. split; [done|].
      split; [intros id'; rewrite Hsame; lia|]. destruct dec; try done. exists (mkPacketID id n). unfold packet_id. rewrite Hp.
      split_and!; try done. by apply Hf.
    + split; [apply Hr|]. split; [done|]. split; [intros id'; rewrite Hsame; lia|done].
  - destruct (FrameReturn_ok pl g id p Hg) as (dp & r & HF & Hg' & Hk & _). rewrite HF. mstep.
    eexists _, _. split; [done|]. split; [done|]. split; [apply Hk|]. split; [done|].
    unfold FrameReturn in HF. destruct (sessionFor_ok pl g id Hg) as (dp1 & [s|e] & HS & _ & _ & _ & Hr).
    2: { rewrite HS in HF. autorewrite with gomonad in HF. injection HF as <- <-. split; [|done].
         intros id'. rewrite (drawn_proper _ _ _ (sessionFor_equiv _ _ _ _ HS)). lia. }
    destruct Hr as (_ & (key & prior & Hkey & Hsid & Hrole & Hslr & Hok) & _).
    rewrite HS in HF. autorewrite with gomonad in HF. pose proof (drawn_for _ _ _ _ HS) as Hn. specialize (Hdr id).
    destruct (decide (maxPayload < length p)%nat) as [Hl|Hl].
    + unfold Outbound in HF. rewrite decide_True in HF by done. autorewrite with gomonad in HF. injection HF as <- <-.
      split; [|done]. intros id'. rewrite (drawn_session _ _ _ _ _ _ HS). case_decide; subst; lia.
    + rewrite Outbound_eq in HF by lia. autorewrite with gomonad in HF. injection HF as <- <-.
      rewrite u64_small by (unfold is_u64; lia). split.
      { intros id'. rewrite (drawn_session _ _ _ _ _ _ HS). case_decide; subst; cbn; lia. }
      rewrite (drawn_session _ _ _ _ _ _ HS), decide_True by done. cbn. rewrite Hsid, Hrole, Hslr, Hn. split; [done|].
      split; [rewrite <-Hsid; apply Hok|]. by exists key.
  - destruct (register (store g) id key) as [st free] eqn:Hr. eexists _, _. split; [done|].
    split; [|split; [by apply (plane_same g)|split; [|split; [|done]]]].
    + destruct (advance_total pl g (OpRegister id key) (Register0 id key) Hg eq_refl Ho eq_refl) as (g1 & x1 & e1 & HA & Hg1 & _).
      cbn in HA. rewrite Hr in HA. by injection HA as <- _ _.
    + cbn. unfold register in Hr. destruct (keys (store g) !! id) eqn:Hk; injection Hr as <- _; [done|]. by apply insert_subseteq.
    + intros id'. rewrite (drawn_register _ _ _ _ _ _ _ Hg Hr). lia.
Qed.

(** The packets taken for first copies, and those framed, in a sequential run. *)
Definition first_copy (x : op * answer) : option PacketID :=
  match x with
  | (OpHandle d, AHandle (Ok (_, Replay.ReplayFirstCopy))) => packet_id d
  | _ => None
  end.
Definition framed (x : op * answer) : option PacketID :=
  match x with
  | (OpFrame _ _, AFrame (Ok w)) => packet_id w
  | _ => None
  end.

(** An answer is that of its operation, a first copy carries a packet, and a frame
    is sealed under the key registered for its session. *)
Definition answered g (x : op * answer) : Prop :=
  match x with
  | (OpHandle d, AHandle (Ok (_, Replay.ReplayFirstCopy))) => is_Some (packet_id d)
  | (OpFrame id p, AFrame (Ok w)) => IsZero id = false ∧
      ∃ key n, keys (store g) !! id = Some key ∧ 0 < n < 2 ^ 64 ∧ w = frame_of id key RoleResponder n p
  | (OpHandle _, AHandle _) | (OpFrame _ _, AFrame _) | (OpRegister _ _, ARegister _) => True
  | _ => False
  end.

Lemma answered_grows g g' x : keys (store g) ⊆ keys (store g') → answered g x → answered g' x.
Proof.
  intros Hk. destruct x as [[] [[[? []]|]|[]|]]; cbn; try done. intros (Hz & key & n & Hl & Hn & ->). split; [done|].
  exists key, n. split; [by eapply lookup_weaken|done].
Qed.

Lemma seq_run_ok pl g os :
  gw_ok pl g → Forall op_ok os → (∀ id, 0 ≤ drawn g id ∧ drawn g id + Z.of_nat (length os) < 2 ^ 64) →
  ∃ gs l, seq_run g os = Ret (gs, l) ∧ keys (store g) ⊆ keys (store gs) ∧ Forall (answered gs) (zip os l) ∧
    NoDup (omap first_copy (zip os l)) ∧
    Forall (λ x, is_u64 (Number x) ∧ ¬ spent g (Protocol.Session x) (Number x)) (omap first_copy (zip os l)) ∧
    NoDup (omap framed (zip os l)) ∧
    Forall (λ x, drawn g (Protocol.Session x) < Number x) (omap framed (zip os l)).
Proof.
  intros Hg Hos. revert g Hg. induction Hos as [|o os Ho _ IH]; intros g Hg Hdr.
  { eexists _, []. cbn. split_and!; done || constructor. }
  destruct (seq_op_ok pl g o Hg Ho) as (g1 & a & HS & Hg1 & Hk & Hkeys & Hd & Hoa).
  { intros id. specialize (Hdr id). cbn [length] in Hdr. lia. }
  destruct (IH g1 Hg1) as (gs & l & Hr & Hkeys' & Han & Hnd1 & Hf1 & Hnd2 & Hf2).
  { intros id. specialize (Hdr id). specialize (Hd id). cbn [length] in Hdr. lia. }
  cbn [seq_run]. rewrite HS. mstep. rewrite Hr. mstep. eexists _, _. split; [done|]. split; [by etrans|].
  cbn [zip zip_with omap list_omap].
  assert (Forall (λ x, is_u64 (Number x) ∧ ¬ spent g (Protocol.Session x) (Number x)) (omap first_copy (zip os l))) as Hf1'.
  { eapply Forall_impl; [exact Hf1|]. intros x [Hu Hsp]. split; [done|]. intros Hs. by apply Hsp, Hk. }
  assert (Forall (λ x, drawn g (Protocol.Session x) < Number x) (omap framed (zip os l))) as Hf2'.
  { eapply Forall_impl; [exact Hf2|]. intros x Hx. specialize (Hd (Protocol.Session x)). cbn in Hx. lia. }
  destruct o as [d|id p|id key], a as [[[p' []]|e]|[w|e]|fr]; cbn [first_copy framed]; try done; try by split_and!; try constructor.
  - destruct Hoa as (x & Hx & Hu & Hn & Hs). rewrite Hx. split_and!; try done; constructor; try done; [by exists x|].
    intros Hin. by apply (proj1 (Forall_forall _ _) Hf1 x Hin).
  - destruct Hoa as (Hd1 & Hz & key & Hkey & ->). specialize (Hdr id). cbn [length] in Hdr.
    rewrite packet_id_frame by (done || lia). split_and!; try done; constructor; try done; [| |cbn; lia].
    + split; [done|]. exists key, (drawn g1 id). split_and!; [by eapply lookup_weaken|lia..|done].
    + intros Hin. pose proof (proj1 (Forall_forall _ _) Hf2 _ Hin) as Hlt. cbn in Hlt. lia.
Qed.

Lemma omap_NoDup_index {A B} (f : A → option B) (l : list A) i j a b x :
  NoDup (omap f l) → l !! i = Some a → l !! j = Some b → f a = Some x → f b = Some x → i = j.
Proof.
  revert i j. induction l as [|y l IH]; intros i j Hnd Hi Hj Ha Hb; [done|]. cbn in Hnd.
  assert (∀ k c, l !! k = Some c → f c = Some x → x ∈ omap f l) as Hin.
  { intros k c Hk Hc. apply list_elem_of_omap. exists c. split; [by eapply list_elem_of_lookup_2|done]. }
  destruct i as [|i], j as [|j]; cbn in Hi, Hj; simplify_eq; [done| | |].
  - rewrite Ha in Hnd. apply NoDup_cons in Hnd as [Hn _]. destruct Hn. by eapply Hin.
  - rewrite Hb in Hnd. apply NoDup_cons in Hnd as [Hn _]. destruct Hn. by eapply Hin.
  - f_equal. apply IH; try done. destruct (f y); [by apply NoDup_cons in Hnd as [_ ?]|done].
Qed.

Lemma linearized_ops_ok g0 c os gs l : linearized g0 c os gs l → Forall op_ok os.
Proof.
  intros HL. apply Forall_lookup. intros i o Ho.
  destruct (Forall2_lookup_r _ _ _ _ _ (li_ops _ _ _ _ _ HL) Ho) as (t & Ht & Hc).
  destruct (li_order _ _ _ _ _ HL t) as [x Hx]; [by eapply list_elem_of_lookup_2|].
  destruct (li_pool _ _ _ _ _ HL t x Hx) as (o' & Hc' & Hok & _). by simplify_eq.
Qed.

(** A call that returned is one of the answered operations. *)
Lemma returned_index g0 c os gs l :
  linearized g0 c os gs l → Forall (answered gs) (zip os l) →
  ∀ t a, pool c !! t = Some (Done a) →
    ∃ i o, order c !! i = Some t ∧ calls c !! t = Some o ∧ zip os l !! i = Some (o, a) ∧ answered gs (o, a).
Proof.
  intros HL Han t a Ht. destruct (li_pool _ _ _ _ _ HL t _ Ht) as (o & Hc & _ & _ & i & Hi & Ha).
  destruct (Forall2_lookup_l _ _ _ _ _ (li_ops _ _ _ _ _ HL) Hi) as (o' & Ho & Hc'). rewrite Hc in Hc'. simplify_eq.
  assert (zip os l !! i = Some (o', a)) as Hz by by apply lookup_zip_Some.
  exists i, o'. split_and!; try done. by eapply Forall_lookup_1.
Qed.

(** ** Properties *)

Context `{!X25519Laws, !HKDFLaws, !Ed25519Laws}.

Lemma started_drawn (pl : list Addr) g id : started pl g → drawn g id = 0.
Proof. by intros [| ]. Qed.

(** C4: Linearizability of the data plane.  However the critical sections of
    concurrent calls interleave, the calls that took effect, run one after the
    other in the order they took effect, give each call the answer it returned and
    leave the sessions every caller sees; each call takes effect once, and a call
    that returned before another was made precedes it in that order. *)
Theorem data_plane_linearizable g (c1 c : config) :
  rtc cstep (init g) c1 → rtc cstep c1 c →
  ∃ os gs l, seq_run g os = Ret (gs, l) ∧ gs ≡ shared c ∧ NoDup (order c) ∧
    Forall2 (λ t o, calls c !! t = Some o) (order c) os ∧
    (∀ t a, pool c !! t = Some (Done a) → ∃ i, order c !! i = Some t ∧ l !! i = Some a) ∧
    order c1 `prefix_of` order c ∧
    (∀ t a, pool c1 !! t = Some (Done a) → t ∈ order c1) ∧ (∀ t, pool c1 !! t = None → t ∉ order c1).
Proof.
  intros Hc1 Hc. destruct (reachable_linearized g c) as (os & gs & l & HL); [by etransitivity|].
  destruct (reachable_linearized g c1 Hc1) as (os1 & gs1 & l1 & HL1).
  exists os, gs, l. split_and!; try apply HL.
  - intros t a Ht. destruct (li_pool _ _ _ _ _ HL t _ Ht) as (o & _ & _ & _ & Hi). exact Hi.
  - by apply order_prefix.
  - intros t a Ht. destruct (li_pool _ _ _ _ _ HL1 t _ Ht) as (o & _ & _ & _ & i & Hi & _). by eapply list_elem_of_lookup_2.
  - intros t Ht [x Hx]%(li_order _ _ _ _ _ HL1). by rewrite Ht in Hx.
Qed.

(** Every call returns.  In any reachable configuration a call that has not
    returned can take its next step, and each of its own steps brings it nearer to
    its return, which it reaches after at most three, whatever the others do. *)
Theorem calls_return (pl : list Addr) g (c : config) (t : nat) (x : pc) :
  started pl g → rtc cstep (init g) c → pool c !! t = Some x → is_done x = false →
  (todo x ≤ 3)%nat ∧ (∃ c', cstep c c' ∧ pool c' !! t ≠ Some x) ∧
  ∀ c', cstep c c' → pool c' !! t = Some x ∨ ∃ x', pool c' !! t = Some x' ∧ (todo x' < todo x)%nat.
Proof.
  intros Hs Hc Hx Hd. split; [by destruct x; cbn; lia|]. pose proof (reachable_gw_ok pl g c (started_ok _ _ Hs) Hc) as Hg.
  destruct (reachable_linearized g c Hc) as (os & gs & l & HL).
  destruct (li_pool _ _ _ _ _ HL t x Hx) as (o & _ & Ho & Hpc & _).
  destruct (advance_total pl (shared c) o x Hg Hpc Ho Hd) as (g' & x' & e & HA & _ & Hlt). split.
  - eexists. split; [by eapply cs_move|]. cbn. rewrite lookup_insert_eq. intros [= ->]. lia.
  - intros c' Hstep. destruct Hstep as [c t' o' Hnew _|c t' y g1 y' e1 Hy _ HA1]; cbn.
    + left. rewrite lookup_insert_ne; [done|]. intros ->. by rewrite Hx in Hnew.
    + destruct (decide (t' = t)) as [->|Hne]; [|left; by rewrite lookup_insert_ne].
      rewrite Hx in Hy. injection Hy as <-. rewrite HA in HA1. injection HA1 as <- <- <-.
      right. exists x'. by rewrite lookup_insert_eq.
Qed.

(** C5: Exactly once and no nonce twice, under concurrency.  Of any two calls that
    handled datagrams with the same packet identity at most one got a first copy.
    Each call that framed a packet sealed it, with its header as associated data,
    under the key registered for the session, and two calls that framed packets of
    one session sealed them under different nonces (within 2^64 calls). *)
Theorem concurrent_exactly_once (pl : list Addr) g (c : config) (t1 t2 : nat) :
  started pl g → rtc cstep (init g) c → Z.of_nat (length (order c)) < 2 ^ 64 → t1 ≠ t2 →
  (∀ d1 d2 p1 p2, calls c !! t1 = Some (OpHandle d1) → calls c !! t2 = Some (OpHandle d2) →
     pool c !! t1 = Some (Done (AHandle (Ok (p1, Replay.ReplayFirstCopy)))) →
     pool c !! t2 = Some (Done (AHandle (Ok (p2, Replay.ReplayFirstCopy)))) →
     ∃ x1 x2, packet_id d1 = Some x1 ∧ packet_id d2 = Some x2 ∧ x1 ≠ x2) ∧
  (∀ id1 id2 p1 p2 w1 w2, calls c !! t1 = Some (OpFrame id1 p1) → calls c !! t2 = Some (OpFrame id2 p2) →
     pool c !! t1 = Some (Done (AFrame (Ok w1))) → pool c !! t2 = Some (Done (AFrame (Ok w2))) →
     ∃ key1 key2 h1 h2 nonce1 nonce2,
       keys (store (shared c)) !! id1 = Some key1 ∧ w1 = h1 ++ aead_seal key1 nonce1 p1 h1 ∧
       keys (store (shared c)) !! id2 = Some key2 ∧ w2 = h2 ++ aead_seal key2 nonce2 p2 h2 ∧
       (id1 = id2 → nonce1 ≠ nonce2)).
Proof.
  intros Hs Hc Hlen Hne. destruct (reachable_linearized g c Hc) as (os & gs & l & HL).
  pose proof (Forall2_length _ _ _ (li_ops _ _ _ _ _ HL)) as Hlo.
  destruct (seq_run_ok pl g os) as (gs' & l' & Hr & _ & Han & Hnd1 & _ & Hnd2 & _).
  { by apply started_ok. }
  { by eapply linearized_ops_ok. }
  { intros id. rewrite (started_drawn _ _ _ Hs). lia. }
  rewrite (li_run _ _ _ _ _ HL) in Hr. injection Hr as <- <-.
  pose proof (returned_index _ _ _ _ _ HL Han) as Hidx. split.
  - intros d1 d2 p1 p2 Hc1 Hc2 Hp1 Hp2.
    destruct (Hidx _ _ Hp1) as (i & o1 & Hi & Ho1 & Hz1 & Ha1), (Hidx _ _ Hp2) as (j & o2 & Hj & Ho2 & Hz2 & Ha2).
    rewrite Hc1 in Ho1. rewrite Hc2 in Ho2. simplify_eq. destruct Ha1 as [x1 Hx1], Ha2 as [x2 Hx2].
    exists x1, x2. split_and!; try done. intros ->. apply Hne.
    assert (i = j) as -> by by eapply (omap_NoDup_index first_copy). congruence.
  - intros id1 id2 p1 p2 w1 w2 Hc1 Hc2 Hp1 Hp2.
    destruct (Hidx _ _ Hp1) as (i & o1 & Hi & Ho1 & Hz1 & Ha1), (Hidx _ _ Hp2) as (j & o2 & Hj & Ho2 & Hz2 & Ha2).
    rewrite Hc1 in Ho1. rewrite Hc2 in Ho2. simplify_eq.
    destruct Ha1 as (Hid1 & key1 & n1 & Hk1 & Hn1 & ->), Ha2 as (Hid2 & key2 & n2 & Hk2 & Hn2 & ->).
    rewrite (proj1 (li_state _ _ _ _ _ HL)) in Hk1, Hk2.
    eexists key1, key2, _, _, _, _. do 4 (split; [done|]). intros -> Hnn.
    apply nonce_bytes_inj in Hnn as [_ <-]; [|unfold is_u64; lia..]. apply Hne.
    assert (i = j) as -> by (eapply (omap_NoDup_index framed); try done; by apply packet_id_frame). congruence.
Qed.

End concurrent.

(** ** Witnesses, at the toy primitives *)

Module Witness.
Import Toy Gateway.Witness.

(** Two goroutines are given copies of the same datagram, interleaved, while two
    others frame packets for the session. *)
Definition acts1 : list action :=
  [Call 0 (OpRegister id1 key1); Call 1 (OpHandle data1); Move 0; Move 1; Call 2 (OpHandle data1); Move 2; Move 2;
   Call 3 (OpFrame id1 packet2); Move 1; Move 3; Call 4 (OpFrame id1 packet2); Move 2; Move 4; Move 3; Move 4; Move 4;
   Move 1; Move 3].
Definition conf1 : config := default (init g1) (act_all (init g1) acts1).

Lemma conf1_reached : rtc cstep (init g1) conf1.
Proof. apply (act_all_reaches _ acts1). vm_compute. reflexivity. Qed.

Lemma conf1_answers :
  (order conf1, pool conf1 !! 1%nat, pool conf1 !! 2%nat, pool conf1 !! 3%nat, pool conf1 !! 4%nat) =
  ([0; 2; 3; 4; 1]%nat,
   Some (Done (AHandle (Ok (packet1, Replay.ReplayDuplicate)))), Some (Done (AHandle (Ok (packet1, Replay.ReplayFirstCopy)))),
   Some (Done (AFrame (Ok (frame_of id1 key1 RoleResponder 1 packet2)))),
   Some (Done (AFrame (Ok (frame_of id1 key1 RoleResponder 2 packet2))))).
Proof. vm_compute. reflexivity. Qed.

Lemma data_plane_linearizable_witness :
  ∃ os gs l, seq_run g1 os = Ret (gs, l) ∧ gs ≡ shared conf1 ∧ NoDup (order conf1) ∧
    Forall2 (λ t o, calls conf1 !! t = Some o) (order conf1) os ∧
    (∀ t a, pool conf1 !! t = Some (Done a) → ∃ i, order conf1 !! i = Some t ∧ l !! i = Some a) ∧
    order conf1 `prefix_of` order conf1 ∧
    (∀ t a, pool conf1 !! t = Some (Done a) → t ∈ order conf1) ∧ (∀ t, pool conf1 !! t = None → t ∉ order conf1).
Proof. apply (data_plane_linearizable g1 conf1 conf1); [exact conf1_reached|apply rtc_refl]. Defined.

Lemma calls_return_witness :
  (todo (Handle0 data1) ≤ 3)%nat ∧
  (∃ c', cstep (default (init g1) (act_all (init g1) (take 2 acts1))) c' ∧ pool c' !! 1%nat ≠ Some (Handle0 data1)) ∧
  ∀ c', cstep (default (init g1) (act_all (init g1) (take 2 acts1))) c' →
    pool c' !! 1%nat = Some (Handle0 data1) ∨ ∃ x', pool c' !! 1%nat = Some x' ∧ (todo x' < todo (Handle0 data1))%nat.
Proof.
  apply (calls_return (Allocator.free Allocator.alloc1) g1 _ 1 (Handle0 data1)).
  - exact started1.
  - apply (act_all_reaches _ (take 2 acts1)). vm_compute. reflexivity.
  - vm_compute. reflexivity.
  - reflexivity.
Defined.

Lemma concurrent_exactly_once_witness :
  ∃ k1 k2 h1 h2 nonce1 nonce2,
    keys (store (shared conf1)) !! id1 = Some k1 ∧ frame_of id1 key1 RoleResponder 1 packet2 = h1 ++ aead_seal k1 nonce1 packet2 h1 ∧
    keys (store (shared conf1)) !! id1 = Some k2 ∧ frame_of id1 key1 RoleResponder 2 packet2 = h2 ++ aead_seal k2 nonce2 packet2 h2 ∧
    (id1 = id1 → nonce1 ≠ nonce2).
Proof.
  apply (concurrent_exactly_once (Allocator.free Allocator.alloc1) g1 conf1 3 4).
  - exact started1.
  - exact conf1_reached.
  - vm_compute. reflexivity.
  - discriminate.
  - vm_compute. reflexivity.
  - vm_compute. reflexivity.
  - vm_compute. reflexivity.
  - vm_compute. reflexivity.
Defined.

End Witness.
End Concurrent.
