(* ===== verification/Lifecycle.v ===== *)
(** * The goroutines of [DataGateway.Serve]: running and shutting down

    [Serve] of internal/gateway/datagateway.go with its three goroutines: the
    reader, which handles datagrams until its socket fails; the closer, which waits
    for the context and closes the socket and the exit device; and, with the exit
    path on, the return loop of internal/exit/router.go over the device.  They are
    interleaved in any order with the arrival of datagrams and packets, with read
    errors and with the cancellation of the context.

    Closing a socket wakes a reader blocked in it ([net.PacketConn]).  Whether
    closing the device wakes a reader blocked in it depends on the device, and is
    the parameter [wakes]: [os.File] does so for files that support deadlines. *)

From S2P Require Import Prelude GoText GoTime Protocol ReplayWindow Wire Crypto Session Handshake.
From S2P Require Import Netip Allocator PathSet Router Entitlement Metrics Gateway.
Import Protocol Wire Session Handshake GoTime Netip Gateway.

Module Lifecycle.

Section lifecycle.
Context `{CA : AEAD, CX : X25519, CK : HKDF, CE : Ed25519, CM : HMAC} {P : Type}.
Implicit Types g : DataGateway (P := P).
Variable wakes : bool.

(** ** States *)

Inductive read_error := ErrClosed | ErrRead.

Inductive closer := CloserWaits | CloserConn | CloserDevice | CloserDone.
Inductive reader := Reading | Handling (e : event) | Returned (r : option read_error).
(** [LoopTop] is about to call the device's [Read], [Parked] is blocked in it. *)
Inductive looper := NoLoop | LoopTop | Parked | LoopHandling (e : event) | LoopReturned (r : option read_error).

Record state := mkState {
  cancelled : bool;
  conn_closed : bool;
  dev_closed : bool;
  inbox : list event;        (* datagrams the socket has received *)
  packets : list event;      (* packets the device has received *)
  closing : closer;
  reading : reader;
  looping : looper;
  gw : DataGateway (P := P);
  handled : list event       (* the iterations completed, in order *)
}.

Definition start (g : DataGateway) : state :=
  mkState false false false [] [] CloserWaits Reading (match exit g with Some _ => LoopTop | None => NoLoop end) g [].

Definition set_closing (c : closer) (s : state) : state :=
  mkState (cancelled s) (conn_closed s) (dev_closed s) (inbox s) (packets s) c (reading s) (looping s) (gw s) (handled s).
Definition set_reading (r : reader) (s : state) : state :=
  mkState (cancelled s) (conn_closed s) (dev_closed s) (inbox s) (packets s) (closing s) r (looping s) (gw s) (handled s).
Definition set_looping (l : looper) (s : state) : state :=
  mkState (cancelled s) (conn_closed s) (dev_closed s) (inbox s) (packets s) (closing s) (reading s) l (gw s) (handled s).
Definition set_inbox (q : list event) (s : state) : state :=
  mkState (cancelled s) (conn_closed s) (dev_closed s) q (packets s) (closing s) (reading s) (looping s) (gw s) (handled s).
Definition set_packets (q : list event) (s : state) : state :=
  mkState (cancelled s) (conn_closed s) (dev_closed s) (inbox s) q (closing s) (reading s) (looping s) (gw s) (handled s).
Definition set_handled (g : DataGateway) (e : event) (s : state) : state :=
  mkState (cancelled s) (conn_closed s) (dev_closed s) (inbox s) (packets s) (closing s) (reading s) (looping s) g (handled s ++ [e]).
Definition close_conn (s : state) : state :=
  mkState (cancelled s) true (dev_closed s) (inbox s) (packets s) (closing s) (reading s) (looping s) (gw s) (handled s).
(** [Router.Close]: the device is an [io.Closer]. *)
Definition close_dev (s : state) : state :=
  mkState (cancelled s) (conn_closed s) true (inbox s) (packets s) (closing s) (reading s) (looping s) (gw s) (handled s).
Definition cancel (s : state) : state :=
  mkState true (conn_closed s) (dev_closed s) (inbox s) (packets s) (closing s) (reading s) (looping s) (gw s) (handled s).

(** A read error, as [Serve] and as [ServeReturn] report it. *)
Definition serve_result (s : state) (e : read_error) : option read_error :=
  match e with
  | ErrClosed => None
  | ErrRead => if cancelled s then None else Some ErrRead
  end.
Definition loop_result (s : state) (e : read_error) : option read_error :=
  if cancelled s then None else Some e.

(** ** The steps of the goroutines *)

(** One iteration on an event, when it returns. *)
Definition iterate (e : event) (s : state) : list state :=
  match step (gw s) e with
  | Ret (g, _) => [set_handled g e s]
  | Panic => []
  end.

Definition closer_moves (s : state) : list state :=
  match closing s with
  | CloserWaits => if cancelled s then [set_closing CloserConn s] else []
  | CloserConn =>
      [set_closing (match exit (gw s) with Some _ => CloserDevice | None => CloserDone end) (close_conn s)]
  | CloserDevice => [set_closing CloserDone (close_dev s)]
  | CloserDone => []
  end.

Definition reader_moves (s : state) : list state :=
  match reading s with
  | Reading =>
      if conn_closed s then [set_reading (Returned (serve_result s ErrClosed)) s] else
      match inbox s with
      | [] => []
      | e :: q => [set_reading (Handling e) (set_inbox q s)]
      end
  | Handling e => set_reading Reading <$> iterate e s
  | Returned _ => []
  end.

(** A read that is already blocked goes on to wait for a packet unless the close
    wakes it. *)
Definition looper_moves (s : state) : list state :=
  match looping s with
  | NoLoop | LoopReturned _ => []
  | LoopTop => if dev_closed s then [set_looping (LoopReturned (loop_result s ErrClosed)) s] else [set_looping Parked s]
  | Parked =>
      if dev_closed s && wakes then [set_looping (LoopReturned (loop_result s ErrClosed)) s] else
      match packets s with
      | [] => []
      | e :: q => [set_looping (LoopHandling e) (set_packets q s)]
      end
  | LoopHandling e => set_looping LoopTop <$> iterate e s
  end.

Definition moves (s : state) : list state := closer_moves s ++ reader_moves s ++ looper_moves s.

(** ** The steps of the world *)

Definition is_datagram (e : event) : Prop := match e with EvDatagram _ _ _ _ _ => True | _ => False end.

Inductive world : state → state → Prop :=
| WCancel s : world s (cancel s)
| WDatagram s e : is_datagram e → event_ok e → world s (set_inbox (inbox s ++ [e]) s)
| WPacket s p now send_ok : world s (set_packets (packets s ++ [EvReturn p now send_ok]) s)
| WReadError s : reading s = Reading → world s (set_reading (Returned (serve_result s ErrRead)) s)
| WDeviceError s : looping s = Parked → world s (set_looping (LoopReturned (loop_result s ErrRead)) s).

Definition tick (s s' : state) : Prop := s' ∈ moves s ∨ world s s'.

(** ** The invariant *)

Context `{LX : !X25519Laws, LK : !HKDFLaws, LE : !Ed25519Laws}.

Definition event_of (r : reader) : list event := match r with Handling e => [e] | _ => [] end.
Definition event_of_loop (l : looper) : list event := match l with LoopHandling e => [e] | _ => [] end.

Record inv (g0 : DataGateway) (pool : list Addr) (s : state) : Prop := {
  inv_gw : gw_ok pool (gw s);
  inv_run : ∃ os, run g0 (handled s) = Ret (gw s, os);
  inv_events : Forall event_ok (inbox s ++ packets s ++ event_of (reading s) ++ event_of_loop (looping s));
  inv_exit : looping s ≠ NoLoop → is_Some (exit (gw s));
  inv_cancelled : closing s ≠ CloserWaits → cancelled s = true;
  inv_conn : closing s = CloserDevice ∨ closing s = CloserDone → conn_closed s = true;
  inv_dev : closing s = CloserDone → looping s ≠ NoLoop → dev_closed s = true
}.

Lemma run_snoc g es g1 os e g2 o :
  run g es = Ret (g1, os) → step g1 e = Ret (g2, o) → run g (es ++ [e]) = Ret (g2, os ++ [o]).
Proof.
  revert g os. induction es as [|e' es IH]; intros g os; cbn [app run].
  - intros [= <- <-] ->. by mstep.
  - intros ([g' o'] & -> & H)%go_bind_inv Hs. mstep. apply go_bind_inv in H as ([g'' os'] & H & [= <- <-]).
    rewrite (IH _ _ H Hs). by mstep.
Qed.

Lemma start_inv g pool : started pool g → inv g pool (start g).
Proof.
  intros Hs. split; cbn; try done; try (by intros [|]); [by apply started_ok|by eexists|by destruct (exit g)|].
  by destruct (exit g).
Qed.

(** An iteration always returns, and is one more event of the run. *)
Lemma iterate_spec g0 pool s e :
  inv g0 pool s → event_ok e →
  ∃ g, iterate e s = [set_handled g e s] ∧ gw_ok pool g ∧ (is_Some (exit (gw s)) → is_Some (exit g)) ∧
    ∃ os, run g0 (handled s ++ [e]) = Ret (g, os).
Proof.
  intros Hi He. destruct (step_ok pool (gw s) e (inv_gw _ _ _ Hi) He) as (g & o & Hstep & Hok & Hgr & _).
  exists g. unfold iterate. rewrite Hstep. split; [done|]. split; [done|]. split; [apply Hgr|].
  destruct (inv_run _ _ _ Hi) as [os Hrun]. eexists. by eapply run_snoc.
Qed.

Ltac evs := cbn; rewrite ?Forall_app, ?Forall_cons; by auto 10.

Lemma moves_inv g0 pool s s' : inv g0 pool s → s' ∈ moves s → inv g0 pool s'.
Proof.
  intros Hi. pose proof Hi as [I1 I2 I3 I4 I5 I6 I7]. rewrite !Forall_app in I3. destruct I3 as (E1 & E2 & E3 & E4).
  unfold moves. rewrite !elem_of_app. intros [Hm|[Hm|Hm]].
  - unfold closer_moves in Hm. destruct (closing s) eqn:Ec.
    + destruct (cancelled s) eqn:Hc; [|by apply elem_of_nil in Hm]. apply list_elem_of_singleton in Hm as ->.
      split; cbn; try done; [evs|by intros [|]].
    + apply list_elem_of_singleton in Hm as ->. split; cbn; try done; [evs|auto|].
      intros Hd Hl. destruct (I4 Hl) as [r Hr]. by rewrite Hr in Hd.
    + apply list_elem_of_singleton in Hm as ->. split; cbn; try done; [evs|auto|auto].
    + by apply elem_of_nil in Hm.
  - unfold reader_moves in Hm. destruct (reading s) as [|e|r] eqn:Er; [| |by apply elem_of_nil in Hm].
    + destruct (conn_closed s) eqn:Hc.
      * apply list_elem_of_singleton in Hm as ->. split; cbn; try done. evs.
      * destruct (inbox s) as [|e q] eqn:Eq; [by apply elem_of_nil in Hm|]. apply list_elem_of_singleton in Hm as ->.
        apply Forall_cons in E1 as [He E1]. split; cbn; try done; [|by rewrite Hc]. evs.
    + apply Forall_cons in E3 as [He _].
      destruct (iterate_spec g0 pool s e Hi He) as (g & Hit & Hok & Hx & Hrun). rewrite Hit in Hm.
      apply list_elem_of_singleton in Hm as ->. split; cbn; try done; [evs|auto].
  - unfold looper_moves in Hm. destruct (looping s) as [| | |e|r] eqn:Er; try (by apply elem_of_nil in Hm).
    + destruct (dev_closed s) eqn:Hc; apply list_elem_of_singleton in Hm as ->; split; cbn; try done;
        try (evs); auto. by rewrite Hc; auto.
    + destruct (dev_closed s && wakes) eqn:Hc.
      * apply list_elem_of_singleton in Hm as ->. split; cbn; try done; [evs|auto|auto].
      * destruct (packets s) as [|e q] eqn:Eq; [by apply elem_of_nil in Hm|]. apply list_elem_of_singleton in Hm as ->.
        apply Forall_cons in E2 as [He E2]. split; cbn; try done; [|auto|auto]. evs.
    + apply Forall_cons in E4 as [He _].
      destruct (iterate_spec g0 pool s e Hi He) as (g & Hit & Hok & Hx & Hrun). rewrite Hit in Hm.
      apply list_elem_of_singleton in Hm as ->. split; cbn; try done; [evs|auto|auto].
Qed.

Lemma world_inv g0 pool s s' : inv g0 pool s → world s s' → inv g0 pool s'.
Proof.
  intros Hi Hw. destruct Hi as [I1 I2 I3 I4 I5 I6 I7]. rewrite !Forall_app in I3. destruct I3 as (E1 & E2 & E3 & E4).
  destruct Hw as [s|s e|s p now send_ok|s Hr|s Hl]; split; cbn; try done; try evs.
  - rewrite Hl in I4. by auto.
  - rewrite Hl in I7. by auto.
Qed.

Lemma reach_inv g0 pool s : started pool g0 → rtc tick (start g0) s → inv g0 pool s.
Proof.
  intros Hs. revert s. apply rtc_ind_r; [by apply start_inv|].
  intros s s' _ [Hm|Hw] IH; [by eapply moves_inv|by eapply world_inv].
Qed.

(** ** Termination *)

Definition closer_left (c : closer) : nat :=
  match c with CloserWaits => 3 | CloserConn => 2 | CloserDevice => 1 | CloserDone => 0 end.
Definition reader_left (r : reader) : nat := match r with Handling _ => 2 | Reading => 1 | Returned _ => 0 end.
Definition looper_left (l : looper) : nat :=
  match l with LoopHandling _ => 3 | LoopTop => 2 | Parked => 1 | _ => 0 end.

(** The steps the goroutines can still take without a new arrival. *)
Definition steps_left (s : state) : nat :=
  closer_left (closing s) + (2 * length (inbox s) + reader_left (reading s)) +
  (3 * length (packets s) + looper_left (looping s)).

Lemma moves_decrease s s' : s' ∈ moves s → (steps_left s' < steps_left s)%nat.
Proof.
  unfold moves, steps_left. rewrite !elem_of_app. intros [Hm|[Hm|Hm]].
  - unfold closer_moves in Hm. destruct (closing s); [destruct (cancelled s)| | |];
      first [by apply elem_of_nil in Hm|apply list_elem_of_singleton in Hm as ->]; cbn; [lia| |lia]. destruct (exit _); cbn; lia.
  - unfold reader_moves, iterate in Hm. destruct (reading s) as [|e|r]; [|destruct (step (gw s) e) as [[g o]|]|]; cbn in Hm;
      [destruct (conn_closed s); [|destruct (inbox s)]|..];
      first [by apply elem_of_nil in Hm|apply list_elem_of_singleton in Hm as ->]; cbn; lia.
  - unfold looper_moves, iterate in Hm. destruct (looping s) as [| | |e|r]; [| | |destruct (step (gw s) e) as [[g o]|]|]; cbn in Hm;
      [|destruct (dev_closed s)|destruct (dev_closed s && wakes); [|destruct (packets s)]|..];
      first [by apply elem_of_nil in Hm|apply list_elem_of_singleton in Hm as ->]; cbn; lia.
Qed.

(** Every goroutine has ended, or is blocked in a read that nothing wakes. *)
Definition ended (s : state) : Prop :=
  closing s = CloserDone ∧ conn_closed s = true ∧ (∃ r, reading s = Returned r) ∧
  (looping s = NoLoop ∨ (∃ r, looping s = LoopReturned r) ∨
   wakes = false ∧ looping s = Parked ∧ dev_closed s = true ∧ packets s = []).

Lemma stuck_ended g0 pool s : inv g0 pool s → cancelled s = true → moves s = [] → ended s.
Proof.
  intros Hi Hc Hm. pose proof Hi as [_ _ I3 I4 I5 I6 I7]. rewrite !Forall_app in I3. destruct I3 as (E1 & E2 & E3 & E4).
  unfold moves in Hm. apply app_eq_nil in Hm as [Hcm [Hrm Hlm]%app_eq_nil].
  assert (closing s = CloserDone) as Hd.
  { unfold closer_moves in Hcm. destruct (closing s); try done. by rewrite Hc in Hcm. }
  assert (conn_closed s = true) as Hcc by auto. split; [done|]. split; [done|]. split.
  - unfold reader_moves in Hrm. rewrite Hcc in Hrm. destruct (reading s) as [|e|r]; [done| |by eexists].
    apply Forall_cons in E3 as [He _]. destruct (iterate_spec g0 pool s e Hi He) as (g & Hit & _). by rewrite Hit in Hrm.
  - unfold looper_moves in Hlm. destruct (looping s) as [| | |e|r] eqn:El; [by left| | | |by right; left; eexists].
    + by destruct (dev_closed s).
    + rewrite I7 in Hlm by done. destruct wakes eqn:Ew; cbn in Hlm; [done|]. right; right.
      split; [done|]. split; [done|]. split; [by apply I7|]. by destruct (packets s).
    + apply Forall_cons in E4 as [He _]. destruct (iterate_spec g0 pool s e Hi He) as (g & Hit & _). by rewrite Hit in Hlm.
Qed.

(** After the cancellation, no goroutine reports a read error. *)
Definition quiet (s : state) : Prop :=
  cancelled s = true ∧ (∀ e, reading s ≠ Returned (Some e)) ∧ (∀ e, looping s ≠ LoopReturned (Some e)).

Lemma tick_quiet s s' : quiet s → tick s s' → quiet s'.
Proof.
  intros (Hc & Hr & Hl) [Hm|Hw].
  - unfold moves in Hm. rewrite !elem_of_app in Hm. destruct Hm as [Hm|[Hm|Hm]].
    + unfold closer_moves in Hm. destruct (closing s); [rewrite Hc in Hm| | |];
        first [by apply elem_of_nil in Hm|apply list_elem_of_singleton in Hm as ->; done].
    + unfold reader_moves, iterate in Hm. destruct (reading s) as [|e|r]; [|destruct (step (gw s) e) as [[g o]|]|]; cbn in Hm;
        [destruct (conn_closed s); [|destruct (inbox s)]|..];
        first [by apply elem_of_nil in Hm|apply list_elem_of_singleton in Hm as ->]; by split_and!.
    + unfold looper_moves, iterate, loop_result in Hm. rewrite Hc in Hm.
      destruct (looping s) as [| | |e|r]; [| | |destruct (step (gw s) e) as [[g o]|]|]; cbn in Hm;
        [|destruct (dev_closed s)|destruct (dev_closed s && wakes); [|destruct (packets s)]|..];
        first [by apply elem_of_nil in Hm|apply list_elem_of_singleton in Hm as ->]; by split_and!.
  - destruct Hw; unfold quiet, serve_result, loop_result; cbn; rewrite ?Hc; by split_and!.
Qed.

(** ** Properties *)

(** C15: Cancelling the context ends the service.  In every interleaving of a started
    gateway's goroutines with arrivals, read errors and the cancellation: the state
    of the gateway is that of the iterations completed, run in sequence; each step of
    a goroutine uses up one of finitely many steps left, so that without further
    arrivals the goroutines stop; and when they can take no further step after the
    cancellation, the closer is done, the socket is closed, [Serve] has returned,
    and so has the return loop, unless it is blocked in a device whose close does
    not wake it.  A loop still running at the cancellation returns no error. *)
Theorem shutdown_terminates (pool : list Addr) g0 (s : state) :
  started pool g0 → rtc tick (start g0) s →
  (∃ os, run g0 (handled s) = Ret (gw s, os)) ∧
  (∀ s', s' ∈ moves s → (steps_left s' < steps_left s)%nat) ∧
  (cancelled s = true → moves s = [] → ended s) ∧
  (quiet s → ∀ s', rtc tick s s' → quiet s').
Proof.
  intros Hs Hr. pose proof (reach_inv g0 pool s Hs Hr) as Hi. split; [by apply (inv_run _ _ _ Hi)|].
  split; [apply moves_decrease|]. split; [by eapply stuck_ended|].
  intros Hq. apply rtc_ind_r; [done|]. intros s1 s2 _ Ht Hq1. by eapply tick_quiet.
Qed.

(** With a device whose close does not wake its reader, the service can end with
    the return loop still parked. *)
Lemma parked_loop_leaks g r :
  wakes = false → exit g = Some r →
  ∃ s, rtc tick (start g) s ∧ cancelled s = true ∧ moves s = [] ∧ reading s = Returned None ∧
    dev_closed s = true ∧ looping s = Parked.
Proof.
  intros Hw Hx.
  set (s1 := set_looping Parked (start g)). set (s2 := cancel s1). set (s3 := set_closing CloserConn s2).
  set (s4 := set_closing CloserDevice (close_conn s3)). set (s5 := set_closing CloserDone (close_dev s4)).
  set (s6 := set_reading (Returned None) s5).
  assert (s1 ∈ moves (start g)) as M1.
  { unfold moves, closer_moves, reader_moves, looper_moves. cbn. rewrite Hx. cbn. set_solver. }
  assert (s3 ∈ moves s2) as M3 by (unfold moves; set_solver).
  assert (s4 ∈ moves s3) as M4 by (unfold moves, closer_moves; cbn; rewrite Hx; set_solver).
  assert (s5 ∈ moves s4) as M5 by (unfold moves; set_solver).
  assert (s6 ∈ moves s5) as M6 by (unfold moves; set_solver).
  exists s6. split.
  { eapply rtc_l; [by left|]. eapply rtc_l; [right; apply WCancel|]. do 3 (eapply rtc_l; [by left|]).
    eapply rtc_l; [by left|]. apply rtc_refl. }
  split; [done|]. split; [|done]. unfold moves, looper_moves. cbn. by rewrite Hw.
Qed.

End lifecycle.

Module Witness.
Import Crypto.Toy Gateway.Witness.

Definition stop : state (P := ()) :=
  set_reading (Returned None) (set_closing CloserDevice (close_conn (set_closing CloserConn (cancel (start g1))))).

Lemma stop_reached : rtc (tick true) (start g1) stop.
Proof.
  eapply rtc_l; [right; apply WCancel|]. eapply rtc_l; [left; apply list_elem_of_In; left; reflexivity|].
  eapply rtc_l; [left; apply list_elem_of_In; left; reflexivity|].
  eapply rtc_l; [left; apply list_elem_of_In; right; left; reflexivity|]. apply rtc_refl.
Qed.

Lemma shutdown_terminates_witness :
  (∃ os, run g1 [] = Ret (gw stop, os)) ∧ (∀ s', s' ∈ moves true stop → (steps_left s' < steps_left stop)%nat).
Proof.
  destruct (shutdown_terminates true (Allocator.free Allocator.alloc1) g1 stop started1 stop_reached) as (H1 & H2 & _).
  split; [exact H1|exact H2].
Defined.

End Witness.

End Lifecycle.
