(* ===== verification/Bridge.v ===== *)
(** * bridge/geminacore: the C ABI over the transport core

    registry.go (the session registry, [createSession], [outboundInto],
    [inboundInto]), handshake.go (in-flight handshakes) and bridge.go (the
    exported [cc_*] functions).  The two process-wide registries [reg] and
    [hsReg] are the state of the model.  A C pointer argument is the memory it
    points to, as long as the caller says it is; a buffer the callee fills is
    returned.  [C.int] values are integers in the 32-bit range.  Bytes from
    crypto/rand and the clock are arguments of the calls that read them. *)

From S2P Require Import Prelude GoTime Protocol ReplayWindow Wire Crypto Session Handshake.
Import Protocol Wire Session Handshake GoTime.

Module Bridge.

Definition errCodeBadHandle : Z := 1.
Definition errCodeBufferSize : Z := 2.
Definition errCodeCore : Z := 3.
Definition errCodeBadArgs : Z := 4.

(** ** registry.go and handshake.go: the registries *)

(** Both registries hand out [uint64] handles from a counter. *)
Record registry (A : Type) := mkRegistry { last_handle : Z; live : gmap Z A }.
Arguments mkRegistry {_} _ _.
Arguments last_handle {_} _.
Arguments live {_} _.

Definition newRegistry {A} : registry A := mkRegistry 0 ∅.

Definition reg_add {A} (r : registry A) (s : A) : registry A * Z :=
  let h := u64 (last_handle r + 1) in (mkRegistry h (<[h := s]> (live r)), h).
Definition reg_get {A} (r : registry A) (h : Z) : option A := live r !! h.
Definition reg_remove {A} (r : registry A) (h : Z) : registry A :=
  mkRegistry (last_handle r) (delete h (live r)).

(** [hsRegistry.take]: look up and remove. *)
Definition hs_take (r : registry ClientHandshake) (h : Z) : registry ClientHandshake * option ClientHandshake :=
  match live r !! h with
  | Some hs => (reg_remove r h, Some hs)
  | None => (r, None)
  end.

(** A registered session is shared by reference: a call through its handle
    updates it in place. *)
Definition reg_set (r : registry Session) (h : Z) (s : Session) : registry Session :=
  mkRegistry (last_handle r) (<[h := s]> (live r)).

Record bridge := mkBridge { reg : registry Session; hsReg : registry ClientHandshake }.
Definition empty_bridge : bridge := mkBridge newRegistry newRegistry.

Definition set_reg (b : bridge) (r : registry Session) : bridge := mkBridge r (hsReg b).
Definition set_hs (b : bridge) (r : registry ClientHandshake) : bridge := mkBridge (reg b) r.

(** [copy(out, src)] from the start of [out]. *)
Definition copy_into (out src : bytes) : bytes :=
  take (length out) src ++ drop (length src) out.

Section ops.
Context `{CA : AEAD, CX : X25519, CK : HKDF, CE : Ed25519}.

(** ** registry.go: the operations *)

Definition createSession (b : bridge) (id key : bytes) (r : Role) (capacity : Z) : go (bridge * Z) :=
  match NewSessionID id with
  | Err _ => Ret (b, 0)
  | Ok sid =>
      s ← NewSession sid key r capacity;
      match s with
      | Err _ => Ret (b, 0)
      | Ok s => let '(r, h) := reg_add (reg b) s in Ret (set_reg b r, h)
      end
  end.

Definition outboundInto (b : bridge) (handle : Z) (payload out : bytes) : go (bridge * Z * bytes) :=
  match reg_get (reg b) handle with
  | None => Ret (b, - errCodeBadHandle, out)
  | Some s =>
      '(s, r) ← Outbound s payload;
      let b := set_reg b (reg_set (reg b) handle s) in
      match r with
      | Err _ => Ret (b, - errCodeCore, out)
      | Ok framed =>
          if decide (length out < length framed)%nat then Ret (b, - errCodeBufferSize, out)
          else Ret (b, Z.of_nat (length framed), copy_into out framed)
      end
  end.

(** The result is the byte count or error code, [*deliver] and [out]. *)
Definition inboundInto (b : bridge) (handle : Z) (wire out : bytes) : go (bridge * Z * bool * bytes) :=
  match reg_get (reg b) handle with
  | None => Ret (b, - errCodeBadHandle, false, out)
  | Some s =>
      '(s, r) ← Inbound s wire;
      let b := set_reg b (reg_set (reg b) handle s) in
      match r with
      | Err _ => Ret (b, - errCodeCore, false, out)
      | Ok (payload, first) =>
          if decide (length out < length payload)%nat then Ret (b, - errCodeBufferSize, false, out)
          else Ret (b, Z.of_nat (length payload), first, copy_into out payload)
      end
  end.

(** ** handshake.go: the operations *)

Definition beginHandshake (b : bridge) (gatewayPub token out : bytes)
    (rid : option SessionID) (rkey : option bytes) (now : Time) : go (bridge * Z * Z * bytes) :=
  if decide (length gatewayPub ≠ 32%nat) then Ret (b, - errCodeBadArgs, 0, out) else
  r ← BeginClientHandshake gatewayPub token rid rkey now;
  match r with
  | Err _ => Ret (b, - errCodeCore, 0, out)
  | Ok (hello, hs) =>
      if decide (length out < length hello)%nat then Ret (b, - errCodeBufferSize, 0, out)
      else let '(r, h) := reg_add (hsReg b) hs in
           Ret (set_hs b r, Z.of_nat (length hello), h, copy_into out hello)
  end.

Definition completeHandshake (b : bridge) (hsHandle : Z) (serverHello : bytes) (dedupCapacity : Z)
    (assignedIPv4Out : bytes) : go (bridge * Z * bytes) :=
  let '(r, hs) := hs_take (hsReg b) hsHandle in
  let b := set_hs b r in
  match hs with
  | None => Ret (b, 0, assignedIPv4Out)
  | Some hs =>
      s ← Complete hs serverHello dedupCapacity;
      match s with
      | Err _ => Ret (b, 0, assignedIPv4Out)
      | Ok session =>
          let ip := if decide (4 ≤ length assignedIPv4Out)%nat
                    then copy_into assignedIPv4Out (AssignedIPv4 session) else assignedIPv4Out in
          let '(r, h) := reg_add (reg b) session in Ret (set_reg b r, h, ip)
      end
  end.

Definition cancelHandshake (b : bridge) (hsHandle : Z) : bridge :=
  set_hs b (hs_take (hsReg b) hsHandle).1.

(** ** bridge.go: the exported functions *)

(** [C.GoBytes(p, n)], [C.GoString(p)], [make([]byte, n)] and [C.int(n)]. *)
Definition GoBytes (p : bytes) (n : Z) : go bytes :=
  if n <? 0 then Panic else Ret (take (Z.to_nat n) p).
Fixpoint GoString (p : bytes) : bytes :=
  match p with
  | [] => []
  | c :: p => if b2z c =? 0 then [] else c :: GoString p
  end.
Definition make_bytes (n : Z) : go bytes := if n <? 0 then Panic else Ret (zeros (Z.to_nat n)).
Definition c_int (n : Z) : Z := (n + 2 ^ 31) mod 2 ^ 32 - 2 ^ 31.

(** [if n > 0 { C.memcpy(out, &dst[0], n) }] *)
Definition memcpy_out (out dst : bytes) (n : Z) : go bytes :=
  if n >? 0 then _ ← index dst 0; Ret (take (Z.to_nat n) dst ++ drop (Z.to_nat n) out) else Ret out.

Definition cc_session_new (b : bridge) (sessionID key : bytes) (role capacity : Z) : go (bridge * Z) :=
  id ← GoBytes sessionID 16;
  keyBytes ← GoBytes key 32;
  if role =? 0 then createSession b id keyBytes RoleInitiator capacity
  else if role =? 1 then createSession b id keyBytes RoleResponder capacity
  else Ret (b, 0).

(** The result is the returned count or code, [*hsHandle] and [out]. *)
Definition cc_handshake_begin (b : bridge) (gatewayPub token out : bytes) (outCap : Z)
    (rid : option SessionID) (rkey : option bytes) (now : Time) : go (bridge * Z * Z * bytes) :=
  pub ← GoBytes gatewayPub 32;
  let tok := GoString token in
  dst ← make_bytes outCap;
  '(b, n, h, dst) ← beginHandshake b pub tok dst rid rkey now;
  if n <? 0 then Ret (b, c_int n, h, out) else
  out ← memcpy_out out dst n;
  Ret (b, c_int n, h, out).

(** [assignedIPv4] may be NULL. *)
Definition cc_handshake_complete (b : bridge) (hsHandle : Z) (serverHello : bytes) (serverHelloLen dedupCapacity : Z)
    (assignedIPv4 : option bytes) : go (bridge * Z * option bytes) :=
  wire ← GoBytes serverHello serverHelloLen;
  '(b, handle, ip) ← completeHandshake b hsHandle wire dedupCapacity (zeros 4);
  let out := match assignedIPv4 with
             | Some a => if decide (handle ≠ 0) then Some (take 4 ip ++ drop 4 a) else Some a
             | None => None
             end in
  Ret (b, handle, out).

Definition cc_handshake_cancel (b : bridge) (hsHandle : Z) : bridge := cancelHandshake b hsHandle.

Definition cc_outbound (b : bridge) (handle : Z) (payload : bytes) (payloadLen : Z) (out : bytes) (outCap : Z)
  : go (bridge * Z * bytes) :=
  in_ ← GoBytes payload payloadLen;
  dst ← make_bytes outCap;
  '(b, n, dst) ← outboundInto b handle in_ dst;
  if n <? 0 then Ret (b, c_int n, out) else
  out ← memcpy_out out dst n;
  Ret (b, c_int n, out).

(** The path label is only handed on to [Inbound], which ignores it. *)
Definition cc_inbound (b : bridge) (handle : Z) (wire : bytes) (wireLen : Z) (out : bytes) (outCap : Z)
  : go (bridge * Z * Z * bytes) :=
  in_ ← GoBytes wire wireLen;
  dst ← make_bytes outCap;
  '(b, n, delivered, dst) ← inboundInto b handle in_ dst;
  let deliver := if (delivered : bool) then 1 else 0 in
  if n <? 0 then Ret (b, c_int n, deliver, out) else
  out ← memcpy_out out dst n;
  Ret (b, c_int n, deliver, out).

Definition cc_session_free (b : bridge) (handle : Z) : bridge := set_reg b (reg_remove (reg b) handle).

(** ** A host process: any sequence of calls *)

Inductive call :=
| SessionNew (id key : bytes) (role capacity : Z)
| HsBegin (pub token out : bytes) (outCap : Z) (rid : option SessionID) (rkey : option bytes) (now : Time)
| HsComplete (h : Z) (serverHello : bytes) (len capacity : Z) (ip : option bytes)
| HsCancel (h : Z)
| COut (h : Z) (payload : bytes) (len : Z) (out : bytes) (outCap : Z)
| CIn (h : Z) (wire : bytes) (len : Z) (out : bytes) (outCap : Z)
| SessionFree (h : Z).

Inductive reply :=
| RSession (h : Z)
| RBegin (n h : Z) (out : bytes)
| RComplete (h : Z) (ip : option bytes)
| ROut (n : Z) (out : bytes)
| RIn (n deliver : Z) (out : bytes)
| RVoid.

Definition exec (b : bridge) (c : call) : go (bridge * reply) :=
  match c with
  | SessionNew id key r cap => '(b, h) ← cc_session_new b id key r cap; Ret (b, RSession h)
  | HsBegin pub tok out cap rid rkey now =>
      '(b, n, h, out) ← cc_handshake_begin b pub tok out cap rid rkey now; Ret (b, RBegin n h out)
  | HsComplete h sh n cap ip =>
      '(b, s, ip) ← cc_handshake_complete b h sh n cap ip; Ret (b, RComplete s ip)
  | HsCancel h => Ret (cc_handshake_cancel b h, RVoid)
  | COut h p n out cap => '(b, n, out) ← cc_outbound b h p n out cap; Ret (b, ROut n out)
  | CIn h w n out cap => '(b, n, d, out) ← cc_inbound b h w n out cap; Ret (b, RIn n d out)
  | SessionFree h => Ret (cc_session_free b h, RVoid)
  end.

Fixpoint exec_all (b : bridge) (cs : list call) : go (bridge * list reply) :=
  match cs with
  | [] => Ret (b, [])
  | c :: cs => '(b, r) ← exec b c; '(b, rs) ← exec_all b cs; Ret (b, r :: rs)
  end.

(** ** What the host may pass *)

(** Buffer lengths are not negative; everything else is any [C.int]. *)
Definition is_cint (n : Z) : Prop := - 2 ^ 31 ≤ n < 2 ^ 31.
Definition call_ok (c : call) : Prop :=
  match c with
  | SessionNew _ _ _ cap => is_cint cap
  | HsBegin _ _ _ cap _ _ _ => 0 ≤ cap
  | HsComplete _ _ n cap _ => 0 ≤ n ∧ is_cint cap
  | COut _ _ n _ cap | CIn _ _ n _ cap => 0 ≤ n ∧ 0 ≤ cap
  | HsCancel _ | SessionFree _ => True
  end.

(** The handles a reply carries; 0 is the failure sentinel. *)
Definition session_handle (r : reply) : option Z :=
  match r with
  | RSession h | RComplete h _ => if h =? 0 then None else Some h
  | _ => None
  end.
Definition hs_handle (r : reply) : option Z :=
  match r with
  | RBegin _ h _ => if h =? 0 then None else Some h
  | _ => None
  end.

(** The session handle a call is addressed to. *)
Definition addressed (h : Z) (c : call) : bool :=
  match c with
  | COut h' _ _ _ _ | CIn h' _ _ _ _ | SessionFree h' => h' =? h
  | _ => false
  end.
Definition consumes (h : Z) (c : call) : bool :=
  match c with
  | HsComplete h' _ _ _ _ | HsCancel h' => h' =? h
  | _ => false
  end.

(** ** Specification: a handle is a private session

    What the calls addressed to one handle do, in terms of that session alone;
    [None] is a handle that is not live. *)

Definition talk (s : option Session) (c : call) : go (option Session * reply) :=
  match c, s with
  | COut _ p n out cap, Some s =>
      '(s, r) ← Outbound s (take (Z.to_nat n) p);
      Ret (Some s,
           match r with
           | Err _ => ROut (- errCodeCore) out
           | Ok f => if decide (cap < Z.of_nat (length f)) then ROut (- errCodeBufferSize) out
                     else ROut (c_int (Z.of_nat (length f))) (f ++ drop (length f) out)
           end)
  | CIn _ w n out cap, Some s =>
      '(s, r) ← Inbound s (take (Z.to_nat n) w);
      Ret (Some s,
           match r with
           | Err _ => RIn (- errCodeCore) 0 out
           | Ok (p, first) =>
               if decide (cap < Z.of_nat (length p)) then RIn (- errCodeBufferSize) 0 out
               else RIn (c_int (Z.of_nat (length p))) (if (first : bool) then 1 else 0) (p ++ drop (length p) out)
           end)
  | COut _ _ _ out _, None => Ret (None, ROut (- errCodeBadHandle) out)
  | CIn _ _ _ out _, None => Ret (None, RIn (- errCodeBadHandle) 0 out)
  | SessionFree _, _ => Ret (None, RVoid)
  | _, _ => Ret (s, RVoid)
  end.

Fixpoint talk_all (s : option Session) (cs : list call) : go (option Session * list reply) :=
  match cs with
  | [] => Ret (s, [])
  | c :: cs => '(s, r) ← talk s c; '(s, rs) ← talk_all s cs; Ret (s, r :: rs)
  end.

(** ** The invariant *)

(** At most [k] handles were handed out by each registry, none above the
    counter is live, and every live session is well formed. *)
Record reg_ok {A} (P : A → Prop) (k : Z) (r : registry A) : Prop := {
  ro_last : 0 ≤ last_handle r ≤ k;
  ro_live : ∀ h s, live r !! h = Some s → 1 ≤ h ≤ last_handle r ∧ P s
}.
Definition good (s : Session) : Prop := ∃ prior, session_ok s prior.
Record bridge_ok (k : Z) (b : bridge) : Prop := {
  bo_reg : reg_ok good k (reg b);
  bo_hs : reg_ok (λ _, True) k (hsReg b)
}.

Lemma reg_ok_mono {A} (P : A → Prop) k k' r : reg_ok P k r → k ≤ k' → reg_ok P k' r.
Proof. intros [? ?] ?. split; [lia|done]. Qed.

Lemma reg_add_ok {A} (P : A → Prop) k r s :
  reg_ok P k r → k + 1 < 2 ^ 64 → P s →
  reg_add r s = (mkRegistry (last_handle r + 1) (<[last_handle r + 1 := s]> (live r)), last_handle r + 1) ∧
  reg_ok P (k + 1) (mkRegistry (last_handle r + 1) (<[last_handle r + 1 := s]> (live r))).
Proof.
  intros [Hl Hv] Hk Hs. unfold reg_add. rewrite u64_small by (unfold is_u64; lia).
  split; [done|]. split; [cbn; lia|]. cbn. intros h s'. rewrite lookup_insert_Some.
  intros [[<- <-]|[_ Hh]]; [split; [lia|done]|]. destruct (Hv h s' Hh). split; [lia|done].
Qed.

Lemma reg_remove_ok {A} (P : A → Prop) k r h : reg_ok P k r → reg_ok P k (reg_remove r h).
Proof.
  intros [Hl Hv]. split; [done|]. cbn. intros h' s' [_ Hh]%lookup_delete_Some. by apply Hv.
Qed.

Lemma reg_set_ok k r h s s' :
  reg_ok good k r → live r !! h = Some s → good s' → reg_ok good k (reg_set r h s').
Proof.
  intros [Hl Hv] Hh Hs. split; [done|]. cbn. intros h' s''. rewrite lookup_insert_Some.
  intros [[<- <-]|[_ Hh']]; [|by apply Hv]. split; [by apply (Hv h s)|done].
Qed.

Lemma hs_take_ok {P : ClientHandshake → Prop} k r h :
  reg_ok P k r → reg_ok P k (hs_take r h).1 ∧ live (hs_take r h).1 = delete h (live r) ∧
    last_handle (hs_take r h).1 = last_handle r ∧ (hs_take r h).2 = live r !! h.
Proof.
  intros Hr. unfold hs_take. destruct (live r !! h) as [hs|] eqn:Hh; cbn.
  - split; [by apply reg_remove_ok|done].
  - split; [done|]. by rewrite delete_id.
Qed.

(** ** The core under [C.int] capacities *)

Lemma NewSession_cint id key r cap :
  is_cint cap → ∃ res, NewSession id key r cap = Ret res ∧ ∀ s, res = Ok s → good s.
Proof.
  intros Hc. unfold is_cint in Hc.
  assert (∃ res, NewSession id key r cap = Ret res) as [res Hres].
  { destruct (decide (0 < cap)); [apply NewSession_total; lia|].
    unfold NewSession. destruct (IsZero id); [by eexists|]. destruct (newSealer key); [|by eexists].
    unfold Replay.NewReplayWindow. destruct (Z.leb_spec cap 0); [by eexists|lia]. }
  exists res. split; [done|]. intros s ->. exists [].
  eapply (NewSession_inv id key r cap s); [unfold is_i64; lia|done].
Qed.

Lemma Complete_cint hs sh cap :
  is_cint cap → ∃ res, Complete hs sh cap = Ret res ∧ ∀ s, res = Ok s → good s.
Proof.
  intros Hc. unfold Complete.
  destruct (DecodeServerHello_spec sh) as [[e ->]|(h & -> & Hok & ->)]; mstep; [by eexists|].
  case_decide as Hid; [by eexists|].
  destruct (VerifyHandshake _ _ _ _) as [[]|e] eqn:Hv; mstep; [|by eexists].
  destruct (DeriveSessionKey _ _ _) as [key|e] eqn:Hk; mstep; [|by eexists].
  destruct (NewSession_cint (sh_id h) key RoleInitiator cap Hc) as ([s|e] & -> & Hs); mstep; [|by eexists].
  eexists. split; [done|]. intros s' [= <-]. destruct (Hs s eq_refl) as [prior []]. by exists prior.
Qed.

Lemma Begin_total pub tok rid rkey now : ∃ res, BeginClientHandshake pub tok rid rkey now = Ret res.
Proof.
  unfold BeginClientHandshake. case_decide; [by eexists|]. destruct (randomSessionID rid) as [id|]; mstep; [|by eexists].
  destruct (GenerateKeyPair rkey) as [[priv k]|]; mstep; [|by eexists].
  destruct (decide (length k = x25519PubSize ∧ (length tok ≤ maxTokenLen)%nat)) as [[Hk Ht]|Hn].
  - pose proof (EncodeClientHello_layout (mkClientHello id (unix now) k tok)) as E. cbn in E.
    rewrite E; [by eexists|]. unfold client_hello_ok. cbn. split; [done|]. split; [done|apply i64_range].
  - unfold EncodeClientHello. case_decide; [by eexists|]. case_decide; [by eexists|].
    exfalso. apply Hn. split; [done|lia].
Qed.

Lemma Outbound_good s p : good s → ∃ s' r, Outbound s p = Ret (s', r) ∧ good s'.
Proof.
  intros [prior Hs]. destruct (decide (length p ≤ maxPayload)%nat) as [Hp|Hp].
  - rewrite Outbound_eq by done. eexists _, _. split; [done|]. exists prior. destruct Hs.
    split; try done. apply u64_range.
  - unfold Outbound. rewrite decide_True by lia. eexists _, _. split; [done|]. by exists prior.
Qed.

Lemma Inbound_good s w : good s → ∃ s' r, Inbound s w = Ret (s', r) ∧ good s'.
Proof.
  intros [prior Hs]. unfold Inbound.
  destruct (Inbound_cases s w prior Hs) as [[e ->]|(id & aad & ct & p & win & _ & _ & _ & _ & _ & -> & Hok & _)]; mstep.
  - eexists _, _. split; [done|]. by exists prior.
  - eexists _, _. split; [done|]. by eexists.
Qed.

(** ** Buffers *)

Lemma copy_into_fit out src :
  (length src ≤ length out)%nat → copy_into out src = src ++ drop (length src) out.
Proof. intros Hl. unfold copy_into. by rewrite take_ge by lia. Qed.

Lemma memcpy_fit out dst f :
  memcpy_out out (f ++ drop (length f) dst) (Z.of_nat (length f)) = Ret (f ++ drop (length f) out).
Proof.
  unfold memcpy_out. destruct (Z.gtb_spec (Z.of_nat (length f)) 0) as [Hl|Hl].
  - rewrite Nat2Z.id, take_app_length. destruct f as [|x f]; [cbn in Hl; lia|].
    by rewrite (index_ret _ 0 x).
  - by destruct f as [|x f]; [|cbn in Hl; lia].
Qed.

Lemma make_bytes_ret n : 0 ≤ n → make_bytes n = Ret (zeros (Z.to_nat n)).
Proof. intros Hn. unfold make_bytes. by destruct (Z.ltb_spec n 0); [lia|]. Qed.
Lemma GoBytes_ret p n : 0 ≤ n → GoBytes p n = Ret (take (Z.to_nat n) p).
Proof. intros Hn. unfold GoBytes. by destruct (Z.ltb_spec n 0); [lia|]. Qed.

(** The tail of the exported functions: a result that fits reaches the caller. *)
Lemma fit_out out cap f :
  Z.of_nat (length f) ≤ cap →
  memcpy_out out (copy_into (zeros (Z.to_nat cap)) f) (Z.of_nat (length f)) = Ret (f ++ drop (length f) out).
Proof. intros Hf. rewrite copy_into_fit by len. apply memcpy_fit. Qed.

Lemma c_int_code n : - 4 ≤ n < 0 → c_int n = n.
Proof. intros Hn. unfold c_int. rewrite Z.mod_small; lia. Qed.

(** ** The effect of one call *)

Record effect (b b' : bridge) (c : call) (r : reply) : Prop := {
  ef_last : last_handle (reg b') = default (last_handle (reg b)) (session_handle r);
  ef_new h : session_handle r = Some h → h = last_handle (reg b) + 1;
  ef_other h : h ≤ last_handle (reg b) → addressed h c = false → live (reg b') !! h = live (reg b) !! h;
  ef_talk h : addressed h c = true → talk (live (reg b) !! h) c = Ret (live (reg b') !! h, r);
  ef_hs_last : last_handle (hsReg b') = default (last_handle (hsReg b)) (hs_handle r);
  ef_hs_new h : hs_handle r = Some h → h = last_handle (hsReg b) + 1;
  ef_hs_live h : h ≤ last_handle (hsReg b) →
    live (hsReg b') !! h = if consumes h c then None else live (hsReg b) !! h;
  ef_hs_dead h sh n cap ip :
    c = HsComplete h sh n cap ip → live (hsReg b) !! h = None → r = RComplete 0 ip
}.

Lemma effect_none b c r :
  session_handle r = None → hs_handle r = None →
  (∀ h, addressed h c = false) → (∀ h, consumes h c = false) → effect b b c r.
Proof.
  intros Hs Hh Ha Hc. split; rewrite ?Hs, ?Hh; try done.
  - intros h. by rewrite Ha.
  - intros h _. by rewrite Hc.
  - intros h sh n cap ip ->. specialize (Hc h). cbn in Hc. by rewrite Z.eqb_refl in Hc.
Qed.

Lemma effect_addressed b s' h c r :
  addressed h c = true → talk (live (reg b) !! h) c = Ret (s', r) →
  session_handle r = None → hs_handle r = None →
  effect b (set_reg b (mkRegistry (last_handle (reg b)) (partial_alter (λ _, s') h (live (reg b))))) c r.
Proof.
  intros Ha Ht Hs Hh. split; rewrite ?Hs, ?Hh; try done.
  - intros h' _ Hn. cbn. rewrite lookup_partial_alter_ne; [done|]. intros ->. congruence.
  - intros h' Ha'. assert (h' = h) as ->.
    { destruct c; cbn in Ha, Ha'; try done; apply Z.eqb_eq in Ha, Ha'; congruence. }
    cbn. by rewrite lookup_partial_alter_eq.
  - intros h' _. by destruct c.
  - intros h' sh n cap ip ->. done.
Qed.

Lemma alter_ok k b h s' :
  bridge_ok k b → (∀ s, s' = Some s → good s ∧ is_Some (live (reg b) !! h)) →
  bridge_ok (k + 1) (set_reg b (mkRegistry (last_handle (reg b)) (partial_alter (λ _, s') h (live (reg b))))).
Proof.
  intros [[Hl Hv] Hh] Hs. split; [|eapply reg_ok_mono; [done|lia]].
  split; [cbn; lia|]. cbn. intros h' s. destruct (decide (h' = h)) as [->|Hne].
  - rewrite lookup_partial_alter_eq. intros ->. destruct (Hs s eq_refl) as [Hg [s0 Hs0]].
    split; [by apply (Hv h s0)|done].
  - rewrite lookup_partial_alter_ne by done. apply Hv.
Qed.

Lemma set_as_alter b h s :
  set_reg b (reg_set (reg b) h s) =
  set_reg b (mkRegistry (last_handle (reg b)) (partial_alter (λ _, Some s) h (live (reg b)))).
Proof. done. Qed.
Lemma keep_as_alter b h :
  live (reg b) !! h = None →
  b = set_reg b (mkRegistry (last_handle (reg b)) (partial_alter (λ _, None) h (live (reg b)))).
Proof.
  intros Hh. destruct b as [[l m] hs]. unfold set_reg. cbn in *. f_equal. f_equal.
  apply map_eq. intros i. destruct (decide (i = h)) as [->|].
  - by rewrite lookup_partial_alter_eq.
  - by rewrite lookup_partial_alter_ne.
Qed.

(** A call addressed to a handle does to its session what [talk] says. *)
Lemma exec_addressed k b c h :
  bridge_ok k b → call_ok c → addressed h c = true →
  ∃ s' r, talk (live (reg b) !! h) c = Ret (s', r) ∧ session_handle r = None ∧ hs_handle r = None ∧
    (∀ s, s' = Some s → good s ∧ is_Some (live (reg b) !! h)) ∧
    exec b c = Ret (set_reg b (mkRegistry (last_handle (reg b)) (partial_alter (λ _, s') h (live (reg b)))), r).
Proof.
  intros [[_ Hv] _] Hc Ha. destruct c as [| | | |h' p n out cap|h' w n out cap|h']; try done; cbn in Ha;
    apply Z.eqb_eq in Ha as ->; cbn [exec].
  - destruct Hc as [Hn Hcap]. unfold cc_outbound, outboundInto, reg_get.
    rewrite GoBytes_ret, make_bytes_ret by done. mstep. cbn [talk].
    destruct (live (reg b) !! h) as [s|] eqn:Hh; cbn [talk].
    + destruct (Outbound_good s (take (Z.to_nat n) p)) as (s' & r & -> & Hg); [by apply (Hv h)|]. mstep.
      rewrite set_as_alter. exists (Some s').
      destruct r as [f|e]; [|eexists; split_and!; by try (intros ? [= <-])].
      rewrite length_zeros. destruct (decide (cap < Z.of_nat (length f))).
      * rewrite decide_True by lia. eexists; split_and!; by try (intros ? [= <-]).
      * rewrite decide_False by lia. mstep. destruct (Z.ltb_spec (Z.of_nat (length f)) 0); [lia|].
        rewrite fit_out by lia. mstep. eexists; split_and!; by try (intros ? [= <-]).
    + exists None. eexists. split_and!; try done. mstep. cbn. by rewrite <-keep_as_alter.
  - destruct Hc as [Hn Hcap]. unfold cc_inbound, inboundInto, reg_get.
    rewrite GoBytes_ret, make_bytes_ret by done. mstep. cbn [talk].
    destruct (live (reg b) !! h) as [s|] eqn:Hh; cbn [talk].
    + destruct (Inbound_good s (take (Z.to_nat n) w)) as (s' & r & -> & Hg); [by apply (Hv h)|]. mstep.
      rewrite set_as_alter. exists (Some s').
      destruct r as [[f first]|e]; [|eexists; split_and!; by try (intros ? [= <-])].
      rewrite length_zeros. destruct (decide (cap < Z.of_nat (length f))).
      * rewrite decide_True by lia. eexists; split_and!; by try (intros ? [= <-]).
      * rewrite decide_False by lia. mstep. destruct (Z.ltb_spec (Z.of_nat (length f)) 0); [lia|].
        rewrite fit_out by lia. mstep. eexists; split_and!; by try (intros ? [= <-]).
    + exists None. eexists. split_and!; try done. mstep. cbn. by rewrite <-keep_as_alter.
  - exists None, RVoid. by destruct (live (reg b) !! h).
Qed.

(** Handing out a session handle, after the handshake [hs] (if any) was consumed. *)
Definition opened (b : bridge) (r : registry ClientHandshake) (s : Session) : bridge :=
  mkBridge (mkRegistry (last_handle (reg b) + 1) (<[last_handle (reg b) + 1 := s]> (live (reg b)))) r.

Lemma effect_opened b hs s c r :
  0 ≤ last_handle (reg b) → session_handle r = Some (last_handle (reg b) + 1) → hs_handle r = None →
  (∀ h, addressed h c = false) → last_handle hs = last_handle (hsReg b) →
  (∀ h, live hs !! h = if consumes h c then None else live (hsReg b) !! h) →
  (∀ h sh n cap ip, c = HsComplete h sh n cap ip → live (hsReg b) !! h ≠ None) →
  effect b (opened b hs s) c r.
Proof.
  intros Hl Hs Hh Ha Hlast Hlive Hdead. split; rewrite ?Hs, ?Hh; try done.
  - by intros h [= <-].
  - intros h Hle _. cbn. rewrite lookup_insert_ne; [done|lia].
  - intros h. by rewrite Ha.
  - intros h sh n cap ip Hc Hno. by destruct (Hdead _ _ _ _ _ Hc).
Qed.

Lemma session_new_ok k b id key r cap :
  bridge_ok k b → k + 1 < 2 ^ 64 → is_cint cap →
  ∃ b' rep, exec b (SessionNew id key r cap) = Ret (b', rep) ∧ bridge_ok (k + 1) b' ∧
    effect b b' (SessionNew id key r cap) rep.
Proof.
  intros Hb Hk Hc. pose proof Hb as [Hr Hhs].
  assert (∀ id' r', ∃ b' h, createSession b id' (take 32 key) r' cap = Ret (b', h) ∧ bridge_ok (k + 1) b' ∧
            effect b b' (SessionNew id key r cap) (RSession h)) as Hcreate.
  { intros id' r'. unfold createSession.
    assert (bridge_ok (k + 1) b) by (split; eapply reg_ok_mono; [done|lia|done|lia]).
    assert (effect b b (SessionNew id key r cap) (RSession 0)) by by apply effect_none.
    destruct (NewSessionID id') as [sid|e]; [|by eexists _, _].
    destruct (NewSession_cint sid (take 32 key) r' cap Hc) as ([s|e] & -> & Hs); mstep; [|by eexists _, _].
    destruct (reg_add_ok good k (reg b) s Hr Hk (Hs s eq_refl)) as [-> Hok].
    eexists _, _. split; [done|]. split; [split; [done|eapply reg_ok_mono; [done|lia]]|].
    apply (effect_opened b (hsReg b) s); try done; [apply Hr|].
    cbn. destruct (Z.eqb_spec (last_handle (reg b) + 1) 0); [|done]. destruct (ro_last _ _ _ Hr). lia. }
  cbn [exec]. unfold cc_session_new. rewrite !GoBytes_ret by done. mstep.
  change (Z.to_nat 32) with 32%nat.
  destruct (r =? 0); [|destruct (r =? 1)].
  - destruct (Hcreate (take (Z.to_nat 16) id) RoleInitiator) as (b' & h & -> & ? & ?). by eexists _, _.
  - destruct (Hcreate (take (Z.to_nat 16) id) RoleResponder) as (b' & h & -> & ? & ?). by eexists _, _.
  - eexists _, _. split; [done|]. split; [split; eapply reg_ok_mono; [done|lia|done|lia]|by apply effect_none].
Qed.

Lemma hs_begin_ok k b pub tok out cap rid rkey now :
  bridge_ok k b → k + 1 < 2 ^ 64 → 0 ≤ cap →
  ∃ b' rep, exec b (HsBegin pub tok out cap rid rkey now) = Ret (b', rep) ∧ bridge_ok (k + 1) b' ∧
    effect b b' (HsBegin pub tok out cap rid rkey now) rep.
Proof.
  intros Hb Hk Hc. pose proof Hb as [Hr Hhs].
  assert (bridge_ok (k + 1) b) by (split; eapply reg_ok_mono; [done|lia|done|lia]).
  assert (∀ n, effect b b (HsBegin pub tok out cap rid rkey now) (RBegin n 0 out)) by (intros; by apply effect_none).
  cbn [exec]. unfold cc_handshake_begin, beginHandshake. rewrite GoBytes_ret, make_bytes_ret by done. mstep.
  case_decide; [by eexists _, _|].
  destruct (Begin_total (take (Z.to_nat 32) pub) (GoString tok) rid rkey now) as [[[hello hs]|e] ->]; mstep; [|by eexists _, _].
  case_decide as Hfit; [by eexists _, _|]. rewrite length_zeros in Hfit.
  destruct (reg_add_ok (λ _, True) k (hsReg b) hs Hhs Hk I) as [-> Hok]. mstep.
  destruct (Z.ltb_spec (Z.of_nat (length hello)) 0); [lia|]. rewrite fit_out by lia. mstep.
  eexists _, _. split; [done|]. split; [split; [eapply reg_ok_mono; [done|lia]|done]|].
  destruct (ro_last _ _ _ Hhs) as [Hl _].
  assert (hs_handle (RBegin (c_int (Z.of_nat (length hello))) (last_handle (hsReg b) + 1) (hello ++ drop (length hello) out))
          = Some (last_handle (hsReg b) + 1)) as Hh.
  { cbn. destruct (Z.eqb_spec (last_handle (hsReg b) + 1) 0); [lia|done]. }
  split; rewrite ?Hh; try done.
  - by intros h [= <-].
  - intros h Hle. cbn. rewrite lookup_insert_ne; [done|lia].
Qed.

Lemma hs_complete_ok k b h sh n cap ip :
  bridge_ok k b → k + 1 < 2 ^ 64 → 0 ≤ n → is_cint cap →
  ∃ b' rep, exec b (HsComplete h sh n cap ip) = Ret (b', rep) ∧ bridge_ok (k + 1) b' ∧
    effect b b' (HsComplete h sh n cap ip) rep.
Proof.
  intros [Hr Hhs] Hk Hn Hc. cbn [exec]. unfold cc_handshake_complete, completeHandshake.
  rewrite GoBytes_ret by done. mstep.
  destruct (hs_take_ok k (hsReg b) h Hhs) as (Hok & Hlive & Hlast & Htk).
  destruct (hs_take (hsReg b) h) as [r hs]. cbn in Hok, Hlive, Hlast, Htk. subst hs.
  assert (∀ h', live r !! h' = if h =? h' then None else live (hsReg b) !! h') as Hlv.
  { intros h'. rewrite Hlive. destruct (Z.eqb_spec h h') as [->|]; [by apply lookup_delete_eq|by apply lookup_delete_ne]. }
  assert (bridge_ok (k + 1) (set_hs b r)) as Hb' by (split; cbn; eapply reg_ok_mono; [done|lia|done|lia]).
  assert (effect b (set_hs b r) (HsComplete h sh n cap ip) (RComplete 0 ip)) as He.
  { split; try done. by intros ? ? ? ? ? [= <- <- <- <- <-]. }
  destruct (live (hsReg b) !! h) as [hs|] eqn:Hh; mstep; [|exists (set_hs b r); by destruct ip; eexists].
  destruct (Complete_cint hs (take (Z.to_nat n) sh) cap Hc) as ([s|e] & -> & Hs); mstep;
    [|exists (set_hs b r); by destruct ip; eexists].
  change (reg (set_hs b r)) with (reg b).
  destruct (reg_add_ok good k (reg b) s Hr Hk (Hs s eq_refl)) as [-> Hok2]. mstep.
  eexists _, _. split; [done|]. split; [split; [done|eapply reg_ok_mono; [done|lia]]|].
  destruct (ro_last _ _ _ Hr). apply (effect_opened b r s); try done.
  - cbn. destruct (Z.eqb_spec (last_handle (reg b) + 1) 0); [lia|done].
  - intros ????? [= <- <- <- <- <-]. by rewrite Hh.
Qed.

Lemma hs_cancel_ok k b h :
  bridge_ok k b → ∃ b' rep, exec b (HsCancel h) = Ret (b', rep) ∧ bridge_ok (k + 1) b' ∧ effect b b' (HsCancel h) rep.
Proof.
  intros [Hr Hhs]. destruct (hs_take_ok k (hsReg b) h Hhs) as (Hok & Hlive & Hlast & _).
  eexists _, _. split; [done|]. split; [split; eapply reg_ok_mono; [done|lia|done|lia]|].
  split; try done. intros h' _. cbn. rewrite Hlive.
  destruct (Z.eqb_spec h h') as [->|]; [by apply lookup_delete_eq|by apply lookup_delete_ne].
Qed.

(** Every call returns, keeps the invariant and has the effect above. *)
Lemma exec_ok k b c :
  bridge_ok k b → k + 1 < 2 ^ 64 → call_ok c →
  ∃ b' r, exec b c = Ret (b', r) ∧ bridge_ok (k + 1) b' ∧ effect b b' c r.
Proof.
  intros Hb Hk Hc.
  assert (∀ h, addressed h c = true → ∃ b' r, exec b c = Ret (b', r) ∧ bridge_ok (k + 1) b' ∧ effect b b' c r) as Haddr.
  { intros h Ha. destruct (exec_addressed k b c h Hb Hc Ha) as (s' & r & Ht & Hs & Hh & Hg & ->).
    eexists _, _. split; [done|]. split; [by apply alter_ok|by apply effect_addressed]. }
  destruct c as [| | | |h ????|h ????|h]; [| | | |apply (Haddr h), Z.eqb_refl..].
  - by apply session_new_ok.
  - by apply hs_begin_ok.
  - destruct Hc. by apply hs_complete_ok.
  - by apply hs_cancel_ok.
Qed.

(** ** Runs *)

Inductive trace : bridge → list call → list reply → bridge → Prop :=
| trace_nil b : trace b [] [] b
| trace_cons b b1 b2 c cs r rs :
    exec b c = Ret (b1, r) → effect b b1 c r → trace b1 cs rs b2 → trace b (c :: cs) (r :: rs) b2.

Lemma exec_all_trace k b cs :
  bridge_ok k b → k + Z.of_nat (length cs) < 2 ^ 64 → Forall call_ok cs →
  ∃ b' rs, exec_all b cs = Ret (b', rs) ∧ bridge_ok (k + Z.of_nat (length cs)) b' ∧ trace b cs rs b'.
Proof.
  intros Hb Hk Hcs. revert k b Hb Hk. induction Hcs as [|c cs Hc _ IH]; intros k b Hb Hk; cbn [length] in *.
  - eexists _, _. split; [done|]. rewrite Z.add_0_r. split; [done|constructor].
  - destruct (exec_ok k b c Hb) as (b1 & r & HE & Hb1 & He); [lia|done|].
    destruct (IH (k + 1) b1 Hb1) as (b2 & rs & HA & Hb2 & Ht); [lia|].
    cbn [exec_all]. rewrite HE. mstep. rewrite HA. mstep. eexists _, _. split; [done|].
    split; [by replace (k + Z.of_nat (S (length cs))) with (k + 1 + Z.of_nat (length cs)) by lia|by econstructor].
Qed.

Lemma trace_at b cs rs b' i c :
  trace b cs rs b' → cs !! i = Some c →
  ∃ r b1 b2, rs !! i = Some r ∧ trace b (take i cs) (take i rs) b1 ∧ exec b1 c = Ret (b2, r) ∧ effect b1 b2 c r ∧
    trace b2 (drop (S i) cs) (drop (S i) rs) b'.
Proof.
  intros Ht Hc. revert i c Hc. induction Ht as [b|b b1 b2 c cs r rs HE He Ht IH]; intros i c' Hi; [done|].
  destruct i as [|i]; cbn in *.
  - injection Hi as <-. exists r, b, b1. rewrite !drop_0. split_and!; try done. constructor.
  - destruct (IH i c' Hi) as (r' & x & y & Hr & Hl & ? & ? & ?). exists r', x, y. split_and!; try done. by econstructor.
Qed.

(** Two calls of a run, the later one after the earlier. *)
Lemma trace_later b cs rs b' i j c d :
  trace b cs rs b' → (i < j)%nat → cs !! i = Some c → cs !! j = Some d →
  ∃ r b1 b2 mid rmid b3 b4 r', trace b (take i cs) (take i rs) b1 ∧ effect b1 b2 c r ∧ trace b2 mid rmid b3 ∧
    effect b3 b4 d r' ∧ rs !! j = Some r'.
Proof.
  intros Ht Hij Hc Hd. destruct (trace_at _ _ _ _ _ _ Ht Hc) as (r & b1 & b2 & _ & T1 & _ & He & T2).
  replace j with (S i + (j - S i))%nat in * by lia. rewrite <-lookup_drop in Hd.
  destruct (trace_at _ _ _ _ _ _ T2 Hd) as (r' & b3 & b4 & Hr' & T3 & _ & He' & _).
  rewrite lookup_drop in Hr'. by exists r, b1, b2, (take (j - S i) (drop (S i) cs)), (take (j - S i) (drop (S i) rs)), b3, b4, r'.
Qed.

(** Each registry, seen through the handles it hands out ([pick]). *)
Section counter.
Context (cnt : bridge → Z) (pick : reply → option Z).
Hypothesis cnt_step : ∀ b b' c r, effect b b' c r →
  cnt b' = default (cnt b) (pick r) ∧ ∀ h, pick r = Some h → h = cnt b + 1.

Lemma handles_fresh b cs rs b' :
  trace b cs rs b' →
  cnt b ≤ cnt b' ∧ (∀ h, h ∈ omap pick rs → cnt b < h ≤ cnt b') ∧ NoDup (omap pick rs).
Proof.
  induction 1 as [b|b b1 b2 c cs r rs _ He _ (IHl & IHh & IHn)]; cbn.
  { split; [done|]. split; [by intros h ?%elem_of_nil|constructor]. }
  destruct (cnt_step _ _ _ _ He) as [Hl Hn]. destruct (pick r) as [h|]; cbn in Hl.
  - rewrite (Hn h eq_refl) in *. split; [lia|]. split.
    + intros h' [->|Hin]%elem_of_cons; [lia|]. specialize (IHh h' Hin). lia.
    + constructor; [|done]. intros Hin. specialize (IHh _ Hin). lia.
  - rewrite Hl in *. done.
Qed.

(** A handle handed out before a call is covered by the counter after it. *)
Lemma handles_covered b cs rs b1 b2 c r h :
  trace b cs rs b1 → effect b1 b2 c r → h ∈ omap pick rs → h ≤ cnt b1 ∧ h ≤ cnt b2.
Proof.
  intros Ht He Hh. destruct (handles_fresh _ _ _ _ Ht) as (_ & Hb & _). apply Hb in Hh as [_ Hh].
  split; [done|]. destruct (cnt_step _ _ _ _ He) as [-> Hn]. destruct (pick r) as [h'|]; [|done].
  cbn. rewrite (Hn h' eq_refl). lia.
Qed.
End counter.

Lemma session_cnt b b' c r : effect b b' c r →
  last_handle (reg b') = default (last_handle (reg b)) (session_handle r) ∧
  ∀ h, session_handle r = Some h → h = last_handle (reg b) + 1.
Proof. by intros []. Qed.
Lemma hs_cnt b b' c r : effect b b' c r →
  last_handle (hsReg b') = default (last_handle (hsReg b)) (hs_handle r) ∧
  ∀ h, hs_handle r = Some h → h = last_handle (hsReg b) + 1.
Proof. by intros []. Qed.

(** The replies to the calls addressed to [h]. *)
Definition replies_of (h : Z) (cs : list call) (rs : list reply) : list reply :=
  (filter (λ x, addressed h x.1 = true) (zip cs rs)).*2.
Definition calls_to (h : Z) (cs : list call) : list call := filter (λ c, addressed h c = true) cs.

Lemma trace_talk h b cs rs b' :
  trace b cs rs b' → h ≤ last_handle (reg b) →
  talk_all (live (reg b) !! h) (calls_to h cs) = Ret (live (reg b') !! h, replies_of h cs rs).
Proof.
  unfold calls_to, replies_of.
  induction 1 as [b|b b1 b2 c cs r rs HE He Ht IH]; intros Hh; [done|].
  destruct (session_cnt _ _ _ _ He) as [Hl Hn].
  assert (h ≤ last_handle (reg b1)) as Hh1.
  { rewrite Hl. destruct (session_handle r) as [h'|]; cbn; [|done]. rewrite (Hn h' eq_refl). lia. }
  specialize (IH Hh1). cbn [zip zip_with]. rewrite !filter_cons. cbn [fst].
  destruct (addressed h c) eqn:Ha.
  - rewrite !decide_True by done. cbn [talk_all fmap list_fmap]. rewrite (ef_talk _ _ _ _ He h Ha). mstep.
    rewrite IH. by mstep.
  - rewrite !decide_False by done. by rewrite <-(ef_other _ _ _ _ He h Hh Ha).
Qed.

(** A consumed handshake handle stays consumed. *)
Lemma trace_hs_dead h b cs rs b' :
  trace b cs rs b' → h ≤ last_handle (hsReg b) → live (hsReg b) !! h = None → live (hsReg b') !! h = None.
Proof.
  induction 1 as [b|b b1 b2 c cs r rs HE He Ht IH]; intros Hh Hd; [done|].
  destruct (hs_cnt _ _ _ _ He) as [Hl Hn]. apply IH.
  - rewrite Hl. destruct (hs_handle r) as [h'|]; cbn; [|done]. rewrite (Hn h' eq_refl). lia.
  - rewrite (ef_hs_live _ _ _ _ He h Hh), Hd. by destruct (consumes h c).
Qed.

Lemma trace_dead h b cs rs b' :
  trace b cs rs b' → h ≤ last_handle (reg b) → live (reg b) !! h = None → live (reg b') !! h = None.
Proof.
  intros Ht Hh Hd. pose proof (trace_talk h _ _ _ _ Ht Hh) as Htalk. rewrite Hd in Htalk.
  assert (∀ l x y, Forall (λ c, addressed h c = true) l → talk_all None l = Ret (x, y) → x = None) as Hnone.
  { induction l as [|c l IH]; cbn [talk_all]; intros x y Hl Hx; [by injection Hx as <- _|].
    inversion Hl as [|? ? Ha Hl']; subst.
    assert (∃ r, talk None c = Ret (None, r)) as [r Hr] by (destruct c; try done; by eexists).
    rewrite Hr in Hx. autorewrite with gomonad in Hx.
    destruct (talk_all None l) as [[x' y']|] eqn:Hrec; [|done]. injection Hx as <- _. by eapply IH. }
  eapply Hnone; [|exact Htalk]. apply Forall_forall. by intros c [? _]%list_elem_of_filter.
Qed.

Lemma empty_ok : bridge_ok 0 empty_bridge.
Proof. split; split; try done; cbn; intros h s Hs; by rewrite lookup_empty in Hs. Qed.

(** ** Properties *)

(** Handles are never reused.  Whatever calls the host makes (fewer than 2^64,
    lengths not negative), every one of them returns; the session handles handed
    out are pairwise distinct, and so are the handshake handles; once a handed-out
    session handle is freed, every later call through it is refused with -1 and
    delivers nothing; and once a handshake is completed (well or badly) or
    cancelled, completing it again yields no session. *)
Theorem bridge_handles (cs : list call) :
  Z.of_nat (length cs) < 2 ^ 64 → Forall call_ok cs →
  ∃ b rs, exec_all empty_bridge cs = Ret (b, rs) ∧
    NoDup (omap session_handle rs) ∧ NoDup (omap hs_handle rs) ∧
    (∀ i j h, (i < j)%nat → cs !! i = Some (SessionFree h) → h ∈ omap session_handle (take i rs) →
       (∀ p n out cap, cs !! j = Some (COut h p n out cap) → rs !! j = Some (ROut (- 1) out)) ∧
       (∀ w n out cap, cs !! j = Some (CIn h w n out cap) → rs !! j = Some (RIn (- 1) 0 out))) ∧
    (∀ i j h c sh n cap ip, (i < j)%nat → cs !! i = Some c → consumes h c = true →
       h ∈ omap hs_handle (take i rs) →
       cs !! j = Some (HsComplete h sh n cap ip) → rs !! j = Some (RComplete 0 ip)).
Proof.
  intros Hl Hcs. destruct (exec_all_trace 0 empty_bridge cs empty_ok Hl Hcs) as (b & rs & HE & _ & Ht).
  exists b, rs. split; [done|].
  split; [by apply (handles_fresh _ _ session_cnt _ _ _ _ Ht)|].
  split; [by apply (handles_fresh _ _ hs_cnt _ _ _ _ Ht)|]. split.
  - intros i j h Hij Hi Hh.
    assert (∀ c, cs !! j = Some c → addressed h c = true →
              ∃ r, rs !! j = Some r ∧ ∃ s, talk None c = Ret (s, r)) as Hj.
    { intros c Hc Ha. destruct (trace_later _ _ _ _ _ _ _ _ Ht Hij Hi Hc)
        as (r & b1 & b2 & mid & rmid & b3 & b4 & r' & T1 & He & T2 & He' & Hr').
      destruct (handles_covered _ _ session_cnt _ _ _ _ _ _ _ _ T1 He Hh) as [_ Hh2].
      assert (live (reg b2) !! h = None) as Hd.
      { pose proof (ef_talk _ _ _ _ He h (Z.eqb_refl h)) as E. cbn in E.
        destruct (live (reg b1) !! h); by injection E as <- _. }
      exists r'. split; [done|]. pose proof (ef_talk _ _ _ _ He' h Ha) as E.
      rewrite (trace_dead h _ _ _ _ T2 Hh2 Hd) in E. by eexists. }
    split; intros p n out cap Hc; destruct (Hj _ Hc (Z.eqb_refl h)) as (r' & -> & s & E);
      by injection E as _ <-.
  - intros i j h c sh n cap ip Hij Hi Hco Hh Hj.
    destruct (trace_later _ _ _ _ _ _ _ _ Ht Hij Hi Hj)
      as (r & b1 & b2 & mid & rmid & b3 & b4 & r' & T1 & He & T2 & He' & ->).
    destruct (handles_covered _ _ hs_cnt _ _ _ _ _ _ _ _ T1 He Hh) as [Hh1 Hh2].
    pose proof (ef_hs_live _ _ _ _ He h Hh1) as Hd. rewrite Hco in Hd.
    f_equal. eapply (ef_hs_dead _ _ _ _ He'); [done|]. by apply (trace_hs_dead h _ _ _ _ T2).
Qed.

(** C26: Each handle is a private session.  From the moment a session handle is
    handed out, the calls addressed to it get exactly the replies of that one
    session run alone ([Outbound] and [Inbound] of pkg/clientcore, with the
    caller's buffers and error codes), whatever calls for other handles and
    handshakes come in between. *)
Theorem bridge_isolation (cs1 cs2 : list call) :
  Z.of_nat (length (cs1 ++ cs2)) < 2 ^ 64 → Forall call_ok (cs1 ++ cs2) →
  ∃ b1 rs1 b2 rs2, exec_all empty_bridge cs1 = Ret (b1, rs1) ∧ exec_all b1 cs2 = Ret (b2, rs2) ∧
    ∀ h, h ∈ omap session_handle rs1 →
      talk_all (live (reg b1) !! h) (calls_to h cs2) = Ret (live (reg b2) !! h, replies_of h cs2 rs2).
Proof.
  intros Hl [Hc1 Hc2]%Forall_app. rewrite length_app in Hl.
  destruct (exec_all_trace 0 empty_bridge cs1 empty_ok) as (b1 & rs1 & HE1 & Hb1 & T1); [lia|done|].
  destruct (exec_all_trace _ b1 cs2 Hb1) as (b2 & rs2 & HE2 & _ & T2); [lia|done|].
  exists b1, rs1, b2, rs2. split; [done|]. split; [done|]. intros h Hh.
  apply (trace_talk h _ _ _ _ T2). destruct (handles_fresh _ _ session_cnt _ _ _ _ T1) as (_ & Hb & _).
  by apply Hb.
Qed.

End ops.

(** ** Witnesses, at the toy primitives *)

Module Witness.
Import Toy.

Definition id1 : bytes := gs "session-id-00001".
Definition key1 : bytes := gs "0123456789abcdef0123456789abcdef".
Definition sh1 : bytes := Handshake.Witness.sh1.

(** Two sessions of one id and key (the two ends); a packet crosses, is repeated,
    the receiver is freed and asked again; a handshake is cancelled and then
    completed. *)
Definition wire1 : bytes := frame_of (arr 16 id1) key1 RoleInitiator 1 (gs "ping").
Definition cs1 : list call :=
  [SessionNew id1 key1 0 64; SessionNew id1 key1 1 64;
   HsBegin (gs "identity-public-of-the-gateway-1") (gs "tok") (zeros 200) 200
     (Some (arr 16 id1)) (Some (gs "client-ephemeral-private-key-001")) (Unix 0)].
Definition cs2 : list call :=
  [COut 1 (gs "ping") 4 (zeros 64) 64; CIn 2 wire1 50 (zeros 8) 8; CIn 2 wire1 50 (zeros 8) 8;
   SessionFree 2; CIn 2 wire1 50 (zeros 8) 8; HsCancel 1; HsComplete 1 sh1 122 64 None].

Lemma cs_ok : Forall call_ok (cs1 ++ cs2).
Proof.
  unfold cs1, cs2. cbn [app]. repeat (apply Forall_cons; split; [cbn; unfold is_cint; lia|]). by apply Forall_nil.
Qed.

(** The replies of the run: the first copy is delivered, the second is not. *)
Lemma cs_replies :
  match exec_all empty_bridge (cs1 ++ cs2) with
  | Ret (_, rs) => (omap session_handle rs, omap hs_handle rs, drop 4 rs)
  | Panic => ([], [], [])
  end = ([1; 2], [1],
         [RIn 4 1 (gs "ping" ++ zeros 4); RIn 4 0 (gs "ping" ++ zeros 4); RVoid; RIn (- 1) 0 (zeros 8);
          RVoid; RComplete 0 None]).
Proof. vm_compute. reflexivity. Qed.

Lemma bridge_handles_witness :
  ∃ b rs, exec_all empty_bridge (cs1 ++ cs2) = Ret (b, rs) ∧
    NoDup (omap session_handle rs) ∧ NoDup (omap hs_handle rs) ∧
    (∀ i j h, (i < j)%nat → (cs1 ++ cs2) !! i = Some (SessionFree h) → h ∈ omap session_handle (take i rs) →
       (∀ p n out cap, (cs1 ++ cs2) !! j = Some (COut h p n out cap) → rs !! j = Some (ROut (- 1) out)) ∧
       (∀ w n out cap, (cs1 ++ cs2) !! j = Some (CIn h w n out cap) → rs !! j = Some (RIn (- 1) 0 out))) ∧
    (∀ i j h c sh n cap ip, (i < j)%nat → (cs1 ++ cs2) !! i = Some c → consumes h c = true →
       h ∈ omap hs_handle (take i rs) →
       (cs1 ++ cs2) !! j = Some (HsComplete h sh n cap ip) → rs !! j = Some (RComplete 0 ip)).
Proof.
  apply (bridge_handles (cs1 ++ cs2)).
  - vm_compute. reflexivity.
  - exact cs_ok.
Defined.

Lemma bridge_isolation_witness :
  ∃ b1 rs1 b2 rs2, exec_all empty_bridge cs1 = Ret (b1, rs1) ∧ exec_all b1 cs2 = Ret (b2, rs2) ∧
    ∀ h, h ∈ omap session_handle rs1 →
      talk_all (live (reg b1) !! h) (calls_to h cs2) = Ret (live (reg b2) !! h, replies_of h cs2 rs2).
Proof.
  apply (bridge_isolation cs1 cs2).
  - vm_compute. reflexivity.
  - exact cs_ok.
Defined.

End Witness.
End Bridge.
