(* ===== verification/PrivDrop.v ===== *)
(** * cmd/gateway: dropping root

    privdrop.go ([parseRunAs], [parseID], [dropPrivileges],
    [checkNoCapabilities]), [assertNoCapabilities] of privdrop_linux.go and
    [dropToRunAs], [envOr] and [envInt] of main.go.  The kernel is not under src/:
    its credential system calls are the class [Kernel], and what setuid(2),
    setgid(2), setgroups(2), capabilities(7) and proc(5) document of them is the
    class [KernelLaws].  The soundness theorem needs only that a failing
    [setuid] changes nothing. *)

From S2P Require Import Prelude GoText.

Module PrivDrop.

(** ** The kernel *)

Record creds := mkCreds {
  uid : Z; euid : Z; suid : Z; gid : Z; egid : Z;
  permitted : Z; effective : Z; ambient : Z     (* capability sets *)
}.

(** System calls return the new kernel state and whether they succeeded;
    [status] is the text of /proc/self/status and whether reading it failed
    half-way, or [None] when it cannot be opened. *)
Class Kernel (K : Type) := {
  cred : K → creds;
  setgroups : list Z → K → K * bool;
  setgid : Z → K → K * bool;
  setuid : Z → K → K * bool;
  status : K → option (bytes * bool)
}.

(** setuid(2): "On error, -1 is returned"; the credentials are then unchanged. *)
Class KernelErrors (K : Type) `{Kernel K} : Prop := {
  setuid_failed u k k' : setuid u k = (k', false) → k' = k
}.

(** The lines of proc(5) for the capability sets, [%016x] each. *)
Definition hex16 (n : Z) : bytes :=
  map (λ i, Strconv.digit (Z.land (Z.shiftr n (4 * Z.of_nat (15 - i))) 15)) (seq 0 16).
Definition cap_line (key : string) (n : Z) : bytes := gs key ++ [":"%char; z2b 9] ++ hex16 n.
Definition cap_lines (c : creds) (inherited bounding : Z) : list bytes :=
  [cap_line "CapInh" inherited; cap_line "CapPrm" (permitted c); cap_line "CapEff" (effective c);
   cap_line "CapBnd" bounding; cap_line "CapAmb" (ambient c)].
Definition status_text (ls : list bytes) : bytes := concat (map (λ l, l ++ [Bufio.newline]) ls).

(** A line about something else. *)
Definition other_line (l : bytes) : Prop :=
  Bufio.plain_line l ∧ ∀ key val, Strings.cut ":"%char l = Some (key, val) →
    key ≠ gs "CapPrm" ∧ key ≠ gs "CapEff" ∧ key ≠ gs "CapAmb".

(** A process whose effective uid is 0 may change its groups and ids; leaving
    uid 0 sets the saved uid too and clears the capability sets; a process with
    no root id and no capability may not become root. Ids have 32 bits and -1
    is reserved. *)
Class KernelLaws (K : Type) `{Kernel K} : Prop := {
  law_setgroups k gs : euid (cred k) = 0 → ∃ k', setgroups gs k = (k', true) ∧ cred k' = cred k;
  law_setgid k g : euid (cred k) = 0 → 0 < g < 2 ^ 32 - 1 →
    ∃ k', setgid g k = (k', true) ∧
      cred k' = mkCreds (uid (cred k)) (euid (cred k)) (suid (cred k)) g g
                  (permitted (cred k)) (effective (cred k)) (ambient (cred k));
  law_setuid k u : euid (cred k) = 0 → 0 < u < 2 ^ 32 - 1 →
    ∃ k', setuid u k = (k', true) ∧ cred k' = mkCreds u u u (gid (cred k)) (egid (cred k)) 0 0 0;
  law_setuid_refused k : uid (cred k) ≠ 0 → euid (cred k) ≠ 0 → suid (cred k) ≠ 0 →
    effective (cred k) = 0 → setuid 0 k = (k, false);
  law_status k : ∃ before after inh bnd, Forall other_line before ∧ Forall other_line after ∧
    status k = Some (status_text (before ++ cap_lines (cred k) inh bnd ++ after), false)
}.

(** ** privdrop.go: the specification string *)

Inductive error :=
| ErrEmptySpec | ErrUid | ErrGid                                   (* parseRunAs *)
| ErrSetgroups | ErrSetgid | ErrSetuid | ErrCredentials | ErrRecoverable
| ErrReadCapabilities | ErrParseCap (key : bytes) | ErrCapHeld (key : bytes) (bits : Z)
| ErrScan | ErrCapsFound (seen : Z).

Definition defaultRunAs : bytes := gs "65532:65532".
Definition runAsKeepRoot : bytes := gs "root".
Definition colon : byte := ":"%char.

Definition parseID (s : bytes) : option Z :=
  match Strconv.parse_int s with
  | None => None
  | Some n => if n <=? 0 then None else Some n
  end.

Definition parseRunAs (spec : bytes) : result error (Z * Z) :=
  let spec := Strings.trim_space spec in
  if decide (spec = []) then Err ErrEmptySpec else
  let '(uidStr, gidStr, hasGid) :=
    match Strings.cut colon spec with
    | Some (u, g) => (u, g, true)
    | None => (spec, [], false)
    end in
  match parseID uidStr with
  | None => Err ErrUid
  | Some u =>
      if (hasGid : bool) then
        match parseID gidStr with
        | None => Err ErrGid
        | Some g => Ok (u, g)
        end
      else Ok (u, u)
  end.

(** ** privdrop.go: the capability sets in /proc/self/status *)

Definition is_cap_key (key : bytes) : bool :=
  bool_decide (key = gs "CapPrm") || bool_decide (key = gs "CapEff") || bool_decide (key = gs "CapAmb").

(** The loop over the lines: the number of capability lines, all zero, or the
    error of the first that is not. *)
Fixpoint check_lines (seen : Z) (ls : list bytes) : result error Z :=
  match ls with
  | [] => Ok seen
  | l :: ls =>
      match Strings.cut colon l with
      | None => check_lines seen ls
      | Some (key, val) =>
          if negb (is_cap_key key) then check_lines seen ls else
          match Strconv.parse_uint 16 (Strings.trim_space val) with
          | None => Err (ErrParseCap key)
          | Some bits => if negb (bits =? 0) then Err (ErrCapHeld key bits) else check_lines (seen + 1) ls
          end
      end
  end.

Definition checkNoCapabilities (data : bytes) (read_failed : bool) : result error () :=
  let '(lines, fine) := Bufio.scan_lines data in
  match check_lines 0 lines with
  | Err e => Err e
  | Ok seen =>
      if negb fine || read_failed then Err ErrScan
      else if negb (seen =? 3) then Err (ErrCapsFound seen)
      else Ok ()
  end.

Section ops.
Context {K : Type} `{KN : Kernel K}.

Definition assertNoCapabilities (k : K) : result error () :=
  match status k with
  | None => Err ErrReadCapabilities
  | Some (data, failed) => checkNoCapabilities data failed
  end.

(** ** privdrop.go: the drop *)

Definition dropPrivileges (u g : Z) (k : K) : K * result error bool :=
  if negb (euid (cred k) =? 0) then (k, Ok false) else
  let '(k, done) := setgroups [] k in
  if negb done then (k, Err ErrSetgroups) else
  let '(k, done) := setgid g k in
  if negb done then (k, Err ErrSetgid) else
  let '(k, done) := setuid u k in
  if negb done then (k, Err ErrSetuid) else
  if negb (uid (cred k) =? u) || negb (euid (cred k) =? u) || negb (gid (cred k) =? g) || negb (egid (cred k) =? g)
  then (k, Err ErrCredentials) else
  let '(k, done) := setuid 0 k in
  if done then (k, Err ErrRecoverable) else
  match assertNoCapabilities k with
  | Err e => (k, Err e)
  | Ok _ => (k, Ok true)
  end.

(** ** main.go: the environment *)

(** [os.Getenv]: the empty string when the variable is not set. *)
Definition env := bytes → bytes.

Definition envOr (e : env) (key : string) (fallback : bytes) : bytes :=
  if decide (e (gs key) = []) then fallback else e (gs key).

Definition envInt (e : env) (key : string) (fallback : Z) : Z :=
  let v := e (gs key) in
  if decide (v = []) then fallback else
  match Strconv.parse_int v with
  | None => fallback
  | Some n => if n <=? 0 then fallback else n
  end.

(** [dropToRunAs]: [None] when it exits the process. *)
Definition dropToRunAs (e : env) (k : K) : K * option () :=
  let spec := envOr e "GEMINA_GATEWAY_RUN_AS" defaultRunAs in
  if decide (spec = runAsKeepRoot) then (k, Some ()) else
  match parseRunAs spec with
  | Err _ => (k, None)
  | Ok (u, g) =>
      match dropPrivileges u g k with
      | (k, Err _) => (k, None)
      | (k, Ok _) => (k, Some ())
      end
  end.

(** ** The capability check *)

(** The capability lines of a text, with their values. *)
Definition cap_values (ls : list bytes) : list bytes :=
  omap (λ l, match Strings.cut colon l with
             | Some (key, val) => if is_cap_key key then Some val else None
             | None => None
             end) ls.
Definition zero_cap (val : bytes) : Prop := Strconv.parse_uint 16 (Strings.trim_space val) = Some 0.

Lemma check_lines_spec ls seen n :
  check_lines seen ls = Ok n ↔ Forall zero_cap (cap_values ls) ∧ n = seen + Z.of_nat (length (cap_values ls)).
Proof.
  revert seen. induction ls as [|l ls IH]; intros seen; cbn [check_lines cap_values omap list_omap].
  { cbn. rewrite Z.add_0_r. split; [intros [= <-]; by split; [constructor|]|by intros [_ ->]]. }
  destruct (Strings.cut colon l) as [[key val]|]; [|apply IH].
  destruct (is_cap_key key); cbn [negb]; [|apply IH]. rewrite Forall_cons. unfold zero_cap at 1. cbn [length].
  destruct (Strconv.parse_uint 16 (Strings.trim_space val)) as [bits|]; [|by split; [|intros [[? _] _]]].
  destruct (Z.eqb_spec bits 0) as [->|Hb]; cbn [negb]; [|by split; [|intros [[[= ->] _] _]]].
  rewrite IH. fold (cap_values ls). split; [intros [? ->]|intros [[_ ?] ->]]; (split; [done|lia]).
Qed.

Lemma cap_values_app l1 l2 : cap_values (l1 ++ l2) = cap_values l1 ++ cap_values l2.
Proof. apply omap_app. Qed.

Lemma other_no_caps ls : Forall other_line ls → cap_values ls = [].
Proof.
  induction 1 as [|l ls [_ Hl] _ IH]; [done|]. cbn. destruct (Strings.cut colon l) as [[key val]|] eqn:Hc; [|done].
  destruct (Hl key val Hc) as (H1 & H2 & H3). unfold is_cap_key. by rewrite !bool_decide_false.
Qed.

Lemma hex16_chars n c : c ∈ hex16 n → 48 ≤ b2z c.
Proof.
  intros [i [-> _]]%list_elem_of_fmap. unfold Strconv.digit. rewrite b2z_z2b.
  assert (0 ≤ Z.land (Z.shiftr n (4 * Z.of_nat (15 - i))) 15 < 16).
  { change 15 with (Z.ones 4). rewrite Z.land_ones by lia. apply Z.mod_pos_bound. lia. }
  destruct (Z.ltb_spec (Z.land (Z.shiftr n (4 * Z.of_nat (15 - i))) 15) 10); rewrite Z.mod_small; lia.
Qed.

Lemma cap_line_plain key n :
  bool_decide (Bufio.newline ∈ gs key) || bool_decide (Bufio.carriage_return ∈ gs key) = false →
  (length (gs key) <? 100)%nat = true → Bufio.plain_line (cap_line key n).
Proof.
  intros [H1%bool_decide_eq_false H2%bool_decide_eq_false]%orb_false_iff Hl%Nat.ltb_lt.
  unfold Bufio.plain_line, cap_line. rewrite !not_elem_of_app. split_and!; try done.
  - apply (bool_decide_unpack _). vm_compute. exact I.
  - by intros ?%hex16_chars.
  - apply (bool_decide_unpack _). vm_compute. exact I.
  - by intros ?%hex16_chars.
  - rewrite !length_app. unfold hex16. rewrite length_map, length_seq. cbn [length]. lia.
Qed.

(** ** The drop on a kernel that behaves as documented *)

Lemma dropped_no_caps `{!KernelLaws K} k :
  permitted (cred k) = 0 → effective (cred k) = 0 → ambient (cred k) = 0 → assertNoCapabilities k = Ok ().
Proof.
  intros Hp He Ha. destruct (law_status k) as (before & after & inh & bnd & Hb & Haf & Hst).
  unfold assertNoCapabilities, checkNoCapabilities. rewrite Hst. unfold status_text.
  rewrite Bufio.scan_lines_plain.
  - assert (check_lines 0 (before ++ cap_lines (cred k) inh bnd ++ after) = Ok 3) as ->; [|done].
    apply check_lines_spec. rewrite !cap_values_app, (other_no_caps before), (other_no_caps after) by done.
    unfold cap_lines. rewrite Hp, He, Ha. cbn [app].
    assert (cap_values [cap_line "CapInh" inh; cap_line "CapPrm" 0; cap_line "CapEff" 0; cap_line "CapBnd" bnd;
                        cap_line "CapAmb" 0] = replicate 3 (z2b 9 :: hex16 0)) as -> by done.
    split; [|done]. repeat constructor; done.
  - apply Forall_app. split; [eapply Forall_impl; [exact Hb|by intros ? []]|].
    apply Forall_app. split; [|eapply Forall_impl; [exact Haf|by intros ? []]].
    repeat (apply Forall_cons; split; [by apply cap_line_plain|]). by apply Forall_nil.
Qed.

Lemma parseRunAs_positive spec u g : parseRunAs spec = Ok (u, g) → 0 < u ∧ 0 < g.
Proof.
  assert (∀ s n, parseID s = Some n → 0 < n) as Hid.
  { intros s n. unfold parseID. destruct (Strconv.parse_int s) as [m|]; [|done].
    destruct (Z.leb_spec m 0); [done|]. by intros [= <-]. }
  unfold parseRunAs. case_decide; [done|].
  destruct (Strings.cut colon _) as [[us gs']|]; (destruct (parseID _) as [u'|] eqn:Hu; [|done]).
  - destruct (parseID gs') as [g'|] eqn:Hg; [|done]. intros [= <- <-]. eauto.
  - intros [= <- <-]. eauto.
Qed.

(** What a successful drop has checked. *)
Lemma dropPrivileges_inv `{!KernelErrors K} u g k k' :
  dropPrivileges u g k = (k', Ok true) →
  uid (cred k') = u ∧ euid (cred k') = u ∧ gid (cred k') = g ∧ egid (cred k') = g ∧
  setuid 0 k' = (k', false) ∧ assertNoCapabilities k' = Ok ().
Proof.
  unfold dropPrivileges. destruct (euid (cred k) =? 0); cbn [negb]; [|done].
  destruct (setgroups [] k) as [k1 []]; cbn [negb]; [|done].
  destruct (setgid g k1) as [k2 []]; cbn [negb]; [|done].
  destruct (setuid u k2) as [k3 []]; cbn [negb]; [|done].
  destruct (Z.eqb_spec (uid (cred k3)) u), (Z.eqb_spec (euid (cred k3)) u),
    (Z.eqb_spec (gid (cred k3)) g), (Z.eqb_spec (egid (cred k3)) g); cbn [negb orb]; try done.
  destruct (setuid 0 k3) as [k4 []] eqn:Hprobe; [done|]. pose proof (setuid_failed _ _ _ Hprobe) as ->.
  destruct (assertNoCapabilities k3) as [[]|er] eqn:Hcap; [|done]. by intros [= <-].
Qed.

(** What lets the process go on. *)
Lemma drop_outcome `{!KernelErrors K} (e : env) (k k' : K) :
  dropToRunAs e k = (k', Some ()) →
  (e (gs "GEMINA_GATEWAY_RUN_AS") = runAsKeepRoot ∧ k' = k) ∨
  (euid (cred k') ≠ 0 ∧
   (k' = k ∨
    ∃ u g, parseRunAs (envOr e "GEMINA_GATEWAY_RUN_AS" defaultRunAs) = Ok (u, g) ∧ 0 < u ∧ 0 < g ∧
      uid (cred k') = u ∧ euid (cred k') = u ∧ gid (cred k') = g ∧ egid (cred k') = g ∧
      setuid 0 k' = (k', false) ∧ assertNoCapabilities k' = Ok ())).
Proof.
  unfold dropToRunAs. case_decide as Hroot.
  { intros [= <-]. left. split; [|done]. unfold envOr in Hroot. by case_decide. }
  destruct (parseRunAs _) as [[u g]|] eqn:Hp; [|done]. pose proof (parseRunAs_positive _ _ _ Hp) as [Hu Hg].
  destruct (dropPrivileges u g k) as [k1 [[]|]] eqn:Hd; [| |done]; intros [= <-]; right.
  - pose proof (dropPrivileges_inv _ _ _ _ Hd) as (H1 & H2 & H3 & H4 & H5 & H6).
    split; [lia|]. right. by exists u, g.
  - unfold dropPrivileges in Hd. destruct (Z.eqb_spec (euid (cred k)) 0); cbn [negb] in Hd.
    + exfalso. revert Hd. repeat (case_match; try done).
    + injection Hd as <-. split; [done|by left].
Qed.

(** ** Properties *)

(** C23: The packet path never runs as root by accident.  Whatever the kernel's
    system calls answer (a failing [setuid] changing nothing), [dropToRunAs]
    lets the process go on only if the operator asked for root by name and
    nothing was changed, or the process was not root to begin with and nothing
    was changed, or all four ids are the positive ids asked for, [setuid(0)] is
    refused, and the capability check passed. *)
Theorem drop_verified `{!KernelErrors K} (e : env) (k k' : K) :
  dropToRunAs e k = (k', Some ()) →
  (e (gs "GEMINA_GATEWAY_RUN_AS") = runAsKeepRoot ∧ k' = k) ∨
  (euid (cred k') ≠ 0 ∧
   (k' = k ∨
    ∃ u g, parseRunAs (envOr e "GEMINA_GATEWAY_RUN_AS" defaultRunAs) = Ok (u, g) ∧ 0 < u ∧ 0 < g ∧
      uid (cred k') = u ∧ euid (cred k') = u ∧ gid (cred k') = g ∧ egid (cred k') = g ∧
      setuid 0 k' = (k', false) ∧ assertNoCapabilities k' = Ok ())).
Proof. apply drop_outcome. Qed.

(** The drop works.  On a kernel that behaves as documented, a root process
    configured with ids that fit the kernel's 32-bit ids is running as exactly
    those ids afterwards, with no capability left and no way back to root: the
    order of the calls (groups and gid while still root, uid last) is one the
    kernel permits. *)
Theorem drop_succeeds `{!KernelLaws K} (e : env) (k : K) (u g : Z) :
  euid (cred k) = 0 → envOr e "GEMINA_GATEWAY_RUN_AS" defaultRunAs ≠ runAsKeepRoot →
  parseRunAs (envOr e "GEMINA_GATEWAY_RUN_AS" defaultRunAs) = Ok (u, g) →
  u < 2 ^ 32 - 1 → g < 2 ^ 32 - 1 →
  ∃ k', dropToRunAs e k = (k', Some ()) ∧ cred k' = mkCreds u u u g g 0 0 0 ∧ setuid 0 k' = (k', false).
Proof.
  intros Hroot Hspec Hp Hu2 Hg2. pose proof (parseRunAs_positive _ _ _ Hp) as [Hu Hg].
  destruct (law_setgroups k [] Hroot) as (k1 & E1 & C1).
  destruct (law_setgid k1 g) as (k2 & E2 & C2); [by rewrite C1|lia|].
  destruct (law_setuid k2 u) as (k3 & E3 & C3); [by rewrite C2, C1|lia|].
  rewrite C2 in C3. cbn in C3.
  assert (setuid 0 k3 = (k3, false)) as E4 by (apply law_setuid_refused; rewrite C3; cbn; lia).
  exists k3. split; [|done]. unfold dropToRunAs. rewrite decide_False, Hp by done.
  unfold dropPrivileges. rewrite Hroot, E1. cbn [negb Z.eqb]. rewrite E2. cbn [negb]. rewrite E3. cbn [negb].
  rewrite C3. cbn [uid euid gid egid]. rewrite !Z.eqb_refl. cbn [negb orb]. rewrite E4.
  by rewrite dropped_no_caps by by rewrite C3.
Qed.

(** The capability check, exactly: it passes when the whole status text could
    be read line by line, exactly three lines are for the permitted, effective or
    ambient set, and each of these gives the number zero. *)
Theorem caps_check_exact (data : bytes) (read_failed : bool) :
  checkNoCapabilities data read_failed = Ok () ↔
  ∃ lines, Bufio.scan_lines data = (lines, true) ∧ read_failed = false ∧
    length (cap_values lines) = 3%nat ∧ Forall zero_cap (cap_values lines).
Proof.
  unfold checkNoCapabilities. destruct (Bufio.scan_lines data) as [lines fine]. split.
  - destruct (check_lines 0 lines) as [n|] eqn:Hc; [|done]. apply check_lines_spec in Hc as [Hz ->].
    destruct fine, read_failed; cbn [negb orb]; try done.
    destruct (Z.eqb_spec (0 + Z.of_nat (length (cap_values lines))) 3); [|done]. intros _.
    exists lines. split_and!; [done..|lia|done].
  - intros (lines' & [= -> ->] & -> & Hl & Hz).
    assert (check_lines 0 lines' = Ok 3) as -> by (apply check_lines_spec; rewrite Hl; done). done.
Qed.

End ops.

(** The check counts lines, not keys: a text with no effective set at all passes
    if another set is given twice. *)
Definition status_without_effective : bytes :=
  status_text [cap_line "CapPrm" 0; cap_line "CapPrm" 0; cap_line "CapAmb" 0].

Lemma missing_set_accepted :
  checkNoCapabilities status_without_effective false = Ok () ∧
  Strings.contains status_without_effective (gs "CapEff") = false.
Proof. split; vm_compute; reflexivity. Qed.

(** ** Witnesses, on a small kernel *)

Module ToyKernel.

Definition setgid_ (g : Z) (k : creds) : creds * bool :=
  if euid k =? 0 then (mkCreds (uid k) (euid k) (suid k) g g (permitted k) (effective k) (ambient k), true) else (k, false).
Definition setuid_ (u : Z) (k : creds) : creds * bool :=
  if euid k =? 0 then
    (if u =? 0 then (mkCreds 0 0 0 (gid k) (egid k) (permitted k) (effective k) (ambient k), true)
     else (mkCreds u u u (gid k) (egid k) 0 0 0, true))
  else if (u =? uid k) || (u =? suid k) then
    (mkCreds (uid k) u (suid k) (gid k) (egid k) (permitted k) (effective k) (ambient k), true)
  else (k, false).

#[export] Instance kernel : Kernel creds := {|
  cred k := k;
  setgroups _ k := if euid k =? 0 then (k, true) else (k, false);
  setgid := setgid_;
  setuid := setuid_;
  status k := Some (status_text ([gs "Name:" ++ [z2b 9] ++ gs "gateway"] ++ cap_lines k 0 0), false)
|}.

#[export] Instance kernel_errors : KernelErrors creds.
Proof. split. intros u k k'. cbn. unfold setuid_. repeat case_match; by intros [= ?]. Qed.

#[export] Instance kernel_laws : KernelLaws creds.
Proof.
  split; cbn; unfold setgid_, setuid_.
  - intros k gs ->. by eexists.
  - intros k g -> _. by eexists.
  - intros k u -> Hu. destruct (Z.eqb_spec u 0); [lia|]. by eexists.
  - intros k H1 H2 H3 _. destruct (Z.eqb_spec (euid k) 0); [lia|].
    destruct (Z.eqb_spec 0 (uid k)); [lia|]. by destruct (Z.eqb_spec 0 (suid k)); [lia|].
  - intros k. exists [gs "Name:" ++ [z2b 9] ++ gs "gateway"], [], 0, 0.
    split; [|split; [by apply Forall_nil|reflexivity]]. apply Forall_cons. split; [|constructor]. split.
    + split; [|split]; [apply (bool_decide_unpack _); vm_compute; exact I..|vm_compute; reflexivity].
    + intros key val E. vm_compute in E. by injection E as <- <-.
Qed.

Definition root1 : creds := mkCreds 0 0 0 0 0 (2 ^ 12) (2 ^ 12) 0.
Definition env1 : env := λ _, [].

Lemma drop_verified_witness :
  let k' := mkCreds 65532 65532 65532 65532 65532 0 0 0 in
  dropToRunAs env1 root1 = (k', Some ()) ∧
  ((env1 (gs "GEMINA_GATEWAY_RUN_AS") = runAsKeepRoot ∧ k' = root1) ∨
   (euid (cred k') ≠ 0 ∧
    (k' = root1 ∨
     ∃ u g, parseRunAs (envOr env1 "GEMINA_GATEWAY_RUN_AS" defaultRunAs) = Ok (u, g) ∧ 0 < u ∧ 0 < g ∧
       uid (cred k') = u ∧ euid (cred k') = u ∧ gid (cred k') = g ∧ egid (cred k') = g ∧
       setuid 0 k' = (k', false) ∧ assertNoCapabilities k' = Ok ()))).
Proof.
  assert (dropToRunAs env1 root1 = (mkCreds 65532 65532 65532 65532 65532 0 0 0, Some ())) as E
    by (vm_compute; reflexivity).
  split; [exact E|]. exact (drop_verified env1 root1 _ E).
Defined.

Lemma drop_succeeds_witness :
  ∃ k', dropToRunAs env1 root1 = (k', Some ()) ∧ cred k' = mkCreds 65532 65532 65532 65532 65532 0 0 0 ∧
    setuid 0 k' = (k', false).
Proof.
  apply (drop_succeeds env1 root1 65532 65532).
  - reflexivity.
  - vm_compute. discriminate.
  - vm_compute. reflexivity.
  - lia.
  - lia.
Defined.

End ToyKernel.
End PrivDrop.
