(* ===== verification/NetParse.v ===== *)
(** * Parsing of addresses by net/netip and net

    [netip.ParseAddr] (IPv4, IPv6 with [::], an embedded IPv4 tail and a zone)
    and [netip.ParsePrefix], which the gateway applies to its address pool, and
    [net.ParseIP] and [net.ParseCIDR], which the interface collector applies to
    interface addresses.  Every failure is [None]. *)

From S2P Require Import Prelude GoText Netip.
Import Netip.

Module NetParse.

Definition dot : byte := "."%char.
Definition colon : byte := ":"%char.
Definition percent : byte := "%"%char.
Definition slash : byte := "/"%char.

Definition dec_digit (c : byte) : option Z :=
  if (48 <=? b2z c) && (b2z c <=? 57) then Some (b2z c - 48) else None.
Definition hex_digit (c : byte) : option Z :=
  match dec_digit c with
  | Some d => Some d
  | None => if (97 <=? b2z c) && (b2z c <=? 102) then Some (b2z c - 87)
            else if (65 <=? b2z c) && (b2z c <=? 70) then Some (b2z c - 55) else None
  end.

(** [parseIPv4Fields]: [done] are the fields read, [val] and [digits] the value
    and the number of digits of the current one. *)
Fixpoint ipv4_fields (done : list Z) (val : Z) (digits : nat) (s : bytes) : option (list Z) :=
  match s with
  | [] => if decide (length done < 3)%nat then None else Some (done ++ [val])
  | c :: s =>
      match dec_digit c with
      | Some d =>
          if decide (digits = 1%nat ∧ val = 0) then None
          else if val * 10 + d >? 255 then None
          else ipv4_fields done (val * 10 + d) (S digits) s
      | None =>
          if decide (c = dot) then
            if decide (digits = 0%nat ∨ s = []) then None
            else if decide (length done = 3%nat) then None
            else ipv4_fields (done ++ [val]) 0 0 s
          else None
      end
  end.
Definition fields_value (fs : list Z) : Z := foldl (λ acc f, acc * 256 + f) 0 fs.

Definition parse_ipv4 (s : bytes) : option Addr := fs ← ipv4_fields [] 0 0 s; Some (Addr4 (fields_value fs)).

(** The leading hex number of a field: its digits, its value and the rest. *)
Fixpoint hex_group (digits : nat) (acc : Z) (s : bytes) : option (nat * Z * bytes) :=
  match s with
  | [] => Some (digits, acc, [])
  | c :: s' =>
      match hex_digit c with
      | None => Some (digits, acc, s)
      | Some d =>
          if decide (3 < digits)%nat then None
          else if acc * 16 + d >? 65535 then None
          else hex_group (S digits) (acc * 16 + d) s'
      end
  end.

(** The field loop of [parseIPv6]: [ws] are the 16-bit fields read, [ell] the
    position of the ellipsis; at most eight iterations. *)
Fixpoint ipv6_fields (fuel : nat) (ws : list Z) (ell : option nat) (s : bytes)
  : option (list Z * option nat * bytes) :=
  match fuel with
  | O => Some (ws, ell, s)
  | S fuel =>
      '(digits, acc, rest) ← hex_group 0 0 s;
      if decide (digits = 0%nat) then None else
      match rest with
      | c :: _ =>
          if decide (c = dot) then
            if decide (ell = None ∧ length ws ≠ 6%nat) then None
            else if decide (6 < length ws)%nat then None
            else
              fs ← ipv4_fields [] 0 0 s;
              let v := fields_value fs in
              Some (ws ++ [v / 65536; v mod 65536], ell, [])
          else
            let ws := ws ++ [acc] in
            if decide (c ≠ colon) then None else
            match tail rest with
            | [] => None
            | c2 :: rest2 =>
                if decide (c2 = colon) then
                  match ell with
                  | Some _ => None
                  | None =>
                      match rest2 with
                      | [] => Some (ws, Some (length ws), [])
                      | _ => ipv6_fields fuel ws (Some (length ws)) rest2
                      end
                  end
                else ipv6_fields fuel ws ell (c2 :: rest2)
            end
      | [] => Some (ws ++ [acc], ell, [])
      end
  end.

Definition groups_value (ws : list Z) : Z := foldl (λ acc w, acc * 65536 + w) 0 ws.

(** Expanding the ellipsis. *)
Definition expand (ws : list Z) (ell : option nat) : option (list Z) :=
  if decide (length ws < 8)%nat then
    match ell with
    | None => None
    | Some e => Some (take e ws ++ replicate (8 - length ws) 0 ++ drop e ws)
    end
  else match ell with Some _ => None | None => Some ws end.

Definition parse_ipv6_rest (ell : option nat) (s : bytes) (zone : string) : option Addr :=
  '(ws, ell, rest) ← ipv6_fields 8 [] ell s;
  if decide (rest ≠ []) then None else
  ws ← expand ws ell;
  Some (Addr6 (groups_value ws) zone).

Definition parse_ipv6_body (s : bytes) (zone : string) : option Addr :=
  if Strings.is_prefix [colon; colon] s then
    if decide (drop 2 s = []) then Some (Addr6 0 zone) else parse_ipv6_rest (Some 0%nat) (drop 2 s) zone
  else parse_ipv6_rest None s zone.

Definition parse_ipv6 (s : bytes) : option Addr :=
  match Strings.cut percent s with
  | None => parse_ipv6_body s EmptyString
  | Some (s, zone) => if decide (zone = []) then None else parse_ipv6_body s (String.string_of_list_ascii zone)
  end.

(** [netip.ParseAddr]: the first of '.', ':' and '%' decides. *)
Fixpoint addr_kind (s : bytes) : option byte :=
  match s with
  | [] => None
  | c :: s => if decide (c = dot ∨ c = colon ∨ c = percent) then Some c else addr_kind s
  end.

Definition ParseAddr (s : bytes) : option Addr :=
  match addr_kind s with
  | Some c => if decide (c = dot) then parse_ipv4 s else if decide (c = colon) then parse_ipv6 s else None
  | None => None
  end.

Definition Zone (a : Addr) : string := match a with Addr6 _ z => z | _ => EmptyString end.
Definition BitLen (a : Addr) : Z := match a with AddrZero => 0 | Addr4 _ => 32 | Addr6 _ _ => 128 end.

(** [netip.ParsePrefix]: at the last slash; no zone, no sign, no leading zero. *)
Definition last_cut (c : byte) (s : bytes) : option (bytes * bytes) :=
  match Strings.cut c (reverse s) with
  | Some (r, l) => Some (reverse l, reverse r)
  | None => None
  end.

Definition ParsePrefix (s : bytes) : option Prefix :=
  '(a, bits) ← last_cut slash s;
  ip ← ParseAddr a;
  if decide (Zone ip ≠ EmptyString) then None else
  if match bits with c :: _ :: _ => (b2z c <? 49) || (b2z c >? 57) | _ => false end then None else
  n ← Strconv.parse_int bits;
  if (n <? 0) || (n >? BitLen ip) then None else Some (mkPrefix ip n).

(** [net.dtoi] on the whole string (so [i = len(mask)]). *)
Fixpoint dtoi (acc : Z) (s : bytes) : option Z :=
  match s with
  | [] => Some acc
  | c :: s =>
      match dec_digit c with
      | None => None
      | Some d => if acc * 10 + d >=? 16777215 then None else dtoi (acc * 10 + d) s
      end
  end.

Definition ParseIP (s : bytes) : option Addr :=
  a ← ParseAddr s; if decide (Zone a ≠ EmptyString) then None else Some a.

(** The address of [net.ParseCIDR]. *)
Definition ParseCIDR (s : bytes) : option Addr :=
  '(addr, mask) ← Strings.cut slash s;
  a ← ParseIP addr;
  if decide (mask = []) then None else
  n ← dtoi 0 mask;
  if n >? BitLen a then None else Some a.

(** [IP.To4] is not nil: IPv4, or IPv4-mapped IPv6. *)
Definition has_4 (a : Addr) : bool :=
  match a with
  | AddrZero => false
  | Addr4 _ => true
  | Addr6 n _ => Z.shiftr n 32 =? 0xffff
  end.

(** ** Parsed values are in range *)

Lemma dec_digit_range c d : dec_digit c = Some d → 0 ≤ d ≤ 9.
Proof. unfold dec_digit. repeat case_cmp; cbn; try done. intros [= <-]. lia. Qed.

Lemma hex_digit_range c d : hex_digit c = Some d → 0 ≤ d ≤ 15.
Proof.
  unfold hex_digit. destruct (dec_digit c) as [x|] eqn:Hx.
  - intros [= <-]. apply dec_digit_range in Hx. lia.
  - repeat case_cmp; cbn; try done; intros [= <-]; lia.
Qed.

Lemma ipv4_fields_range done val digits s fs :
  0 ≤ val ≤ 255 → Forall (λ f, 0 ≤ f ≤ 255) done → (length done ≤ 3)%nat →
  ipv4_fields done val digits s = Some fs → length fs = 4%nat ∧ Forall (λ f, 0 ≤ f ≤ 255) fs.
Proof.
  revert done val digits. induction s as [|c s IH]; intros done val digits Hv Hd Hl; cbn [ipv4_fields].
  - case_decide; [done|]. intros [= <-]. rewrite length_app. cbn. split; [lia|].
    apply Forall_app. split; [done|by constructor].
  - destruct (dec_digit c) as [d|] eqn:Hc.
    + apply dec_digit_range in Hc. case_decide; [done|].
      destruct (Z.gtb_spec (val * 10 + d) 255); [done|]. apply IH; [lia|done|done].
    + case_decide; [|done]. case_decide; [done|]. case_decide; [done|]. apply IH; [lia| |].
      * apply Forall_app. split; [done|by constructor].
      * rewrite length_app. cbn. lia.
Qed.

Lemma foldl_base_range (base : Z) l acc n :
  0 < base → 0 ≤ acc < base ^ n → 0 ≤ n → Forall (λ f, 0 ≤ f < base) l →
  0 ≤ foldl (λ a f, a * base + f) acc l < base ^ (n + Z.of_nat (length l)).
Proof.
  intros Hb Ha Hn Hl. revert acc n Ha Hn. induction Hl as [|f l Hf _ IH]; intros acc n Ha Hn; cbn [foldl length].
  - by rewrite Z.add_0_r.
  - replace (n + Z.of_nat (S (length l))) with (n + 1 + Z.of_nat (length l)) by lia. apply IH; [|lia].
    rewrite Z.pow_add_r by lia. rewrite Z.pow_1_r. nia.
Qed.

Lemma fields_value_range fs :
  length fs = 4%nat → Forall (λ f, 0 ≤ f ≤ 255) fs → 0 ≤ fields_value fs < 2 ^ 32.
Proof.
  intros Hl Hf. pose proof (foldl_base_range 256 fs 0 0) as H. rewrite Hl in H. apply H; [lia..|].
  eapply Forall_impl; [exact Hf|]. cbn. lia.
Qed.

Lemma groups_value_range ws :
  length ws = 8%nat → Forall (λ w, 0 ≤ w < 65536) ws → 0 ≤ groups_value ws < 2 ^ 128.
Proof.
  intros Hl Hf. pose proof (foldl_base_range 65536 ws 0 0) as H. rewrite Hl in H. by apply H.
Qed.

Lemma hex_group_range digits acc s d v rest :
  0 ≤ acc < 65536 → hex_group digits acc s = Some (d, v, rest) → 0 ≤ v < 65536.
Proof.
  revert digits acc. induction s as [|c s IH]; intros digits acc Ha; cbn [hex_group].
  - by intros [= _ <- _].
  - destruct (hex_digit c) as [x|] eqn:Hx; [|by intros [= _ <- _]]. apply hex_digit_range in Hx.
    case_decide; [done|]. destruct (Z.gtb_spec (acc * 16 + x) 65535); [done|]. apply IH. lia.
Qed.

Lemma ipv6_fields_range fuel ws ell s ws' ell' rest :
  Forall (λ w, 0 ≤ w < 65536) ws → (length ws + fuel ≤ 8)%nat → (∀ e, ell = Some e → e ≤ length ws)%nat →
  ipv6_fields fuel ws ell s = Some (ws', ell', rest) →
  Forall (λ w, 0 ≤ w < 65536) ws' ∧ (length ws' ≤ 8)%nat ∧ (∀ e, ell' = Some e → e ≤ length ws')%nat.
Proof.
  revert ws ell s. induction fuel as [|fuel IH]; intros ws ell s Hw Hl He; cbn [ipv6_fields].
  { intros [= <- <- <-]. split; [done|]. split; [lia|done]. }
  intros ([[d acc] r] & Hg & H)%bind_Some. apply hex_group_range in Hg; [|lia]. case_decide; [done|].
  assert (Forall (λ w, 0 ≤ w < 65536) (ws ++ [acc])) as Hw'.
  { apply Forall_app. split; [done|by constructor]. }
  assert (length (ws ++ [acc]) = S (length ws)) as Hlen by (rewrite length_app; cbn; lia).
  destruct r as [|c r].
  { injection H as <- <- <-. rewrite Hlen. split; [done|]. split; [lia|]. intros e Hee. specialize (He e Hee). lia. }
  case_decide.
  - case_decide; [done|]. case_decide; [done|]. apply bind_Some in H as (fs & Hf & H).
    apply ipv4_fields_range in Hf as [Hfl Hf]; [|lia|constructor|cbn; lia].
    pose proof (fields_value_range fs Hfl Hf) as Hv. injection H as <- <- <-.
    rewrite length_app. cbn [length]. split; [|split; [lia|intros e Hee; specialize (He e Hee); lia]].
    apply Forall_app. split; [done|]. repeat constructor; try apply Z.mod_pos_bound; try lia.
    + apply Z.div_pos; lia.
    + apply Z.div_lt_upper_bound; lia.
  - case_decide; [done|]. cbn [tail] in H. destruct r as [|c2 r2]; [done|]. case_decide.
    + destruct ell; [done|]. destruct r2 as [|c3 r3].
      * injection H as <- <- <-. rewrite Hlen. split; [done|]. split; [lia|]. by intros e [= <-].
      * apply IH in H; [done|done|rewrite Hlen; lia|]. by intros e [= <-].
    + apply IH in H; [done|done|rewrite Hlen; lia|]. intros e Hee. rewrite Hlen. specialize (He e Hee). lia.
Qed.

Lemma expand_range ws ell ws' :
  Forall (λ w, 0 ≤ w < 65536) ws → (length ws ≤ 8)%nat → (∀ e, ell = Some e → e ≤ length ws)%nat →
  expand ws ell = Some ws' → length ws' = 8%nat ∧ Forall (λ w, 0 ≤ w < 65536) ws'.
Proof.
  intros Hw Hl He. unfold expand. case_decide.
  - destruct ell as [e|]; [|done]. intros [= <-]. specialize (He e eq_refl).
    rewrite !length_app, length_take, length_replicate, length_drop. split; [lia|].
    rewrite <-(take_drop e ws) in Hw. apply Forall_app in Hw as [H1 H2].
    rewrite !Forall_app. split_and!; [done| |done]. apply Forall_replicate. lia.
  - destruct ell; [done|]. intros [= <-]. split; [lia|done].
Qed.

Lemma parse_ipv6_rest_ok ell s zone a :
  (∀ e, ell = Some e → e = 0%nat) → parse_ipv6_rest ell s zone = Some a → addr_ok a ∧ ∃ n, a = Addr6 n zone.
Proof.
  intros He. unfold parse_ipv6_rest. intros ([[ws ell'] rest] & Hf & H)%bind_Some. case_decide; [done|].
  apply bind_Some in H as (ws' & Hx & [= <-]).
  apply ipv6_fields_range in Hf as (H1 & H2 & H3); [|constructor|cbn; lia|intros e Hee; by rewrite (He e Hee)].
  destruct (expand_range _ _ _ H1 H2 H3 Hx) as [H4 H5]. split; [by apply groups_value_range|by eexists].
Qed.

Lemma parse_ipv6_body_ok s zone a : parse_ipv6_body s zone = Some a → addr_ok a ∧ ∃ n, a = Addr6 n zone.
Proof.
  unfold parse_ipv6_body. case_match; [case_decide|].
  - intros [= <-]. split; [cbn; lia|by eexists].
  - apply parse_ipv6_rest_ok. by intros e [= <-].
  - by apply parse_ipv6_rest_ok.
Qed.

(** Whatever [ParseAddr] returns is an address, never the zero value. *)
Lemma ParseAddr_ok s a : ParseAddr s = Some a → addr_ok a ∧ IsValid a = true.
Proof.
  unfold ParseAddr. destruct (addr_kind s); [|done]. case_decide; [|case_decide; [|done]].
  - unfold parse_ipv4. intros (fs & Hf & [= <-])%bind_Some.
    apply ipv4_fields_range in Hf as [Hfl Hf]; [|lia|constructor|cbn; lia].
    split; [by apply fields_value_range|done].
  - unfold parse_ipv6. destruct (Strings.cut percent s) as [[s' z]|].
    + case_decide; [done|]. by intros [? [n ->]]%parse_ipv6_body_ok.
    + by intros [? [n ->]]%parse_ipv6_body_ok.
Qed.

(** Whatever [ParsePrefix] returns is a well-formed prefix. *)
Lemma ParsePrefix_ok s p : ParsePrefix s = Some p → prefix_ok p.
Proof.
  unfold ParsePrefix. intros ([a bits] & _ & H)%bind_Some. apply bind_Some in H as (ip & Ha & H).
  apply ParseAddr_ok in Ha as [Ha Hv]. case_decide; [done|]. case_match; [done|].
  apply bind_Some in H as (n & _ & H). destruct (Z.ltb_spec n 0), (Z.gtb_spec n (BitLen ip)); cbn in H; try done.
  injection H as <-. split; [done|]. cbn. destruct ip; cbn in *; [done|lia|lia].
Qed.

(** The default pool, and addresses on the edge of the grammar. *)
Lemma parse_examples :
  ParsePrefix (gs "10.99.0.0/16") = Some (mkPrefix (Addr4 174260224) 16) ∧
  ParsePrefix (gs "10.99.0.0/033") = None ∧ ParsePrefix (gs "fe80::1%en0/64") = None ∧
  ParseAddr (gs "::") = Some (Addr6 0 "") ∧ ParseAddr (gs "1::2::3") = None ∧
  ParseAddr (gs "::ffff:1.2.3.4") = Some (Addr6 (0xffff * 2 ^ 32 + 16909060) "") ∧
  ParseAddr (gs "1:2:3:4:5:6:7:8") = Some (Addr6 0x00010002000300040005000600070008 "") ∧
  ParseAddr (gs "1:2:3:4:5:6:7::8") = None ∧ ParseAddr (gs "1.2.3.04") = None ∧
  ParseCIDR (gs "192.0.2.7/24") = Some (Addr4 3221225991) ∧ ParseIP (gs "fe80::1%en0") = None.
Proof. vm_compute. done. Qed.

End NetParse.
