(* ===== verification/GatewayMain.v ===== *)
(** * cmd/gateway: the process

    [main] and [runDataGateway] of main.go with [openExitDevice],
    [exitDevice.enable] and [LoadOrCreateIdentity] of internal/gateway.  The
    process is a function of its environment, of the answers of the operating
    system ([host]) and of the kernel's credential calls; it returns the log of
    what it did to the outside world, each entry with the credentials it had at
    that moment.  Signals, log lines, the receive-buffer size and the HTTP server
    behind the metrics address are not modelled. *)

From S2P Require Import Prelude GoText GoTime Protocol Crypto Session Handshake Netip Allocator PathSet.
From S2P Require Import Router Entitlement Metrics ProbeServer Gateway PrivDrop NetParse.
Import Netip.

Module GatewayMain.

Definition defaultAddr : bytes := gs ":51820".
Definition defaultCapacity : Z := 8192.

(** ** internal/gateway/identity.go *)

(** [os.ReadFile]. *)
Inductive file := FileData (d : bytes) | FileMissing | FileError.

Inductive error :=
| ErrIdentitySize | ErrIdentityRead | ErrGenerate | ErrWrite
| ErrPool | ErrAllocator (e : Allocator.error) | ErrTUN.

(** The result is the private key and whether it was created; the second
    component is what was written to the file. *)
Definition LoadOrCreateIdentity (content : file) (generated : option bytes) (write_ok : bool)
  : result error (bytes * bool) * option bytes :=
  match content with
  | FileData d => if decide (length d ≠ 64%nat) then (Err ErrIdentitySize, None) else (Ok (d, false), None)
  | FileMissing =>
      match generated with
      | None => (Err ErrGenerate, None)
      | Some priv => if negb write_ok then (Err ErrWrite, None) else (Ok (priv, true), Some priv)
      end
  | FileError => (Err ErrIdentityRead, None)
  end.

Section process.
Context `{CA : AEAD, CX : X25519, CK : HKDF, CE : Ed25519, CM : HMAC} {K : Type} `{KN : PrivDrop.Kernel K}.

Abbreviation DataGateway := (Gateway.DataGateway (P := ())).

(** What the operating system answers. *)
Record host := mkHost {
  listen_ok : bool;
  tun_ok : bytes → Z → bool;
  identity_file : bytes → file;
  fresh_identity : option bytes;
  write_ok : bool;
  serve_ok : bool
}.

Inductive action :=
| Listen (addr : bytes)
| OpenTUN (name : bytes) (mtu : Z)
| Identity (path : bytes)
| ServeMetrics (addr : bytes)
| ServeProbe (s : ProbeServer.Server)
| ServeData (g : DataGateway).

Definition log := list (action * PrivDrop.creds).

(** How the process ends: [os.Exit(code)], or by returning from [main]. *)
Inductive ending := Exit (code : Z) | Return.

(** ** main.go: the exit path *)

(** [openExitDevice], up to the attempt to open the device: the pool, the
    device's name and MTU. *)
Definition exit_config (e : PrivDrop.env) : go (result error (Allocator.Allocator * bytes * Z)) :=
  match NetParse.ParsePrefix (PrivDrop.envOr e "GEMINA_GATEWAY_POOL" (gs "10.99.0.0/16")) with
  | None => err ErrPool
  | Some pool =>
      a ← Allocator.NewAllocator pool;
      match a with
      | Err x => err (ErrAllocator x)
      | Ok alloc =>
          ok (alloc, PrivDrop.envOr e "GEMINA_GATEWAY_TUN" (gs "gemina0"),
              PrivDrop.envInt e "GEMINA_GATEWAY_TUN_MTU" 1280)
      end
  end.

Definition openExitDevice (e : PrivDrop.env) (h : host) (k : K) : go (result error Allocator.Allocator * log) :=
  c ← exit_config e;
  match c with
  | Err x => Ret (Err x, [])
  | Ok (alloc, tunName, mtu) =>
      let did := [(OpenTUN tunName mtu, PrivDrop.cred k)] in
      if tun_ok h tunName mtu then Ret (Ok alloc, did) else Ret (Err ErrTUN, did)
  end.

(** The [exitDev] of [runDataGateway], nil ([None]) unless the exit path is on. *)
Definition exitDev (e : PrivDrop.env) (h : host) (k : K)
  : go (result error (option Allocator.Allocator) * log) :=
  if decide (PrivDrop.envOr e "GEMINA_GATEWAY_EXIT" (gs "off") ≠ gs "on") then Ret (Ok None, []) else
  '(r, did) ← openExitDevice e h k;
  Ret (match r with Ok alloc => Ok (Some alloc) | Err x => Err x end, did).

(** [exitDevice.enable]: a path set with two minutes to live and a router. *)
Definition enable (alloc : option Allocator.Allocator) (g : DataGateway) : DataGateway :=
  match alloc with
  | None => g
  | Some a => Gateway.EnableExit g (Router.NewRouter a (PathSet.NewPathSet (2 * GoTime.Minute)))
  end.

(** ** main.go: the service *)

(** [None] when hosted mode has no key. *)
Definition serviceFor (e : PrivDrop.env) : option (Entitlement.Service ()) :=
  if decide (PrivDrop.envOr e "GEMINA_GATEWAY_TIER" (gs "open") = gs "hosted") then
    let key := e (gs "GEMINA_GATEWAY_ENTITLEMENT_KEY") in
    if decide (key = []) then None else Some (Entitlement.mkService Entitlement.ModeHosted key None 0)
  else Some (Entitlement.mkService Entitlement.ModeOpen [] None 0).

Definition metrics_log (e : PrivDrop.env) (k : K) : log :=
  let metricsAddr := e (gs "GEMINA_GATEWAY_METRICS_ADDR") in
  if decide (metricsAddr = []) then [] else [(ServeMetrics metricsAddr, PrivDrop.cred k)].

(** After the privilege drop. *)
Definition runUnprivileged (e : PrivDrop.env) (h : host) (alloc : option Allocator.Allocator) (capacity : Z) (k : K)
  : log * ending :=
  let identityPath := PrivDrop.envOr e "GEMINA_GATEWAY_IDENTITY" (gs "gateway-identity.key") in
  let did := [(Identity identityPath, PrivDrop.cred k)] in
  match (LoadOrCreateIdentity (identity_file h identityPath) (fresh_identity h) (write_ok h)).1 with
  | Err _ => (did, Exit 1)
  | Ok (priv, _) =>
      match serviceFor e with
      | None => (did, Exit 1)
      | Some service =>
          let dg := enable alloc (Gateway.NewDataGateway priv service capacity) in
          (did ++ metrics_log e k ++ [(ServeData dg, PrivDrop.cred k)], if serve_ok h then Return else Exit 1)
      end
  end.

Definition runDataGateway (e : PrivDrop.env) (h : host) (addr : bytes) (capacity : Z) (k : K)
  : go (K * log * ending) :=
  let did := [(Listen addr, PrivDrop.cred k)] in
  if negb (listen_ok h) then Ret (k, did, Exit 1) else
  '(dev, opened) ← exitDev e h k;
  let did := did ++ opened in
  match dev with
  | Err _ => Ret (k, did, Exit 1)
  | Ok alloc =>
      match PrivDrop.dropToRunAs e k with
      | (k, None) => Ret (k, did, Exit 1)
      | (k, Some _) =>
          let '(done, fin) := runUnprivileged e h alloc capacity k in
          Ret (k, did ++ done, fin)
      end
  end.

Definition main (e : PrivDrop.env) (h : host) (k : K) : go (K * log * ending) :=
  let addr := PrivDrop.envOr e "GEMINA_GATEWAY_ADDR" defaultAddr in
  let capacity := PrivDrop.envInt e "GEMINA_GATEWAY_DEDUP_CAPACITY" defaultCapacity in
  if decide (PrivDrop.envOr e "GEMINA_GATEWAY_MODE" (gs "probe") = gs "data") then runDataGateway e h addr capacity k
  else
    match ProbeServer.NewServer capacity with
    | Err _ => Ret (k, [], Exit 1)
    | Ok server =>
        let did := [(Listen addr, PrivDrop.cred k)] in
        if negb (listen_ok h) then Ret (k, did, Exit 1) else
        Ret (k, did ++ metrics_log e k ++ [(ServeProbe server, PrivDrop.cred k)],
             if serve_ok h then Return else Exit 1)
    end.

(** ** Lemmas *)

(** What may be done before the drop, and what only after it. *)
Definition before_drop (a : action) : Prop :=
  match a with Listen _ | OpenTUN _ _ => True | _ => False end.
Definition after_drop (a : action) : Prop :=
  match a with Identity _ | ServeMetrics _ | ServeData _ => True | _ => False end.

Lemma envInt_positive e key fallback : 0 < fallback → 0 < PrivDrop.envInt e key fallback.
Proof.
  intros Hf. unfold PrivDrop.envInt. case_decide; [done|]. case_match; [|done].
  by destruct (Z.leb_spec z 0).
Qed.

Lemma exit_config_total e :
  ∃ r, exit_config e = Ret r ∧
    ∀ alloc name mtu, r = Ok (alloc, name, mtu) → ∃ p, prefix_ok p ∧ Allocator.NewAllocator p = Ret (Ok alloc).
Proof.
  unfold exit_config. destruct (NetParse.ParsePrefix _) as [p|] eqn:Hp; [|by eexists].
  apply NetParse.ParsePrefix_ok in Hp. destruct (Allocator.NewAllocator_total p Hp) as [[alloc|x] Ha]; rewrite Ha; mstep.
  - eexists. split; [done|]. intros ? ? ? [= <- <- <-]. by exists p.
  - by eexists.
Qed.

Lemma exitDev_total e h k :
  ∃ dev did, exitDev e h k = Ret (dev, did) ∧
    Forall (λ x, before_drop x.1 ∧ x.2 = PrivDrop.cred k) did ∧
    ∀ alloc, dev = Ok alloc →
      match alloc with
      | None => PrivDrop.envOr e "GEMINA_GATEWAY_EXIT" (gs "off") ≠ gs "on"
      | Some a => PrivDrop.envOr e "GEMINA_GATEWAY_EXIT" (gs "off") = gs "on" ∧
          (∃ p, prefix_ok p ∧ Allocator.NewAllocator p = Ret (Ok a)) ∧
          ∃ name mtu, exit_config e = Ret (Ok (a, name, mtu)) ∧ tun_ok h name mtu = true
      end.
Proof.
  unfold exitDev. case_decide as Hon.
  { eexists _, _. split; [done|]. split; [constructor|]. by intros alloc [= <-]. }
  unfold openExitDevice. destruct (exit_config_total e) as ([[[alloc name] mtu]|x] & Hx & Hc); rewrite Hx; mstep.
  - destruct (tun_ok h name mtu) eqn:Ht; mstep; eexists _, _; (split; [done|]); (split; [by repeat constructor|]); [|done].
    intros alloc' [= <-]. split; [done|]. split; [by eapply Hc|]. by exists name, mtu.
  - eexists _, _. split; [done|]. split; [constructor|done].
Qed.

Lemma runUnprivileged_log e h alloc capacity k :
  Forall (λ x, after_drop x.1 ∧ x.2 = PrivDrop.cred k) (runUnprivileged e h alloc capacity k).1.
Proof.
  unfold runUnprivileged, metrics_log.
  destruct (LoadOrCreateIdentity _ _ _) as [[[priv created]|] w]; cbn; [|by repeat constructor].
  destruct (serviceFor e); cbn; [|by repeat constructor]. case_decide; cbn; by repeat constructor.
Qed.

Lemma not_served (did : log) g c : Forall (λ x, ∀ g, x.1 ≠ ServeData g) did → (ServeData g, c) ∉ did.
Proof. intros Hf Hin. rewrite Forall_forall in Hf. by apply (Hf _ Hin g). Qed.

Lemma identity_length content generated ok priv created :
  (∀ key, generated = Some key → length key = 64%nat) →
  (LoadOrCreateIdentity content generated ok).1 = Ok (priv, created) → length priv = 64%nat.
Proof.
  intros Hg. destruct content as [d| |]; cbn; [|destruct generated as [key|]; [|done]; destruct ok; [|done]|done].
  - case_decide; [done|]. by intros [= <- _].
  - intros [= <- _]. by apply Hg.
Qed.

(** The gateway that is served, when one is. *)
Lemma runUnprivileged_serves e h alloc capacity k g c :
  (ServeData g, c) ∈ (runUnprivileged e h alloc capacity k).1 →
  ∃ priv created service, (LoadOrCreateIdentity (identity_file h (PrivDrop.envOr e "GEMINA_GATEWAY_IDENTITY"
      (gs "gateway-identity.key"))) (fresh_identity h) (write_ok h)).1 = Ok (priv, created) ∧
    serviceFor e = Some service ∧ g = enable alloc (Gateway.NewDataGateway priv service capacity).
Proof.
  unfold runUnprivileged, metrics_log.
  destruct (LoadOrCreateIdentity _ _ _) as [[[priv created]|] w]; cbn; [|by intros [[=]|[]%elem_of_nil]%elem_of_cons].
  destruct (serviceFor e) as [service|]; cbn; [|by intros [[=]|[]%elem_of_nil]%elem_of_cons].
  intros Hin. exists priv, created, service. split_and!; try done.
  repeat first [apply elem_of_cons in Hin as [Hin|Hin]|apply elem_of_app in Hin as [Hin|Hin]]; try done.
  - case_decide; [by apply elem_of_nil in Hin|]. by apply list_elem_of_singleton in Hin.
  - by injection Hin as -> _.
  - by apply elem_of_nil in Hin.
Qed.

Lemma runDataGateway_cases e h addr capacity k :
  ∃ k' pre post fin, runDataGateway e h addr capacity k = Ret (k', pre ++ post, fin) ∧
    Forall (λ x, before_drop x.1 ∧ x.2 = PrivDrop.cred k) pre ∧
    (post = [] ∨
     ∃ alloc, PrivDrop.dropToRunAs e k = (k', Some ()) ∧ post = (runUnprivileged e h alloc capacity k').1 ∧
       match alloc with
       | None => PrivDrop.envOr e "GEMINA_GATEWAY_EXIT" (gs "off") ≠ gs "on"
       | Some a => PrivDrop.envOr e "GEMINA_GATEWAY_EXIT" (gs "off") = gs "on" ∧
           (∃ p, prefix_ok p ∧ Allocator.NewAllocator p = Ret (Ok a)) ∧
           ∃ name mtu, exit_config e = Ret (Ok (a, name, mtu)) ∧ tun_ok h name mtu = true
       end).
Proof.
  unfold runDataGateway. destruct (listen_ok h); cbn [negb].
  2: { exists k, [(Listen addr, PrivDrop.cred k)], [], (Exit 1). rewrite app_nil_r. split; [done|].
       split; [by repeat constructor|by left]. }
  destruct (exitDev_total e h k) as (dev & did & -> & Hdid & Hdev). mstep.
  assert (Forall (λ x, before_drop x.1 ∧ x.2 = PrivDrop.cred k) ([(Listen addr, PrivDrop.cred k)] ++ did)) as Hpre
    by by constructor.
  destruct dev as [alloc|x].
  2: { eexists k, _, [], _. rewrite app_nil_r. split; [done|]. split; [done|by left]. }
  destruct (PrivDrop.dropToRunAs e k) as [k' [[]|]] eqn:Hdrop.
  2: { eexists k', _, [], _. rewrite app_nil_r. split; [done|]. split; [done|by left]. }
  destruct (runUnprivileged e h alloc capacity k') as [post fin] eqn:Hrun.
  eexists k', _, post, fin. split; [done|]. split; [done|]. right. exists alloc. rewrite Hrun.
  split; [done|]. split; [done|]. by apply Hdev.
Qed.

(** ** Properties *)

(** C22: The privilege boundary.  Started as the data gateway with any environment
    that does not ask for root by name, on any kernel and host, the process
    returns or exits; what it does splits into a first part, under the original
    credentials, that only listens and opens the TUN device, and a second part,
    under the final credentials, that touches the identity file, serves metrics
    and reads datagrams; and if there is a second part, the effective uid of the
    process is not 0 in it. *)
Theorem privilege_boundary `{!PrivDrop.KernelErrors K} (e : PrivDrop.env) (h : host) (k : K) :
  PrivDrop.envOr e "GEMINA_GATEWAY_MODE" (gs "probe") = gs "data" →
  e (gs "GEMINA_GATEWAY_RUN_AS") ≠ PrivDrop.runAsKeepRoot →
  ∃ k' pre post fin, main e h k = Ret (k', pre ++ post, fin) ∧
    Forall (λ x, before_drop x.1 ∧ x.2 = PrivDrop.cred k) pre ∧
    Forall (λ x, after_drop x.1 ∧ x.2 = PrivDrop.cred k') post ∧
    (post ≠ [] → PrivDrop.euid (PrivDrop.cred k') ≠ 0).
Proof.
  intros Hmode Hroot. unfold main. rewrite decide_True by done.
  destruct (runDataGateway_cases e h (PrivDrop.envOr e "GEMINA_GATEWAY_ADDR" defaultAddr)
              (PrivDrop.envInt e "GEMINA_GATEWAY_DEDUP_CAPACITY" defaultCapacity) k)
    as (k' & pre & post & fin & HR & Hpre & Hpost).
  exists k', pre, post, fin. split; [done|]. split; [done|].
  destruct Hpost as [->|(alloc & Hdrop & -> & _)]; [split; [constructor|done]|].
  split; [apply runUnprivileged_log|]. intros _.
  destruct (PrivDrop.drop_outcome e k k' Hdrop) as [[Hr _]|[Hu _]]; [by destruct Hroot|done].
Qed.

(** The gateway the process serves is one of those the theorems of the data
    gateway are about: a fresh gateway with a 64-byte identity, a positive window
    capacity and, exactly when the exit path is configured, a router over a fresh
    pool; the hosted tier is served exactly when configured, and never with an
    empty signing key. *)
Theorem main_serves_started (e : PrivDrop.env) (h : host) (k k' : K) (did : log) (fin : ending)
    (g : DataGateway) (c : PrivDrop.creds) :
  (∀ key, fresh_identity h = Some key → length key = 64%nat) →
  PrivDrop.envInt e "GEMINA_GATEWAY_DEDUP_CAPACITY" defaultCapacity ≤ 2 ^ 63 - 64 →
  main e h k = Ret (k', did, fin) → (ServeData g, c) ∈ did →
  (∃ pool, Gateway.started pool g) ∧
  (is_Some (Gateway.exit g) ↔ PrivDrop.envOr e "GEMINA_GATEWAY_EXIT" (gs "off") = gs "on") ∧
  (Entitlement.SMode (Gateway.service g) = Entitlement.ModeHosted ↔
     PrivDrop.envOr e "GEMINA_GATEWAY_TIER" (gs "open") = gs "hosted") ∧
  (Entitlement.SMode (Gateway.service g) = Entitlement.ModeHosted → Entitlement.Key (Gateway.service g) ≠ []).
Proof.
  intros Hkey Hcap. unfold main. case_decide as Hmode.
  2: { destruct (ProbeServer.NewServer _) as [server|]; [destruct (listen_ok h); cbn [negb]|];
         intros [= <- <- <-] Hin; exfalso; revert Hin; apply not_served; unfold metrics_log;
         repeat case_decide; by repeat constructor. }
  intros HR Hin.
  destruct (runDataGateway_cases e h (PrivDrop.envOr e "GEMINA_GATEWAY_ADDR" defaultAddr)
              (PrivDrop.envInt e "GEMINA_GATEWAY_DEDUP_CAPACITY" defaultCapacity) k)
    as (k1 & pre & post & fin1 & HR1 & Hpre & Hpost).
  rewrite HR in HR1. injection HR1 as <- -> <-.
  apply elem_of_app in Hin as [Hin|Hin].
  { exfalso. rewrite Forall_forall in Hpre. by destruct (Hpre _ Hin). }
  destruct Hpost as [->|(alloc & _ & -> & Halloc)]; [by apply elem_of_nil in Hin|].
  apply runUnprivileged_serves in Hin as (priv & created & service & Hid & Hs & ->).
  apply identity_length in Hid; [|done]. pose proof (envInt_positive e "GEMINA_GATEWAY_DEDUP_CAPACITY" defaultCapacity eq_refl).
  assert (Gateway.service (enable alloc (Gateway.NewDataGateway priv service
            (PrivDrop.envInt e "GEMINA_GATEWAY_DEDUP_CAPACITY" defaultCapacity))) = service) as -> by by destruct alloc.
  split; [|split].
  - destruct alloc as [a|].
    + destruct Halloc as (_ & (p & Hp & Ha) & _). eexists. by eapply Gateway.started_exit.
    + eexists. by apply Gateway.started_probe.
  - destruct alloc as [a|]; split.
    + intros _. by destruct Halloc.
    + intros _. by eexists.
    + by intros [].
    + done.
  - unfold serviceFor in Hs. repeat case_decide; try done; by injection Hs as <-.
Qed.

End process.

(** ** Witnesses, at the toy primitives and the toy kernel *)

Module Witness.
Import Crypto.Toy PrivDrop.ToyKernel.

Definition env1 : PrivDrop.env := λ key,
  if decide (key = gs "GEMINA_GATEWAY_MODE") then gs "data"
  else if decide (key = gs "GEMINA_GATEWAY_EXIT") then gs "on"
  else if decide (key = gs "GEMINA_GATEWAY_POOL") then gs "10.77.0.0/29"
  else if decide (key = gs "GEMINA_GATEWAY_TIER") then gs "hosted"
  else if decide (key = gs "GEMINA_GATEWAY_ENTITLEMENT_KEY") then gs "secret"
  else if decide (key = gs "GEMINA_GATEWAY_METRICS_ADDR") then gs ":9090"
  else [].
Definition host1 : host :=
  mkHost true (λ _ _, true) (λ _, FileMissing) (Some Gateway.Witness.identity1) true true.

Definition kind (x : action * PrivDrop.creds) : string * Z :=
  (match x.1 with
   | Listen _ => "listen" | OpenTUN _ _ => "tun" | Identity _ => "identity"
   | ServeMetrics _ => "metrics" | ServeProbe _ => "probe" | ServeData _ => "data"
   end, PrivDrop.euid x.2).

(** The log of the run, with the effective uid of each step. *)
Lemma main1_log :
  match main env1 host1 root1 with Ret (_, did, _) => kind <$> did | Panic => [] end =
  [("listen", 0); ("tun", 0); ("identity", 65532); ("metrics", 65532); ("data", 65532)]%string.
Proof. vm_compute. reflexivity. Qed.

Lemma privilege_boundary_witness :
  ∃ k' pre post fin, main env1 host1 root1 = Ret (k', pre ++ post, fin) ∧
    Forall (λ x, before_drop x.1 ∧ x.2 = PrivDrop.cred root1) pre ∧
    Forall (λ x, after_drop x.1 ∧ x.2 = PrivDrop.cred k') post ∧
    (post ≠ [] → PrivDrop.euid (PrivDrop.cred k') ≠ 0).
Proof.
  apply (privilege_boundary env1 host1 root1).
  - vm_compute. reflexivity.
  - vm_compute. discriminate.
Defined.

(** The last entry of the log is a served gateway. *)
Definition ends_serving (r : go (PrivDrop.creds * log * ending)) : bool :=
  match r with
  | Ret (_, did, _) => match list.last did with Some (ServeData _, _) => true | _ => false end
  | Panic => false
  end.

Lemma ends_serving_spec r :
  ends_serving r = true → ∃ k' did fin g c, r = Ret (k', did, fin) ∧ (ServeData g, c) ∈ did.
Proof.
  destruct r as [[[k' did] fin]|]; cbn; [|done]. destruct (list.last did) as [[[] c]|] eqn:El; try done.
  apply last_Some_elem_of in El. by eexists _, _, _, _, _.
Qed.

Lemma main1_serves :
  ∃ k' did fin g c, main env1 host1 root1 = Ret (k', did, fin) ∧ (ServeData g, c) ∈ did.
Proof. apply ends_serving_spec. vm_compute. reflexivity. Qed.

Lemma main_serves_started_witness :
  ∃ g : Gateway.DataGateway (P := ()), (∃ pool, Gateway.started pool g) ∧
    (is_Some (Gateway.exit g) ↔ PrivDrop.envOr env1 "GEMINA_GATEWAY_EXIT" (gs "off") = gs "on") ∧
    (Entitlement.SMode (Gateway.service g) = Entitlement.ModeHosted ↔
       PrivDrop.envOr env1 "GEMINA_GATEWAY_TIER" (gs "open") = gs "hosted") ∧
    (Entitlement.SMode (Gateway.service g) = Entitlement.ModeHosted → Entitlement.Key (Gateway.service g) ≠ []).
Proof.
  destruct main1_serves as (k' & did & fin & g & c & Hrun & Hin). exists g.
  apply (main_serves_started env1 host1 root1 k' did fin g c).
  - intros key Hk. injection Hk as <-. reflexivity.
  - vm_compute. discriminate.
  - exact Hrun.
  - exact Hin.
Defined.

End Witness.
End GatewayMain.
