(* ===== verification/Tun.v ===== *)
(** * internal/exit/tun_linux.go and nat_linux.go: the exit device

    [OpenTUN] with [tunSetIff] and [setMTU], [TUN.Close], and [AssertIPForward],
    over an operating system of which the calls are the interface [OS] and the
    documented behaviour (open(2), tun, netdevice(7), close(2)) the laws [OSLaws].
    The request blocks handed to the kernel are the bytes the code writes. *)

From S2P Require Import Prelude GoText Crypto Netip Allocator Gateway PrivDrop GatewayMain.

Module Tun.

(** ** The operating system *)

Definition ifReqSize : nat := 40.
Definition tunsetiff : Z := 0x400454ca.
Definition siocsifmtu : Z := 0x8922.

(** [fds], [attached] and [mtu] are what a caller can observe: the open
    descriptors, the interface and flags a descriptor was attached to, and the MTU
    of each interface.  An [ioctl] answers with its errno, 0 for success. *)
Class OS (O : Type) := {
  fds : O → gset Z;
  attached : O → Z → option (bytes * Z);
  mtu : O → bytes → option Z;
  open_file : bytes → O → result Z Z * O;
  socket : O → result Z Z * O;
  close : Z → O → O;
  ioctl : Z → Z → bytes → O → Z * O;
  links : O → result Z (list (bytes * Z));
  read_file : bytes → O → result Z bytes
}.

(** A request block: the name, NUL-padded to 16 bytes of which the kernel uses 15,
    and the 32-bit word after it. *)
Definition until_nul (b : bytes) : bytes :=
  default b (fst <$> Strings.cut (z2b 0) b).
Definition ifr_name (ifr : bytes) : bytes := until_nul (take 15 ifr).
Definition ifr_byte (ifr : bytes) (i : nat) : Z := default 0 (b2z <$> ifr !! i).
Definition ifr_flags (ifr : bytes) : Z := ifr_byte ifr 16 + 2 ^ 8 * ifr_byte ifr 17.
Definition i32 (z : Z) : Z := (z + 2 ^ 31) mod 2 ^ 32 - 2 ^ 31.
Definition ifr_mtu (ifr : bytes) : Z :=
  i32 (ifr_byte ifr 16 + 2 ^ 8 * ifr_byte ifr 17 + 2 ^ 16 * ifr_byte ifr 18 + 2 ^ 24 * ifr_byte ifr 19).

(** The names an interface may have; an empty name or one with a per cent sign is
    a pattern from which the kernel makes a name. *)
Definition ifname_ok (n : bytes) : Prop :=
  n ≠ [] ∧ (length n ≤ 15)%nat ∧ (z2b 0 ∉ n) ∧ ("%"%char ∉ n).

Class OSLaws (O : Type) `{OS O} : Prop := {
  law_open p o fd o' : open_file p o = (Ok fd, o') →
    (fd ∉ fds o) ∧ fds o' = {[fd]} ∪ fds o ∧ (∀ x, attached o' x = attached o x) ∧ (∀ n, mtu o' n = mtu o n);
  law_open_failed p o e o' : open_file p o = (Err e, o') → fds o' = fds o;
  law_socket o fd o' : socket o = (Ok fd, o') →
    (fd ∉ fds o) ∧ fds o' = {[fd]} ∪ fds o ∧ (∀ x, attached o' x = attached o x) ∧ (∀ n, mtu o' n = mtu o n);
  law_socket_failed o e o' : socket o = (Err e, o') → fds o' = fds o;
  law_close fd o : fds (close fd o) = fds o ∖ {[fd]};
  law_close_other fd fd' o : fd' ≠ fd → attached (close fd o) fd' = attached o fd';
  law_close_socket fd o : attached o fd = None → ∀ n, mtu (close fd o) n = mtu o n;
  law_attached o fd a : attached o fd = Some a → fd ∈ fds o;
  law_ioctl fd r ifr o : fds (ioctl fd r ifr o).2 = fds o;
  law_tunsetiff fd ifr o o' : ioctl fd tunsetiff ifr o = (0, o') → ifname_ok (ifr_name ifr) →
    attached o' fd = Some (ifr_name ifr, ifr_flags ifr);
  law_siocsifmtu fd ifr o o' : ioctl fd siocsifmtu ifr o = (0, o') →
    (∀ x, attached o' x = attached o x) ∧ mtu o' (ifr_name ifr) = Some (ifr_mtu ifr);
  law_links o l n m : links o = Ok l → (n, m) ∈ l → mtu o n = Some m;
  law_ifname o n m : mtu o n = Some m → ifname_ok n
}.

(** ** Errors *)

Inductive error :=
| ErrOpen (errno : Z) | ErrTunSetIff (errno : Z) | ErrSocket (errno : Z) | ErrSetMTU (errno : Z)
| ErrNotFound                                   (* interface not found after creation *)
| ErrReadForward (errno : Z) | ErrIPForwardDisabled
| ErrNotLinux.

Section tun.
Context {O : Type} `{!OS O}.

(** [net.InterfaceByName]: the MTU of the interface of that name. *)
Definition InterfaceByName (name : bytes) (o : O) : option Z :=
  if decide (name = []) then None else
  match links o with
  | Err _ => None
  | Ok l => snd <$> List.find (λ x, bool_decide (x.1 = name)) l
  end.

(** ** tun_linux.go *)

(** The descriptor owned by the device. *)
Record TUN := mkTUN { f : Z }.

Definition iff_flags : Z := Z.lor 0x0001 0x1000.

(** The block of TUNSETIFF: [copy(ifr[:16], name)], then the flags. *)
Definition iff_request (name : bytes) : go bytes :=
  ifr ← copy_at 0 16 name (zeros ifReqSize);
  ifr ← put_byte 16 (z2b iff_flags) ifr;
  put_byte 17 (z2b (Z.shiftr iff_flags 8)) ifr.

Definition tunSetIff (fd : Z) (name : bytes) (o : O) : go (Z * O) :=
  ifr ← iff_request name; Ret (ioctl fd tunsetiff ifr o).

(** The block of SIOCSIFMTU. *)
Definition mtu_request (name : bytes) (m : Z) : go bytes :=
  let m := m mod 2 ^ 32 in
  ifr ← copy_at 0 16 name (zeros ifReqSize);
  ifr ← put_byte 16 (z2b m) ifr;
  ifr ← put_byte 17 (z2b (Z.shiftr m 8)) ifr;
  ifr ← put_byte 18 (z2b (Z.shiftr m 16)) ifr;
  put_byte 19 (z2b (Z.shiftr m 24)) ifr.

(** The deferred close of the socket is on every path after the socket call. *)
Definition setMTU (name : bytes) (m : Z) (o : O) : go (option error * O) :=
  if bool_decide (InterfaceByName name o = Some m) then Ret (None, o) else
  match socket o with
  | (Err e, o) => Ret (Some (ErrSocket e), o)
  | (Ok sock, o) =>
      ifr ← mtu_request name m;
      let '(errno, o) := ioctl sock siocsifmtu ifr o in
      if negb (errno =? 0) then Ret (Some (ErrSetMTU errno), close sock o) else
      match InterfaceByName name o with
      | None => Ret (Some ErrNotFound, close sock o)
      | Some _ => Ret (None, close sock o)
      end
  end.

Definition OpenTUN (name : bytes) (m : Z) (o : O) : go (result error TUN * O) :=
  match open_file (gs "/dev/net/tun") o with
  | (Err e, o) => Ret (Err (ErrOpen e), o)
  | (Ok fd, o) =>
      '(errno, o) ← tunSetIff fd name o;
      if negb (errno =? 0) then Ret (Err (ErrTunSetIff errno), close fd o) else
      '(e, o) ← setMTU name m o;
      match e with
      | Some e => Ret (Err e, close fd o)
      | None => Ret (Ok (mkTUN fd), o)
      end
  end.

Definition Close (t : TUN) (o : O) : O := close (f t) o.

(** ** nat_linux.go *)

Definition AssertIPForward (o : O) : option error :=
  match read_file (gs "/proc/sys/net/ipv4/ip_forward") o with
  | Err e => Some (ErrReadForward e)
  | Ok data => if decide (Strings.trim_space data ≠ gs "1") then Some ErrIPForwardDisabled else None
  end.

(** ** tun_other.go and nat_other.go: every other platform *)

Definition OpenTUN_other (name : bytes) (m : Z) (o : O) : result error TUN * O := (Err ErrNotLinux, o).
Definition AssertIPForward_other (o : O) : option error := Some ErrNotLinux.

(** ** The request blocks *)

Lemma put_zero pre m i v :
  i = length pre → put_byte i v (pre ++ zeros (S m)) = Ret ((pre ++ [v]) ++ zeros m).
Proof. intros ->. rewrite put_byte_zeros by lia. by rewrite Nat.sub_1_r. Qed.

(** The name's field, NUL-padded. *)
Definition name_field (name : bytes) : bytes := take 16 name ++ zeros (16 - length name).

Lemma copy_name name : copy_at 0 16 name (zeros ifReqSize) = Ret (name_field name ++ zeros 24).
Proof.
  unfold copy_at, ifReqSize, name_field. rewrite decide_True by len. rewrite take_0. cbn [app Nat.add]. f_equal.
  rewrite <-app_assoc. destruct (decide (length name ≤ 16)%nat) as [H|H].
  - rewrite Nat.min_r by lia. rewrite (take_ge name 16) by lia. rewrite firstn_all. f_equal.
    unfold zeros. rewrite drop_replicate, <-replicate_add. f_equal. lia.
  - rewrite Nat.min_l by lia. f_equal. replace (16 - length name)%nat with 0%nat by lia. done.
Qed.

Lemma length_name_field name : length (name_field name) = 16%nat.
Proof. unfold name_field. rewrite length_app, length_take. len. Qed.
#[local] Hint Rewrite length_name_field : len.

Lemma iff_request_ret name : iff_request name = Ret (name_field name ++ [z2b 1; z2b 0x10] ++ zeros 22).
Proof.
  unfold iff_request. rewrite copy_name. mstep. rewrite (put_zero _ 23) by len. mstep. rewrite (put_zero _ 22) by len.
  by rewrite <-!app_assoc.
Qed.

Lemma mtu_request_ret name m :
  let m' := m mod 2 ^ 32 in
  mtu_request name m =
    Ret (name_field name ++ [z2b m'; z2b (Z.shiftr m' 8); z2b (Z.shiftr m' 16); z2b (Z.shiftr m' 24)] ++ zeros 20).
Proof.
  unfold mtu_request. rewrite copy_name. mstep. rewrite (put_zero _ 23) by len. mstep. rewrite (put_zero _ 22) by len. mstep.
  rewrite (put_zero _ 21) by len. mstep. rewrite (put_zero _ 20) by len. by rewrite <-!app_assoc.
Qed.

(** A name an interface can have reaches the kernel whole. *)
Lemma ifr_name_field name rest : ifname_ok name → ifr_name (name_field name ++ rest) = name.
Proof.
  intros (_ & Hl & H0 & _). unfold ifr_name, name_field, until_nul. rewrite take_app_le by len.
  rewrite (take_ge name 16) by lia. destruct (decide (length name = 15%nat)) as [E|E].
  - rewrite take_app_length' by lia. by rewrite Strings.cut_none by done.
  - rewrite take_app_ge by lia. destruct (15 - length name)%nat as [|k] eqn:Hk; [lia|].
    destruct (16 - length name)%nat as [|j] eqn:Hj; [lia|]. change (zeros (S j)) with (z2b 0 :: zeros j).
    cbn [take]. by rewrite Strings.cut_app by done.
Qed.

Lemma ifr_byte_field name w i : (i < length w)%nat → ifr_byte (name_field name ++ w) (16 + i) = default 0 (b2z <$> w !! i).
Proof. intros Hi. unfold ifr_byte. rewrite lookup_app_r by len. rewrite length_name_field. do 3 f_equal. lia. Qed.

Lemma ifr_mtu_request name m rest :
  let m' := m mod 2 ^ 32 in
  ifr_mtu (name_field name ++ [z2b m'; z2b (Z.shiftr m' 8); z2b (Z.shiftr m' 16); z2b (Z.shiftr m' 24)] ++ rest) = i32 m.
Proof.
  intros m'. unfold ifr_mtu.
  rewrite (ifr_byte_field _ _ 0), (ifr_byte_field _ _ 1), (ifr_byte_field _ _ 2), (ifr_byte_field _ _ 3) by (cbn; lia).
  cbn [app lookup list_lookup default fmap option_fmap option_map]. unfold id. rewrite !b2z_z2b, !Z.shiftr_div_pow2 by lia.
  assert (0 ≤ m' < 2 ^ 32) as Hm by (apply Z.mod_pos_bound; lia).
  assert (m' mod 256 + 2 ^ 8 * ((m' / 2 ^ 8) mod 256) + 2 ^ 16 * ((m' / 2 ^ 16) mod 256) + 2 ^ 24 * ((m' / 2 ^ 24) mod 256) = m') as ->.
  { Z.to_euclidean_division_equations. lia. }
  unfold i32, m'. by rewrite Zplus_mod_idemp_l.
Qed.

Lemma i32_id m : - 2 ^ 31 ≤ m < 2 ^ 31 → i32 m = m.
Proof. intros. unfold i32. rewrite Z.mod_small; lia. Qed.

(** ** What the calls leave behind *)

Context `{!OSLaws O}.

Lemma InterfaceByName_mtu name o m : InterfaceByName name o = Some m → mtu o name = Some m.
Proof.
  unfold InterfaceByName. case_decide; [done|]. destruct (links o) as [l|] eqn:Hl; [|done].
  destruct (List.find _ l) as [[n m']|] eqn:Hf; [|done]. intros [= <-]. apply List.find_some in Hf as [Hin Hb].
  apply bool_decide_eq_true in Hb as <-. eapply law_links; [done|]. by apply list_elem_of_In.
Qed.

Lemma setMTU_spec name m fd o :
  fd ∈ fds o →
  ∃ e o', setMTU name m o = Ret (e, o') ∧ fds o' = fds o ∧
    (e = None → ifname_ok name ∧ attached o' fd = attached o fd ∧ (mtu o' name = Some m ∨ mtu o' name = Some (i32 m))).
Proof.
  intros Hfd. unfold setMTU. case_bool_decide as Hpre.
  { apply InterfaceByName_mtu in Hpre. eexists _, _. split; [done|]. split; [done|]. intros _.
    split; [by eapply law_ifname|by auto]. }
  destruct (socket o) as [[sock|e] o1] eqn:Hs.
  2: { eexists _, _. split; [done|]. split; [by eapply law_socket_failed|done]. }
  apply law_socket in Hs as (Hsock & Hf1 & Ha1 & _). rewrite mtu_request_ret. mstep. set (ifr := name_field name ++ _).
  pose proof (law_ioctl sock siocsifmtu ifr o1) as Hf2. destruct (ioctl sock siocsifmtu ifr o1) as [errno o2] eqn:Hi.
  cbn [snd] in Hf2.
  assert (fds (close sock o2) = fds o) as Hf3 by (rewrite law_close, Hf2, Hf1; set_solver).
  destruct (Z.eqb_spec errno 0) as [->|]; cbn [negb]; [|by eexists _, _].
  destruct (InterfaceByName name o2) as [m2|] eqn:Hn; [|by eexists _, _].
  eexists _, _. split; [done|]. split; [done|]. intros _. apply law_siocsifmtu in Hi as [Ha2 Hm2].
  apply InterfaceByName_mtu, law_ifname in Hn. split; [done|].
  assert (attached o2 sock = None) as Hnone.
  { rewrite Ha2, Ha1. destruct (attached o sock) eqn:E; [|done]. by apply law_attached in E. }
  split; [rewrite law_close_other, Ha2, Ha1; [done|set_solver]|]. right.
  rewrite law_close_socket by done. unfold ifr in Hm2. by rewrite ifr_mtu_request, ifr_name_field in Hm2 by done.
Qed.

Lemma open_tun_spec (name : bytes) (m : Z) (o : O) :
  ∃ r o', OpenTUN name m o = Ret (r, o') ∧
    match r with
    | Err _ => fds o' = fds o
    | Ok t => (f t ∉ fds o) ∧ fds o' = {[f t]} ∪ fds o ∧ fds (Close t o') = fds o ∧
        attached o' (f t) = Some (name, 0x1001) ∧
        ∃ m', mtu o' name = Some m' ∧ m' mod 2 ^ 32 = m mod 2 ^ 32 ∧ (- 2 ^ 31 ≤ m < 2 ^ 31 → m' = m)
    end.
Proof.
  unfold OpenTUN. destruct (open_file _ o) as [[fd|e] o1] eqn:Ho.
  2: { eexists _, _. split; [done|]. by eapply law_open_failed. }
  apply law_open in Ho as (Hfd & Hf1 & _). unfold tunSetIff. rewrite iff_request_ret. mstep.
  set (ifr := name_field name ++ _). pose proof (law_ioctl fd tunsetiff ifr o1) as Hf2.
  destruct (ioctl fd tunsetiff ifr o1) as [errno o2] eqn:Hi. cbn [snd] in Hf2.
  assert (∀ o', fds o' = fds o2 → fds (close fd o') = fds o) as Hclose.
  { intros o' E. rewrite law_close, E, Hf2, Hf1. set_solver. }
  destruct (Z.eqb_spec errno 0) as [->|]; cbn [negb]; [|eexists _, _; (split; [done|]); by apply Hclose].
  destruct (setMTU_spec name m fd o2) as (e & o3 & -> & Hf3 & Hok); [rewrite Hf2, Hf1; set_solver|]. mstep.
  destruct e as [e|]; eexists _, _; (split; [done|]); [by apply Hclose|].
  destruct (Hok eq_refl) as (Hname & Ha & Hm). cbn [f].
  split; [done|]. split; [by rewrite Hf3, Hf2|]. split; [by apply Hclose|].
  apply law_tunsetiff in Hi; [|by unfold ifr; rewrite ifr_name_field].
  unfold ifr in Hi. rewrite ifr_name_field in Hi by done. rewrite Ha, Hi. split.
  - do 2 f_equal. unfold ifr_flags. by rewrite (ifr_byte_field _ _ 0), (ifr_byte_field _ _ 1) by (cbn; lia).
  - destruct Hm as [Hm|Hm]; eexists; (split; [done|]); [done|].
    split; [|apply i32_id]. unfold i32. rewrite <-(Zminus_mod_idemp_l). rewrite Zmod_mod, Zminus_mod_idemp_l. f_equal. lia.
Qed.

(** ** Properties *)

(** C27: Opening the exit device is exact and leaks nothing.  For every name and MTU,
    on every operating system with the documented behaviour, [OpenTUN] returns.  On
    an error it holds no descriptor it did not hold before.  On success it holds
    exactly one more, attached to the interface of exactly the given name as a raw
    IP device (IFF_TUN and IFF_NO_PI), whose MTU is the given one when that is a
    32-bit number, and equals it modulo 2^32 otherwise; closing the device releases
    the descriptor. *)
Theorem open_tun_exact (name : bytes) (m : Z) (o : O) :
  ∃ r o', OpenTUN name m o = Ret (r, o') ∧
    match r with
    | Err _ => fds o' = fds o
    | Ok t => (f t ∉ fds o) ∧ fds o' = {[f t]} ∪ fds o ∧ fds (Close t o') = fds o ∧
        attached o' (f t) = Some (name, 0x1001) ∧
        ∃ m', mtu o' name = Some m' ∧ m' mod 2 ^ 32 = m mod 2 ^ 32 ∧ (- 2 ^ 31 ≤ m < 2 ^ 31 → m' = m)
    end.
Proof. apply open_tun_spec. Qed.

(** The kernel prints the setting as a line. *)
Lemma forward_exact (o : O) v :
  read_file (gs "/proc/sys/net/ipv4/ip_forward") o = Ok (v ++ [z2b 10]) → Forall Strings.graphic v →
  (AssertIPForward o = None ↔ v = gs "1").
Proof.
  intros Hr Hv. unfold AssertIPForward. rewrite Hr, Strings.trim_line by done.
  destruct (decide (v = gs "1")) as [->|Hv1]; [by rewrite decide_False by auto|by rewrite decide_True by done].
Qed.

End tun.

(** ** The gateway process over this device *)

Section process.
Context `{CA : AEAD, CX : X25519, CK : HKDF, CE : Ed25519, CM : HMAC} {K : Type} `{KN : PrivDrop.Kernel K}.
Context {O : Type} `{OO : OS O, !OSLaws O}.

(** The host of the process answers [OpenTUN] as the code does over [o]. *)
Definition host_opens (h : GatewayMain.host) (o : O) : Prop :=
  ∀ n m, GatewayMain.tun_ok h n m = true → ∃ t o', OpenTUN n m o = Ret (Ok t, o').

Lemma served_exit_config (e : PrivDrop.env) (h : GatewayMain.host) (k k' : K) (did : GatewayMain.log) fin g c :
  GatewayMain.main e h k = Ret (k', did, fin) → (GatewayMain.ServeData g, c) ∈ did → is_Some (Gateway.exit g) →
  ∃ a name m, GatewayMain.exit_config e = Ret (Ok (a, name, m)) ∧ GatewayMain.tun_ok h name m = true.
Proof.
  unfold GatewayMain.main. case_decide as Hmode.
  2: { destruct (ProbeServer.ProbeServer.NewServer _) as [server|]; [destruct (GatewayMain.listen_ok h); cbn [negb]|];
         intros [= <- <- <-] Hin; exfalso; revert Hin; apply GatewayMain.not_served; unfold GatewayMain.metrics_log;
         repeat case_decide; by repeat constructor. }
  intros HR Hin Hexit.
  destruct (GatewayMain.runDataGateway_cases e h (PrivDrop.envOr e "GEMINA_GATEWAY_ADDR" GatewayMain.defaultAddr)
              (PrivDrop.envInt e "GEMINA_GATEWAY_DEDUP_CAPACITY" GatewayMain.defaultCapacity) k)
    as (k1 & pre & post & fin1 & HR1 & Hpre & Hpost).
  rewrite HR in HR1. injection HR1 as <- -> <-. apply elem_of_app in Hin as [Hin|Hin].
  { exfalso. rewrite Forall_forall in Hpre. by destruct (Hpre _ Hin). }
  destruct Hpost as [->|(alloc & _ & -> & Halloc)]; [by apply elem_of_nil in Hin|].
  apply GatewayMain.runUnprivileged_serves in Hin as (priv & created & service & _ & _ & ->).
  destruct alloc as [a|]; [|by destruct Hexit]. destruct Halloc as (_ & _ & name & m & Hc & Ht). by exists a, name, m.
Qed.

(** The exit path is served only over its device.  When the process serves a
    gateway with the exit path on, the TUN device the environment names had been
    opened: its descriptor is attached to the interface of exactly that name as a
    raw IP device, with the configured MTU when that fits 32 bits. *)
Theorem exit_device_ready (e : PrivDrop.env) (h : GatewayMain.host) (k k' : K) (o : O) (did : GatewayMain.log) fin g c :
  host_opens h o →
  GatewayMain.main e h k = Ret (k', did, fin) → (GatewayMain.ServeData g, c) ∈ did → is_Some (Gateway.exit g) →
  let name := PrivDrop.envOr e "GEMINA_GATEWAY_TUN" (gs "gemina0") in
  let m := PrivDrop.envInt e "GEMINA_GATEWAY_TUN_MTU" 1280 in
  ∃ t o', OpenTUN name m o = Ret (Ok t, o') ∧ fds o' = {[f t]} ∪ fds o ∧
    attached o' (f t) = Some (name, 0x1001) ∧ 0 < m ∧ (m < 2 ^ 31 → mtu o' name = Some m).
Proof.
  intros Hh HR Hin Hexit name m.
  destruct (served_exit_config e h k k' did fin g c HR Hin Hexit) as (a & n & m1 & Hc & Ht).
  assert (n = name ∧ m1 = m) as [-> ->].
  { revert Hc. unfold GatewayMain.exit_config. destruct (NetParse.NetParse.ParsePrefix _); [|done].
    destruct (Allocator.NewAllocator _) as [[al|]|]; mstep; [|done|done]. by intros [= _ <- <-]. }
  destruct (Hh _ _ Ht) as (t & o' & E). exists t, o'. split; [done|].
  destruct (open_tun_spec name m o) as (r & o1 & E1 & Hr). rewrite E in E1. injection E1 as <- <-.
  destruct Hr as (_ & Hf & _ & Ha & m' & Hm & _ & Heq). split; [done|]. split; [done|].
  assert (0 < m) by by apply GatewayMain.envInt_positive. split; [done|]. intros. rewrite Hm, Heq; [done|lia].
Qed.

End process.

(** ** A small operating system with these laws *)

Module ToyOS.

#[export] Instance ifname_ok_dec n : Decision (ifname_ok n).
Proof. unfold ifname_ok. apply _. Defined.

Record os := mkOS { held : gset Z; tuns : gmap Z (bytes * Z); ifaces : gmap bytes Z; forward : bytes }.

Definition toy_mtu (o : os) (n : bytes) : option Z := if decide (ifname_ok n) then ifaces o !! n else None.
Definition toy_open (o : os) : result Z Z * os :=
  let fd := fresh (held o) in (Ok fd, mkOS ({[fd]} ∪ held o) (delete fd (tuns o)) (ifaces o) (forward o)).
Definition toy_ioctl (fd r : Z) (ifr : bytes) (o : os) : Z * os :=
  if decide (fd ∉ held o ∨ ¬ ifname_ok (ifr_name ifr)) then (22, o) else
  if decide (r = tunsetiff) then
    (0, mkOS (held o) (<[fd := (ifr_name ifr, ifr_flags ifr)]> (tuns o))
          (<[ifr_name ifr := default 1500 (ifaces o !! ifr_name ifr)]> (ifaces o)) (forward o))
  else if decide (r = siocsifmtu) then (0, mkOS (held o) (tuns o) (<[ifr_name ifr := ifr_mtu ifr]> (ifaces o)) (forward o))
  else (22, o).

#[export] Instance toy_os : OS os := {
  fds := held;
  attached o fd := if decide (fd ∈ held o) then tuns o !! fd else None;
  mtu := toy_mtu;
  open_file _ := toy_open;
  socket := toy_open;
  close fd o := mkOS (held o ∖ {[fd]}) (tuns o) (ifaces o) (forward o);
  ioctl := toy_ioctl;
  links o := Ok (filter (λ x, ifname_ok x.1) (map_to_list (ifaces o)));
  read_file _ o := Ok (forward o)
}.

Lemma toy_open_laws o fd o' : toy_open o = (Ok fd, o') →
  (fd ∉ held o) ∧ held o' = {[fd]} ∪ held o ∧ (∀ x, attached o' x = attached o x) ∧ (∀ n, toy_mtu o' n = toy_mtu o n).
Proof.
  intros [= <- <-]. pose proof (is_fresh (held o)) as Hf. split_and!; [done|done| |done].
  intros x. cbn. destruct (decide (x = fresh (held o))) as [->|Hx].
  - by rewrite decide_True, decide_False, lookup_delete_eq by set_solver.
  - rewrite lookup_delete_ne by done. destruct (decide (x ∈ held o)); [by rewrite !decide_True by set_solver|].
    by rewrite decide_False by set_solver.
Qed.

#[export] Instance toy_laws : OSLaws os.
Proof.
  split.
  - intros p o. apply toy_open_laws.
  - done.
  - apply toy_open_laws.
  - done.
  - done.
  - intros fd fd' o Hne. cbn. destruct (decide (fd' ∈ held o)); [by rewrite decide_True by set_solver|].
    by rewrite decide_False by set_solver.
  - done.
  - intros o fd a. cbn. by case_decide.
  - intros fd r ifr o. cbn. unfold toy_ioctl. by repeat case_decide.
  - intros fd ifr o o'. cbn. unfold toy_ioctl. case_decide as Hd; [done|]. rewrite decide_True by done.
    intros [= <-] _. cbn. rewrite decide_True by (apply dec_stable; tauto). by rewrite lookup_insert_eq.
  - intros fd ifr o o'. cbn. unfold toy_ioctl. case_decide as Hd; [done|]. rewrite decide_False, decide_True by done.
    intros [= <-]. split; [done|]. unfold toy_mtu. cbn. rewrite decide_True by (apply dec_stable; tauto). by rewrite lookup_insert_eq.
  - intros o l n m [= <-] [Hok Hin]%list_elem_of_filter. cbn. unfold toy_mtu. rewrite decide_True by done.
    by apply elem_of_map_to_list in Hin.
  - intros o n m. cbn. unfold toy_mtu. by case_decide.
Qed.

End ToyOS.

Module Witness.
Import ToyOS Crypto.Toy PrivDrop.ToyKernel.

Definition os0 : os := mkOS {[0; 1; 2]} ∅ ∅ (gs "1" ++ [z2b 10]).

Lemma open_tun_exact_witness :
  ∃ r o', OpenTUN (gs "gemina0") 1280 os0 = Ret (r, o') ∧ (∀ e, r ≠ Err e) ∧ mtu o' (gs "gemina0") = Some 1280.
Proof.
  destruct (open_tun_exact (gs "gemina0") 1280 os0) as (r & o' & E & H). exists r, o'. split; [exact E|].
  assert (∀ e, r ≠ Err e) as Hr.
  { intros e ->. revert E. vm_compute. discriminate. }
  split; [exact Hr|]. destruct r as [tun|e]; [|by destruct (Hr e)].
  destruct H as (_ & _ & _ & _ & m' & Hm & _ & Heq). rewrite Hm, Heq; [done|lia].
Defined.

Definition host1 : GatewayMain.host :=
  GatewayMain.mkHost true (λ n m, bool_decide (n = gs "gemina0" ∧ m = 1280)) (λ _, GatewayMain.FileMissing)
    (Some Gateway.Witness.identity1) true true.

Definition serves_exit (r : go (PrivDrop.creds * GatewayMain.log * GatewayMain.ending)) : bool :=
  match r with
  | Ret (_, did, _) => match list.last did with Some (GatewayMain.ServeData g, _) => bool_decide (is_Some (Gateway.exit g)) | _ => false end
  | Panic => false
  end.

Lemma serves_exit_spec r :
  serves_exit r = true →
  ∃ k' did fin g c, r = Ret (k', did, fin) ∧ (GatewayMain.ServeData g, c) ∈ did ∧ is_Some (Gateway.exit g).
Proof.
  destruct r as [[[k' did] fin]|]; cbn; [|done]. destruct (list.last did) as [[[] c]|] eqn:El; try done.
  apply last_Some_elem_of in El. intros ?%bool_decide_eq_true. by eexists _, _, _, _, _.
Qed.

Lemma host1_opens : host_opens host1 os0.
Proof. intros n m [-> ->]%bool_decide_eq_true. eexists _, _. vm_compute. reflexivity. Qed.

Lemma main1_exit :
  ∃ k' did fin g c, GatewayMain.main GatewayMain.Witness.env1 host1 root1 = Ret (k', did, fin) ∧
    (GatewayMain.ServeData g, c) ∈ did ∧ is_Some (Gateway.exit g).
Proof. apply serves_exit_spec. vm_compute. reflexivity. Qed.

Lemma exit_device_ready_witness :
  ∃ t o', OpenTUN (gs "gemina0") 1280 os0 = Ret (Ok t, o') ∧ attached o' (f t) = Some (gs "gemina0", 0x1001) ∧
    mtu o' (gs "gemina0") = Some 1280.
Proof.
  destruct main1_exit as (k' & did & fin & g & c & Hrun & Hin & Hexit).
  destruct (exit_device_ready GatewayMain.Witness.env1 host1 root1 k' os0 did fin g c host1_opens Hrun Hin Hexit)
    as (t & o' & H & _ & Ha & _ & Hm).
  exists t, o'. split; [exact H|]. split; [exact Ha|]. apply Hm. vm_compute. reflexivity.
Defined.

(** A name the kernel would cut is refused. *)
Lemma open_tun_refused : ∃ o', OpenTUN (gs "gemina-exit-device") 1280 os0 = Ret (Err ErrNotFound, o').
Proof. eexists. vm_compute. reflexivity. Qed.

(** An MTU above 32 bits is cut to its low word without an error. *)
Lemma mtu_wraps :
  ∃ t o', OpenTUN (gs "gemina0") (2 ^ 32 + 1280) os0 = Ret (Ok t, o') ∧ mtu o' (gs "gemina0") = Some 1280.
Proof. eexists _, _. split; vm_compute; reflexivity. Qed.

End Witness.

End Tun.
