(* ===== verification/Rig.v ===== *)
(** * tests/end-to-end/rig_linux.go: the Linux stand-in for the client

    The whole program: its environment, [openPaths], the handshake over the first
    uplink, the TUN device and its address, and then the outbound loop of [main] and
    one [receiveLoop] per uplink.  After the start the program is a state machine
    whose inputs are what its blocking reads return; the operations of a session are
    atomic (it locks), so the loops interleave at them.  base64, [netip.Addr.String]
    and the string functions are modelled; the sockets, the resolver and the ip tool
    are answers of the host. *)

From S2P Require Import Prelude GoText GoTime Protocol ReplayWindow Wire Crypto Session Handshake Bridge.
From S2P Require Import Netip Allocator PathSet Router Entitlement Metrics Gateway Tunnel PrivDrop NetParse GatewayMain Tun.
Import Protocol Wire Session Handshake GoTime Netip NetParse.

Module Rig.

(** ** encoding/base64: StdEncoding *)

Definition plus : byte := "+"%char.
Definition solidus : byte := "/"%char.
Definition pad : byte := "="%char.

(** The two alphabets differ in their last two characters. *)
Definition std_char (c : byte) : byte :=
  if decide (c = "-"%char) then plus else if decide (c = "_"%char) then solidus else c.
Definition std_val (c : byte) : option Z :=
  if decide (c = plus) then Some 62 else if decide (c = solidus) then Some 63 else
  if decide (c = "-"%char) then None else if decide (c = "_"%char) then None else B64.val c.

Definition std_values (s : bytes) : option (list Z) := mapM std_val s.

Definition EncodeToString (l : bytes) : bytes :=
  let s := map std_char (B64.encode l) in
  s ++ replicate ((4 - length s mod 4) mod 4) pad.

(** At most two pads at the end; a pad anywhere else is not in the alphabet. *)
Definition unpad (s : bytes) : bytes :=
  match reverse s with
  | c :: d :: r => if decide (c = pad) then if decide (d = pad) then reverse r else reverse (d :: r) else s
  | _ => s
  end.

Definition DecodeString (s : bytes) : option bytes :=
  let s := filter (λ c, b2z c ≠ 10 ∧ b2z c ≠ 13) s in
  if decide (length s mod 4 ≠ 0)%nat then None else std_values (unpad s) ≫= B64.groups.

(** ** net/netip: Addr.String *)

Definition string4 (n : Z) : bytes := Strings.join dot (map (λ b, Strconv.format_int (b2z b)) (be_bytes 4 n)).
Definition words (n : Z) : list Z := map (λ i, (n / 2 ^ (16 * (7 - i))) mod 2 ^ 16) (seqZ 0 8).

Fixpoint zero_run (ws : list Z) : nat :=
  match ws with w :: ws => if w =? 0 then S (zero_run ws) else 0 | [] => 0 end.

(** The first longest run of at least two zero words: its start and its end. *)
Definition best_run (ws : list Z) : nat * nat :=
  foldl (λ x i, let l := zero_run (drop i ws) in if decide (2 ≤ l ∧ x.2 - x.1 < l)%nat then (i, i + l)%nat else x) (255, 255)%nat (seq 0 8).

Definition hex_words (ws : list Z) : bytes := Strings.join colon (map (Strconv.format_digits 4 16) ws).
Definition string6 (n : Z) : bytes :=
  let ws := words n in
  let '(s, e) := best_run ws in
  if decide (8 ≤ s)%nat then hex_words ws
  else hex_words (take s ws) ++ [colon; colon] ++ hex_words (drop e ws).

Definition with_zone (z : string) (s : bytes) : bytes := if decide (z = EmptyString) then s else s ++ percent :: gs z.

Definition Addr_String (a : Addr) : bytes :=
  match a with
  | AddrZero => gs "invalid IP"
  | Addr4 n => string4 n
  | Addr6 n z => with_zone z (if Z.shiftr n 32 =? 0xffff then gs "::ffff:" ++ string4 (n mod 2 ^ 32) else string6 n)
  end.

(** ** Environment *)

Definition comma : byte := ","%char.

Definition splitPaths (s : bytes) : list bytes :=
  if decide (Strings.trim_space s = []) then [] else
  filter (λ p, p ≠ []) (map Strings.trim_space (Strings.split comma s)).

(** [None] when the process exits. *)
Definition mustEnv (e : PrivDrop.env) (key : string) : option bytes :=
  let v := e (gs key) in if decide (v = []) then None else Some v.

Definition pathLabel (paths : list bytes) (i : nat) : bytes := default (gs "default") (paths !! i).

Section rig.
Context `{CA : AEAD, CX : X25519, CK : HKDF, CE : Ed25519} {O : Type} `{OS : Tun.OS O}.

(** ** What the host answers *)

Record host := mkHost {
  resolve : bytes → option AddrPort;              (* net.ResolveUDPAddr *)
  listen : option bytes → bool;                   (* ListenUDP, or ListenPacket bound to a device *)
  rid : option SessionID; rkey : option bytes; now : Time;
  hello_ok : bool;                                (* WriteToUDP of the ClientHello *)
  answer : bytes → option bytes;                  (* ReadFromUDP before the deadline *)
  ip_ok : list bytes → bool                       (* the ip tool *)
}.

Inductive fatal :=
| MissingEnv (key : string) | BadIdentity | ResolveFailed | OpenFailed | HandshakeFailed (e : option Wire.error)
| TunFailed (e : Tun.error) | ConfigureFailed.

(** What the program did, in order. *)
Inductive action :=
| OpenSocket (dev : option bytes) | SendHello (sock : nat) (hello : bytes) (dst : AddrPort) | OpenedTun | RunIP (args : list bytes).

(** ** Starting *)

(** One socket per named uplink, or one on the default route; the first that cannot
    be opened ends it. *)
Fixpoint open_bound (h : host) (paths : list bytes) : bool * list action :=
  match paths with
  | [] => (true, [])
  | dev :: paths =>
      if listen h (Some dev) then let '(ok, log) := open_bound h paths in (ok, OpenSocket (Some dev) :: log)
      else (false, [])
  end.
Definition openPaths (h : host) (paths : list bytes) : bool * list action :=
  match paths with
  | [] => if listen h None then (true, [OpenSocket None]) else (false, [])
  | _ => open_bound h paths
  end.

Definition handshake (h : host) (gw : AddrPort) (identity token : bytes) : go (result (option Wire.error) Session * list action) :=
  r ← BeginClientHandshake identity token (rid h) (rkey h) (now h);
  match r with
  | Err e => Ret (Err (Some e), [])
  | Ok (hello, hs) =>
      if negb (hello_ok h) then Ret (Err None, [SendHello 0 hello gw]) else
      match answer h hello with
      | None => Ret (Err None, [SendHello 0 hello gw])
      | Some sh =>
          r ← Complete hs (take 2048 sh) 1024;
          Ret (match r with Ok s => Ok s | Err e => Err (Some e) end, [SendHello 0 hello gw])
      end
  end.

Definition tun_name : bytes := gs "continuity-rig".

Fixpoint run_ips (h : host) (argss : list (list bytes)) : bool * list action :=
  match argss with
  | [] => (true, [])
  | args :: argss =>
      if ip_ok h args then let '(ok, log) := run_ips h argss in (ok, RunIP args :: log) else (false, [RunIP args])
  end.
Definition configureTUN (h : host) (name addr : bytes) : bool * list action :=
  match ParseAddr addr with
  | None => (false, [])
  | Some a => run_ips h [[gs "addr"; gs "add"; Addr_String a ++ gs "/16"; gs "dev"; name]; [gs "link"; gs "set"; gs "dev"; name; gs "up"]]
  end.

(** The program after its start: the session, one label per uplink, the receive
    loops that have not returned, and whether [main] has. *)
Record rig := mkRig { session : Session; gwAddr : AddrPort; labels : list bytes; receiving : list bool; running : bool; dev : Tun.TUN }.

(** From the resolved configuration on. *)
Definition start_with (h : host) (gw : AddrPort) (identity token tunnelIP : bytes) (paths : list bytes) (o : O)
  : go (result fatal rig * list action * O) :=
  let '(ok, log) := openPaths h paths in
  if negb ok then Ret (Err OpenFailed, log, o) else
  let socks := length log in
  if decide (socks = 0%nat) then Panic else                      (* socks[0] *)
  '(r, log2) ← handshake h gw identity token;
  match r with
  | Err err => Ret (Err (HandshakeFailed err), log ++ log2, o)
  | Ok s =>
      '(t, o) ← Tun.OpenTUN tun_name 1280 o;
      match t with
      | Err err => Ret (Err (TunFailed err), log ++ log2, o)
      | Ok t =>
          let '(ok, log3) := configureTUN h tun_name tunnelIP in
          if negb ok then Ret (Err ConfigureFailed, log ++ log2 ++ OpenedTun :: log3, o) else
          Ret (Ok (mkRig s gw (map (pathLabel paths) (seq 0 socks)) (replicate socks true) true t),
               log ++ log2 ++ OpenedTun :: log3, o)
      end
  end.

Definition start (e : PrivDrop.env) (h : host) (o : O) : go (result fatal rig * list action * O) :=
  match mustEnv e "GEMINA_RIG_GATEWAY" with
  | None => Ret (Err (MissingEnv "GEMINA_RIG_GATEWAY"), [], o)
  | Some gateway =>
  match mustEnv e "GEMINA_RIG_IDENTITY" with
  | None => Ret (Err (MissingEnv "GEMINA_RIG_IDENTITY"), [], o)
  | Some identityB64 =>
  match mustEnv e "GEMINA_RIG_TOKEN" with
  | None => Ret (Err (MissingEnv "GEMINA_RIG_TOKEN"), [], o)
  | Some token =>
      let tunnelIP := PrivDrop.envOr e "GEMINA_RIG_TUNNEL_IP" (gs "10.99.0.2") in
      let paths := splitPaths (PrivDrop.envOr e "GEMINA_RIG_PATHS" []) in
      match DecodeString identityB64 with
      | None => Ret (Err BadIdentity, [], o)
      | Some identity =>
          if decide (length identity ≠ 32%nat) then Ret (Err BadIdentity, [], o) else
          match resolve h gateway with
          | None => Ret (Err ResolveFailed, [], o)
          | Some gw => start_with h gw identity token tunnelIP paths o
          end
      end
  end end end.

(** ** Running *)

Definition bufSize : nat := Z.to_nat 65535.

(** What a blocking read returned: on the TUN device, or on an uplink; [final] when
    the receive loop sees that it is over. *)
Inductive event :=
| Read (packet : bytes) | ReadFailed
| Receive (i : nat) (datagram : bytes) | ReceiveFailed (i : nat) (final : bool).

Inductive output := SendOn (i : nat) (wire : bytes) | WriteTun (payload : bytes).

Definition with_session (r : rig) (s : Session) : rig :=
  mkRig s (gwAddr r) (labels r) (receiving r) (running r) (dev r).

(** One iteration of the receive loop of the [i]-th uplink. *)
Definition receive (r : rig) (i : nat) (datagram : bytes) : go (rig * list output) :=
  if default false (receiving r !! i) then
    '(s, x) ← Inbound (session r) (take bufSize datagram);
    Ret (with_session r s, match x with Ok (payload, true) => [WriteTun payload] | _ => [] end)
  else Ret (r, []).

Definition step (r : rig) (e : event) : go (rig * list output) :=
  if negb (running r) then Ret (r, []) else
  match e with
  | Read packet =>
      '(s, f) ← Outbound (session r) (take bufSize packet);
      Ret (with_session r s, match f with Ok framed => map (λ i, SendOn i framed) (seq 0 (length (labels r))) | Err _ => [] end)
  | ReadFailed => Ret (mkRig (session r) (gwAddr r) (labels r) (receiving r) false (dev r), [])
  | Receive i datagram => receive r i datagram
  | ReceiveFailed i final =>
      Ret (mkRig (session r) (gwAddr r) (labels r) (if final then <[i := false]> (receiving r) else receiving r) (running r) (dev r), [])
  end.

Fixpoint run (r : rig) (es : list event) : go (rig * list (list output)) :=
  match es with
  | [] => Ret (r, [])
  | e :: es => '(r, o) ← step r e; '(r, os) ← run r es; Ret (r, o :: os)
  end.

End rig.

(** ** base64: the identity the gateway logs is the one the rig pins *)

Definition std_ok (c : byte) : bool :=
  bool_decide (std_val (std_char c) = B64.val c) && bool_decide (std_char c ≠ pad) &&
  bool_decide (b2z (std_char c) ≠ 10 ∧ b2z (std_char c) ≠ 13).

Lemma std_alphabet : forallb (λ z, std_ok (B64.char z)) (seqZ 0 64) = true.
Proof. vm_compute. reflexivity. Qed.

Lemma std_char_ok z : 0 ≤ z < 64 → std_val (std_char (B64.char z)) = B64.val (B64.char z) ∧ std_char (B64.char z) ≠ pad ∧
  b2z (std_char (B64.char z)) ≠ 10 ∧ b2z (std_char (B64.char z)) ≠ 13.
Proof.
  intros Hz. pose proof (proj1 (forallb_forall _ _) std_alphabet z) as H.
  rewrite <-list_elem_of_In, elem_of_seqZ in H. specialize (H ltac:(lia)). unfold std_ok in H. rewrite !andb_true_iff in H.
  destruct H as [[H1 H2] H3]. by apply bool_decide_eq_true in H1, H2, H3.
Qed.

(** The characters of an encoding are of the alphabet, and as many as the padding assumes. *)
Lemma encode_chars l : Forall (λ c, ∃ z, 0 ≤ z < 64 ∧ c = B64.char z) (B64.encode l) ∧
  (length (B64.encode l) mod 4 = 0 ∨ length (B64.encode l) mod 4 = 2 ∨ length (B64.encode l) mod 4 = 3)%nat.
Proof.
  induction l as [|a|a b|a b c l [IH Hl]] using B64.triple_ind; cbn [B64.encode]; cbv zeta;
    try pose proof (b2z_range a); try pose proof (b2z_range b); try pose proof (b2z_range c).
  { split; [constructor|by left]. }
  1,2: split; [repeat (constructor; [eexists; split; [|done]; Z.to_euclidean_division_equations; lia|]); constructor|].
  { right; left. reflexivity. }
  { right; right. reflexivity. }
  split; [repeat (constructor; [eexists; split; [|done]; Z.to_euclidean_division_equations; lia|]); done|].
  cbn [length]. change (S (S (S (S ?n)))) with (4 + n)%nat. rewrite !(Nat.add_comm 4), !(Nat.Div0.add_mod _ 4), !Nat.Div0.mod_same, !Nat.add_0_r, !Nat.Div0.mod_mod. done.
Qed.

Lemma std_values_char s :
  Forall (λ c, ∃ z, 0 ≤ z < 64 ∧ c = B64.char z) s → std_values (map std_char s) = B64.values s.
Proof.
  induction 1 as [|c s (z & Hz & ->) _ IH]; [done|]. unfold std_values in *. cbn [map mapM].
  destruct (std_char_ok z Hz) as (-> & _). destruct (B64.char_spec z Hz) as (Hv & _). rewrite Hv, B64.values_char, <-IH by done.
  cbn. by destruct (mapM std_val _).
Qed.

Lemma unpad_pads s k :
  Forall (λ c, c ≠ pad) s → (k ≤ 2)%nat → (k = 0 ∨ 2 ≤ length s)%nat → unpad (s ++ replicate k pad) = s.
Proof.
  intros Hs Hk Hl. unfold unpad. rewrite reverse_app. destruct k as [|[|[|k]]]; [| | |lia]; cbn [replicate].
  - cbn. rewrite app_nil_r. destruct (reverse s) as [|c [|d r]] eqn:E; [done|done|].
    rewrite decide_False; [done|]. rewrite Forall_forall in Hs. apply Hs. rewrite <-(reverse_involutive s), E. apply elem_of_reverse. set_solver.
  - change (reverse [pad]) with [pad]. cbn [app]. destruct (reverse s) as [|d r] eqn:E.
    { apply (f_equal length) in E. rewrite length_reverse in E. cbn in E. lia. }
    rewrite decide_True by done. rewrite decide_False; [by rewrite <-E, reverse_involutive|].
    rewrite Forall_forall in Hs. apply Hs. rewrite <-(reverse_involutive s), E. apply elem_of_reverse. set_solver.
  - change (reverse [pad; pad]) with [pad; pad]. cbn [app]. rewrite !decide_True by done. apply reverse_involutive.
Qed.

Lemma filter_kept {A} (P : A → Prop) `{∀ x, Decision (P x)} (l : list A) : Forall P l → filter P l = l.
Proof. induction 1 as [|x l Hx _ IH]; [done|]. by rewrite filter_cons_True, IH. Qed.

Lemma DecodeString_Encode l : DecodeString (EncodeToString l) = Some l.
Proof.
  destruct (encode_chars l) as [Hc Hm]. unfold DecodeString, EncodeToString. set (s := map std_char (B64.encode l)).
  set (k := ((4 - length s mod 4) mod 4)%nat).
  assert (length s = length (B64.encode l)) as Hls by apply length_map.
  assert (Forall (λ c, c ≠ pad ∧ b2z c ≠ 10 ∧ b2z c ≠ 13) s) as Hs.
  { apply Forall_fmap. eapply Forall_impl; [exact Hc|]. intros c (z & Hz & ->). cbn. by apply std_char_ok. }
  assert (filter (λ c, b2z c ≠ 10 ∧ b2z c ≠ 13) (s ++ replicate k pad) = s ++ replicate k pad) as ->.
  { apply filter_kept. apply Forall_app. split; [eapply Forall_impl; [exact Hs|]; naive_solver|by apply Forall_replicate]. }
  assert ((k ≤ 2)%nat ∧ (k = 0 ∨ 2 ≤ length s)%nat ∧ (length (s ++ replicate k pad) mod 4 = 0)%nat) as (H1 & H2 & H3).
  { rewrite length_app, length_replicate, Hls. subst k. rewrite Hls. revert Hm. generalize (length (B64.encode l)). intros n Hm.
    rewrite Nat.Div0.add_mod. pose proof (Nat.Div0.mod_le n 4).
    destruct Hm as [Hn|[Hn|Hn]]; rewrite Hn in *; (split; [cbn; lia|]); (split; [|reflexivity]); [by left|right; lia..]. }
  rewrite decide_False by (rewrite H3; lia). rewrite unpad_pads; [|eapply Forall_impl; [exact Hs|]; naive_solver|done|done].
  unfold s. rewrite std_values_char by done. apply B64.b64_decode_encode.
Qed.

Section rig_spec.
Context `{CA : AEAD, CX : X25519, CK : HKDF, CE : Ed25519} {O : Type} `{OS : Tun.OS O}.
Context `{LK : !HKDFLaws, LO : !Tun.OSLaws O}.

(** *** Starting *)

Definition sockets_of (paths : list bytes) : list action :=
  match paths with [] => [OpenSocket None] | _ => map (OpenSocket ∘ Some) paths end.
Definition labels_of (paths : list bytes) : list bytes := match paths with [] => [gs "default"] | _ => paths end.

Lemma openPaths_ok h paths log : openPaths h paths = (true, log) → log = sockets_of paths.
Proof.
  assert (∀ ps l, open_bound h ps = (true, l) → l = map (OpenSocket ∘ Some) ps) as Hb.
  { induction ps as [|p ps IH]; intros l; cbn [open_bound]; [by intros [= <-]|]. destruct (listen h (Some p)); [|done].
    destruct (open_bound h ps) as [ok l'] eqn:E. intros [= -> <-]. cbn. f_equal. by apply IH. }
  destruct paths as [|p paths]; cbn [openPaths sockets_of]; [|apply Hb]. destruct (listen h None); [by intros [= <-]|done].
Qed.

Lemma labels_eq paths : map (pathLabel paths) (seq 0 (length (sockets_of paths))) = labels_of paths.
Proof.
  destruct paths as [|p paths]; [done|]. cbn [sockets_of labels_of]. rewrite length_map. generalize (p :: paths). clear. intros ps.
  apply list_eq. intros i. change (map (pathLabel ps) (seq 0 (length ps))) with (pathLabel ps <$> seq 0 (length ps)). rewrite list_lookup_fmap. unfold pathLabel.
  destruct (decide (i < length ps)%nat) as [Hi|Hi].
  - rewrite lookup_seq_lt by done. cbn. destruct (ps !! i) as [x|] eqn:E; [done|]. apply lookup_ge_None in E. lia.
  - rewrite lookup_seq_ge by lia. by rewrite lookup_ge_None_2 by lia.
Qed.

(** The two runs of the ip tool. *)
Definition ip_runs (a : Addr) : list action :=
  [RunIP [gs "addr"; gs "add"; Addr_String a ++ gs "/16"; gs "dev"; tun_name]; RunIP [gs "link"; gs "set"; gs "dev"; tun_name; gs "up"]].

Lemma configureTUN_ok h addr log : configureTUN h tun_name addr = (true, log) → ∃ a, ParseAddr addr = Some a ∧ log = ip_runs a.
Proof.
  unfold configureTUN. destruct (ParseAddr addr) as [a|]; [|done]. cbn [run_ips]. destruct (ip_ok h _); [|done].
  destruct (ip_ok h _); [|done]. intros [= <-]. by exists a.
Qed.

(** The session came out of a handshake over the first uplink, in which the gateway
    of the pinned identity signed the key exchange. *)
Definition pinned (h : host) (identity token : bytes) (hello : bytes) (s : Session) : Prop :=
  ∃ hs sh eph sig ip key,
    BeginClientHandshake identity token (rid h) (rkey h) (now h) = Ret (Ok (hello, hs)) ∧ answer h hello = Some sh ∧
    EncodeServerHello (hs_sessionID hs) eph sig ip = Ret (Ok (take 2048 sh)) ∧
    ed25519_verify identity (transcript eph (hs_sessionID hs)) sig = true ∧
    DeriveSessionKey (hs_ephemeralPriv hs) eph (hs_sessionID hs) = Ok key ∧
    session_ok s [] ∧ sid s = hs_sessionID hs ∧ slr s = mkSealer key ∧ role s = RoleInitiator ∧ next s = 0.

Lemma Begin_pins identity token rid rkey now hello hs :
  BeginClientHandshake identity token rid rkey now = Ret (Ok (hello, hs)) → hs_gatewayIdentity hs = identity.
Proof.
  unfold BeginClientHandshake. case_decide as Hi; [done|]. destruct (randomSessionID rid) as [id|]; [|done]. cbn [gbind].
  destruct (GenerateKeyPair rkey) as [[priv pk]|]; [|done]. cbn [gbind]. intros HB.
  apply gbind_ok_inv in HB as (b & He & HB). by injection HB as <- <-.
Qed.

Lemma handshake_spec h gw identity token :
  ∃ r log, handshake h gw identity token = Ret (r, log) ∧
    ∀ s, r = Ok s → ∃ hello, log = [SendHello 0 hello gw] ∧ pinned h identity token hello s.
Proof.
  unfold handshake. destruct (Bridge.Begin_total identity token (rid h) (rkey h) (now h)) as [[[hello hs]|e] HB]; rewrite HB; mstep;
    [|by eexists _, _]. destruct (hello_ok h); cbn [negb]; [|by eexists _, _]. destruct (answer h hello) as [sh|] eqn:Ha; [|by eexists _, _].
  destruct (Complete_spec hs (take 2048 sh) 1024) as (r & HC & Hr); [lia|]. rewrite HC. mstep. eexists _, _. split; [done|].
  intros s Hs. destruct r as [s'|]; [|done]. injection Hs as ->. exists hello. split; [done|].
  destruct (Hr s eq_refl) as (eph & sig & ip & key & H1 & H2 & H3 & H4 & H5 & H6 & H7 & H8 & _).
  exists hs, sh, eph, sig, ip, key. rewrite (Begin_pins _ _ _ _ _ _ _ HB) in H2. done.
Qed.

Lemma start_with_spec h gw identity token tunnelIP paths o :
  ∃ r log o', start_with h gw identity token tunnelIP paths o = Ret (r, log, o') ∧
    ∀ g, r = Ok g → ∃ hello a, pinned h identity token hello (session g) ∧
      gwAddr g = gw ∧ labels g = labels_of paths ∧ receiving g = replicate (length (labels g)) true ∧ running g = true ∧
      Tun.attached o' (Tun.f (dev g)) = Some (tun_name, 0x1001) ∧ Tun.mtu o' tun_name = Some 1280 ∧
      ParseAddr tunnelIP = Some a ∧ log = sockets_of paths ++ SendHello 0 hello gw :: OpenedTun :: ip_runs a.
Proof.
  unfold start_with. destruct (openPaths h paths) as [[] log] eqn:Ep; [|by eexists _, _, _]. cbn [negb].
  apply openPaths_ok in Ep as ->. rewrite decide_False by (by destruct paths).
  destruct (handshake_spec h gw identity token) as (r & log2 & -> & Hr). mstep. destruct r as [s|e]; [|by eexists _, _, _].
  destruct (Hr s eq_refl) as (hello & -> & Hpin).
  destruct (Tun.open_tun_spec tun_name 1280 o) as (t & o' & -> & Ht). mstep. destruct t as [t|e]; [|by eexists _, _, _].
  destruct (configureTUN h tun_name tunnelIP) as [[] log3] eqn:Ec; [|by eexists _, _, _]. cbn [negb].
  apply configureTUN_ok in Ec as (a & Ha & ->). eexists _, _, _. split; [done|]. intros g [= <-]. exists hello, a. cbn [session gwAddr labels receiving running dev].
  destruct Ht as (_ & _ & _ & Hat & m' & Hm & _ & Hm'). split; [done|]. split; [done|]. split; [apply labels_eq|].
  split; [by rewrite length_map, length_seq|]. split; [done|]. split; [done|]. split; [|done]. rewrite Hm, Hm' by lia. done.
Qed.

(** *** Running *)

(** The number of the packet a receive wrote to the TUN device. *)
Definition wrote_by (x : event * list output) : option Z :=
  match x with (Receive _ d, [WriteTun _]) => number_of (take bufSize d) | _ => None end.
Definition wrote (es : list event) (oss : list (list output)) : list Z := omap wrote_by (zip es oss).
Definition written (oss : list (list output)) : list bytes := omap (λ o, match o with WriteTun p => Some p | _ => None end) (concat oss).

(** What the program does at each input. *)
Definition behaves (s : Session) (uplinks : nat) (e : event) (os : list output) : Prop :=
  match e with
  | Read _ => os = [] ∨ ∃ wire, os = map (λ i, SendOn i wire) (seq 0 uplinks)
  | Receive _ d => os = [] ∨ ∃ payload, os = [WriteTun payload] ∧ genuine s (take bufSize d) payload
  | _ => os = []
  end.

(** Sessions that differ in their counter and window only. *)
Definition same_keys (s s' : Session) : Prop := slr s' = slr s ∧ role s' = role s ∧ sid s' = sid s.

Lemma genuine_same s s' d p : same_keys s s' → genuine s' d p → genuine s d p.
Proof. intros (Hs & Hr & _). unfold genuine. by rewrite Hs, Hr. Qed.

(** One step: the session is kept but for its counter and window, and a packet
    written has a number not seen before. *)
Definition stepped (r : rig) (prior : list Z) (e : event) (r' : rig) (os : list output) : Prop :=
  ∃ prior', session_ok (session r') prior' ∧ same_keys (session r) (session r') ∧ labels r' = labels r ∧
    (∀ n, n ∈ prior → n ∈ prior') ∧ behaves (session r) (length (labels r)) e os ∧
    (∀ n, wrote_by (e, os) = Some n → (n ∉ prior) ∧ n ∈ prior') ∧
    length (written [os]) = length (option_list (wrote_by (e, os))).

Lemma stepped_quiet r prior e r' :
  session_ok (session r) prior → session r' = session r → labels r' = labels r → stepped r prior e r' [].
Proof.
  intros Hok Hs Hl. exists prior. rewrite Hs. split_and!; try done; destruct e; try done; by left.
Qed.

Lemma payload_fits : (maxPayload ≤ bufSize)%nat.
Proof. apply Nat2Z.inj_le. unfold bufSize. rewrite Z2Nat.id by done. by vm_compute. Qed.

(** A packet that is framed leaves on every uplink. *)
Lemma step_read x q s wire :
  running x = true → (length q ≤ maxPayload)%nat → Outbound (session x) q = Ret (s, Ok wire) →
  step x (Read q) = Ret (with_session x s, map (λ i, SendOn i wire) (seq 0 (length (labels x)))).
Proof.
  intros Hrn Hq HO. unfold step. rewrite Hrn. cbn [negb]. rewrite take_ge by (pose proof payload_fits; lia). by rewrite HO.
Qed.

Lemma written_sends js wire : written [map (λ i, SendOn i wire) js] = [].
Proof. unfold written. cbn [concat]. rewrite app_nil_r. by induction js. Qed.

Lemma step_spec r prior e : session_ok (session r) prior → ∃ r' os, step r e = Ret (r', os) ∧ stepped r prior e r' os.
Proof.
  intros Hok. unfold step, receive. destruct (running r); cbn [negb]; [|eexists _, _; (split; [done|]); by apply stepped_quiet].
  destruct e as [packet| |i d|i final]; [|by eexists _, _; (split; [done|]); apply stepped_quiet| |by eexists _, _; (split; [done|]); apply stepped_quiet].
  - destruct (Bridge.Outbound_good (session r) (take bufSize packet)) as (s' & f & HO & _); [by exists prior|]. rewrite HO. mstep.
    eexists _, _. split; [done|]. destruct (decide (length (take bufSize packet) ≤ maxPayload)%nat) as [Hl|Hl].
    2: { unfold Outbound in HO. rewrite decide_True in HO by lia. injection HO as <- <-. by apply stepped_quiet. }
    rewrite Outbound_eq in HO by done. injection HO as <- <-. exists prior.
    split; [apply session_ok_next; [done|apply u64_range]|]. split; [done|]. split; [done|]. split; [done|]. split; [right; by eexists|].
    by rewrite written_sends.
  - destruct (default false (receiving r !! i)); [|eexists _, _; (split; [done|]); by apply stepped_quiet].
    destruct (Inbound_delivers (session r) prior (take bufSize d) Hok) as (w & x & prior' & -> & Hok' & Hsub & Hx). mstep.
    eexists _, _. split; [done|]. exists prior'. split; [done|]. split; [done|]. split; [done|]. split; [done|].
    destruct x as [[payload []]|e]; [|split; [by left|done]..].
    destruct Hx as (Hge & n & Hnum & Hn & Hn'). split; [right; by exists payload|]. cbn [wrote_by]. rewrite Hnum. split; [|done].
    by intros ? [= <-].
Qed.

Lemma run_spec r prior es :
  session_ok (session r) prior →
  ∃ r' oss, run r es = Ret (r', oss) ∧ Forall2 (behaves (session r) (length (labels r))) es oss ∧
    length (wrote es oss) = length (written oss) ∧ NoDup (wrote es oss) ∧ Forall (λ n, n ∉ prior) (wrote es oss).
Proof.
  revert r prior. induction es as [|e es IH]; intros r prior Hok; cbn [run].
  { eexists _, []. split; [done|]. split_and!; try done; constructor. }
  destruct (step_spec r prior e Hok) as (r1 & os & -> & prior1 & Hok1 & Hsame & Hlab & Hsub & Hb & Hw & Hlen). mstep.
  destruct (IH r1 prior1 Hok1) as (r2 & oss & -> & Hbs & Hlens & Hnd & Hnew). mstep.
  eexists _, (os :: oss). split; [done|]. split.
  { constructor; [done|]. rewrite <-Hlab. eapply Forall2_impl; [exact Hbs|]. intros e' os'. rewrite Hlab. unfold behaves.
    destruct e'; try done. intros [->|(p & -> & Hg)]; [by left|right; exists p; split; [done|]; by eapply genuine_same]. }
  unfold wrote, written in *. cbn [zip zip_with concat omap list_omap] in *. rewrite omap_app, length_app. rewrite app_nil_r in Hlen. rewrite Hlen.
  assert (Forall (λ n, n ∉ prior) (omap wrote_by (zip es oss))) as Hnew'.
  { eapply Forall_impl; [exact Hnew|]. intros n Hn Hin. by apply Hn, Hsub. }
  destruct (wrote_by (e, os)) as [n|] eqn:Ew; cbn [option_list length]; [|by rewrite Hlens].
  rewrite Hlens. split; [done|].
  destruct (Hw n eq_refl) as [Hn Hn1].
  split; [|by constructor]. constructor; [|done]. intros Hin. rewrite Forall_forall in Hnew. by apply (Hnew n).
Qed.

End rig_spec.

(** ** Properties *)

Section properties.
Context `{CA : AEAD, CX : X25519, CK : HKDF, CE : Ed25519, CM : HMAC} {P : Type} {O : Type} `{OS : Tun.OS O}.
Context `{LA : !AEADLaws, LX : !X25519Laws, LK : !HKDFLaws, LE : !Ed25519Laws, LO : !Tun.OSLaws O}.
Implicit Types g : Gateway.DataGateway (P := P).

(** C25: The rig starts only against the pinned gateway.  For every environment and
    every answer of the host, the start returns (there always is a first uplink).
    When it goes on to the loops, the identity is the 32 bytes of the base64 variable,
    which is the key itself when the variable is what a gateway prints of its key; the
    session came out of a handshake sent once, over the first uplink, whose ServerHello
    that identity signed; every uplink of the list was opened in its order, a single
    default one for an empty list; and only then the TUN device was opened, attached
    under its name with an MTU of 1280, and given the parsed address. *)
Theorem rig_pins_gateway (e : PrivDrop.env) (h : host) (o : O) :
  ∃ r log o', start e h o = Ret (r, log, o') ∧
    ∀ x, r = Ok x → ∃ identity hello a,
      let paths := splitPaths (PrivDrop.envOr e "GEMINA_RIG_PATHS" []) in
      DecodeString (e (gs "GEMINA_RIG_IDENTITY")) = Some identity ∧ length identity = 32%nat ∧
      (∀ pub, e (gs "GEMINA_RIG_IDENTITY") = EncodeToString pub → identity = pub) ∧
      pinned h identity (e (gs "GEMINA_RIG_TOKEN")) hello (session x) ∧
      resolve h (e (gs "GEMINA_RIG_GATEWAY")) = Some (gwAddr x) ∧ labels x = labels_of paths ∧
      Tun.attached o' (Tun.f (dev x)) = Some (tun_name, 0x1001) ∧ Tun.mtu o' tun_name = Some 1280 ∧
      ParseAddr (PrivDrop.envOr e "GEMINA_RIG_TUNNEL_IP" (gs "10.99.0.2")) = Some a ∧
      log = sockets_of paths ++ SendHello 0 hello (gwAddr x) :: OpenedTun :: ip_runs a.
Proof.
  unfold start, mustEnv. set (paths := splitPaths _). set (ip := PrivDrop.envOr e _ _).
  case_decide as H1; [by eexists _, _, _|]. case_decide as H2; [by eexists _, _, _|]. case_decide as H3; [by eexists _, _, _|].
  destruct (DecodeString (e (gs "GEMINA_RIG_IDENTITY"))) as [identity|] eqn:Ed; [|by eexists _, _, _].
  case_decide as Hl; [by eexists _, _, _|]. destruct (resolve h _) as [gw|] eqn:Er; [|by eexists _, _, _].
  destruct (start_with_spec h gw identity (e (gs "GEMINA_RIG_TOKEN")) ip paths o) as (r & log & o' & -> & Hr).
  exists r, log, o'. split; [done|]. intros x ->. destruct (Hr x eq_refl) as (hello & a & Hp & Hgw & Hlab & _ & _ & Hat & Hm & Ha & ->).
  exists identity, hello, a. cbv zeta. split; [done|]. split; [destruct (decide (length identity = 32%nat)); [done|by destruct Hl]|].
  split; [intros pub E; rewrite E, DecodeString_Encode in Ed; by injection Ed|]. rewrite Hgw. done.
Qed.

(** C24: A cut uplink does not break the flow.  A packet from the leased address, read
    from the rig's TUN device, leaves as one datagram on every uplink.  If no datagram
    that the gateway has received under the session's key carried the packet's number,
    or one ahead of it by the capacity of the replay window or more, the copy that
    reaches the gateway first, over whichever uplink is left, is written to the
    gateway's TUN device; and in whatever the gateway serves after it, with any number
    of further copies at any point, that packet is not written again. *)
Theorem rig_survives_cut (pool : list Addr) g g1 (es es' : list Gateway.event) (os : list Gateway.output)
    (x : rig) (prior : list Z) (key q : bytes) (r : Router.Router)
    (src : option AddrPort) (rk : option bytes) (t : Time) (wok : bool) :
  Gateway.started pool g → Forall Gateway.event_ok es → Gateway.run g es = Ret (g1, os) → Gateway.exit g1 = Some r →
  running x = true → session_ok (session x) prior → slr (session x) = mkSealer key → role (session x) = RoleInitiator →
  next (session x) < 2 ^ 64 - 1 → Gateway.keys (Gateway.store g1) !! sid (session x) = Some key →
  Router.ipv4_ok q = true → (length q ≤ maxPayload)%nat →
  Allocator.LeaseOf (Router.alloc r) (sid (session x)) = Some (Router.src_of q) →
  Gateway.in_window (Gateway.capacity (Gateway.dataPlane g)) (Gateway.received key (sid (session x)) es) (next (session x) + 1) →
  (∀ k, rk = Some k → length k = 32%nat) →
  Forall Gateway.event_ok es' →
  ∃ x' wire id g2 g3 os',
    step x (Read q) = Ret (x', map (λ i, SendOn i wire) (seq 0 (length (labels x)))) ∧
    Tunnel.packet_of wire = Some id ∧
    Gateway.step g1 (Gateway.EvDatagram wire src rk t wok) = Ret (g2, Gateway.OutReply None (Some q)) ∧
    Gateway.run g2 es' = Ret (g3, os') ∧ id ∉ Tunnel.forwarded es' os'.
Proof.
  intros Hs Hes Hrun Hx Hrn Hok Hslr Hrole Hnext Hk Hip Hlen Hl Hnew Hrk Hes'. destruct (so_next _ _ Hok) as [Hn0 _].
  set (c := session x) in *. set (wire := frame_of (sid c) (skey (slr c)) (role c) (next c + 1) q).
  assert (Outbound c q = Ret (set_next c (next c + 1), Ok wire)) as HO.
  { rewrite Outbound_eq by done. rewrite u64_small by (unfold is_u64; lia). done. }
  clearbody wire. pose proof (Gateway.reached_ok _ _ _ _ _ Hs Hes Hrun) as Hg1.
  destruct (Tunnel.dual_path_copies pool g g1 es es' os c (set_next c (next c + 1)) prior key q wire r src src rk rk t t wok wok
    Hs Hes Hrun Hx Hok Hslr Hrole) as (g2 & g3 & _ & os' & _ & H1 & _ & H2 & _); try done.
  destruct (Tunnel.written_spends pool g1 wire src rk t wok g2 None q es' os' g3) as (id & Hid & Hnot); try done.
  { destruct rk; [by apply Hrk|done]. }
  eexists _, wire, id, g2, g3, os'. split; [by apply step_read|done].
Qed.

(** What the rig writes to its TUN device.  Over any interleaving of packets read
    from the device, datagrams received on any uplink and failed reads, the program
    goes on; a packet read is sent as one datagram on all uplinks or on none; every
    packet written was opened under the session's key as a datagram of the gateway;
    and no packet number is written twice. *)
Theorem rig_writes_once (x : rig) (prior : list Z) (es : list event) :
  session_ok (session x) prior →
  ∃ x' oss, run x es = Ret (x', oss) ∧ Forall2 (behaves (session x) (length (labels x))) es oss ∧
    length (wrote es oss) = length (written oss) ∧ NoDup (wrote es oss) ∧ Forall (λ n, n ∉ prior) (wrote es oss).
Proof. apply run_spec. Qed.

End properties.

(** ** Witnesses, at the toy primitives *)

Module Witness.
Import Toy Tun.ToyOS Gateway.Witness Tunnel.Witness.

Definition env1 : PrivDrop.env := λ key,
  if decide (key = gs "GEMINA_RIG_GATEWAY") then gs "gw.example:51820" else
  if decide (key = gs "GEMINA_RIG_IDENTITY") then EncodeToString (ed25519_public identity1) else
  if decide (key = gs "GEMINA_RIG_TOKEN") then gs "token" else
  if decide (key = gs "GEMINA_RIG_PATHS") then gs "eth0, ,wwan0" else [].

Definition host1 : host :=
  mkHost (λ _, Some wifi) (λ _, true) (Some rid1) (Some ck1) now1 true
    (λ hello, match Gateway.run g1 [Gateway.EvDatagram hello (Some wifi) (Some gk1) now1 true] with
              | Ret (_, [Gateway.OutReply (Some sh) _]) => Some sh
              | _ => None
              end) (λ _, true).

Definition os0 : Tun.ToyOS.os := mkOS {[0; 1; 2]} ∅ ∅ [].

Lemma start1_runs : match start env1 host1 os0 with Ret (Ok _, _, _) => True | _ => False end.
Proof. vm_compute. exact I. Qed.

Lemma rig_pins_gateway_witness :
  ∃ x log o', start env1 host1 os0 = Ret (Ok x, log, o') ∧ labels x = [gs "eth0"; gs "wwan0"] ∧
    ∃ hello, pinned host1 (ed25519_public identity1) (gs "token") hello (session x).
Proof.
  destruct (rig_pins_gateway env1 host1 os0) as (r & log & o' & E & H). pose proof start1_runs as Hs. rewrite E in Hs.
  destruct r as [x|]; [|destruct Hs]. exists x, log, o'. split; [exact E|].
  destruct (H x eq_refl) as (identity & hello & a & _ & _ & Hid & Hp & _ & Hl & _).
  split; [exact Hl|]. exists hello. rewrite <-(Hid (ed25519_public identity1)); [exact Hp|reflexivity].
Defined.

(** The rig after the handshake of [Tunnel.Witness], with two uplinks. *)
Definition rig1 : rig := mkRig client1 wifi [gs "eth0"; gs "wwan0"] [true; true] true (Tun.mkTUN 3).

Lemma rig_survives_cut_witness :
  ∃ x' wire id g2 g3 os',
    step rig1 (Read packet1) = Ret (x', [SendOn 0 wire; SendOn 1 wire]) ∧
    Gateway.step served.1 (Gateway.EvDatagram wire (Some tether) None now1 true) = Ret (g2, Gateway.OutReply None (Some packet1)) ∧
    Gateway.run g2 [data_event; copy_event] = Ret (g3, os') ∧ id ∉ Tunnel.forwarded [data_event; copy_event] os'.
Proof.
  destruct (rig_survives_cut (Allocator.free Allocator.alloc1) g1 served.1 [hello_event] [data_event; copy_event] served.2 rig1 [] key1 packet1
    router1 (Some tether) None now1 true) as (x' & wire & id & g2 & g3 & os' & H1 & _ & H2 & H3 & H4).
  - exact started1.
  - repeat constructor.
  - vm_compute. reflexivity.
  - vm_compute. reflexivity.
  - reflexivity.
  - exact client1_ok.
  - reflexivity.
  - reflexivity.
  - cbn [next client1 rig1 session]. lia.
  - vm_compute. reflexivity.
  - vm_compute. reflexivity.
  - apply Nat.leb_le. vm_compute. reflexivity.
  - vm_compute. reflexivity.
  - apply (bool_decide_unpack _). vm_compute. exact I.
  - intros k Hk. discriminate Hk.
  - repeat constructor.
  - exists x', wire, id, g2, g3, os'. split; [exact H1|]. split; [exact H2|]. split; [exact H3|exact H4].
Defined.

(** A return packet that comes in over both uplinks. *)
Definition return1 : bytes := frame_of id1 key1 RoleResponder 1 packet2.
Definition events1 : list event := [Receive 1 return1; Read packet1; Receive 0 return1; ReceiveFailed 0 true; ReadFailed].

Lemma events1_outputs :
  match run rig1 events1 with Ret (_, oss) => written oss = [packet2] ∧ length (concat oss) = 3%nat | Panic => False end.
Proof. vm_compute. split; reflexivity. Qed.

Lemma rig_writes_once_witness :
  ∃ x' oss, run rig1 events1 = Ret (x', oss) ∧ NoDup (wrote events1 oss) ∧ length (wrote events1 oss) = 1%nat.
Proof.
  destruct (rig_writes_once rig1 [] events1 client1_ok) as (x' & oss & E & _ & Hl & Hnd & _).
  pose proof events1_outputs as Hc. rewrite E in Hc. destruct Hc as [Hc _]. exists x', oss. split; [exact E|]. split; [exact Hnd|].
  rewrite Hl, Hc. reflexivity.
Defined.

(** The canonical text of an address. *)
Lemma string_examples :
  Addr_String <$> ParseAddr (gs "2001:DB8:0:0:1:0:0:1") = Some (gs "2001:db8::1:0:0:1") ∧
  Addr_String <$> ParseAddr (gs "::ffff:10.99.0.2") = Some (gs "::ffff:10.99.0.2") ∧
  Addr_String <$> ParseAddr (gs "10.99.0.2") = Some (gs "10.99.0.2") ∧ Addr_String <$> ParseAddr (gs "0::") = Some (gs "::").
Proof. vm_compute. split_and!; reflexivity. Qed.

End Witness.

End Rig.
