(* ===== verification/Dial.v ===== *)
(** * internal/transport: sockets bound to one path

    [PathDialer.DialUDP] of pathdial.go with [bindToInterface] of
    pathdial_darwin.go and pathdial_other.go, over [net.Dialer]: the addresses of
    the remote name are tried in order, each attempt being a socket, its options,
    the [Control] callback and connect(2), and a failed attempt closes its socket.
    The operating system is any function from the calls made so far to the answer
    of the next one; name resolution and the interface table are parameters. *)

From S2P Require Import Prelude Netip.
Import Netip.

Module Dial.

(** ** System calls *)

Inductive family := AF_INET | AF_INET6.
#[export] Instance family_eq_dec : EqDecision family.
Proof. solve_decision. Defined.

Inductive call :=
| Socket (fam : family)
| Setsockopt (fd level opt value : Z)
| Connect (fd : Z) (addr : AddrPort)
| Close (fd : Z).

Definition IPPROTO_IP : Z := 0.
Definition IPPROTO_IPV6 : Z := 41.
Definition SOL_SOCKET : Z := 0xffff.
Definition SO_BROADCAST : Z := 0x20.
Definition IPV6_V6ONLY : Z := 27.
Definition ipBoundIf : Z := 0x19.
Definition ipv6BoundIf : Z := 0x7d.

(** The calls made and their answers: negative for an error, the descriptor for a
    socket, otherwise 0. *)
Definition trace := list (call * Z).
Definition system := trace → call → Z.

Inductive error :=
| ErrNoInterface | ErrInterface | ErrResolve | ErrSyscall (c : call) (errno : Z) | ErrMissingAddress
| ErrUnsupportedPlatform.

(** What the build provides for [bindToInterface]. *)
Inductive platform := Darwin | Other.

Section dial.
Variable sys : system.

(** One call; [None] for success. *)
Definition invoke (c : call) (tr : trace) : Z * trace := (sys tr c, tr ++ [(c, sys tr c)]).
Definition attempt (c : call) (tr : trace) : option error * trace :=
  let '(r, tr) := invoke c tr in
  (if r <? 0 then Some (ErrSyscall c (- r)) else None, tr).

(** ** pathdial_darwin.go, pathdial_other.go *)

Definition bindToInterface_other (fd : Z) (network : string) (ifIndex : Z) (tr : trace) : option error * trace :=
  (Some ErrUnsupportedPlatform, tr).

Definition bindToInterface (p : platform) (fd : Z) (network : string) (ifIndex : Z) (tr : trace) : option error * trace :=
  match p with
  | Other => bindToInterface_other fd network ifIndex tr
  | Darwin =>
      if bool_decide (network = "udp4" ∨ network = "tcp4" ∨ network = "ip4")%string then
        attempt (Setsockopt fd IPPROTO_IP ipBoundIf ifIndex) tr
      else if bool_decide (network = "udp6" ∨ network = "tcp6" ∨ network = "ip6")%string then
        attempt (Setsockopt fd IPPROTO_IPV6 ipv6BoundIf ifIndex) tr
      else
        match attempt (Setsockopt fd IPPROTO_IP ipBoundIf ifIndex) tr with
        | (Some e, tr) => (Some e, tr)
        | (None, tr) => attempt (Setsockopt fd IPPROTO_IPV6 ipv6BoundIf ifIndex) tr
        end
  end.

(** ** net.Dialer for the network "udp" *)

Definition control := Z → string → trace → option error * trace.

(** A socket is IPv4 for an IPv4 address, IPv4-mapped ones included. *)
Definition family_of (a : AddrPort) : family :=
  match apAddr a with
  | Addr6 n _ => if Z.shiftr n 32 =? 0xffff then AF_INET else AF_INET6
  | _ => AF_INET
  end.
Definition ctrlNetwork (fam : family) : string := match fam with AF_INET => "udp4" | AF_INET6 => "udp6" end.

(** The option of an IPv6 socket is set without looking at the answer. *)
Definition setDefaultSockopts (fd : Z) (fam : family) (tr : trace) : option error * trace :=
  let tr := match fam with AF_INET6 => (invoke (Setsockopt fd IPPROTO_IPV6 IPV6_V6ONLY 0) tr).2 | AF_INET => tr end in
  attempt (Setsockopt fd SOL_SOCKET SO_BROADCAST 1) tr.

(** Run the steps in order; the first error closes the socket. *)
Fixpoint steps (fd : Z) (ks : list (trace → option error * trace)) (tr : trace) : result error Z * trace :=
  match ks with
  | [] => (Ok fd, tr)
  | k :: ks =>
      match k tr with
      | (Some e, tr) => (Err e, (invoke (Close fd) tr).2)
      | (None, tr) => steps fd ks tr
      end
  end.

Definition dialSingle (ctrl : control) (a : AddrPort) (tr : trace) : result error Z * trace :=
  let fam := family_of a in
  let '(fd, tr) := invoke (Socket fam) tr in
  if fd <? 0 then (Err (ErrSyscall (Socket fam) (- fd)), tr) else
  steps fd [setDefaultSockopts fd fam; ctrl fd (ctrlNetwork fam); attempt (Connect fd a)] tr.

Fixpoint dialSerial (ctrl : control) (firstErr : option error) (ras : list AddrPort) (tr : trace) : result error Z * trace :=
  match ras with
  | [] => (Err (default ErrMissingAddress firstErr), tr)
  | ra :: ras =>
      match dialSingle ctrl ra tr with
      | (Ok fd, tr) => (Ok fd, tr)
      | (Err e, tr) => dialSerial ctrl (Some (default e firstErr)) ras tr
      end
  end.

(** ** pathdial.go *)

Record PathDialer := mkDialer { Interface : bytes }.

(** [interfaces] is [net.InterfaceByName], [resolve] the addresses of the remote
    name.  A connection of the network "udp" is a [*net.UDPConn]. *)
Definition DialUDP (p : platform) (interfaces : bytes → option Z) (resolve : bytes → option (list AddrPort))
    (d : PathDialer) (remote : bytes) (tr : trace) : result error Z * trace :=
  if decide (Interface d = []) then (Err ErrNoInterface, tr) else
  match interfaces (Interface d) with
  | None => (Err ErrInterface, tr)
  | Some ifIndex =>
      match resolve remote with
      | None => (Err ErrResolve, tr)
      | Some ras => dialSerial (λ fd network, bindToInterface p fd network ifIndex) None ras tr
      end
  end.

(** ** What a trace did *)

(** The descriptors open after the calls. *)
Definition opened (s : gset Z) (x : call * Z) : gset Z :=
  match x with
  | (Socket _, fd) => if fd <? 0 then s else {[fd]} ∪ s
  | (Close fd, _) => s ∖ {[fd]}
  | _ => s
  end.
Definition open_fds (tr : trace) : gset Z := foldl opened ∅ tr.

(** socket(2) gives a descriptor that is not open. *)
Definition fresh_sockets : Prop := ∀ tr fam, 0 ≤ sys tr (Socket fam) → sys tr (Socket fam) ∉ open_fds tr.

(** The call that pins a socket of the family to the interface. *)
Definition pins (fam : family) (fd idx : Z) : call :=
  match fam with
  | AF_INET => Setsockopt fd IPPROTO_IP ipBoundIf idx
  | AF_INET6 => Setsockopt fd IPPROTO_IPV6 ipv6BoundIf idx
  end.

(** Each connect(2) comes right after the successful pin of its socket. *)
Definition pinned_connects (idx : Z) (calls : trace) : Prop :=
  ∀ pre fd a r post, calls = pre ++ (Connect fd a, r) :: post →
    ∃ pre' r', pre = pre' ++ [(pins (family_of a) fd idx, r')] ∧ 0 ≤ r'.

Definition dialed (idx : Z) (ras : list AddrPort) (tr : trace) (r : result error Z) (tr' : trace) : Prop :=
  ∃ calls, tr' = tr ++ calls ∧ pinned_connects idx calls ∧
    match r with
    | Ok fd => (fd ∉ open_fds tr) ∧ open_fds tr' = {[fd]} ∪ open_fds tr ∧
        ∃ pre a ans, calls = pre ++ [(Connect fd a, ans)] ∧ 0 ≤ ans ∧ a ∈ ras
    | Err _ => open_fds tr' = open_fds tr
    end.

Lemma pinned_app idx l1 l2 : pinned_connects idx l1 → pinned_connects idx l2 → pinned_connects idx (l1 ++ l2).
Proof.
  intros P1 P2 pre fd a r post E. apply app_eq_app in E as (k & [[-> E]|[-> E]]).
  - destruct k as [|x k]; cbn in E.
    + destruct (P2 [] fd a r post (eq_sym E)) as (pre' & r' & ? & _). by destruct pre'.
    + injection E as <- ->. by apply (P1 pre fd a r k).
  - destruct (P2 k fd a r post E) as (pre' & r' & -> & Hr). exists (l1 ++ pre'), r'. by rewrite app_assoc.
Qed.

Definition no_connect (x : call * Z) : Prop := match x.1 with Connect _ _ => False | _ => True end.
Definition sets (fd : Z) (x : call * Z) : Prop := match x.1 with Setsockopt fd' _ _ _ => fd' = fd | _ => False end.

Lemma pinned_none idx l : Forall no_connect l → pinned_connects idx l.
Proof.
  intros Hl pre fd a r post ->. exfalso. by apply Forall_app in Hl as [_ [[] _]%Forall_cons].
Qed.

Lemma sets_no_connect fd l : Forall (sets fd) l → Forall no_connect l.
Proof. intros Hl. eapply Forall_impl; [exact Hl|]. by intros [[] ?]. Qed.

Lemma sets_open fd l s : Forall (sets fd) l → foldl opened s l = s.
Proof. intros Hl. revert s. induction Hl as [|[[] ?] l Hx _ IH]; intros s; try done. apply IH. Qed.

Lemma setDefaultSockopts_calls fd fam tr :
  ∃ e calls, setDefaultSockopts fd fam tr = (e, tr ++ calls) ∧ Forall (sets fd) calls.
Proof.
  unfold setDefaultSockopts, attempt, invoke. destruct fam; cbn; eexists _, _; (split; [f_equal; by rewrite <-?app_assoc|]);
    by repeat constructor.
Qed.

Lemma control_pins fd fam idx tr : bindToInterface Darwin fd (ctrlNetwork fam) idx tr = attempt (pins fam fd idx) tr.
Proof. by destruct fam. Qed.

(** The pin, connect(2) and what follows. *)
Lemma pinned_tail idx a fd r1 r2 post :
  0 ≤ r1 → Forall no_connect post → pinned_connects idx ((pins (family_of a) fd idx, r1) :: (Connect fd a, r2) :: post).
Proof.
  intros Hr Hpost [|x [|y pre]] fd' a' r post' E; simplify_eq/=; [by destruct (family_of a)| |].
  - by exists [], r1.
  - exfalso. by apply Forall_app in Hpost as [_ [[] _]%Forall_cons].
Qed.

(** The trace of an attempt: a socket, options, and the rest. *)
Lemma open_after tr fam fd cs post :
  0 ≤ fd → Forall (sets fd) cs →
  open_fds (((tr ++ [(Socket fam, fd)]) ++ cs) ++ post) = foldl opened ({[fd]} ∪ open_fds tr) post.
Proof.
  intros Hfd Hcs. unfold open_fds. rewrite !foldl_app. fold (open_fds tr). cbn [foldl opened].
  destruct (Z.ltb_spec fd 0); [lia|]. by rewrite (sets_open fd cs).
Qed.

Lemma pinned_after idx fam fd cs post :
  Forall (sets fd) cs → pinned_connects idx post → pinned_connects idx ([(Socket fam, fd)] ++ cs ++ post).
Proof.
  intros Hcs Hpost. rewrite app_assoc. apply pinned_app; [|done]. apply pinned_none.
  constructor; [done|]. by apply (sets_no_connect fd).
Qed.

Lemma attempt_failed idx ras tr fam fd cs post e :
  0 ≤ fd → fd ∉ open_fds tr → Forall (sets fd) cs → pinned_connects idx post →
  foldl opened ({[fd]} ∪ open_fds tr) post = ({[fd]} ∪ open_fds tr) ∖ {[fd]} →
  dialed idx ras tr (Err e) (((tr ++ [(Socket fam, fd)]) ++ cs) ++ post).
Proof.
  intros Hfd Hfresh Hcs Hpost Hf. exists ([(Socket fam, fd)] ++ cs ++ post). split; [by rewrite <-!app_assoc|].
  split; [by apply pinned_after|]. rewrite open_after, Hf by done. set_solver.
Qed.

Lemma dialSingle_spec p idx a tr r tr' :
  fresh_sockets →
  dialSingle (λ fd network, bindToInterface p fd network idx) a tr = (r, tr') → dialed idx [a] tr r tr'.
Proof.
  intros Hfresh. unfold dialSingle, invoke. specialize (Hfresh tr (family_of a)).
  set (fam := family_of a) in *. set (fd := sys tr (Socket fam)) in *.
  destruct (Z.ltb_spec fd 0) as [Hneg|Hpos].
  { intros [= <- <-]. eexists. split; [done|]. split; [by apply pinned_none; repeat constructor|].
    unfold open_fds. rewrite foldl_app. cbn. by destruct (Z.ltb_spec fd 0); [|lia]. }
  specialize (Hfresh Hpos). cbn [steps].
  destruct (setDefaultSockopts_calls fd fam (tr ++ [(Socket fam, fd)])) as (e & cs & -> & Hcs). clearbody fd.
  destruct e as [e|].
  { intros [= <- <-]. apply attempt_failed; try done. apply pinned_none. by repeat constructor. }
  destruct p.
  2: { intros [= <- <-]. apply attempt_failed; try done. apply pinned_none. by repeat constructor. }
  rewrite control_pins. unfold attempt, invoke. set (tr1 := (tr ++ _) ++ cs) in *. set (rp := sys tr1 (pins _ _ _)).
  destruct (Z.ltb_spec rp 0) as [|Hp].
  { intros [= <- <-]. cbn [snd]. rewrite <-app_assoc. apply attempt_failed; try done; [|by destruct fam].
    apply pinned_none. by destruct fam; repeat constructor. }
  set (tr2 := tr1 ++ _). set (rc := sys tr2 (Connect fd a)). destruct (Z.ltb_spec rc 0) as [|Hc]; intros [= <- <-]; cbn [snd].
  - unfold tr2. rewrite <-!(app_assoc tr1). apply attempt_failed; try done; [|by destruct fam].
    apply pinned_tail; [done|]. by repeat constructor.
  - unfold tr2. rewrite <-!(app_assoc tr1). exists ([(Socket fam, fd)] ++ cs ++ [(pins fam fd idx, rp); (Connect fd a, rc)]).
    split; [unfold tr1; by rewrite <-!app_assoc|]. split; [by apply pinned_after, pinned_tail|].
    split; [done|]. split; [unfold tr1; rewrite open_after by done; by destruct fam|].
    exists ([(Socket fam, fd)] ++ cs ++ [(pins fam fd idx, rp)]), a, rc.
    split; [by rewrite <-!app_assoc|]. split; [done|]. by apply list_elem_of_singleton.
Qed.

Lemma dialSerial_spec p idx firstErr ras tr r tr' :
  fresh_sockets →
  dialSerial (λ fd network, bindToInterface p fd network idx) firstErr ras tr = (r, tr') → dialed idx ras tr r tr'.
Proof.
  intros Hfresh. revert firstErr tr. induction ras as [|a ras IH]; intros firstErr tr; cbn [dialSerial].
  { intros [= <- <-]. exists []. rewrite app_nil_r. split; [done|]. split; [by apply pinned_none|done]. }
  destruct (dialSingle _ a tr) as [[fd|e] tr1] eqn:E; apply dialSingle_spec in E as (c1 & -> & P1 & H1); try done.
  - intros [= <- <-]. exists c1. split; [done|]. split; [done|]. destruct H1 as (? & ? & pre & a' & ans & -> & ? & Ha).
    split; [done|]. split; [done|]. exists pre, a', ans. set_solver.
  - intros (c2 & -> & P2 & H2)%IH. exists (c1 ++ c2). split; [by rewrite app_assoc|]. split; [by apply pinned_app|].
    destruct r as [fd|]; [|by rewrite H2]. destruct H2 as (Hn & Ho & pre & a' & ans & -> & ? & Ha). rewrite H1 in Hn, Ho.
    split; [done|]. split; [done|]. exists (c1 ++ pre), a', ans. rewrite <-app_assoc. set_solver.
Qed.

(** Elsewhere no socket is returned. *)
Lemma dialSerial_other idx firstErr ras tr fd tr' :
  dialSerial (λ fd network, bindToInterface Other fd network idx) firstErr ras tr ≠ (Ok fd, tr').
Proof.
  revert firstErr tr. induction ras as [|a ras IH]; intros firstErr tr; cbn [dialSerial]; [done|].
  destruct (dialSingle _ a tr) as [[fd'|e] tr1] eqn:E; [|apply IH]. exfalso. revert E. unfold dialSingle, invoke.
  destruct (_ <? 0); [done|]. cbn [steps]. by destruct (setDefaultSockopts _ _ _) as [[e|] tr2].
Qed.

(** ** Properties *)

(** C28: A path's socket leaves by its interface only.  On any operating system whose
    sockets are new descriptors, and for every name, address list and sequence of
    failures, [DialUDP] performs connect(2) only right after having pinned that
    socket to the interface called [Interface] with the option of the socket's
    family; when it succeeds, the socket it returns is the only new descriptor and
    its peer is an address of the remote name; when it fails, it leaves no socket
    open.  On a platform without the option it never succeeds. *)
Theorem dial_bound (p : platform) (interfaces : bytes → option Z) (resolve : bytes → option (list AddrPort))
    (d : PathDialer) (remote : bytes) (tr tr' : trace) (r : result error Z) :
  fresh_sockets →
  DialUDP p interfaces resolve d remote tr = (r, tr') →
  ∃ calls, tr' = tr ++ calls ∧
    (∀ pre fd a ans post, calls = pre ++ (Connect fd a, ans) :: post →
       ∃ idx pre' ans', interfaces (Interface d) = Some idx ∧
         pre = pre' ++ [(pins (family_of a) fd idx, ans')] ∧ 0 ≤ ans') ∧
    match r with
    | Ok fd => p = Darwin ∧ (fd ∉ open_fds tr) ∧ open_fds tr' = {[fd]} ∪ open_fds tr ∧
        ∃ pre a ans ras, calls = pre ++ [(Connect fd a, ans)] ∧ 0 ≤ ans ∧ resolve remote = Some ras ∧ a ∈ ras
    | Err _ => open_fds tr' = open_fds tr
    end.
Proof.
  intros Hfresh. unfold DialUDP.
  assert (∀ e, (Err e, tr) = (r, tr') → ∃ calls, tr' = tr ++ calls ∧ Forall no_connect calls ∧ (∃ e, r = Err e) ∧ tr' = tr) as Hearly.
  { intros e [= <- <-]. exists []. rewrite app_nil_r. by eauto. }
  assert (∀ P Q, (∃ calls, tr' = tr ++ calls ∧ Forall no_connect calls ∧ (∃ e, r = Err e) ∧ tr' = tr) →
     (∃ calls, tr' = tr ++ calls ∧ (∀ pre fd a ans post, calls = pre ++ (Connect fd a, ans) :: post → P pre fd a) ∧
       match r with Ok fd => Q fd calls | Err _ => open_fds tr' = open_fds tr end)) as Hnone.
  { intros P Q (calls & H1 & Hn & [e ->] & E). exists calls. split; [done|]. split; [|by rewrite E].
    intros pre fd a ans post ->. exfalso. by apply Forall_app in Hn as [_ [[] _]%Forall_cons]. }
  case_decide as Hname; [intros E; by eapply Hnone, Hearly|].
  destruct (interfaces (Interface d)) as [idx|]; [|intros E; by eapply Hnone, Hearly].
  destruct (resolve remote) as [ras|]; [|intros E; by eapply Hnone, Hearly].
  intros E. pose proof (dialSerial_spec p idx None ras tr r tr' Hfresh E) as (calls & Htr & Hp & Hr).
  exists calls. split; [done|]. split.
  { intros pre fd a ans post Ec. destruct (Hp _ _ _ _ _ Ec) as (pre' & ans' & ? & ?). by exists idx, pre', ans'. }
  destruct r as [fd|]; [|done]. destruct Hr as (? & ? & pre & a & ans & ? & ? & ?).
  split; [destruct p; [done|by apply dialSerial_other in E]|]. split; [done|]. split; [done|]. by exists pre, a, ans, ras.
Qed.

End dial.

Module Witness.

(** Descriptors in sequence; connect(2) to the first address fails. *)
Definition addr1 : AddrPort := mkAddrPort (Addr6 1 "") 51820.
Definition addr2 : AddrPort := mkAddrPort (Addr4 16909060) 51820.
Definition sys1 : system := λ tr c,
  match c with
  | Socket _ => fresh (open_fds tr)
  | Connect _ a => if decide (a = addr1) then -65 else 0
  | _ => 0
  end.

Lemma sys1_fresh : fresh_sockets sys1.
Proof. intros tr fam _. apply is_fresh. Qed.

Definition interfaces1 (n : bytes) : option Z := if decide (n = gs "en5") then Some 9 else None.

Lemma dial_bound_witness :
  ∃ fd tr', DialUDP sys1 Darwin interfaces1 (λ _, Some [addr1; addr2]) (mkDialer (gs "en5")) (gs "gw:51820") [] = (Ok fd, tr') ∧
    open_fds tr' = {[fd]}.
Proof.
  destruct (DialUDP sys1 Darwin interfaces1 (λ _, Some [addr1; addr2]) (mkDialer (gs "en5")) (gs "gw:51820") [])
    as [r tr'] eqn:E.
  destruct (dial_bound sys1 Darwin interfaces1 (λ _, Some [addr1; addr2]) (mkDialer (gs "en5")) (gs "gw:51820") [] tr' r sys1_fresh E)
    as (calls & _ & _ & H).
  destruct r as [fd|e].
  - exists fd, tr'. split; [done|]. destruct H as (_ & _ & H & _). rewrite H. set_solver.
  - exfalso. revert E. vm_compute. discriminate.
Defined.

End Witness.
End Dial.
