(* ===== verification/GoUnicode.v ===== *)
(** * UTF-8 and Unicode, as Go's [range], [unicode] and [utf8] see a string

    A rune is a code point; decoding an invalid byte yields [RuneError] and
    consumes that byte.  The character tables of package [unicode] are generated
    from the Unicode Character Database: they are the class [Unicode], and what
    the program relies on, their values on ASCII and on [RuneError], is the class
    [UnicodeLaws]. *)

From S2P Require Import Prelude.

Module Utf8.

Definition RuneError : Z := 0xFFFD.

Definition is_cont (b : byte) (lo hi : Z) : bool := (lo <=? b2z b) && (b2z b <=? hi).

(** The range of the second byte and the number of continuation bytes for a
    leading byte, as in the [first] table of [unicode/utf8]. *)
Definition lead (b : byte) : option (nat * Z * Z) :=
  let x := b2z b in
  if (0xC2 <=? x) && (x <=? 0xDF) then Some (1%nat, 0x80, 0xBF)
  else if x =? 0xE0 then Some (2%nat, 0xA0, 0xBF)
  else if x =? 0xED then Some (2%nat, 0x80, 0x9F)
  else if (0xE1 <=? x) && (x <=? 0xEF) then Some (2%nat, 0x80, 0xBF)
  else if x =? 0xF0 then Some (3%nat, 0x90, 0xBF)
  else if (0xF1 <=? x) && (x <=? 0xF3) then Some (3%nat, 0x80, 0xBF)
  else if x =? 0xF4 then Some (3%nat, 0x80, 0x8F)
  else None.

(** [utf8.DecodeRune] of a non-empty string: the rune and the bytes after it. *)
Definition decode_rune (b : byte) (s : bytes) : Z * bytes :=
  let x := b2z b in
  if x <? 0x80 then (x, s) else
  match lead b, s with
  | Some (1%nat, lo, hi), b1 :: s1 =>
      if is_cont b1 lo hi then (Z.land x 0x1F * 64 + Z.land (b2z b1) 0x3F, s1) else (RuneError, s)
  | Some (2%nat, lo, hi), b1 :: b2 :: s2 =>
      if is_cont b1 lo hi && is_cont b2 0x80 0xBF
      then (Z.land x 0x0F * 4096 + Z.land (b2z b1) 0x3F * 64 + Z.land (b2z b2) 0x3F, s2) else (RuneError, s)
  | Some (3%nat, lo, hi), b1 :: b2 :: b3 :: s3 =>
      if is_cont b1 lo hi && is_cont b2 0x80 0xBF && is_cont b3 0x80 0xBF
      then (Z.land x 0x07 * 262144 + Z.land (b2z b1) 0x3F * 4096 + Z.land (b2z b2) 0x3F * 64 + Z.land (b2z b3) 0x3F, s3)
      else (RuneError, s)
  | _, _ => (RuneError, s)
  end.

(** The runes of [for _, r := range s]; each consumes at least one byte. *)
Fixpoint runes_fuel (fuel : nat) (s : bytes) : list Z :=
  match fuel, s with
  | S k, b :: s => let '(r, rest) := decode_rune b s in r :: runes_fuel k rest
  | _, _ => []
  end.
Definition runes (s : bytes) : list Z := runes_fuel (length s) s.

(** [utf8.AppendRune]. *)
Definition encode_rune (r : Z) : bytes :=
  let r := if (r <? 0) || (r >? 0x10FFFF) || ((0xD800 <=? r) && (r <=? 0xDFFF)) then RuneError else r in
  if r <? 0x80 then [z2b r]
  else if r <? 0x800 then [z2b (0xC0 + Z.shiftr r 6); z2b (0x80 + Z.land r 0x3F)]
  else if r <? 0x10000 then
    [z2b (0xE0 + Z.shiftr r 12); z2b (0x80 + Z.land (Z.shiftr r 6) 0x3F); z2b (0x80 + Z.land r 0x3F)]
  else [z2b (0xF0 + Z.shiftr r 18); z2b (0x80 + Z.land (Z.shiftr r 12) 0x3F);
        z2b (0x80 + Z.land (Z.shiftr r 6) 0x3F); z2b (0x80 + Z.land r 0x3F)].

Definition is_ascii (b : byte) : Prop := b2z b < 0x80.

Lemma decode_ascii b s : is_ascii b → decode_rune b s = (b2z b, s).
Proof. intros Hb. unfold decode_rune, is_ascii in *. destruct (Z.ltb_spec (b2z b) 0x80); [done|lia]. Qed.

(** Decoding consumes input, so [length s] is enough fuel. *)
Lemma decode_rune_shorter b s : (length (decode_rune b s).2 ≤ length s)%nat.
Proof.
  unfold decode_rune. destruct (b2z b <? 0x80); [done|].
  destruct (lead b) as [[[[|[|[|[|n]]]] lo] hi]|]; try done; destruct s as [|b1 [|b2 [|b3 s]]]; try done;
    case_match; cbn; lia.
Qed.

Lemma runes_fuel_enough s fuel : (length s ≤ fuel)%nat → runes_fuel fuel s = runes s.
Proof.
  unfold runes. assert (∀ n s f1 f2, (length s ≤ n)%nat → (n ≤ f1)%nat → (n ≤ f2)%nat → runes_fuel f1 s = runes_fuel f2 s) as Hg.
  { induction n as [|n IH]; intros s' f1 f2 Hs H1 H2.
    - destruct s'; [by destruct f1, f2|cbn in Hs; lia].
    - destruct f1 as [|f1]; [lia|]. destruct f2 as [|f2]; [lia|]. destruct s' as [|b s']; [done|]. cbn.
      pose proof (decode_rune_shorter b s') as Hd. destruct (decode_rune b s') as [r rest]. f_equal.
      cbn in Hs, Hd. apply IH; lia. }
  intros Hf. by apply (Hg (length s)).
Qed.

Lemma runes_cons_ascii b s : is_ascii b → runes (b :: s) = b2z b :: runes s.
Proof. intros Hb. unfold runes. cbn. by rewrite decode_ascii. Qed.

Lemma runes_ascii s : Forall is_ascii s → runes s = b2z <$> s.
Proof. induction 1 as [|b s Hb _ IH]; [done|]. rewrite runes_cons_ascii by done. by rewrite IH. Qed.

Lemma encode_ascii b : is_ascii b → encode_rune (b2z b) = [b].
Proof.
  intros Hb. unfold is_ascii in Hb. pose proof (b2z_range b). unfold encode_rune.
  destruct (Z.ltb_spec (b2z b) 0); [lia|]. destruct (Z.gtb_spec (b2z b) 0x10FFFF); [lia|].
  destruct (Z.leb_spec 0xD800 (b2z b)); [lia|]. cbn [orb andb].
  destruct (Z.ltb_spec (b2z b) 0x80); [|lia]. by rewrite z2b_b2z.
Qed.

Lemma b2z_small r : 0 ≤ r < 0x80 → b2z (z2b r) = r.
Proof. intros Hr. rewrite b2z_z2b. apply Z.mod_small. lia. Qed.

Lemma small_ascii r : 0 ≤ r < 0x80 → is_ascii (z2b r).
Proof. intros Hr. unfold is_ascii. rewrite b2z_small; lia. Qed.

Lemma encode_small r : 0 ≤ r < 0x80 → encode_rune r = [z2b r].
Proof. intros Hr. rewrite <- (b2z_small r) at 1 by done. by apply encode_ascii, small_ascii. Qed.

(** ** Multi-byte runes *)

Definition high (b : byte) : Prop := 0x80 ≤ b2z b.

Lemma lead_range b n lo hi : lead b = Some (n, lo, hi) →
  (n = 1%nat ∧ 0xC2 ≤ b2z b ≤ 0xDF ∧ lo = 0x80 ∧ hi = 0xBF) ∨
  (n = 2%nat ∧ 0xE0 ≤ b2z b ≤ 0xEF ∧ 0x80 ≤ lo ∧ hi ≤ 0xBF ∧ (b2z b = 0xE0 → lo = 0xA0) ∧ (b2z b = 0xED → hi = 0x9F)) ∨
  (n = 3%nat ∧ 0xF0 ≤ b2z b ≤ 0xF4 ∧ 0x80 ≤ lo ∧ hi ≤ 0xBF ∧ (b2z b = 0xF0 → lo = 0x90) ∧ (b2z b = 0xF4 → hi = 0x8F)).
Proof.
  unfold lead. intros H.
  repeat match type of H with
  | (if ?c && ?d then _ else _) = _ => destruct (c && d) eqn:?
  | (if ?c then _ else _) = _ => destruct c eqn:?
  end; try done; injection H as <- <- <-;
  repeat match goal with
  | H : _ && _ = true |- _ => apply andb_true_iff in H as [? ?]
  | H : (_ <=? _) = true |- _ => apply Z.leb_le in H
  | H : (_ =? _) = true |- _ => apply Z.eqb_eq in H
  | H : (_ =? _) = false |- _ => apply Z.eqb_neq in H
  end; lia.
Qed.

Lemma is_cont_range b lo hi : is_cont b lo hi = true → lo ≤ b2z b ≤ hi.
Proof. unfold is_cont. rewrite andb_true_iff, !Z.leb_le. done. Qed.

(** Bytes from their values. *)
Lemma byte_is v b : v = b2z b → z2b v = b.
Proof. intros ->. apply z2b_b2z. Qed.

Local Ltac bits :=
  change 0x1F with (Z.ones 5) in *; change 0x0F with (Z.ones 4) in *; change 0x07 with (Z.ones 3) in *;
  change 0x3F with (Z.ones 6) in *; rewrite ?Z.shiftr_div_pow2, ?Z.land_ones in * by lia;
  change (2 ^ 5) with 32 in *; change (2 ^ 4) with 16 in *; change (2 ^ 3) with 8 in *; change (2 ^ 6) with 64 in *;
  change (2 ^ 12) with 4096 in *; change (2 ^ 18) with 262144 in *.

(** The payload of a byte of a sequence. *)
Lemma payload k a x : 0 < k → a mod k = 0 → a ≤ x < a + k → x mod k = x - a.
Proof. intros Hk Ha Hx. replace x with ((x - a) + a / k * k) at 1 by (pose proof (Z.div_mod a k); lia). rewrite Z.mod_add by lia. apply Z.mod_small. lia. Qed.

Local Ltac divide := Z.to_euclidean_division_equations; lia.

Lemma encode_two c b1 : 0xC2 ≤ b2z c ≤ 0xDF → 0x80 ≤ b2z b1 ≤ 0xBF →
  encode_rune (Z.land (b2z c) 0x1F * 64 + Z.land (b2z b1) 0x3F) = [c; b1].
Proof.
  intros Hc H1. unfold encode_rune. bits.
  rewrite (payload 32 0xC0 (b2z c)), (payload 64 0x80 (b2z b1)) by (done || lia).
  set (r := (b2z c - 0xC0) * 64 + (b2z b1 - 0x80)). assert (0x80 ≤ r < 0x800) by (unfold r; lia).
  destruct (Z.ltb_spec r 0); [lia|]. destruct (Z.gtb_spec r 0x10FFFF); [lia|]. destruct (Z.leb_spec 0xD800 r); [lia|].
  cbn [orb andb]. destruct (Z.ltb_spec r 0x80); [lia|]. destruct (Z.ltb_spec r 0x800); [|lia].
  f_equal; [|f_equal]; apply byte_is; unfold r; divide.
Qed.

Lemma encode_three c b1 b2 :
  0xE0 ≤ b2z c ≤ 0xEF → 0x80 ≤ b2z b1 ≤ 0xBF → 0x80 ≤ b2z b2 ≤ 0xBF →
  (b2z c = 0xE0 → 0xA0 ≤ b2z b1) → (b2z c = 0xED → b2z b1 ≤ 0x9F) →
  encode_rune (Z.land (b2z c) 0x0F * 4096 + Z.land (b2z b1) 0x3F * 64 + Z.land (b2z b2) 0x3F) = [c; b1; b2].
Proof.
  intros Hc H1 H2 Hlo Hhi. unfold encode_rune. bits.
  rewrite (payload 16 0xE0 (b2z c)), (payload 64 0x80 (b2z b1)), (payload 64 0x80 (b2z b2)) by (done || lia).
  set (r := (b2z c - 0xE0) * 4096 + (b2z b1 - 0x80) * 64 + (b2z b2 - 0x80)).
  assert (0x800 ≤ r < 0x10000 ∧ (r < 0xD800 ∨ 0xDFFF < r)) by (unfold r; lia).
  destruct (Z.ltb_spec r 0); [lia|]. destruct (Z.gtb_spec r 0x10FFFF); [lia|].
  assert ((0xD800 <=? r) && (r <=? 0xDFFF) = false) as -> by (destruct (Z.leb_spec 0xD800 r), (Z.leb_spec r 0xDFFF); lia).
  cbn [orb]. destruct (Z.ltb_spec r 0x80); [lia|]. destruct (Z.ltb_spec r 0x800); [lia|]. destruct (Z.ltb_spec r 0x10000); [|lia].
  f_equal; [|f_equal; [|f_equal]]; apply byte_is; unfold r; divide.
Qed.

Lemma encode_four c b1 b2 b3 :
  0xF0 ≤ b2z c ≤ 0xF4 → 0x80 ≤ b2z b1 ≤ 0xBF → 0x80 ≤ b2z b2 ≤ 0xBF → 0x80 ≤ b2z b3 ≤ 0xBF →
  (b2z c = 0xF0 → 0x90 ≤ b2z b1) → (b2z c = 0xF4 → b2z b1 ≤ 0x8F) →
  encode_rune (Z.land (b2z c) 0x07 * 262144 + Z.land (b2z b1) 0x3F * 4096 + Z.land (b2z b2) 0x3F * 64 + Z.land (b2z b3) 0x3F)
    = [c; b1; b2; b3].
Proof.
  intros Hc H1 H2 H3 Hlo Hhi. unfold encode_rune. bits.
  rewrite (payload 8 0xF0 (b2z c)), (payload 64 0x80 (b2z b1)), (payload 64 0x80 (b2z b2)), (payload 64 0x80 (b2z b3)) by (done || lia).
  set (r := (b2z c - 0xF0) * 262144 + (b2z b1 - 0x80) * 4096 + (b2z b2 - 0x80) * 64 + (b2z b3 - 0x80)).
  assert (0x10000 ≤ r ≤ 0x10FFFF) by (unfold r; lia).
  destruct (Z.ltb_spec r 0); [lia|]. destruct (Z.gtb_spec r 0x10FFFF); [lia|].
  destruct (Z.leb_spec 0xD800 r), (Z.leb_spec r 0xDFFF); try lia. cbn [orb andb].
  destruct (Z.ltb_spec r 0x80); [lia|]. destruct (Z.ltb_spec r 0x800); [lia|]. destruct (Z.ltb_spec r 0x10000); [lia|].
  f_equal; [|f_equal; [|f_equal; [|f_equal]]]; apply byte_is; unfold r; divide.
Qed.

(** A rune decoded from more than one byte is encoded by those bytes, whatever
    follows them. *)
Lemma decode_valid c s r rest :
  decode_rune c s = (r, rest) → high c → (length rest < length s)%nat →
  ∃ m, s = m ++ rest ∧ encode_rune r = c :: m ∧ Forall high m ∧ ∀ t, decode_rune c (m ++ t) = (r, t).
Proof.
  unfold decode_rune, high. intros Hd Hc Hl. destruct (Z.ltb_spec (b2z c) 0x80); [lia|].
  destruct (lead c) as [[[n lo] hi]|] eqn:Hlead; [|injection Hd as _ <-; lia].
  pose proof (lead_range _ _ _ _ Hlead) as [(-> & Hr)|[(-> & Hr)|(-> & Hr)]];
    destruct s as [|b1 s]; try (injection Hd as _ <-; cbn in Hl; lia).
  - destruct (is_cont b1 lo hi) eqn:H1; [|injection Hd as _ <-; lia]. apply is_cont_range in H1 as Hb.
    injection Hd as <- <-. exists [b1]. split_and!; [done|apply encode_two; lia|repeat constructor; lia|].
    intros t. cbn [app]. by rewrite H1.
  - destruct s as [|b2 s]; [injection Hd as _ <-; cbn in Hl; lia|].
    destruct (is_cont b1 lo hi && _) eqn:H1; [|injection Hd as _ <-; lia].
    pose proof H1 as [Hb1%is_cont_range Hb2%is_cont_range]%andb_true_iff.
    injection Hd as <- <-. exists [b1; b2]. split_and!; [done|apply encode_three; lia|repeat constructor; lia|].
    intros t. cbn [app]. by rewrite H1.
  - destruct s as [|b2 [|b3 s]]; try (injection Hd as _ <-; cbn in Hl; lia).
    destruct (is_cont b1 lo hi && _ && _) eqn:H1; [|injection Hd as _ <-; lia].
    pose proof H1 as [[Hb1%is_cont_range Hb2%is_cont_range]%andb_true_iff Hb3%is_cont_range]%andb_true_iff.
    injection Hd as <- <-. exists [b1; b2; b3]. split_and!; [done|apply encode_four; lia|repeat constructor; lia|].
    intros t. cbn [app]. by rewrite H1.
Qed.

Lemma decode_invalid c s r rest :
  decode_rune c s = (r, rest) → high c → length rest = length s → r = RuneError.
Proof.
  unfold decode_rune, high. intros Hd Hc Hl. destruct (Z.ltb_spec (b2z c) 0x80); [lia|].
  destruct (lead c) as [[[[|[|[|[|n]]]] lo] hi]|]; try (by injection Hd);
    destruct s as [|b1 [|b2 [|b3 s]]]; try (by injection Hd); case_match; injection Hd as <- <-; try done; cbn in Hl; lia.
Qed.

(** A string with every invalid byte replaced by [RuneError]. *)
Definition coerce (s : bytes) : bytes := concat (map encode_rune (runes s)).

Lemma coerce_cons c s : coerce (c :: s) = let '(r, rest) := decode_rune c s in encode_rune r ++ coerce rest.
Proof.
  unfold coerce, runes at 1. cbn [length runes_fuel]. pose proof (decode_rune_shorter c s) as Hd.
  destruct (decode_rune c s) as [r rest]. cbn [map concat snd] in *. by rewrite runes_fuel_enough.
Qed.

Lemma coerce_ascii s : Forall is_ascii s → coerce s = s.
Proof. induction 1 as [|c s Hc _ IH]; [done|]. rewrite coerce_cons, decode_ascii, encode_ascii by done. by rewrite IH. Qed.

End Utf8.

(** ** Character tables *)

Class Unicode := {
  is_letter : Z → bool;    (* unicode.IsLetter *)
  is_digit : Z → bool;     (* unicode.IsDigit *)
  to_lower : Z → Z         (* unicode.ToLower *)
}.

Definition ascii_upper (r : Z) : bool := (65 <=? r) && (r <=? 90).
Definition ascii_letter (r : Z) : bool := ascii_upper r || ((97 <=? r) && (r <=? 122)).
Definition ascii_digit (r : Z) : bool := (48 <=? r) && (r <=? 57).
Definition ascii_lower (r : Z) : Z := if ascii_upper r then r + 32 else r.

Class UnicodeLaws `{Unicode} : Prop := {
  letter_ascii r : 0 ≤ r < 0x80 → is_letter r = ascii_letter r;
  digit_ascii r : 0 ≤ r < 0x80 → is_digit r = ascii_digit r;
  lower_ascii r : 0 ≤ r < 0x80 → to_lower r = ascii_lower r;
  error_symbol : is_letter Utf8.RuneError = false ∧ is_digit Utf8.RuneError = false;
  error_lower : to_lower Utf8.RuneError = Utf8.RuneError
}.

Module ToyUnicode.
(** Only ASCII has letters and digits. *)
#[export] Instance ascii_only : Unicode := {| is_letter := ascii_letter; is_digit := ascii_digit; to_lower := ascii_lower |}.
#[export] Instance ascii_only_laws : UnicodeLaws.
Proof. by split. Qed.
End ToyUnicode.
