(* ===== verification/Paths.v ===== *)
(** * internal/paths/classifier.go: from interface observations to uplink roles

    [Classify] offers an interface as the uplink of a role only when it is the one
    usable interface of the role's kind; otherwise it reports the role missing or
    ambiguous. *)

From S2P Require Import Prelude.

Module Paths.

Inductive LinkKind := LinkKindUnknown | LinkKindWiFi | LinkKindAndroidUSBTether.
#[export] Instance LinkKind_eq : EqDecision LinkKind.
Proof. solve_decision. Defined.

Definition LinkKind_String (kind : LinkKind) : bytes :=
  match kind with
  | LinkKindWiFi => gs "wi-fi"
  | LinkKindAndroidUSBTether => gs "android-usb-tether"
  | LinkKindUnknown => gs "unknown"
  end.

Inductive Role := RoleWiFi | RoleAndroidUSBTether.
#[export] Instance Role_eq : EqDecision Role.
Proof. solve_decision. Defined.

Definition Role_String (role : Role) : bytes :=
  match role with
  | RoleWiFi => gs "wi-fi"
  | RoleAndroidUSBTether => gs "android-usb-tether"
  end.

Record Observation := mkObservation {
  ID : bytes; DisplayName : bytes; Kind : LinkKind;
  Up : bool; Running : bool; Loopback : bool; HasIPv4 : bool
}.

Definition Usable (o : Observation) : bool :=
  negb (bool_decide (ID o = [])) && Up o && Running o && negb (Loopback o) && HasIPv4 o.

Record Candidate := mkCandidate { cRole : Role; cObservation : Observation }.

Inductive IssueCode := IssueMissingCandidate | IssueAmbiguousCandidate.
Definition IssueCode_String (code : IssueCode) : bytes :=
  match code with
  | IssueMissingCandidate => gs "missing-candidate"
  | IssueAmbiguousCandidate => gs "ambiguous-candidate"
  end.

Record Issue := mkIssue { Code : IssueCode; iRole : Role; Count : Z }.

Record Classification := mkClassification { Candidates : list Candidate; Issues : list Issue }.

(** [Classification.Candidate]: the first candidate of the role. *)
Definition candidate (c : Classification) (role : Role) : option Candidate :=
  head (filter (λ x, cRole x = role) (Candidates c)).

Definition Complete (c : Classification) : bool :=
  bool_decide (Issues c = []) &&
  match candidate c RoleWiFi with Some _ => true | None => false end &&
  match candidate c RoleAndroidUSBTether with Some _ => true | None => false end.

Fixpoint matchingUsable (kind : LinkKind) (observations : list Observation) : list Observation :=
  match observations with
  | [] => []
  | o :: os => if bool_decide (Kind o = kind) && Usable o then o :: matchingUsable kind os else matchingUsable kind os
  end.

Definition classifyRole (result : Classification) (role : Role) (kind : LinkKind) (observations : list Observation)
  : Classification :=
  match matchingUsable kind observations with
  | [] => mkClassification (Candidates result) (Issues result ++ [mkIssue IssueMissingCandidate role 0])
  | [o] => mkClassification (Candidates result ++ [mkCandidate role o]) (Issues result)
  | matches => mkClassification (Candidates result)
                 (Issues result ++ [mkIssue IssueAmbiguousCandidate role (Z.of_nat (length matches))])
  end.

Definition Classify (observations : list Observation) : Classification :=
  let result := mkClassification [] [] in
  let result := classifyRole result RoleWiFi LinkKindWiFi observations in
  classifyRole result RoleAndroidUSBTether LinkKindAndroidUSBTether observations.

(** ** Specification *)

Definition kind_of (role : Role) : LinkKind :=
  match role with RoleWiFi => LinkKindWiFi | RoleAndroidUSBTether => LinkKindAndroidUSBTether end.

Definition fits (role : Role) (o : Observation) : Prop := Kind o = kind_of role ∧ Usable o = true.
#[export] Instance fits_dec role o : Decision (fits role o).
Proof. unfold fits. apply _. Defined.

(** [o] is the one usable interface for the role. *)
Definition the_one (role : Role) (os : list Observation) (o : Observation) : Prop :=
  ∃ before after, os = before ++ o :: after ∧ fits role o ∧
    Forall (λ x, ¬ fits role x) before ∧ Forall (λ x, ¬ fits role x) after.

Lemma matchingUsable_filter role os : matchingUsable (kind_of role) os = filter (fits role) os.
Proof.
  induction os as [|o os IH]; [done|]. cbn. rewrite IH. unfold fits. unfold filter. cbn.
  destruct (decide (Kind o = kind_of role ∧ Usable o = true)) as [[Hk Hu]|Hn].
  - by rewrite (bool_decide_eq_true_2 _ Hk), Hu.
  - destruct (bool_decide (Kind o = kind_of role)) eqn:Hk; [|done]. apply bool_decide_eq_true_1 in Hk.
    destruct (Usable o) eqn:Hu; [|done]. by destruct Hn.
Qed.

Lemma filter_none role os : filter (fits role) os = [] ↔ Forall (λ x, ¬ fits role x) os.
Proof.
  induction os as [|o os IH]; [done|]. rewrite filter_cons, Forall_cons.
  destruct (decide (fits role o)); [|naive_solver]. split; [done|naive_solver].
Qed.

Lemma filter_one role os o : filter (fits role) os = [o] ↔ the_one role os o.
Proof.
  split.
  - induction os as [|x os IH]; [done|]. rewrite filter_cons. case_decide as Hx.
    + intros [= -> Hn]. exists [], os. split_and!; [done|done|constructor|by apply filter_none].
    + intros (b & a & -> & Ho & Hb & Ha)%IH. exists (x :: b), a. split_and!; try done. by constructor.
  - intros (b & a & -> & Ho & Hb%filter_none & Ha%filter_none).
    by rewrite filter_app, filter_cons, decide_True, Hb, Ha.
Qed.

Lemma the_one_unique role os o o' : the_one role os o → the_one role os o' → o = o'.
Proof. intros H1%filter_one H2%filter_one. rewrite H1 in H2. by injection H2. Qed.

Lemma classifyRole_candidate c role role' os :
  candidate (classifyRole c role (kind_of role) os) role' =
  match candidate c role' with
  | Some x => Some x
  | None => if decide (role = role') then
              match filter (fits role) os with [o] => Some (mkCandidate role o) | _ => None end
            else None
  end.
Proof.
  unfold classifyRole, candidate. rewrite matchingUsable_filter.
  assert (∀ l x, head (filter (λ y, cRole y = role') (l ++ [x])) =
    match head (filter (λ y, cRole y = role') l) with
    | Some y => Some y | None => if decide (cRole x = role') then Some x else None end) as Hsnoc.
  { intros l x. rewrite filter_app, filter_cons. destruct (filter _ l); [|done]. cbn. by case_decide. }
  destruct (filter (fits role) os) as [|o [|o' r]]; cbn [Candidates]; try rewrite Hsnoc;
    destruct (head _); try done; by destruct (decide (role = role')).
Qed.

(** What [Classify] offers for a role. *)
Lemma Classify_candidate os role :
  candidate (Classify os) role = match filter (fits role) os with [o] => Some (mkCandidate role o) | _ => None end.
Proof.
  unfold Classify. rewrite (classifyRole_candidate _ RoleAndroidUSBTether), (classifyRole_candidate _ RoleWiFi).
  destruct role; cbn; [|done]. by destruct (filter _ os) as [|? [|? ?]].
Qed.

Lemma Classify_candidate_iff os role o :
  candidate (Classify os) role = Some (mkCandidate role o) ↔ the_one role os o.
Proof.
  rewrite Classify_candidate, <- filter_one. destruct (filter _ os) as [|x [|y r]]; naive_solver.
Qed.

Definition is_cand (c : Classification) (role : Role) : bool :=
  match candidate c role with Some _ => true | None => false end.

Lemma is_cand_iff os role : is_cand (Classify os) role = true ↔ ∃ o, the_one role os o.
Proof.
  unfold is_cand. rewrite Classify_candidate. setoid_rewrite <- filter_one.
  destruct (filter _ os) as [|x [|y r]]; naive_solver.
Qed.

(** The issue reported for a role, if any. *)
Definition issue_for (role : Role) (os : list Observation) : list Issue :=
  match filter (fits role) os with
  | [] => [mkIssue IssueMissingCandidate role 0]
  | [_] => []
  | l => [mkIssue IssueAmbiguousCandidate role (Z.of_nat (length l))]
  end.

Lemma Classify_issues os :
  Issues (Classify os) = issue_for RoleWiFi os ++ issue_for RoleAndroidUSBTether os.
Proof.
  unfold Classify, classifyRole, issue_for.
  rewrite (matchingUsable_filter RoleWiFi), (matchingUsable_filter RoleAndroidUSBTether).
  destruct (filter (fits RoleWiFi) os) as [|? [|? ?]];
    by destruct (filter (fits RoleAndroidUSBTether) os) as [|? [|? ?]].
Qed.

Lemma Classify_candidates os :
  Candidates (Classify os) =
  omap (λ role, candidate (Classify os) role) [RoleWiFi; RoleAndroidUSBTether].
Proof.
  cbn [omap list_omap]. rewrite !Classify_candidate. unfold Classify, classifyRole.
  rewrite (matchingUsable_filter RoleWiFi), (matchingUsable_filter RoleAndroidUSBTether).
  destruct (filter (fits RoleWiFi) os) as [|? [|? ?]];
    by destruct (filter (fits RoleAndroidUSBTether) os) as [|? [|? ?]].
Qed.

Lemma Classify_candidates_iff os role o : mkCandidate role o ∈ Candidates (Classify os) ↔ the_one role os o.
Proof.
  rewrite Classify_candidates, list_elem_of_omap. rewrite <- Classify_candidate_iff. split.
  - intros (r & _ & Hr). rewrite Classify_candidate in Hr.
    destruct (filter _ os) as [|x [|y l]] eqn:Hf; [done| |done]. injection Hr as -> ->.
    by rewrite Classify_candidate, Hf.
  - intros Hc. exists role. split; [|done]. destruct role; set_solver.
Qed.

Lemma Complete_iff os : Complete (Classify os) = true ↔ ∀ role, ∃ o, the_one role os o.
Proof.
  assert (Complete (Classify os) = is_cand (Classify os) RoleWiFi && is_cand (Classify os) RoleAndroidUSBTether) as ->.
  { unfold Complete, is_cand. rewrite Classify_issues, !Classify_candidate. unfold issue_for.
    destruct (filter (fits RoleWiFi) os) as [|? [|? ?]];
      by destruct (filter (fits RoleAndroidUSBTether) os) as [|? [|? ?]]. }
  rewrite andb_true_iff, !is_cand_iff. split; [by intros [? ?] []|]. intros H. split; apply H.
Qed.

(** ** Properties *)

(** The classification is exact for every list of observations.  An interface
    is the candidate of a role exactly when it is the only usable interface of the
    role's kind; an issue is reported for a role exactly when there is no such
    interface, missing when none is usable and ambiguous, with their number, when
    several are; and the classification is complete exactly when both roles have a
    candidate. *)
Theorem classification_exact (os : list Observation) :
  (∀ role o, mkCandidate role o ∈ Candidates (Classify os) ↔ the_one role os o) ∧
  (∀ role code n, mkIssue code role n ∈ Issues (Classify os) ↔
     let k := length (filter (fits role) os) in
     match code with
     | IssueMissingCandidate => k = 0%nat ∧ n = 0
     | IssueAmbiguousCandidate => (2 ≤ k)%nat ∧ n = Z.of_nat k
     end) ∧
  (Complete (Classify os) = true ↔ ∀ role, ∃ o, the_one role os o).
Proof.
  split; [|split; [|apply Complete_iff]].
  - intros role o. apply Classify_candidates_iff.
  - intros role code n. cbn zeta. rewrite Classify_issues, elem_of_app.
    assert (∀ r, mkIssue code role n ∈ issue_for r os ↔ r = role ∧
      let k := length (filter (fits role) os) in
      match code with
      | IssueMissingCandidate => k = 0%nat ∧ n = 0
      | IssueAmbiguousCandidate => (2 ≤ k)%nat ∧ n = Z.of_nat k
      end) as Hi.
    { intros r. cbn zeta. unfold issue_for. destruct (decide (r = role)) as [->|Hne].
      - destruct (filter (fits role) os) as [|x [|y l]]; cbn [length]; rewrite ?list_elem_of_singleton;
          destruct code; split; try (by intros ?%elem_of_nil); try intros [= ->];
          try (intros (_ & ? & ?); try lia; by subst); split_and!; try done; lia.
      - split; [|naive_solver]. destruct (filter (fits r) os) as [|x [|y l]];
          [intros ?%list_elem_of_singleton|intros ?%elem_of_nil|intros ?%list_elem_of_singleton]; naive_solver. }
    rewrite !Hi. destruct role; naive_solver.
Qed.

End Paths.
