(* ===== verification/Darwin.v ===== *)
(** * internal/platform/darwin: interface snapshots from live macOS evidence

    The collector ([CollectInterfaceSnapshots]), the evidence vocabulary
    ([LinkKindFromEvidence]), the two command sources (networksetup, ioreg) with
    their parsers, the USB function source and the macOS version.  The operating
    system is two arguments: what [net.Interfaces] lists and a command runner;
    running a command has no other effect, so a source is the outcome of its
    query.  The error texts are not modelled. *)

From S2P Require Import Prelude GoText GoUnicode Netip NetParse Paths.
Import Paths.

Module Darwin.

(** ** observations.go *)

Inductive EvidenceSource :=
| EvidenceSourceUnknown | EvidenceSourceBSDNetworkState | EvidenceSourceSystemConfiguration
| EvidenceSourceNetworkFramework | EvidenceSourceIORegistry.
#[export] Instance EvidenceSource_eq : EqDecision EvidenceSource.
Proof. solve_decision. Defined.

Definition EvidenceSource_String (source : EvidenceSource) : bytes :=
  match source with
  | EvidenceSourceBSDNetworkState => gs "bsd-network-state"
  | EvidenceSourceSystemConfiguration => gs "system-configuration"
  | EvidenceSourceNetworkFramework => gs "network-framework"
  | EvidenceSourceIORegistry => gs "io-registry"
  | EvidenceSourceUnknown => gs "unknown"
  end.

Record Evidence := mkEvidence { Source : EvidenceSource; Key : bytes; Value : bytes }.

Record InterfaceSnapshot := mkSnapshot {
  sBSDName : bytes; sDisplayName : bytes; sKind : LinkKind;
  sUp : bool; sRunning : bool; sLoopback : bool; sHasIPv4 : bool;
  sEvidence : list Evidence
}.

Definition EvidenceBySource (snapshot : InterfaceSnapshot) (source : EvidenceSource) : list Evidence :=
  filter (λ e, Source e = source) (sEvidence snapshot).

Definition observation (s : InterfaceSnapshot) : Observation :=
  mkObservation (sBSDName s) (sDisplayName s) (sKind s) (sUp s) (sRunning s) (sLoopback s) (sHasIPv4 s).

Definition ObservationsFromSnapshots (snapshots : list InterfaceSnapshot) : list Observation :=
  map observation snapshots.

(** ** evidence.go *)

Definition EvidenceKeyInterfaceType : bytes := gs "interface-type".
Definition EvidenceKeyUSBTransport : bytes := gs "usb-transport".
Definition EvidenceValueWiFi : bytes := gs "wifi".
Definition EvidenceValueAndroidRNDIS : bytes := gs "android-rndis".

Section evidence.
Context `{UN : Unicode}.

(** [strings.ToLower]. *)
Definition ToLower (s : bytes) : bytes := concat (map (λ r, Utf8.encode_rune (to_lower r)) (Utf8.runes s)).

Definition normaliseEvidenceToken (value : bytes) : bytes :=
  concat (map (λ r, if is_letter r || is_digit r then Utf8.encode_rune r else [])
              (Utf8.runes (ToLower (Strings.trim_space value)))).

Definition matchesEvidenceToken (value : bytes) (canonical : list bytes) : bool :=
  let got := normaliseEvidenceToken value in
  existsb (λ candidate, bool_decide (got = normaliseEvidenceToken candidate)) canonical.

Definition isWiFiEvidenceValue (value : bytes) : bool :=
  matchesEvidenceToken value [EvidenceValueWiFi; gs "ieee80211"; gs "airport"].

Definition isAndroidUSBTetherEvidenceValue (value : bytes) : bool :=
  matchesEvidenceToken value [EvidenceValueAndroidRNDIS; gs "android-usb-tether"; gs "android-usb-tethering"].

Definition hasWiFiEvidence (evidence : list Evidence) : bool :=
  existsb (λ item,
    match Source item with
    | EvidenceSourceNetworkFramework | EvidenceSourceSystemConfiguration =>
        matchesEvidenceToken (Key item) [EvidenceKeyInterfaceType] && isWiFiEvidenceValue (Value item)
    | _ => false
    end) evidence.

Definition hasAndroidUSBTetherEvidence (evidence : list Evidence) : bool :=
  existsb (λ item,
    if decide (Source item ≠ EvidenceSourceIORegistry) then false else
    matchesEvidenceToken (Key item) [EvidenceKeyUSBTransport; gs "device-kind"; gs "interface-association"] &&
    isAndroidUSBTetherEvidenceValue (Value item)) evidence.

Definition LinkKindFromEvidence (evidence : list Evidence) : LinkKind :=
  let wifi := hasWiFiEvidence evidence in
  let androidUSB := hasAndroidUSBTetherEvidence evidence in
  if wifi && negb androidUSB then LinkKindWiFi
  else if androidUSB && negb wifi then LinkKindAndroidUSBTether
  else LinkKindUnknown.

(** ** collector.go *)

Inductive error :=
| ErrNilInterfaceSource | ErrListInterfaces | ErrListAddresses (name : bytes) | ErrCommand (name : bytes).

(** [net.Flags]. *)
Definition FlagUp : Z := 1.
Definition FlagLoopback : Z := 4.
Definition FlagRunning : Z := 32.
Definition flag (flags bit : Z) : bool := negb (Z.land flags bit =? 0).

Record InterfaceRecord := mkRecord {
  rBSDName : bytes; rDisplayName : bytes; rFlags : Z; rAddressCIDRs : list bytes;
  rKind : LinkKind; rEvidence : list Evidence
}.

(** One entry of [net.Interfaces] with the answer of its [Addrs]. *)
Record net_interface := mkNetInterface { nName : bytes; nFlags : Z; nAddrs : option (list bytes) }.

Fixpoint net_records (interfaces : list net_interface) : result error (list InterfaceRecord) :=
  match interfaces with
  | [] => Ok []
  | i :: rest =>
      match nAddrs i with
      | None => Err (ErrListAddresses (nName i))
      | Some addrs =>
          match net_records rest with
          | Err e => Err e
          | Ok rs => Ok (mkRecord (nName i) [] (nFlags i) addrs LinkKindUnknown [] :: rs)
          end
      end
  end.
Definition NetInterfaces (listed : option (list net_interface)) : result error (list InterfaceRecord) :=
  match listed with None => Err ErrListInterfaces | Some interfaces => net_records interfaces end.

Definition boolEvidence (value : bool) : bytes := if value then gs "present" else gs "absent".

Definition networkStateEvidence (flags : Z) (hasIPv4 : bool) : list Evidence :=
  [mkEvidence EvidenceSourceBSDNetworkState (gs "flag-up") (boolEvidence (flag flags FlagUp));
   mkEvidence EvidenceSourceBSDNetworkState (gs "flag-running") (boolEvidence (flag flags FlagRunning));
   mkEvidence EvidenceSourceBSDNetworkState (gs "flag-loopback") (boolEvidence (flag flags FlagLoopback));
   mkEvidence EvidenceSourceBSDNetworkState (gs "ipv4") (boolEvidence hasIPv4)].

Definition hasIPv4CIDR (addressCIDRs : list bytes) : bool :=
  existsb (λ cidr,
    match (match NetParse.ParseCIDR cidr with Some ip => Some ip | None => NetParse.ParseIP cidr end) with
    | Some ip => NetParse.has_4 ip
    | None => false
    end) addressCIDRs.

Definition snapshotFromInterfaceRecord (r : InterfaceRecord) : InterfaceSnapshot :=
  let hasIPv4 := hasIPv4CIDR (rAddressCIDRs r) in
  let kind := if decide (rKind r = LinkKindUnknown) then LinkKindFromEvidence (rEvidence r) else rKind r in
  mkSnapshot (rBSDName r) (rDisplayName r) kind (flag (rFlags r) FlagUp) (flag (rFlags r) FlagRunning)
    (flag (rFlags r) FlagLoopback) hasIPv4 (networkStateEvidence (rFlags r) hasIPv4 ++ rEvidence r).

(** The source is the outcome of its [Interfaces] call, [None] the nil source. *)
Definition CollectInterfaceSnapshots (source : option (result error (list InterfaceRecord)))
  : result error (list InterfaceSnapshot) :=
  match source with
  | None => Err ErrNilInterfaceSource
  | Some (Err e) => Err e
  | Some (Ok records) => Ok (map snapshotFromInterfaceRecord records)
  end.

Definition LiveInterfaceSnapshots (listed : option (list net_interface)) : result error (list InterfaceSnapshot) :=
  CollectInterfaceSnapshots (Some (NetInterfaces listed)).

(** ** live_evidence.go: parsing networksetup *)

Record InterfaceEvidenceRecord := mkEvRecord { eBSDName : bytes; eEvidence : list Evidence }.

Definition isWiFiHardwarePort (value : bytes) : bool := isWiFiEvidenceValue value.

Definition wifi_record (bsdName : bytes) : InterfaceEvidenceRecord :=
  mkEvRecord bsdName [mkEvidence EvidenceSourceSystemConfiguration EvidenceKeyInterfaceType EvidenceValueWiFi].

(** The local [flush], on the port and device read so far. *)
Definition flush (hardwarePort bsdName : bytes) : list InterfaceEvidenceRecord :=
  if negb (bool_decide (bsdName = [])) && isWiFiHardwarePort hardwarePort then [wifi_record bsdName] else [].

Fixpoint port_lines (hardwarePort bsdName : bytes) (lines : list bytes) : list InterfaceEvidenceRecord :=
  match lines with
  | [] => flush hardwarePort bsdName
  | text :: lines =>
      let line := Strings.trim_space text in
      if decide (line = []) then flush hardwarePort bsdName ++ port_lines [] [] lines else
      match Strings.cut_prefix line (gs "Hardware Port:") with
      | Some value => flush hardwarePort bsdName ++ port_lines (Strings.trim_space value) [] lines
      | None =>
          match Strings.cut_prefix line (gs "Device:") with
          | Some value => port_lines hardwarePort (Strings.trim_space value) lines
          | None => port_lines hardwarePort bsdName lines
          end
      end
  end.
Definition parseNetworkSetupHardwarePorts (output : bytes) : list InterfaceEvidenceRecord :=
  port_lines [] [] (Bufio.scan_lines output).1.

(** ** live_evidence.go: parsing ioreg *)

Definition node_mark : bytes := gs "+-o ".

(** The lines of [splitIORegistryBlocks]'s loop, with the block being built. *)
Fixpoint block_lines (current : bytes) (lines : list bytes) : list bytes :=
  match lines with
  | [] => match current with [] => [] | _ => [current] end
  | line :: lines =>
      if Strings.contains line node_mark && negb (bool_decide (current = []))
      then current :: block_lines (line ++ [Bufio.newline]) lines
      else block_lines (current ++ line ++ [Bufio.newline]) lines
  end.
Definition splitIORegistryBlocks (output : bytes) : list bytes :=
  block_lines [] (Strings.split Bufio.newline output).

Definition quote : byte := z2b 34.

Fixpoint quoted_lines (prefix : bytes) (lines : list bytes) : bytes :=
  match lines with
  | [] => []
  | line :: lines =>
      match Strings.cut_prefix (Strings.trim_space line) prefix with
      | None => quoted_lines prefix lines
      | Some value => match Strings.cut quote value with Some (before, _) => before | None => quoted_lines prefix lines end
      end
  end.
Definition ioregQuotedProperty (block key : bytes) : bytes :=
  quoted_lines ([quote] ++ key ++ [quote] ++ gs " = " ++ [quote]) (Strings.split Bufio.newline block).

Definition blockHasAndroidUSBTetherEvidence (block : bytes) : bool :=
  let normalised := normaliseEvidenceToken block in
  Strings.contains normalised (gs "android") &&
  (Strings.contains normalised (gs "rndis") || Strings.contains normalised (gs "tether")).

Definition tether_record (bsdName : bytes) : InterfaceEvidenceRecord :=
  mkEvRecord bsdName [mkEvidence EvidenceSourceIORegistry EvidenceKeyUSBTransport EvidenceValueAndroidRNDIS].

Definition parseIORegistryEthernetInterfaces (output : bytes) : list InterfaceEvidenceRecord :=
  concat (map (λ block,
    let bsdName := ioregQuotedProperty block (gs "BSD Name") in
    if bool_decide (bsdName = []) || negb (blockHasAndroidUSBTetherEvidence block) then [] else [tether_record bsdName])
    (splitIORegistryBlocks output)).

(** ** live_evidence.go: the sources *)

(** [CommandRunner.RunCommand], [None] an error. *)
Definition CommandRunner := bytes → list bytes → option bytes.

Definition SystemConfigurationEvidence (runner : CommandRunner) : result error (list InterfaceEvidenceRecord) :=
  match runner (gs "networksetup") [gs "-listallhardwareports"] with
  | None => Err (ErrCommand (gs "networksetup"))
  | Some output => Ok (parseNetworkSetupHardwarePorts output)
  end.

Definition IORegistryEvidence (runner : CommandRunner) : result error (list InterfaceEvidenceRecord) :=
  match runner (gs "ioreg") [gs "-r"; gs "-c"; gs "IOEthernetInterface"; gs "-l"] with
  | None => Err (ErrCommand (gs "ioreg"))
  | Some output => Ok (parseIORegistryEthernetInterfaces output)
  end.

(** The outcomes of the state source and of the evidence sources; [None] is nil. *)
Record CombinedInterfaceSource := mkCombined {
  State : option (result error (list InterfaceRecord));
  EvidenceSources : list (option (result error (list InterfaceEvidenceRecord)))
}.

Definition add_evidence (m : gmap bytes (list Evidence)) (r : InterfaceEvidenceRecord) : gmap bytes (list Evidence) :=
  if decide (eBSDName r = []) then m else <[eBSDName r := default [] (m !! eBSDName r) ++ eEvidence r]> m.

Fixpoint gather (m : gmap bytes (list Evidence)) (sources : list (option (result error (list InterfaceEvidenceRecord))))
  : result error (gmap bytes (list Evidence)) :=
  match sources with
  | [] => Ok m
  | None :: sources => gather m sources
  | Some (Err e) :: _ => Err e
  | Some (Ok rs) :: sources => gather (foldl add_evidence m rs) sources
  end.

Definition CombinedInterfaces (source : CombinedInterfaceSource) : result error (list InterfaceRecord) :=
  match State source with
  | None => Err ErrNilInterfaceSource
  | Some (Err e) => Err e
  | Some (Ok records) =>
      match gather ∅ (EvidenceSources source) with
      | Err e => Err e
      | Ok evidenceByBSDName =>
          Ok (map (λ r, mkRecord (rBSDName r) (rDisplayName r) (rFlags r) (rAddressCIDRs r) (rKind r)
                          (rEvidence r ++ default [] (evidenceByBSDName !! rBSDName r))) records)
      end
  end.

Definition LiveEvidenceInterfaceSnapshots (listed : option (list net_interface)) (runner : CommandRunner)
  : result error (list InterfaceSnapshot) :=
  CollectInterfaceSnapshots (Some (CombinedInterfaces (mkCombined (Some (NetInterfaces listed))
    [Some (SystemConfigurationEvidence runner); Some (IORegistryEvidence runner)]))).

(** ** usb_functions.go *)

Definition usbClassWirelessController : Z := 224.
Definition usbSubclassRNDIS : Z := 1.
Definition usbProtocolRNDIS : Z := 3.

Record USBTetherFunction := mkUSBFunction { Transport : bytes; HostDriverClaimed : bool }.

(** The first line with the prefix decides; [None] if its value is not an integer. *)
Fixpoint int_lines (prefix : bytes) (lines : list bytes) : option Z :=
  match lines with
  | [] => None
  | line :: lines =>
      match Strings.cut_prefix (Strings.trim_space line) prefix with
      | None => int_lines prefix lines
      | Some value => Strconv.parse_int (Strings.trim_space value)
      end
  end.
Definition ioregIntProperty (block key : bytes) : option Z :=
  int_lines ([quote] ++ key ++ [quote] ++ gs " = ") (Strings.split Bufio.newline block).

Definition blockIsAndroidRNDISControl (block : bytes) : bool :=
  match ioregIntProperty block (gs "bInterfaceClass") with
  | None => false
  | Some class =>
      if negb (class =? usbClassWirelessController) then false else
      match ioregIntProperty block (gs "bInterfaceSubClass") with
      | None => false
      | Some subclass =>
          if negb (subclass =? usbSubclassRNDIS) then false else
          match ioregIntProperty block (gs "bInterfaceProtocol") with
          | None => false
          | Some protocol => protocol =? usbProtocolRNDIS
          end
      end
  end.

Definition parseUSBHostInterfaceFunctions (output : bytes) : list USBTetherFunction :=
  concat (map (λ block,
    if blockIsAndroidRNDISControl block then [mkUSBFunction EvidenceValueAndroidRNDIS false] else [])
    (splitIORegistryBlocks output)).

Definition TetherFunctions (runner : CommandRunner) : result error (list USBTetherFunction) :=
  match runner (gs "ioreg") [gs "-r"; gs "-c"; gs "IOUSBHostInterface"; gs "-l"] with
  | None => Err (ErrCommand (gs "ioreg"))
  | Some output => Ok (parseUSBHostInterfaceFunctions output)
  end.

(** ** macos_version.go *)

Definition MacOSProductVersion (runner : CommandRunner) : result error bytes :=
  match runner (gs "sw_vers") [gs "-productVersion"] with
  | None => Err (ErrCommand (gs "sw_vers"))
  | Some out => Ok (Strings.trim_space out)
  end.

End evidence.

(** ** Lemmas: the vocabulary *)

Definition ascii_token (s : bytes) : bytes :=
  concat (map (λ b, let r := ascii_lower (b2z b) in if ascii_letter r || ascii_digit r then [z2b r] else []) s).

Lemma ascii_lower_range r : 0 ≤ r < 0x80 → 0 ≤ ascii_lower r < 0x80.
Proof. unfold ascii_lower, ascii_upper. repeat case_cmp; cbn; lia. Qed.

Section facts.
Context `{UN : Unicode, UL : !UnicodeLaws}.

Lemma lower_byte b : Utf8.is_ascii b → 0 ≤ ascii_lower (b2z b) < 0x80.
Proof. intros Hb. pose proof (b2z_range b). unfold Utf8.is_ascii in Hb. apply ascii_lower_range. lia. Qed.

Lemma ToLower_ascii s : Forall Utf8.is_ascii s → ToLower s = map (λ b, z2b (ascii_lower (b2z b))) s.
Proof.
  intros Hs. unfold ToLower. rewrite Utf8.runes_ascii by done.
  induction Hs as [|b s Hb _ IH]; [done|]. cbn. rewrite IH. pose proof (b2z_range b).
  rewrite lower_ascii by (unfold Utf8.is_ascii in Hb; lia). by rewrite Utf8.encode_small by by apply lower_byte.
Qed.

Lemma normalise_ascii s :
  Forall Utf8.is_ascii s → Strings.trimmed s → normaliseEvidenceToken s = ascii_token s.
Proof.
  intros Hs Ht. unfold normaliseEvidenceToken. rewrite Ht, ToLower_ascii by done. rewrite Utf8.runes_ascii.
  2: { apply Forall_map. eapply Forall_impl; [done|]. intros b Hb. by apply Utf8.small_ascii, lower_byte. }
  unfold ascii_token. clear Ht. induction Hs as [|b s Hb _ IH]; [done|]. cbn. rewrite IH. f_equal.
  pose proof (lower_byte b Hb). rewrite Utf8.b2z_small, letter_ascii, digit_ascii by done.
  destruct (_ || _); [|done]. by apply Utf8.encode_small.
Qed.

Definition ascii_text (s : bytes) : Prop := Forall (λ b, b2z b < 0x80) s ∧ Strings.trim_space s = s.

Lemma matches_ascii value canonical :
  ascii_text value → Forall ascii_text canonical →
  matchesEvidenceToken value canonical = existsb (λ c, bool_decide (ascii_token value = ascii_token c)) canonical.
Proof.
  intros [Hv1 Hv2] Hc. unfold matchesEvidenceToken. rewrite normalise_ascii by done.
  induction Hc as [|c cs [Hc1 Hc2] _ IH]; [done|]. cbn. by rewrite IH, (normalise_ascii c).
Qed.

Lemma wifi_port_ascii name :
  ascii_text name → isWiFiHardwarePort name = bool_decide (ascii_token name ∈ [gs "wifi"; gs "ieee80211"; gs "airport"]).
Proof.
  intros Hn. unfold isWiFiHardwarePort, isWiFiEvidenceValue. rewrite matches_ascii; [|done|].
  2: { repeat (apply Forall_cons; split); try apply Forall_nil_2; apply (bool_decide_unpack _); vm_compute; exact I. }
  cbn [existsb]. replace (ascii_token EvidenceValueWiFi) with (gs "wifi") by by vm_compute.
  replace (ascii_token (gs "ieee80211")) with (gs "ieee80211") by by vm_compute.
  replace (ascii_token (gs "airport")) with (gs "airport") by by vm_compute.
  rewrite orb_false_r. repeat case_bool_decide; set_solver.
Qed.

End facts.

(** ** Lemmas: link kinds *)

(** The evidence the two command sources emit. *)
Definition wifi_evidence : Evidence :=
  mkEvidence EvidenceSourceSystemConfiguration EvidenceKeyInterfaceType EvidenceValueWiFi.
Definition tether_evidence : Evidence :=
  mkEvidence EvidenceSourceIORegistry EvidenceKeyUSBTransport EvidenceValueAndroidRNDIS.

Section kinds.
Context `{UN : Unicode}.

Lemma matches_itself value canonical : matchesEvidenceToken value (value :: canonical) = true.
Proof. unfold matchesEvidenceToken. cbn. by rewrite bool_decide_eq_true_2. Qed.

Definition emitted (e : Evidence) : Prop := e = wifi_evidence ∨ e = tether_evidence.

Lemma emitted_wifi l : Forall emitted l → hasWiFiEvidence l = true ↔ wifi_evidence ∈ l.
Proof.
  induction 1 as [|e l [->| ->] _ IH]; [set_solver| |]; unfold hasWiFiEvidence in *; cbn [existsb].
  - unfold wifi_evidence at 1, isWiFiEvidenceValue. cbn [Source Key Value]. rewrite !matches_itself. cbn.
    split; [intros _; by left|done].
  - cbn [Source tether_evidence]. rewrite orb_false_l, IH, elem_of_cons. split; [by right|by intros [[=]|]].
Qed.

Lemma emitted_tether l : Forall emitted l → hasAndroidUSBTetherEvidence l = true ↔ tether_evidence ∈ l.
Proof.
  induction 1 as [|e l [->| ->] _ IH]; [set_solver| |]; unfold hasAndroidUSBTetherEvidence in *; cbn [existsb].
  - rewrite decide_True by done. rewrite orb_false_l, IH, elem_of_cons. split; [by right|by intros [[=]|]].
  - rewrite decide_False by (intros H; by apply H). unfold tether_evidence at 1 2, isAndroidUSBTetherEvidenceValue.
    cbn [Source Key Value]. rewrite !matches_itself. cbn. split; [intros _; by left|done].
Qed.

Definition decide_kind (w t : bool) : LinkKind :=
  match w, t with true, false => LinkKindWiFi | false, true => LinkKindAndroidUSBTether | _, _ => LinkKindUnknown end.

Lemma emitted_kind l :
  Forall emitted l →
  (LinkKindFromEvidence l = LinkKindWiFi ↔ wifi_evidence ∈ l ∧ tether_evidence ∉ l) ∧
  (LinkKindFromEvidence l = LinkKindAndroidUSBTether ↔ tether_evidence ∈ l ∧ wifi_evidence ∉ l).
Proof.
  intros Hl. rewrite <- emitted_wifi, <- emitted_tether by done. unfold LinkKindFromEvidence.
  destruct (hasWiFiEvidence l), (hasAndroidUSBTetherEvidence l); cbn; naive_solver.
Qed.

(** ** Lemmas: the combined source *)

(** What a list of evidence records says of an interface. *)
Definition evidence_for (name : bytes) (rs : list InterfaceEvidenceRecord) : list Evidence :=
  concat (eEvidence <$> filter (λ r, eBSDName r = name ∧ name ≠ []) rs).

Lemma add_evidence_lookup name m rs :
  default [] (foldl add_evidence m rs !! name) = default [] (m !! name) ++ evidence_for name rs.
Proof.
  revert m. induction rs as [|r rs IH]; intros m; cbn [foldl].
  { unfold evidence_for. cbn. by rewrite app_nil_r. }
  rewrite IH. unfold evidence_for, add_evidence. rewrite filter_cons.
  destruct (decide (eBSDName r = [])) as [He|He].
  { rewrite decide_False by naive_solver. done. }
  destruct (decide (eBSDName r = name)) as [Hn|Hn].
  - subst name. rewrite decide_True by done. rewrite lookup_insert_eq. cbn. by rewrite app_assoc.
  - rewrite decide_False by naive_solver. by rewrite lookup_insert_ne.
Qed.

Lemma flush_names p d r : r ∈ flush p d → r = wifi_record (eBSDName r) ∧ eBSDName r ≠ [].
Proof.
  unfold flush. destruct (bool_decide (d = [])) eqn:Hd; cbn [negb andb]; [by intros ?%elem_of_nil|].
  apply bool_decide_eq_false_1 in Hd. destruct (isWiFiHardwarePort p); [|by intros ?%elem_of_nil].
  by intros ->%list_elem_of_singleton.
Qed.

Lemma port_lines_names p d lines r : r ∈ port_lines p d lines → r = wifi_record (eBSDName r) ∧ eBSDName r ≠ [].
Proof.
  revert p d. induction lines as [|text lines IH]; intros p d; cbn [port_lines]; [apply flush_names|].
  case_decide; [intros [?%flush_names|?%IH]%elem_of_app; done|].
  case_match; [intros [?%flush_names|?%IH]%elem_of_app; done|]. case_match; apply IH.
Qed.

Lemma tether_names output r :
  r ∈ parseIORegistryEthernetInterfaces output → r = tether_record (eBSDName r) ∧ eBSDName r ≠ [].
Proof.
  unfold parseIORegistryEthernetInterfaces. intros (l & (block & <- & _)%in_map_iff & Hl%list_elem_of_In)%list_elem_of_In%in_concat.
  revert Hl.
  case_bool_decide as Hn; cbn [orb]; [by intros ?%elem_of_nil|].
  destruct (blockHasAndroidUSBTetherEvidence block); cbn [negb]; [|by intros ?%elem_of_nil].
  by intros ->%list_elem_of_singleton.
Qed.

Lemma evidence_for_elem ev name rs x :
  (∀ r, r ∈ rs → r = mkEvRecord (eBSDName r) [ev] ∧ eBSDName r ≠ []) →
  x ∈ evidence_for name rs ↔ x = ev ∧ name ∈ eBSDName <$> rs.
Proof.
  intros Hrs. unfold evidence_for. induction rs as [|r rs IH]; [set_solver|].
  destruct (Hrs r ltac:(by left)) as [Hr Hne]. specialize (IH ltac:(intros; apply Hrs; by right)).
  rewrite fmap_cons, elem_of_cons, filter_cons. case_decide as Hd.
  - destruct Hd as [<- _]. rewrite fmap_cons. cbn [concat]. rewrite elem_of_app, IH, Hr. cbn. set_solver.
  - rewrite IH. naive_solver.
Qed.

Lemma net_records_spec interfaces :
  match net_records interfaces with
  | Err _ => ∃ i, i ∈ interfaces ∧ nAddrs i = None
  | Ok rs => Forall2 (λ i r, ∃ addrs, nAddrs i = Some addrs ∧
               r = mkRecord (nName i) [] (nFlags i) addrs LinkKindUnknown []) interfaces rs
  end.
Proof.
  induction interfaces as [|i rest IH]; cbn; [constructor|].
  destruct (nAddrs i) as [addrs|] eqn:Ha; [|exists i; split; [by left|done]].
  destruct (net_records rest) as [rs|e].
  - constructor; [by exists addrs|done].
  - destruct IH as (i' & Hin & Hn). exists i'. split; [by right|done].
Qed.

Definition networksetup_output (runner : CommandRunner) : option bytes :=
  runner (gs "networksetup") [gs "-listallhardwareports"].
Definition ioreg_output (runner : CommandRunner) : option bytes :=
  runner (gs "ioreg") [gs "-r"; gs "-c"; gs "IOEthernetInterface"; gs "-l"].

(** The interfaces the two commands name as Wi-Fi and as Android tethers. *)
Definition wifi_names (output : bytes) : list bytes := eBSDName <$> parseNetworkSetupHardwarePorts output.
Definition tether_names_of (output : bytes) : list bytes := eBSDName <$> parseIORegistryEthernetInterfaces output.

Lemma gathered_evidence ports tree name :
  default [] (foldl add_evidence (foldl add_evidence ∅ (parseNetworkSetupHardwarePorts ports))
    (parseIORegistryEthernetInterfaces tree) !! name) =
  evidence_for name (parseNetworkSetupHardwarePorts ports) ++ evidence_for name (parseIORegistryEthernetInterfaces tree).
Proof. by rewrite !add_evidence_lookup, lookup_empty. Qed.

Lemma gathered_kind ports tree name :
  let l := evidence_for name (parseNetworkSetupHardwarePorts ports) ++
           evidence_for name (parseIORegistryEthernetInterfaces tree) in
  (LinkKindFromEvidence l = LinkKindWiFi ↔ name ∈ wifi_names ports ∧ name ∉ tether_names_of tree) ∧
  (LinkKindFromEvidence l = LinkKindAndroidUSBTether ↔ name ∈ tether_names_of tree ∧ name ∉ wifi_names ports).
Proof.
  cbn zeta. assert (∀ x, x ∈ evidence_for name (parseNetworkSetupHardwarePorts ports) ↔
    x = wifi_evidence ∧ name ∈ wifi_names ports) as Hw.
  { intros x. apply evidence_for_elem. intros r. apply port_lines_names. }
  assert (∀ x, x ∈ evidence_for name (parseIORegistryEthernetInterfaces tree) ↔
    x = tether_evidence ∧ name ∈ tether_names_of tree) as Ht.
  { intros x. apply evidence_for_elem. intros r. apply tether_names. }
  edestruct emitted_kind as [H1 H2].
  2: { rewrite H1, H2, !elem_of_app, !Hw, !Ht. naive_solver. }
  apply Forall_forall. intros x [[-> _]%Hw|[-> _]%Ht]%elem_of_app; [by left|by right].
Qed.

(** The snapshot of a listed interface. *)
Record snapshot_of (ports tree : bytes) (i : net_interface) (s : InterfaceSnapshot) : Prop := {
  so_name : sBSDName s = nName i;
  so_up : sUp s = flag (nFlags i) FlagUp;
  so_running : sRunning s = flag (nFlags i) FlagRunning;
  so_loopback : sLoopback s = flag (nFlags i) FlagLoopback;
  so_addrs : ∃ addrs, nAddrs i = Some addrs ∧ sHasIPv4 s = hasIPv4CIDR addrs;
  so_wifi : sKind s = LinkKindWiFi ↔ nName i ∈ wifi_names ports ∧ nName i ∉ tether_names_of tree;
  so_tether : sKind s = LinkKindAndroidUSBTether ↔ nName i ∈ tether_names_of tree ∧ nName i ∉ wifi_names ports
}.

Lemma snapshot_of_record ports tree i addrs m :
  nAddrs i = Some addrs →
  m = foldl add_evidence (foldl add_evidence ∅ (parseNetworkSetupHardwarePorts ports)) (parseIORegistryEthernetInterfaces tree) →
  snapshot_of ports tree i (snapshotFromInterfaceRecord
    (mkRecord (nName i) [] (nFlags i) addrs LinkKindUnknown ([] ++ default [] (m !! nName i)))).
Proof.
  intros Ha ->. rewrite gathered_evidence. unfold snapshotFromInterfaceRecord. cbn [rKind rEvidence].
  rewrite decide_True by done. destruct (gathered_kind ports tree (nName i)) as [H1 H2].
  constructor; try done. by exists addrs.
Qed.

(** ** Lemmas: the hardware port listing *)

Definition text_of (lines : list bytes) : bytes := concat (map (λ l, l ++ [Bufio.newline]) lines).

(** An entry of [networksetup -listallhardwareports]. *)
Record port := mkPort { pName : bytes; pDevice : bytes; pAddress : bytes }.

Definition port_text (p : port) : list bytes :=
  [gs "Hardware Port:" ++ z2b 32 :: pName p; gs "Device:" ++ z2b 32 :: pDevice p;
   gs "Ethernet Address:" ++ z2b 32 :: pAddress p; []].
Definition listing (ps : list port) : bytes := text_of ([] :: concat (map port_text ps)).

(** A printed field: one short line without surrounding space. *)
Definition field_ok (s : bytes) : Prop :=
  s ≠ [] ∧ Strings.trimmed s ∧ (Bufio.newline ∉ s) ∧ (Bufio.carriage_return ∉ s) ∧ Z.of_nat (length s) < 65000.
Definition port_ok (p : port) : Prop := field_ok (pName p) ∧ field_ok (pDevice p) ∧ field_ok (pAddress p).

Lemma plain_label u s :
  Bufio.plain_line u → (length u < 100)%nat → field_ok s → Bufio.plain_line (u ++ z2b 32 :: s).
Proof.
  intros (Hn & Hc & _) Hu (_ & _ & Hn' & Hc' & Hl). unfold Bufio.plain_line.
  rewrite !not_elem_of_app, !not_elem_of_cons, length_app. cbn [length]. split_and!; try done; lia.
Qed.

Lemma label_plain (u : bytes) :
  u ∈ [gs "Hardware Port:"; gs "Device:"; gs "Ethernet Address:"] → Bufio.plain_line u ∧ (length u < 100)%nat.
Proof.
  intros Hu. assert (Forall (λ u, ((Bufio.newline ∉ u) ∧ (Bufio.carriage_return ∉ u) ∧ Z.of_nat (length u) < 65536) ∧
    (length u < 100)%nat) [gs "Hardware Port:"; gs "Device:"; gs "Ethernet Address:"]) as H
    by (apply (bool_decide_unpack _); vm_compute; exact I).
  rewrite Forall_forall in H. by apply H.
Qed.

Lemma port_text_plain p : port_ok p → Forall Bufio.plain_line (port_text p).
Proof.
  intros (H1 & H2 & H3). unfold port_text. repeat (apply Forall_cons; split); try apply Forall_nil_2.
  4: { split_and!; [set_solver|set_solver|done]. }
  all: apply plain_label; try done; apply label_plain; set_solver.
Qed.

Lemma trim_field u s :
  field_ok s → Strings.trim_left (u ++ z2b 32 :: s) = u ++ z2b 32 :: s →
  Strings.trim_space (u ++ z2b 32 :: s) = u ++ z2b 32 :: s.
Proof.
  intros (Hne & [_ Hr]%Strings.trimmed_ends & _) Hl. unfold Strings.trim_space. rewrite Hl.
  by apply Strings.trim_right_label.
Qed.

Lemma port_lines_port hw dev p lines :
  port_ok p →
  port_lines hw dev (port_text p ++ lines) = flush hw dev ++ flush (pName p) (pDevice p) ++ port_lines [] [] lines.
Proof.
  intros (H1 & H2 & H3). unfold port_text. cbn [app port_lines].
  rewrite !trim_field by done. rewrite !decide_False by done.
  rewrite (decide_True (P := Strings.trim_space [] = [])) by done.
  assert (∀ s, Strings.cut_prefix (gs "Hardware Port:" ++ z2b 32 :: s) (gs "Hardware Port:") = Some (z2b 32 :: s)) as -> by done.
  assert (∀ s, Strings.cut_prefix (gs "Device:" ++ z2b 32 :: s) (gs "Hardware Port:") = None) as -> by done.
  assert (∀ s, Strings.cut_prefix (gs "Device:" ++ z2b 32 :: s) (gs "Device:") = Some (z2b 32 :: s)) as -> by done.
  assert (∀ s, Strings.cut_prefix (gs "Ethernet Address:" ++ z2b 32 :: s) (gs "Hardware Port:") = None) as -> by done.
  assert (∀ s, Strings.cut_prefix (gs "Ethernet Address:" ++ z2b 32 :: s) (gs "Device:") = None) as -> by done.
  destruct H1 as (_ & H1 & _), H2 as (_ & H2 & _). by rewrite !Strings.trimmed_space.
Qed.

Lemma flush_port p :
  port_ok p → flush (pName p) (pDevice p) = if isWiFiHardwarePort (pName p) then [wifi_record (pDevice p)] else [].
Proof. intros (_ & (Hd & _) & _). unfold flush. by rewrite bool_decide_eq_false_2. Qed.

Lemma parse_listing ps :
  Forall port_ok ps →
  parseNetworkSetupHardwarePorts (listing ps) =
  (λ p, wifi_record (pDevice p)) <$> filter (λ p, isWiFiHardwarePort (pName p) = true) ps.
Proof.
  intros Hps. unfold parseNetworkSetupHardwarePorts, listing, text_of. rewrite Bufio.scan_lines_plain.
  2: { apply Forall_cons. split; [split_and!; [set_solver|set_solver|done]|].
       induction Hps as [|p ps Hp _ IH]; [constructor|]. cbn [map concat]. apply Forall_app. split; [by apply port_text_plain|done]. }
  cbn [fst port_lines]. rewrite decide_True by done.
  assert (∀ hw dev, port_lines hw dev (concat (map port_text ps)) = flush hw dev ++
    ((λ p, wifi_record (pDevice p)) <$> filter (λ p, isWiFiHardwarePort (pName p) = true) ps)) as Hg.
  2: { by rewrite Hg. }
  induction Hps as [|p ps Hp _ IH]; intros hw dev; [by rewrite app_nil_r|].
  cbn [map concat]. rewrite port_lines_port, IH, flush_port by done. rewrite filter_cons.
  destruct (isWiFiHardwarePort (pName p)); [by rewrite decide_True|by rewrite decide_False].
Qed.

(** ** Lemmas: the registry tree *)

(** The lines of the blocks: a marked line starts a new one. *)
Fixpoint block_groups (current : list bytes) (lines : list bytes) : list (list bytes) :=
  match lines with
  | [] => match current with [] => [] | _ => [current] end
  | line :: lines =>
      if Strings.contains line node_mark && negb (bool_decide (current = []))
      then current :: block_groups [line] lines
      else block_groups (current ++ [line]) lines
  end.

Lemma text_of_app l1 l2 : text_of (l1 ++ l2) = text_of l1 ++ text_of l2.
Proof. unfold text_of. by rewrite map_app, concat_app. Qed.

Lemma text_of_nil l : text_of l = [] ↔ l = [].
Proof. split; [|by intros ->]. destruct l as [|x l]; [done|]. unfold text_of. cbn. by destruct x. Qed.

Lemma block_lines_groups current lines :
  block_lines (text_of current) lines = text_of <$> block_groups current lines.
Proof.
  revert current. induction lines as [|line lines IH]; intros current; cbn [block_lines block_groups].
  - destruct current as [|x l]; [done|]. destruct (text_of (x :: l)) eqn:Ht; [|by rewrite <- Ht].
    by apply text_of_nil in Ht.
  - assert (line ++ [Bufio.newline] = text_of [line]) as Hl by (unfold text_of; cbn; by rewrite app_nil_r).
    assert (bool_decide (text_of current = []) = bool_decide (current = [])) as ->
      by (apply bool_decide_ext, text_of_nil).
    destruct (_ && _).
    + rewrite fmap_cons, <- IH, Hl. done.
    + rewrite <- IH, text_of_app, Hl. done.
Qed.

Lemma split_text_of lines :
  Forall (λ l, Bufio.newline ∉ l) lines → Strings.split Bufio.newline (text_of lines) = lines ++ [[]].
Proof.
  unfold text_of. induction 1 as [|l ls Hl _ IH]; [done|]. cbn [map concat]. rewrite <- app_assoc. cbn [app].
  rewrite Strings.split_app by done. by rewrite IH.
Qed.

Lemma block_groups_concat current lines : concat (block_groups current lines) = current ++ lines.
Proof.
  revert current. induction lines as [|line lines IH]; intros current; cbn [block_groups].
  - destruct current; [done|]. cbn. by rewrite !app_nil_r.
  - destruct (_ && _); cbn [concat]; rewrite IH; [done|]. by rewrite <- app_assoc.
Qed.

(** A group of lines that one mark starts. *)
Definition node_lines (g : list bytes) : Prop :=
  match g with
  | [] => False
  | header :: body => Strings.contains header node_mark = true ∧ Forall (λ l, Strings.contains l node_mark = false) body
  end.

Lemma block_groups_body current body lines :
  current ≠ [] → Forall (λ l, Strings.contains l node_mark = false) body →
  block_groups current (body ++ lines) = block_groups (current ++ body) lines.
Proof.
  intros Hc Hb. revert current Hc. induction Hb as [|l body Hl _ IH]; intros current Hc; cbn [app block_groups].
  - by rewrite app_nil_r.
  - rewrite Hl. cbn [andb]. rewrite IH by by destruct current. by rewrite <- app_assoc.
Qed.

Lemma block_groups_start g lines : node_lines g → block_groups [] (g ++ lines) = block_groups g lines.
Proof.
  destruct g as [|header body]; [done|]. intros [_ Hb]. cbn [app block_groups].
  rewrite bool_decide_eq_true_2, andb_false_r by done. cbn [app]. by rewrite block_groups_body.
Qed.

Lemma block_groups_next current g lines :
  current ≠ [] → node_lines g → block_groups current (g ++ lines) = current :: block_groups g lines.
Proof.
  intros Hc Hg. rewrite <- (block_groups_start g) by done. destruct g as [|header body]; [done|]. destruct Hg as [Hh _].
  cbn [app block_groups]. rewrite Hh, (bool_decide_eq_false_2 (current = [])) by done. done.
Qed.

(** Nodes printed one after the other split into those nodes; the empty piece
    after the last newline belongs to the last one. *)
Lemma block_groups_nodes g ns last :
  node_lines g → Forall node_lines ns → node_lines last →
  block_groups [] (g ++ concat ns ++ last ++ [[]]) = g :: ns ++ [last ++ [[]]].
Proof.
  intros Hg Hns Hl. rewrite block_groups_start by done. revert g Hg.
  induction Hns as [|n ns Hn _ IH]; intros g Hg; cbn [concat app].
  - rewrite block_groups_next by (done || by destruct g). by destruct last.
  - rewrite <- app_assoc, block_groups_next by (done || by destruct g). by rewrite IH.
Qed.

(** *** Printed properties *)

Definition indent : bytes := replicate 4 (z2b 32).
Definition prop_line (kv : bytes * bytes) : bytes :=
  indent ++ [quote] ++ kv.1 ++ [quote] ++ gs " =" ++ z2b 32 :: kv.2.

(** A node of the tree: the name after its mark, and its printed properties. *)
Record node := mkNode { nodeName : bytes; nodeProps : list (bytes * bytes) }.
Definition node_text (n : node) : list bytes := (gs "+-o" ++ z2b 32 :: nodeName n) :: map prop_line (nodeProps n).
Definition tree_text (ns : list node) : bytes := text_of (concat (map node_text ns)).

Definition word_ok (s : bytes) : Prop := s ≠ [] ∧ Strings.trimmed s ∧ Bufio.newline ∉ s.
Definition prop_ok (kv : bytes * bytes) : Prop :=
  (quote ∉ kv.1) ∧ (Bufio.newline ∉ kv.1) ∧ word_ok kv.2 ∧ Strings.contains (prop_line kv) node_mark = false.
Definition node_ok (n : node) : Prop := word_ok (nodeName n) ∧ Forall prop_ok (nodeProps n).

Lemma node_text_ok n : node_ok n → node_lines (node_text n) ∧ Forall (λ l, Bufio.newline ∉ l) (node_text n).
Proof.
  intros [(_ & _ & Hn) Hp]. unfold node_text. split.
  - split; [done|]. apply Forall_map. eapply Forall_impl; [done|]. by intros kv (_ & _ & _ & ?).
  - apply Forall_cons. split.
    + rewrite not_elem_of_app, not_elem_of_cons. split_and!; [|done|done]. apply (bool_decide_unpack _). vm_compute. exact I.
    + apply Forall_map. eapply Forall_impl; [done|]. intros [k v] (_ & Hk & (_ & _ & Hv) & _). cbn [fst snd] in *.
      unfold prop_line. cbn [fst snd]. rewrite !not_elem_of_app, !not_elem_of_cons.
      split_and!; try done; try apply not_elem_of_nil; apply (bool_decide_unpack _); vm_compute; exact I.
Qed.

Lemma trim_prop kv : prop_ok kv →
  Strings.trim_space (prop_line kv) = [quote] ++ kv.1 ++ [quote] ++ gs " =" ++ z2b 32 :: kv.2.
Proof.
  destruct kv as [k v]. intros (_ & _ & (Hne & [_ Hr]%Strings.trimmed_ends & _) & _). cbn [fst snd] in *.
  unfold Strings.trim_space.
  assert (Strings.trim_left (prop_line (k, v)) = [quote] ++ k ++ [quote] ++ gs " =" ++ z2b 32 :: v) as ->.
  { unfold prop_line. cbn [fst snd]. generalize (k ++ [quote] ++ gs " =" ++ z2b 32 :: v). intros s.
    unfold Strings.trim_left. done. }
  pose proof (Strings.trim_right_label ([quote] ++ k ++ [quote] ++ gs " =") v Hne Hr) as Ht.
  by rewrite <- !app_assoc in Ht.
Qed.

Lemma trim_header name : word_ok name → Strings.trim_space (gs "+-o" ++ z2b 32 :: name) = gs "+-o" ++ z2b 32 :: name.
Proof.
  intros (Hne & [_ Hr]%Strings.trimmed_ends & _). unfold Strings.trim_space.
  assert (Strings.trim_left (gs "+-o" ++ z2b 32 :: name) = gs "+-o" ++ z2b 32 :: name) as -> by done.
  by apply Strings.trim_right_label.
Qed.

Lemma is_prefix_quoted key k r s :
  quote ∉ key → quote ∉ k →
  Strings.is_prefix (key ++ quote :: r) (k ++ quote :: s) = bool_decide (key = k) && Strings.is_prefix r s.
Proof.
  revert k. induction key as [|b key IH]; intros [|c k] Hkey Hk; cbn [app Strings.is_prefix].
  - by rewrite !bool_decide_eq_true_2.
  - rewrite !bool_decide_eq_false_2; [done|done|]. intros <-. apply Hk. by left.
  - rewrite !bool_decide_eq_false_2; [done|done|]. intros ->. apply Hkey. by left.
  - rewrite IH by set_solver. rewrite andb_assoc. f_equal.
    destruct (decide (b = c)) as [->|Hbc]; [|].
    2: { rewrite (bool_decide_eq_false_2 (b = c)), (bool_decide_eq_false_2 (b :: key = c :: k)); [done|congruence|done]. }
    rewrite (bool_decide_eq_true_2 (c = c)) by done. cbn. apply bool_decide_ext. naive_solver.
Qed.

Definition int_prefix (key : bytes) : bytes := [quote] ++ key ++ [quote] ++ gs " = ".

Lemma cut_prop key kv :
  quote ∉ key → prop_ok kv →
  Strings.cut_prefix (Strings.trim_space (prop_line kv)) (int_prefix key) = if decide (kv.1 = key) then Some kv.2 else None.
Proof.
  intros Hkey Hok. rewrite trim_prop by done. destruct kv as [k v], Hok as (Hk & _). cbn [fst snd] in *.
  unfold Strings.cut_prefix, int_prefix. cbn [app Strings.is_prefix].
  rewrite (bool_decide_eq_true_2 (quote = quote)) by done. cbn [andb]. rewrite is_prefix_quoted by done.
  assert (Strings.is_prefix (gs " = ") (gs " =" ++ z2b 32 :: v) = true) as -> by done.
  rewrite andb_true_r. destruct (decide (k = key)) as [->|Hne].
  - rewrite bool_decide_eq_true_2 by done. f_equal.
    change (quote :: key ++ quote :: gs " = ") with (quote :: key ++ (quote :: gs " = ")).
    change (quote :: key ++ quote :: gs " =" ++ z2b 32 :: v) with ((quote :: key) ++ (quote :: gs " = ") ++ v).
    change (quote :: key ++ quote :: gs " = ") with ((quote :: key) ++ (quote :: gs " = ")).
    rewrite app_assoc. apply drop_app_length.
  - by rewrite bool_decide_eq_false_2 by naive_solver.
Qed.

(** The value of the first property with the key. *)
Fixpoint prop_value (key : bytes) (props : list (bytes * bytes)) : option bytes :=
  match props with
  | [] => None
  | (k, v) :: props => if decide (k = key) then Some v else prop_value key props
  end.
Definition int_prop (key : bytes) (n : node) : option Z := prop_value key (nodeProps n) ≫= Strconv.parse_int.

Lemma int_lines_node key n extra :
  quote ∉ key → node_ok n → Forall (λ l, l = []) extra →
  int_lines (int_prefix key) (node_text n ++ extra) = int_prop key n.
Proof.
  intros Hkey [Hn Hp] He. unfold node_text, int_prop. cbn [app int_lines]. rewrite trim_header by done.
  assert (Strings.cut_prefix (gs "+-o" ++ z2b 32 :: nodeName n) (int_prefix key) = None) as -> by done.
  induction Hp as [|[k v] props Hkv _ IH]; cbn [map app int_lines prop_value].
  - induction He as [|l extra -> _ IHe]; [done|]. cbn [int_lines].
    assert (Strings.cut_prefix (Strings.trim_space []) (int_prefix key) = None) as -> by done. done.
  - rewrite cut_prop by done. cbn [fst snd]. destruct (decide (k = key)); [|done]. cbn.
    destruct Hkv as (_ & _ & (_ & Ht & _) & _). cbn in Ht. by rewrite Ht.
Qed.

Definition is_rndis (n : node) : Prop :=
  int_prop (gs "bInterfaceClass") n = Some 224 ∧ int_prop (gs "bInterfaceSubClass") n = Some 1 ∧
  int_prop (gs "bInterfaceProtocol") n = Some 3.
#[export] Instance is_rndis_dec n : Decision (is_rndis n).
Proof. unfold is_rndis. apply _. Defined.

Lemma rndis_block n extra :
  node_ok n → Forall (λ l, l = []) extra →
  blockIsAndroidRNDISControl (text_of (node_text n ++ extra)) = bool_decide (is_rndis n).
Proof.
  intros Hn He. assert (∀ key, quote ∉ key → ioregIntProperty (text_of (node_text n ++ extra)) key = int_prop key n) as Hi.
  { intros key Hkey. unfold ioregIntProperty. rewrite split_text_of.
    - rewrite <- app_assoc. apply int_lines_node; [done|done|]. apply Forall_app. split; [done|by repeat constructor].
    - apply Forall_app. split; [by apply node_text_ok|]. eapply Forall_impl; [done|]. intros l ->. apply not_elem_of_nil. }
  unfold blockIsAndroidRNDISControl. rewrite !Hi by (apply (bool_decide_unpack _); vm_compute; exact I).
  apply eq_true_iff_eq. rewrite bool_decide_eq_true. unfold is_rndis, usbClassWirelessController, usbSubclassRNDIS, usbProtocolRNDIS.
  destruct (int_prop (gs "bInterfaceClass") n) as [c|]; [|naive_solver].
  destruct (Z.eqb_spec c 224); cbn [negb]; [|naive_solver].
  destruct (int_prop (gs "bInterfaceSubClass") n) as [s|]; [|naive_solver].
  destruct (Z.eqb_spec s 1); cbn [negb]; [|naive_solver].
  destruct (int_prop (gs "bInterfaceProtocol") n) as [q|]; [|naive_solver].
  rewrite Z.eqb_eq. naive_solver.
Qed.

Lemma tree_blocks ns n :
  Forall node_ok ns → node_ok n →
  splitIORegistryBlocks (tree_text (ns ++ [n])) =
  ((λ m, text_of (node_text m)) <$> ns) ++ [text_of (node_text n ++ [[]])].
Proof.
  intros Hns Hn. unfold splitIORegistryBlocks, tree_text.
  assert (Forall (λ m, node_lines (node_text m) ∧ Forall (λ l, Bufio.newline ∉ l) (node_text m)) (ns ++ [n])) as Hall.
  { apply Forall_app. split; [|by apply Forall_singleton, node_text_ok].
    eapply Forall_impl; [done|]. intros m Hm. by apply node_text_ok. }
  rewrite split_text_of.
  2: { induction Hall as [|m l [_ Hm] _ IH]; [constructor|]. cbn [map concat]. by apply Forall_app. }
  change (block_lines [] ?l) with (block_lines (text_of []) l). rewrite block_lines_groups.
  rewrite map_app, concat_app, <- app_assoc. cbn [map concat]. rewrite app_nil_r.
  destruct (node_text_ok n Hn) as [Hl _]. destruct Hns as [|m ns Hm Hns].
  - cbn [map concat app]. rewrite block_groups_start by done. by destruct (node_text n).
  - cbn [map concat]. rewrite <- app_assoc, block_groups_nodes; [|by apply node_text_ok| |done].
    + rewrite !fmap_cons, fmap_app. cbn [app]. f_equal. f_equal. by rewrite <- list_fmap_compose.
    + apply Forall_map. eapply Forall_impl; [done|]. intros k Hk. by apply node_text_ok.
Qed.

Lemma usb_functions_of ns :
  Forall node_ok ns →
  concat (map (λ block, if blockIsAndroidRNDISControl block then [mkUSBFunction EvidenceValueAndroidRNDIS false] else [])
    ((λ m, text_of (node_text m)) <$> ns)) =
  (λ _, mkUSBFunction EvidenceValueAndroidRNDIS false) <$> filter is_rndis ns.
Proof.
  induction 1 as [|n ns Hn _ IH]; [done|]. rewrite fmap_cons, filter_cons. cbn [map concat]. rewrite IH.
  rewrite <- (app_nil_r (node_text n)), rndis_block by done.
  case_bool_decide; [by rewrite decide_True|by rewrite decide_False].
Qed.

(** ** Properties *)

(** Live interface evidence, for every answer of the operating system.  The
    collection fails exactly when a query fails; otherwise there is one snapshot
    per listed interface, in order, with the flags and addresses the system
    reports, and its link kind is decided by the two commands alone: Wi-Fi exactly
    when networksetup names the interface as Wi-Fi and ioreg does not name it as an
    Android tether, a tether exactly in the opposite case, and unknown otherwise
    (the name itself never counts). *)
Theorem live_snapshots_exact (listed : option (list net_interface)) (runner : CommandRunner) :
  match LiveEvidenceInterfaceSnapshots listed runner with
  | Err _ => listed = None ∨ (∃ l i, listed = Some l ∧ i ∈ l ∧ nAddrs i = None) ∨
             networksetup_output runner = None ∨ ioreg_output runner = None
  | Ok snapshots => ∃ l ports tree, listed = Some l ∧ networksetup_output runner = Some ports ∧
             ioreg_output runner = Some tree ∧ Forall2 (snapshot_of ports tree) l snapshots
  end.
Proof.
  unfold LiveEvidenceInterfaceSnapshots, CombinedInterfaces. cbn [CollectInterfaceSnapshots State EvidenceSources].
  destruct listed as [l|]; cbn [NetInterfaces]; [|by left].
  pose proof (net_records_spec l) as Hl. destruct (net_records l) as [rs|e].
  2: { right. left. destruct Hl as (i & ? & ?). by exists l, i. }
  unfold SystemConfigurationEvidence, IORegistryEvidence, networksetup_output, ioreg_output.
  destruct (runner (gs "networksetup") _) as [ports|]; [|by right; right; left].
  destruct (runner (gs "ioreg") _) as [tree|]; [|by right; right; right].
  cbn [gather CollectInterfaceSnapshots]. exists l, ports, tree. split_and!; try done.
  rewrite map_map. apply Forall2_fmap_r. eapply Forall2_impl; [done|].
  intros i r (addrs & Ha & ->). by apply snapshot_of_record.
Qed.

(** The hardware port listing is read back exactly: of any listing networksetup
    prints, whose port names, devices and addresses are one-line fields without
    surrounding space, with ASCII port names, the devices of exactly those ports
    whose name is Wi-Fi, AirPort or IEEE80211 up to case and punctuation are
    recorded as Wi-Fi, in order. *)
Theorem hardware_ports_roundtrip `{!UnicodeLaws} (ps : list port) :
  Forall port_ok ps → Forall (λ p, ascii_text (pName p)) ps →
  wifi_names (listing ps) =
  pDevice <$> filter (λ p, ascii_token (pName p) ∈ [gs "wifi"; gs "ieee80211"; gs "airport"]) ps.
Proof.
  intros Hps Ha. unfold wifi_names. rewrite parse_listing by done. rewrite <- list_fmap_compose. clear Hps.
  induction Ha as [|p ps Hp _ IH]; [done|]. rewrite !filter_cons, wifi_port_ascii by done.
  case_bool_decide; [rewrite !decide_True by done|rewrite !decide_False by done]; by rewrite ?fmap_cons, IH.
Qed.

(** The USB functions are read back exactly: of the registry ioreg prints for
    any list of nodes, whose names, keys and values are one-line fields that do
    not contain the node mark, exactly one unclaimed Android RNDIS function is
    reported per node whose interface class, subclass and protocol are 224, 1 and
    3; no other text of the tree counts. *)
Theorem usb_functions_exact (ns : list node) :
  Forall node_ok ns →
  parseUSBHostInterfaceFunctions (tree_text ns) =
  (λ _, mkUSBFunction EvidenceValueAndroidRNDIS false) <$> filter is_rndis ns.
Proof.
  intros Hns. unfold parseUSBHostInterfaceFunctions. destruct ns as [|n ns _] using rev_ind; [done|].
  apply Forall_app in Hns as [Hns Hn]. rewrite Forall_singleton in Hn. rewrite tree_blocks by done.
  rewrite map_app, concat_app, usb_functions_of, filter_app, fmap_app by done. f_equal. cbn [map concat].
  rewrite rndis_block by (done || by repeat constructor). rewrite filter_cons.
  case_bool_decide; [by rewrite decide_True|by rewrite decide_False].
Qed.

End kinds.

(** ** Witnesses *)

Module Witness.
Import ToyUnicode.

Definition ps1 : list port :=
  [mkPort (gs "Ethernet Adaptor (en4)") (gs "en4") (gs "02:00:00:00:00:01");
   mkPort (gs "Wi-Fi") (gs "en0") (gs "02:00:00:00:00:02");
   mkPort (gs "Thunderbolt Bridge") (gs "bridge0") (gs "02:00:00:00:00:03")].

Lemma hardware_ports_roundtrip_witness : wifi_names (listing ps1) = [gs "en0"].
Proof.
  rewrite (hardware_ports_roundtrip ps1).
  - vm_compute. reflexivity.
  - unfold ps1, port_ok, field_ok, Strings.trimmed. apply (bool_decide_unpack _). vm_compute. exact I.
  - unfold ps1, ascii_text. apply (bool_decide_unpack _). vm_compute. exact I.
Defined.

Definition ns1 : list node :=
  [mkNode (gs "AppleUSBHub@1  <class IOUSBHostInterface>") [(gs "bInterfaceClass", gs "9"); (gs "bInterfaceSubClass", gs "0")];
   mkNode (gs "RNDIS Communications Control@0") [(gs "bInterfaceClass", gs "224"); (gs "bInterfaceSubClass", gs "1");
     (gs "bInterfaceProtocol", gs "3")]].

Lemma usb_functions_exact_witness :
  parseUSBHostInterfaceFunctions (tree_text ns1) = [mkUSBFunction (gs "android-rndis") false].
Proof.
  rewrite (usb_functions_exact ns1).
  - vm_compute. reflexivity.
  - unfold ns1, node_ok, prop_ok, word_ok, Strings.trimmed. apply (bool_decide_unpack _). vm_compute. exact I.
Defined.

End Witness.
End Darwin.
