(* ===== verification/Diagnostics.v ===== *)
(** * internal/diagnostics: the compatibility verdict and the evidence report

    compatibility.go ([BuildCompatibilityReport] and its texts) and
    darwin_evidence.go ([BuildDarwinEvidenceReport]), and the preflight command of
    cmd/geminactl that feeds them live evidence.  The JSON encoding of the reports
    is not modelled. *)

From S2P Require Import Prelude GoText GoUnicode Paths Darwin.
Import Paths.

Module Diagnostics.

(** ** compatibility.go *)

Definition CompatibilityReportType : bytes := gs "stage-1-compatibility".
Definition minMacOSMajor : Z := 11.

Inductive CompatibilityVerdict :=
| VerdictSupported | VerdictNeedsAndroid | VerdictNeedsWiFi | VerdictNeedsBoth | VerdictUnsupportedMacOS.
#[export] Instance verdict_eq : EqDecision CompatibilityVerdict.
Proof. solve_decision. Defined.

Definition verdict_text (v : CompatibilityVerdict) : bytes :=
  match v with
  | VerdictSupported => gs "supported"
  | VerdictNeedsAndroid => gs "needs-android"
  | VerdictNeedsWiFi => gs "needs-wifi"
  | VerdictNeedsBoth => gs "needs-both"
  | VerdictUnsupportedMacOS => gs "unsupported-macos"
  end.

Definition TetherModeNone : bytes := gs "none".
Definition TetherModeNativeNCM : bytes := gs "native-ncm".
Definition TetherModeAppDriverRNDIS : bytes := gs "app-driver-rndis".

Record AndroidTetherSupport := mkSupport { Present : bool; SUsable : bool; Mode : bytes }.

Record CompatibilityReport := mkReport {
  Type_ : bytes; Verdict : CompatibilityVerdict; Ready : bool; MacOSVersion : bytes; MacOSSupported : bool;
  WiFi : bool; AndroidTether : AndroidTetherSupport; NextStep : bytes
}.

Definition Summary (r : CompatibilityReport) : bytes := verdict_text (Verdict r) ++ gs ": " ++ NextStep r.

(** [strings.Join] with a newline. *)
Definition ShareReport (r : CompatibilityReport) : bytes :=
  Strings.join Bufio.newline
    [gs "Gemina VPN compatibility report (redacted — safe to share)";
     gs "  verdict:        " ++ verdict_text (Verdict r);
     gs "  macOS:          " ++ MacOSVersion r;
     gs "  android tether: " ++ Mode (AndroidTether r);
     gs "  --- you fill these in when submitting to the catalogue ---";
     gs "  phone model:    (e.g. OnePlus 12R, Pixel 8 — your call what to share)";
     gs "  notes:          "].

Definition androidTetherSupport (c : Classification) (fns : list Darwin.USBTetherFunction) : AndroidTetherSupport :=
  match candidate c RoleAndroidUSBTether with
  | Some _ => mkSupport true true TetherModeNativeNCM
  | None =>
      if existsb (λ fn, bool_decide (Darwin.Transport fn = Darwin.EvidenceValueAndroidRNDIS)) fns
      then mkSupport true false TetherModeAppDriverRNDIS
      else mkSupport false false TetherModeNone
  end.

Definition decideVerdict (macOSSupported wifi androidPresent : bool) : CompatibilityVerdict :=
  if negb macOSSupported then VerdictUnsupportedMacOS
  else if wifi && androidPresent then VerdictSupported
  else if wifi && negb androidPresent then VerdictNeedsAndroid
  else if negb wifi && androidPresent then VerdictNeedsWiFi
  else VerdictNeedsBoth.

Definition nextStep (v : CompatibilityVerdict) (macOSOK : bool) : bytes :=
  match v with
  | VerdictSupported => gs "You're good to go: Wi-Fi and an Android tether are both available."
  | VerdictNeedsAndroid => gs "Connect your Android phone by USB and turn on USB tethering."
  | VerdictNeedsWiFi => gs "Join a Wi-Fi network so there is a second path to bond with."
  | VerdictNeedsBoth => gs "Connect to Wi-Fi and plug in your Android phone with USB tethering on."
  | VerdictUnsupportedMacOS =>
      if negb macOSOK
      then gs "Could not determine your macOS version; this product needs macOS 11 (Big Sur) or later."
      else gs "Update macOS to 11 (Big Sur) or later to use this product."
  end.

(** [None] is [ok = false]. *)
Definition parseMacOSMajor (version : bytes) : option Z :=
  let version := Strings.trim_space version in
  if decide (version = []) then None else
  Strconv.parse_int (match Strings.cut "."%char version with Some (major, _) => major | None => version end).

Definition BuildCompatibilityReport (snapshots : list Darwin.InterfaceSnapshot) (fns : list Darwin.USBTetherFunction)
    (macOSVersion : bytes) : CompatibilityReport :=
  let classification := Classify (Darwin.ObservationsFromSnapshots snapshots) in
  let wifi := match candidate classification RoleWiFi with Some _ => true | None => false end in
  let tether := androidTetherSupport classification fns in
  let '(macOSMajor, macOSOK) := match parseMacOSMajor macOSVersion with Some n => (n, true) | None => (0, false) end in
  let macOSSupported := macOSOK && (macOSMajor >=? minMacOSMajor) in
  let verdict := decideVerdict macOSSupported wifi (Present tether) in
  mkReport CompatibilityReportType verdict (bool_decide (verdict = VerdictSupported)) macOSVersion macOSSupported
    wifi tether (nextStep verdict macOSOK).

(** ** darwin_evidence.go *)

Definition DarwinEvidenceReportType : bytes := gs "stage-1-darwin-evidence".
Definition IssueCodeTetherPresentNotUsable : bytes := gs "tether-present-not-usable".

Record DiagnosticDeviceFunction := mkFunction { fTransport : bytes; fHostDriverClaimed : bool; fUsable : bool }.
Record DiagnosticEvidence := mkDEvidence { dSource : bytes; dKey : bytes; dValue : bytes }.
Record DiagnosticInterface := mkInterface {
  iBSDName : bytes; iKind : bytes; iUsable : bool; iUp : bool; iRunning : bool; iLoopback : bool; iHasIPv4 : bool;
  iEvidence : list DiagnosticEvidence
}.
Record DiagnosticCandidate := mkDCandidate { dcRole : bytes; dcBSDName : bytes; dcKind : bytes }.
Record DiagnosticIssue := mkDIssue { diCode : bytes; diRole : bytes; diCount : Z }.

Record DarwinEvidenceReport := mkEvidenceReport {
  rType : bytes; rStage : bytes; rClaim : bytes; rClassificationStatus : bytes; rComplete : bool;
  rInterfaces : list DiagnosticInterface; rCandidates : list DiagnosticCandidate;
  rDeviceFunctions : list DiagnosticDeviceFunction; rIssues : list DiagnosticIssue
}.

Definition diagnosticDeviceFunctions (fns : list Darwin.USBTetherFunction) : list DiagnosticDeviceFunction :=
  map (λ fn, mkFunction (Darwin.Transport fn) (Darwin.HostDriverClaimed fn) (Darwin.HostDriverClaimed fn)) fns.

Definition roleForTransport (transport : bytes) : option Role :=
  if decide (transport = Darwin.EvidenceValueAndroidRNDIS) then Some RoleAndroidUSBTether else None.

Fixpoint deviceFunctionIssues (c : Classification) (fns : list Darwin.USBTetherFunction) : list DiagnosticIssue :=
  match fns with
  | [] => []
  | fn :: fns =>
      if Darwin.HostDriverClaimed fn then deviceFunctionIssues c fns else
      match roleForTransport (Darwin.Transport fn) with
      | None => deviceFunctionIssues c fns
      | Some role =>
          match candidate c role with
          | Some _ => deviceFunctionIssues c fns
          | None => mkDIssue IssueCodeTetherPresentNotUsable (Role_String role) 0 :: deviceFunctionIssues c fns
          end
      end
  end.

Definition diagnosticEvidence (evidence : list Darwin.Evidence) : list DiagnosticEvidence :=
  map (λ e, mkDEvidence (Darwin.EvidenceSource_String (Darwin.Source e)) (Darwin.Key e) (Darwin.Value e)) evidence.

Definition diagnosticInterfaces (snapshots : list Darwin.InterfaceSnapshot) : list DiagnosticInterface :=
  map (λ s, mkInterface (Darwin.sBSDName s) (LinkKind_String (Darwin.sKind s)) (Usable (Darwin.observation s))
              (Darwin.sUp s) (Darwin.sRunning s) (Darwin.sLoopback s) (Darwin.sHasIPv4 s)
              (diagnosticEvidence (Darwin.sEvidence s))) snapshots.

Definition diagnosticCandidates (cs : list Candidate) : list DiagnosticCandidate :=
  map (λ c, mkDCandidate (Role_String (cRole c)) (ID (cObservation c)) (LinkKind_String (Kind (cObservation c)))) cs.

Definition diagnosticIssues (issues : list Issue) : list DiagnosticIssue :=
  map (λ i, mkDIssue (IssueCode_String (Code i)) (Role_String (iRole i)) (Count i)) issues.

Definition BuildDarwinEvidenceReport (snapshots : list Darwin.InterfaceSnapshot) (fns : list Darwin.USBTetherFunction)
  : DarwinEvidenceReport :=
  let observations := Darwin.ObservationsFromSnapshots snapshots in
  let classification := Classify observations in
  let complete := Complete classification in
  let status := if complete then gs "complete" else gs "incomplete" in
  let issues := diagnosticIssues (Issues classification) ++ deviceFunctionIssues classification fns in
  mkEvidenceReport DarwinEvidenceReportType (gs "stage-1-probe") (gs "diagnostic-only-not-path-success") status complete
    (diagnosticInterfaces snapshots) (diagnosticCandidates (Candidates classification))
    (diagnosticDeviceFunctions fns) issues.

(** ** cmd/geminactl: the live reports *)

Section live.
Context `{UN : Unicode}.

(** [runDarwinEvidence], up to the encoding of the report. *)
Definition runDarwinEvidence (listed : option (list Darwin.net_interface)) (runner : Darwin.CommandRunner)
  : result Darwin.error DarwinEvidenceReport :=
  match Darwin.LiveEvidenceInterfaceSnapshots listed runner with
  | Err e => Err e
  | Ok snapshots =>
      match Darwin.TetherFunctions runner with
      | Err e => Err e
      | Ok fns => Ok (BuildDarwinEvidenceReport snapshots fns)
      end
  end.

(** [runPreflight] after its flags, up to the printing of the report. *)
Definition preflight (listed : option (list Darwin.net_interface)) (runner : Darwin.CommandRunner)
  : result Darwin.error CompatibilityReport :=
  match Darwin.LiveEvidenceInterfaceSnapshots listed runner with
  | Err e => Err e
  | Ok snapshots =>
      match Darwin.TetherFunctions runner with
      | Err e => Err e
      | Ok fns =>
          match Darwin.MacOSProductVersion runner with
          | Err e => Err e
          | Ok version => Ok (BuildCompatibilityReport snapshots fns version)
          end
      end
  end.

End live.

(** ** Lemmas *)

(** The uplinks of a Mac with these snapshots and USB functions. *)
Definition has_uplink (role : Role) (snapshots : list Darwin.InterfaceSnapshot) : Prop :=
  ∃ o, the_one role (Darwin.ObservationsFromSnapshots snapshots) o.
Definition has_rndis (fns : list Darwin.USBTetherFunction) : Prop :=
  ∃ fn, fn ∈ fns ∧ Darwin.Transport fn = Darwin.EvidenceValueAndroidRNDIS.
Definition macos_ok (version : bytes) : Prop := ∃ major, parseMacOSMajor version = Some major ∧ 11 ≤ major.

Lemma has_rndis_iff fns :
  existsb (λ fn, bool_decide (Darwin.Transport fn = Darwin.EvidenceValueAndroidRNDIS)) fns = true ↔ has_rndis fns.
Proof.
  rewrite existsb_exists. unfold has_rndis. setoid_rewrite list_elem_of_In. by setoid_rewrite bool_decide_eq_true.
Qed.

Lemma has_uplink_iff role snapshots :
  has_uplink role snapshots ↔ is_cand (Classify (Darwin.ObservationsFromSnapshots snapshots)) role = true.
Proof. unfold has_uplink. by rewrite is_cand_iff. Qed.

Lemma support_cases snapshots fns :
  let t := androidTetherSupport (Classify (Darwin.ObservationsFromSnapshots snapshots)) fns in
  (has_uplink RoleAndroidUSBTether snapshots ∧ t = mkSupport true true TetherModeNativeNCM) ∨
  (¬ has_uplink RoleAndroidUSBTether snapshots ∧ has_rndis fns ∧ t = mkSupport true false TetherModeAppDriverRNDIS) ∨
  (¬ has_uplink RoleAndroidUSBTether snapshots ∧ ¬ has_rndis fns ∧ t = mkSupport false false TetherModeNone).
Proof.
  cbn zeta. rewrite has_uplink_iff, <- has_rndis_iff. unfold androidTetherSupport, is_cand.
  destruct (candidate _ _); [by left|]. right. destruct (existsb _ _); [left|right]; naive_solver.
Qed.

Lemma macos_ok_iff version :
  (match parseMacOSMajor version with Some n => n >=? minMacOSMajor | None => false end) = true ↔ macos_ok version.
Proof.
  unfold macos_ok, minMacOSMajor. destruct (parseMacOSMajor version) as [n|]; [|naive_solver].
  rewrite Z.geb_le. naive_solver.
Qed.

Lemma device_issues_iff c fns i :
  i ∈ deviceFunctionIssues c fns ↔
  candidate c RoleAndroidUSBTether = None ∧
  ∃ fn, (fn ∈ fns ∧ Darwin.HostDriverClaimed fn = false ∧ Darwin.Transport fn = Darwin.EvidenceValueAndroidRNDIS) ∧
    i = mkDIssue IssueCodeTetherPresentNotUsable (Role_String RoleAndroidUSBTether) 0.
Proof.
  induction fns as [|fn fns IH]; [set_solver|]. cbn [deviceFunctionIssues].
  assert (i ∈ deviceFunctionIssues c fns → candidate c RoleAndroidUSBTether = None ∧
    ∃ fn', (fn' ∈ fn :: fns ∧ Darwin.HostDriverClaimed fn' = false ∧ Darwin.Transport fn' = Darwin.EvidenceValueAndroidRNDIS) ∧
      i = mkDIssue IssueCodeTetherPresentNotUsable (Role_String RoleAndroidUSBTether) 0) as Hkeep.
  { intros (Hn & fn' & (? & ? & ?) & ->)%IH. split; [done|]. exists fn'. split_and!; try done. by right. }
  unfold roleForTransport. destruct (Darwin.HostDriverClaimed fn) eqn:Hc; [|case_decide as Ht].
  1, 3: split; [done|]; intros (Hn & fn' & ([->|Hin]%elem_of_cons & H1 & H2) & ->); [congruence|]; apply IH; split; [done|]; by exists fn'.
  destruct (candidate c RoleAndroidUSBTether) eqn:Hn; [split; [done|by intros [? _]]|].
  rewrite elem_of_cons. split; [|intros (_ & fn' & _ & ->); by left].
  intros [->|Hi]; [|by apply Hkeep]. split; [done|]. exists fn. split_and!; try done. by left.
Qed.

Lemma the_one_kind role os o : the_one role os o → Kind o = kind_of role.
Proof. by intros (? & ? & _ & [? _] & _). Qed.

(** Counts fit the type of the field. *)
Definition counts_ok (r : DarwinEvidenceReport) : Prop :=
  Forall (λ i, is_i64 (diCount i)) (rIssues r).

Lemma issue_for_counts role os : Z.of_nat (length os) < 2 ^ 63 → Forall (λ i, is_i64 (Count i)) (issue_for role os).
Proof.
  intros Hl. unfold issue_for. pose proof (length_filter (fits role) os) as Hf.
  destruct (filter (fits role) os) as [|x [|y l]]; repeat constructor; unfold is_i64; cbn [Count length] in *; lia.
Qed.

Lemma report_counts snapshots fns :
  Z.of_nat (length snapshots) < 2 ^ 63 → counts_ok (BuildDarwinEvidenceReport snapshots fns).
Proof.
  intros Hl. unfold counts_ok, BuildDarwinEvidenceReport. cbn [rIssues]. apply Forall_app. split.
  - unfold diagnosticIssues. apply Forall_map. cbn [diCount]. rewrite Classify_issues.
    apply Forall_app. unfold Darwin.ObservationsFromSnapshots. split; apply issue_for_counts; by rewrite length_map.
  - induction fns as [|fn fns IH]; [done|]. cbn [deviceFunctionIssues]. repeat case_match; try done.
    by constructor.
Qed.

(** ** Properties *)

(** The verdict a Mac deserves. *)
Definition deserves (v : CompatibilityVerdict) (macos wifi tether : Prop) : Prop :=
  match v with
  | VerdictUnsupportedMacOS => ¬ macos
  | VerdictSupported => macos ∧ wifi ∧ tether
  | VerdictNeedsAndroid => macos ∧ wifi ∧ ¬ tether
  | VerdictNeedsWiFi => macos ∧ ¬ wifi ∧ tether
  | VerdictNeedsBoth => macos ∧ ¬ wifi ∧ ¬ tether
  end.

(** C40: The preflight verdict is exact: for every list of snapshots, USB functions
    and version string, the verdict is the one the evidence deserves, where Wi-Fi
    means that there is exactly one usable Wi-Fi interface, and a tether that there
    is exactly one usable tether interface or an RNDIS function on the bus;
    it is ready exactly when supported, and the tether is called usable without the
    app's driver exactly when macOS itself has the interface. *)
Theorem verdict_exact (snapshots : list Darwin.InterfaceSnapshot) (fns : list Darwin.USBTetherFunction) (version : bytes) :
  let r := BuildCompatibilityReport snapshots fns version in
  let wifi := has_uplink RoleWiFi snapshots in
  let tether := has_uplink RoleAndroidUSBTether snapshots ∨ has_rndis fns in
  (∀ v, Verdict r = v ↔ deserves v (macos_ok version) wifi tether) ∧
  (Ready r = true ↔ macos_ok version ∧ wifi ∧ tether) ∧
  (Present (AndroidTether r) = true ↔ tether) ∧
  (SUsable (AndroidTether r) = true ↔ has_uplink RoleAndroidUSBTether snapshots).
Proof.
  cbn zeta. unfold BuildCompatibilityReport. pose proof (macos_ok_iff version) as Hm.
  pose proof (has_uplink_iff RoleWiFi snapshots) as Hw. unfold is_cand in Hw.
  destruct (parseMacOSMajor version) as [n|]; cbn [Verdict Ready AndroidTether Present SUsable andb];
    rewrite bool_decide_eq_true;
    destruct (candidate (Classify (Darwin.ObservationsFromSnapshots snapshots)) RoleWiFi);
    destruct (support_cases snapshots fns) as [(Ht & ->)|[(Ht & Hr & ->)|(Ht & Hr & ->)]]; cbn [Present SUsable].
  all: try (destruct (n >=? minMacOSMajor)).
  all: cbn [decideVerdict negb andb].
  all: assert (true = true) as Htt by done; assert (¬ (false = true)) as Hft by done.
  all: split; [intros []; cbn [deserves]; split; try done; naive_solver|naive_solver].
Qed.

(** The evidence report is honest: whatever is on the USB bus, its candidates
    are the interfaces that are the only usable one of their kind; it is complete
    exactly when both roles have one; a function is shown usable only when a host
    driver claimed it; and it reports a tether present but not usable exactly when
    an unclaimed RNDIS function is present and no interface is the tether. *)
Theorem evidence_report_honest (snapshots : list Darwin.InterfaceSnapshot) (fns : list Darwin.USBTetherFunction) :
  let r := BuildDarwinEvidenceReport snapshots fns in
  let observations := Darwin.ObservationsFromSnapshots snapshots in
  (∀ c, c ∈ rCandidates r ↔ ∃ role o, the_one role observations o ∧
     c = mkDCandidate (Role_String role) (ID o) (LinkKind_String (kind_of role))) ∧
  (rComplete r = true ↔ ∀ role, has_uplink role snapshots) ∧
  (∀ f, f ∈ rDeviceFunctions r → fUsable f = fHostDriverClaimed f) ∧
  ((∃ i, i ∈ rIssues r ∧ diCode i = IssueCodeTetherPresentNotUsable) ↔
     ¬ has_uplink RoleAndroidUSBTether snapshots ∧
     ∃ fn, fn ∈ fns ∧ Darwin.HostDriverClaimed fn = false ∧ Darwin.Transport fn = Darwin.EvidenceValueAndroidRNDIS).
Proof.
  cbn zeta. cbn [BuildDarwinEvidenceReport rCandidates rComplete rDeviceFunctions rIssues]. split_and!.
  - intros c. unfold diagnosticCandidates. rewrite list_elem_of_fmap. split.
    + intros ([role o] & -> & Ho%Classify_candidates_iff). exists role, o. split; [done|]. cbn.
      by rewrite (the_one_kind _ _ _ Ho).
    + intros (role & o & Ho & ->). exists (mkCandidate role o). split; [|by apply Classify_candidates_iff].
      cbn. by rewrite (the_one_kind _ _ _ Ho).
  - apply Complete_iff.
  - intros f (fn & -> & _)%list_elem_of_fmap. done.
  - rewrite has_uplink_iff. unfold is_cand. split.
    + intros (i & [(x & -> & _)%list_elem_of_fmap|Hi]%elem_of_app & Hc); [by destruct (Code x)|].
      apply device_issues_iff in Hi as (Hn & fn & Hfn & _). rewrite Hn. split; [done|by exists fn].
    + intros (Hn & fn & Hfn). exists (mkDIssue IssueCodeTetherPresentNotUsable (Role_String RoleAndroidUSBTether) 0).
      split; [|done]. apply elem_of_app. right. apply device_issues_iff. split; [by destruct (candidate _ _)|by exists fn].
Qed.

End Diagnostics.
