(* ===== verification/Json.v ===== *)
(** * encoding/json, as [json.Unmarshal] reads a document

    The value grammar of the scanner, with its whitespace, escapes, surrogate
    pairs, replacement of invalid UTF-8 and nesting limit, and the folding of
    object keys onto the (ASCII) names of struct fields.  A syntax error is
    [None].  [print_at] is a printer over its escaping and its whitespace, and
    [parse_print_at] the round trip of every such printer; [parse_print] is that of
    the compact one.  [parse_value_fuel] shows that the parser's fuel never runs
    out. *)

From S2P Require Import Prelude GoText GoUnicode.

Module Json.

Inductive json :=
| JNull
| JBool (b : bool)
| JNumber (literal : bytes)
| JString (s : bytes)
| JArray (l : list json)
| JObject (l : list (bytes * json)).

Definition quote : byte := z2b 34.
Definition backslash : byte := z2b 92.
Definition maxNestingDepth : nat := Z.to_nat 10000.

(** ** Scanning *)

Definition is_space (c : byte) : bool := bool_decide (c ∈ map z2b [32; 9; 13; 10]).

Fixpoint skip_ws (s : bytes) : bytes :=
  match s with
  | c :: s' => if is_space c then skip_ws s' else s
  | [] => []
  end.

Definition hex_val (c : byte) : option Z := Hex.nibble c.
Definition hex4 (a b c d : byte) : option Z :=
  match hex_val a, hex_val b, hex_val c, hex_val d with
  | Some a, Some b, Some c, Some d => Some (a * 4096 + b * 256 + c * 16 + d)
  | _, _, _, _ => None
  end.

Definition simple_escape (c : byte) : option Z :=
  match b2z c with
  | 34 => Some 34 | 92 => Some 92 | 47 => Some 47      (* quote, backslash, slash *)
  | 98 => Some 8 | 102 => Some 12 | 110 => Some 10 | 114 => Some 13 | 116 => Some 9
  | _ => None
  end.

(** The raw text of a string literal after its opening quote, and what follows
    the closing one. *)
Fixpoint scan_string (s : bytes) : option (bytes * bytes) :=
  match s with
  | [] => None
  | c :: s =>
      if decide (c = quote) then Some ([], s)
      else if decide (c = backslash) then
        match s with
        | [] => None
        | e :: s =>
            if decide (e = z2b 117) then
              match s with
              | h1 :: h2 :: h3 :: h4 :: s =>
                  match hex4 h1 h2 h3 h4, scan_string s with
                  | Some _, Some (raw, rest) => Some (c :: e :: h1 :: h2 :: h3 :: h4 :: raw, rest)
                  | _, _ => None
                  end
              | _ => None
              end
            else
              match simple_escape e, scan_string s with
              | Some _, Some (raw, rest) => Some (c :: e :: raw, rest)
              | _, _ => None
              end
        end
      else if b2z c <? 0x20 then None
      else match scan_string s with Some (raw, rest) => Some (c :: raw, rest) | None => None end
  end.

(** [getu4]: the code unit of a [\uXXXX] at the start of the text. *)
Definition getu4 (s : bytes) : option (Z * bytes) :=
  match s with
  | c :: e :: h1 :: h2 :: h3 :: h4 :: s =>
      if decide (c = backslash ∧ e = z2b 117) then
        match hex4 h1 h2 h3 h4 with Some r => Some (r, s) | None => None end
      else None
  | _ => None
  end.

Definition is_surrogate (r : Z) : bool := (0xD800 <=? r) && (r <? 0xE000).
(** [utf16.DecodeRune]. *)
Definition pair_rune (r1 r2 : Z) : option Z :=
  if (0xD800 <=? r1) && (r1 <? 0xDC00) && (0xDC00 <=? r2) && (r2 <? 0xE000)
  then Some ((r1 - 0xD800) * 1024 + (r2 - 0xDC00) + 0x10000) else None.

(** [unquote]: escapes replaced, invalid UTF-8 and lone surrogates coerced to
    [RuneError].  Each step consumes input, so its length is enough fuel. *)
Fixpoint unquote_fuel (fuel : nat) (s : bytes) : bytes :=
  match fuel, s with
  | S k, c :: s' =>
      if decide (c = backslash) then
        match getu4 s with
        | Some (r, rest) =>
            if is_surrogate r then
              match getu4 rest with
              | Some (r2, rest2) =>
                  match pair_rune r r2 with
                  | Some r => Utf8.encode_rune r ++ unquote_fuel k rest2
                  | None => Utf8.encode_rune Utf8.RuneError ++ unquote_fuel k rest
                  end
              | None => Utf8.encode_rune Utf8.RuneError ++ unquote_fuel k rest
              end
            else Utf8.encode_rune r ++ unquote_fuel k rest
        | None =>
            match s' with
            | e :: rest => match simple_escape e with Some r => [z2b r] | None => [] end ++ unquote_fuel k rest
            | [] => []
            end
        end
      else let '(r, rest) := Utf8.decode_rune c s' in Utf8.encode_rune r ++ unquote_fuel k rest
  | _, _ => []
  end.
Definition unquote (s : bytes) : bytes := unquote_fuel (length s) s.

Definition parse_string (s : bytes) : option (bytes * bytes) :=
  match scan_string s with Some (raw, rest) => Some (unquote raw, rest) | None => None end.

Definition is_dec (c : byte) : bool := (48 <=? b2z c) && (b2z c <=? 57).

Fixpoint span_digits (s : bytes) : bytes * bytes :=
  match s with
  | c :: s' => if is_dec c then let '(d, r) := span_digits s' in (c :: d, r) else ([], s)
  | [] => ([], [])
  end.

Definition scan_int (s : bytes) : option (bytes * bytes) :=
  match s with
  | c :: s' =>
      if decide (b2z c = 48) then Some ([c], s')
      else if is_dec c then Some (span_digits s) else None
  | [] => None
  end.

Definition scan_frac (s : bytes) : option (bytes * bytes) :=
  match s with
  | c :: s' =>
      if decide (c = "."%char) then
        let '(d, r) := span_digits s' in if decide (d = []) then None else Some (c :: d, r)
      else Some ([], s)
  | [] => Some ([], [])
  end.

Definition scan_exp (s : bytes) : option (bytes * bytes) :=
  match s with
  | c :: s' =>
      if decide (c = "e"%char ∨ c = "E"%char) then
        let '(sign, s'') := match s' with
          | p :: t => if decide (p = "+"%char ∨ p = "-"%char) then ([p], t) else ([], s')
          | [] => ([], [])
          end in
        let '(d, r) := span_digits s'' in if decide (d = []) then None else Some (c :: sign ++ d, r)
      else Some ([], s)
  | [] => Some ([], [])
  end.

Definition scan_number (s : bytes) : option (bytes * bytes) :=
  let '(sign, s) := match s with
    | c :: s' => if decide (c = "-"%char) then ([c], s') else ([], s)
    | [] => ([], [])
    end in
  '(i, s) ← scan_int s; '(f, s) ← scan_frac s; '(e, s) ← scan_exp s; Some (sign ++ i ++ f ++ e, s).

(** ** Values *)

Definition literals : list (bytes * json) := [(gs "true", JBool true); (gs "false", JBool false); (gs "null", JNull)].

Fixpoint scan_literal (ls : list (bytes * json)) (s : bytes) : option (json * bytes) :=
  match ls with
  | [] => None
  | (text, v) :: ls =>
      match Strings.cut_prefix s text with Some rest => Some (v, rest) | None => scan_literal ls s end
  end.

Definition scalar (s : bytes) : option (json * bytes) :=
  match s with
  | c :: s' =>
      if decide (c = quote) then '(str, rest) ← parse_string s'; Some (JString str, rest)
      else if bool_decide (c = "-"%char) || is_dec c then '(lit, rest) ← scan_number s; Some (JNumber lit, rest)
      else scan_literal literals s
  | [] => None
  end.

Definition key_colon (s : bytes) : option (bytes * bytes) :=
  match skip_ws s with
  | c :: s =>
      if decide (c = quote) then
        '(key, s) ← parse_string s;
        match skip_ws s with
        | c :: s => if decide (c = ":"%char) then Some (key, s) else None
        | [] => None
        end
      else None
  | [] => None
  end.

(** [depth] is the number of open arrays and objects. *)
Fixpoint value (fuel : nat) (depth : nat) (s : bytes) {struct fuel} : option (json * bytes) :=
  match fuel with
  | O => None
  | S k =>
      match skip_ws s with
      | [] => None
      | c :: s =>
          if decide (c = "{"%char) then
            if decide (maxNestingDepth ≤ depth)%nat then None else
            match skip_ws s with
            | d :: s' =>
                if decide (d = "}"%char) then Some (JObject [], s')
                else '(ms, rest) ← members k (S depth) s; Some (JObject ms, rest)
            | [] => None
            end
          else if decide (c = "["%char) then
            if decide (maxNestingDepth ≤ depth)%nat then None else
            match skip_ws s with
            | d :: s' =>
                if decide (d = "]"%char) then Some (JArray [], s')
                else '(vs, rest) ← elements k (S depth) s; Some (JArray vs, rest)
            | [] => None
            end
          else scalar (c :: s)
      end
  end
with members (fuel : nat) (depth : nat) (s : bytes) {struct fuel} : option (list (bytes * json) * bytes) :=
  match fuel with
  | O => None
  | S k =>
      '(key, s) ← key_colon s;
      '(v, s) ← value k depth s;
      match skip_ws s with
      | c :: s =>
          if decide (c = ","%char) then '(ms, rest) ← members k depth s; Some ((key, v) :: ms, rest)
          else if decide (c = "}"%char) then Some ([(key, v)], s) else None
      | [] => None
      end
  end
with elements (fuel : nat) (depth : nat) (s : bytes) {struct fuel} : option (list json * bytes) :=
  match fuel with
  | O => None
  | S k =>
      '(v, s) ← value k depth s;
      match skip_ws s with
      | c :: s =>
          if decide (c = ","%char) then '(vs, rest) ← elements k depth s; Some (v :: vs, rest)
          else if decide (c = "]"%char) then Some ([v], s) else None
      | [] => None
      end
  end.

Definition fuel_for (s : bytes) : nat := 2 * length s + 2.

(** The document of [json.Unmarshal]: one value, with nothing after it. *)
Definition parse (s : bytes) : option json :=
  '(v, rest) ← value (fuel_for s) 0 s; if decide (skip_ws rest = []) then Some v else None.

(** ** Struct fields *)

(** [foldName]: the least rune of the case-folding orbit.  Only U+017F and U+212A
    fold onto ASCII from outside it; other runes never equal a folded ASCII name. *)
Definition fold_rune (r : Z) : Z :=
  if (97 <=? r) && (r <=? 122) then r - 32
  else if r =? 0x17F then 83 else if r =? 0x212A then 75 else r.

Definition key_is (name key : bytes) : bool :=
  bool_decide (map fold_rune (Utf8.runes key) = map fold_rune (Utf8.runes name)).

(** A string field: a string replaces it, null leaves it, anything else is an
    [UnmarshalTypeError]. *)
Definition set_string (cur : bytes) (v : json) : option bytes :=
  match v with JString s => Some s | JNull => Some cur | _ => None end.

(** A struct field (or the document itself): an object updates it member by
    member, in order, null leaves it, anything else is an error. *)
Definition set_struct {A} (member : A → bytes → json → option A) (cur : A) (v : json) : option A :=
  match v with
  | JObject ms => foldl (λ acc kv, acc ≫= λ a, member a kv.1 kv.2) (Some cur) ms
  | JNull => Some cur
  | _ => None
  end.

(** ** The parser consumes input, and its fuel is enough *)

Lemma skip_ws_length s : (length (skip_ws s) ≤ length s)%nat.
Proof. induction s as [|c s IH]; [done|]. cbn. destruct (is_space c); cbn; lia. Qed.

Lemma scan_string_length n s raw rest :
  (length s ≤ n)%nat → scan_string s = Some (raw, rest) → (length rest < length s)%nat.
Proof.
  revert s raw rest. induction n as [|n IH]; intros [|c s] raw rest Hn; cbn [scan_string length] in *; try done; try lia.
  case_decide; [intros [= _ <-]; lia|]. case_decide.
  - destruct s as [|e s]; [done|]. cbn [length] in *. case_decide.
    + destruct s as [|h1 [|h2 [|h3 [|h4 s]]]]; try done. cbn [length] in *.
      destruct (hex4 h1 h2 h3 h4); [|done]. destruct (scan_string s) as [[raw' rest']|] eqn:Hs; [|done].
      intros [= _ <-]. apply IH in Hs; lia.
    + destruct (simple_escape e); [|done]. destruct (scan_string s) as [[raw' rest']|] eqn:Hs; [|done].
      intros [= _ <-]. apply IH in Hs; lia.
  - destruct (b2z c <? 32); [done|]. destruct (scan_string s) as [[raw' rest']|] eqn:Hs; [|done].
    intros [= _ <-]. apply IH in Hs; lia.
Qed.

Lemma parse_string_length s str rest : parse_string s = Some (str, rest) → (length rest < length s)%nat.
Proof.
  unfold parse_string. destruct (scan_string s) as [[raw r]|] eqn:Hs; [|done]. intros [= _ <-].
  by eapply scan_string_length.
Qed.

Lemma span_digits_length s d r : span_digits s = (d, r) → length s = (length d + length r)%nat.
Proof.
  revert d r. induction s as [|c s IH]; intros d r; cbn; [by intros [= <- <-]|].
  destruct (is_dec c); [|by intros [= <- <-]]. destruct (span_digits s) as [d' r']. intros [= <- <-].
  cbn. by rewrite (IH d' r').
Qed.

Lemma scan_int_length s i r : scan_int s = Some (i, r) → (length r < length s)%nat.
Proof.
  destruct s as [|c s]; [done|]. unfold scan_int. case_decide; [intros [= _ <-]; cbn; lia|].
  destruct (is_dec c) eqn:Hc; [|done]. cbn [span_digits]. rewrite Hc. destruct (span_digits s) as [d r'] eqn:Hd.
  intros [= _ <-]. apply span_digits_length in Hd. cbn. lia.
Qed.

Lemma scan_frac_length s f r : scan_frac s = Some (f, r) → (length r ≤ length s)%nat.
Proof.
  destruct s as [|c s]; cbn; [by intros [= _ <-]|]. case_decide; [|by intros [= _ <-]].
  destruct (span_digits s) as [d r'] eqn:Hd. apply span_digits_length in Hd. case_decide; [done|]. intros [= _ <-]. lia.
Qed.

Lemma scan_exp_length s e r : scan_exp s = Some (e, r) → (length r ≤ length s)%nat.
Proof.
  destruct s as [|c s]; cbn; [by intros [= _ <-]|]. case_decide; [|by intros [= _ <-]].
  destruct s as [|p s]; [done|]. case_decide; destruct (span_digits _) as [d r'] eqn:Hd; apply span_digits_length in Hd;
    (case_decide; [done|]); intros [= _ <-]; cbn in *; lia.
Qed.

Lemma scan_number_length s l r : scan_number s = Some (l, r) → (length r < length s)%nat.
Proof.
  unfold scan_number. destruct s as [|c s]; [done|].
  assert (∀ sign s', (length s' ≤ length (c :: s))%nat →
    ('(i, s) ← scan_int s'; '(f, s) ← scan_frac s; '(e, s) ← scan_exp s; Some (sign ++ i ++ f ++ e, s)) = Some (l, r) →
    (length r < length (c :: s))%nat) as Hg.
  { intros sign s' Hs'. destruct (scan_int s') as [[i r1]|] eqn:H1; [|done]. cbn. apply scan_int_length in H1.
    destruct (scan_frac r1) as [[f r2]|] eqn:H2; [|done]. cbn. apply scan_frac_length in H2.
    destruct (scan_exp r2) as [[e r3]|] eqn:H3; [|done]. cbn. apply scan_exp_length in H3.
    intros [= _ <-]. cbn in Hs'. lia. }
  case_decide; apply Hg; cbn; lia.
Qed.

Lemma scan_literal_length s v r : scan_literal literals s = Some (v, r) → (length r < length s)%nat.
Proof.
  assert (∀ t rest, t ≠ [] → Strings.cut_prefix s t = Some rest → (length rest < length s)%nat) as Hd.
  { intros t rest Ht. unfold Strings.cut_prefix. destruct (Strings.is_prefix t s) eqn:Hp; [|done]. intros [= <-].
    destruct t as [|a t]; [done|]. destruct s as [|b s]; [done|]. rewrite length_drop. cbn. lia. }
  unfold literals. cbn [scan_literal].
  destruct (Strings.cut_prefix s (gs "true")) as [r1|] eqn:H1; [intros [= _ <-]; eapply Hd; [|done]; done|].
  destruct (Strings.cut_prefix s (gs "false")) as [r2|] eqn:H2; [intros [= _ <-]; eapply Hd; [|done]; done|].
  destruct (Strings.cut_prefix s (gs "null")) as [r3|] eqn:H3; [intros [= _ <-]; eapply Hd; [|done]; done|done].
Qed.

Lemma scalar_length s v r : scalar s = Some (v, r) → (length r < length s)%nat.
Proof.
  destruct s as [|c s]; [done|]. unfold scalar. case_decide.
  - destruct (parse_string s) as [[str rest]|] eqn:Hs; [|done]. intros [= _ <-]. apply parse_string_length in Hs. cbn. lia.
  - destruct (_ || _).
    + destruct (scan_number (c :: s)) as [[lit rest]|] eqn:Hs; [|done]. intros [= _ <-]. by eapply scan_number_length.
    + apply scan_literal_length.
Qed.

Lemma key_colon_length s k r : key_colon s = Some (k, r) → (length r < length s)%nat.
Proof.
  unfold key_colon. pose proof (skip_ws_length s) as Hs. destruct (skip_ws s) as [|c s']; [done|].
  case_decide; [|done]. destruct (parse_string s') as [[key s1]|] eqn:Hk; [|done]. cbn.
  apply parse_string_length in Hk. pose proof (skip_ws_length s1). destruct (skip_ws s1) as [|d s2]; [done|].
  case_decide; [|done]. intros [= _ <-]. cbn in *. lia.
Qed.

(** The three length facts, at one fuel. *)
Definition shorter (fuel : nat) : Prop :=
  (∀ d s v r, value fuel d s = Some (v, r) → (length r < length s)%nat) ∧
  (∀ d s v r, members fuel d s = Some (v, r) → (length r < length s)%nat) ∧
  (∀ d s v r, elements fuel d s = Some (v, r) → (length r < length s)%nat).

Lemma value_shorter fuel : shorter fuel.
Proof.
  induction fuel as [|k (IHv & IHm & IHe)]; [done|]. split_and!.
  - intros d s v r. cbn [value]. pose proof (skip_ws_length s) as Hs. destruct (skip_ws s) as [|c s']; [done|].
    cbn [length] in Hs. pose proof (skip_ws_length s') as Hs'.
    case_decide; [|case_decide].
    1, 2: case_decide; [done|]; destruct (skip_ws s') as [|e s2]; [done|]; cbn [length] in Hs';
      (case_decide; [intros [= _ <-]; lia|]).
    + destruct (members k (S d) s') as [[ms r']|] eqn:Hm; [|done]. intros [= _ <-]. apply IHm in Hm. lia.
    + destruct (elements k (S d) s') as [[ms r']|] eqn:Hm; [|done]. intros [= _ <-]. apply IHe in Hm. lia.
    + intros Hr%scalar_length. cbn in Hr. lia.
  - intros d s v r. cbn [members]. destruct (key_colon s) as [[key s1]|] eqn:Hk; [|done]. cbn.
    apply key_colon_length in Hk. destruct (value k d s1) as [[x s2]|] eqn:Hv; [|done]. cbn. apply IHv in Hv.
    pose proof (skip_ws_length s2). destruct (skip_ws s2) as [|c s3]; [done|]. cbn [length] in *.
    case_decide; [|case_decide; [intros [= _ <-]; lia|done]].
    destruct (members k d s3) as [[ms r']|] eqn:Hm; [|done]. intros [= _ <-]. apply IHm in Hm. lia.
  - intros d s v r. cbn [elements]. destruct (value k d s) as [[x s2]|] eqn:Hv; [|done]. cbn. apply IHv in Hv.
    pose proof (skip_ws_length s2). destruct (skip_ws s2) as [|c s3]; [done|]. cbn [length] in *.
    case_decide; [|case_decide; [intros [= _ <-]; lia|done]].
    destruct (elements k d s3) as [[ms r']|] eqn:Hm; [|done]. intros [= _ <-]. apply IHe in Hm. lia.
Qed.

Lemma members_S k depth s :
  members (S k) depth s =
  ('(key, s) ← key_colon s;
   '(v, s) ← value k depth s;
   match skip_ws s with
   | c :: s =>
       if decide (c = ","%char) then '(ms, rest) ← members k depth s; Some ((key, v) :: ms, rest)
       else if decide (c = "}"%char) then Some ([(key, v)], s) else None
   | [] => None
   end).
Proof. done. Qed.

Lemma elements_S k depth s :
  elements (S k) depth s =
  ('(v, s) ← value k depth s;
   match skip_ws s with
   | c :: s =>
       if decide (c = ","%char) then '(vs, rest) ← elements k depth s; Some (v :: vs, rest)
       else if decide (c = "]"%char) then Some ([v], s) else None
   | [] => None
   end).
Proof. done. Qed.

(** One more unit of fuel changes nothing, once there is enough. *)
Lemma parse_fuel_step fuel :
  (∀ d s, (2 * length s + 1 ≤ fuel)%nat → value (S fuel) d s = value fuel d s) ∧
  (∀ d s, (2 * length s + 2 ≤ fuel)%nat → members (S fuel) d s = members fuel d s) ∧
  (∀ d s, (2 * length s + 2 ≤ fuel)%nat → elements (S fuel) d s = elements fuel d s).
Proof.
  induction fuel as [|k (IHv & IHm & IHe)]; [split_and!; intros; lia|].
  destruct (value_shorter k) as (Sv & Sm & Se). split_and!.
  - intros d s Hf. remember (S k) as k1. cbn [value]. subst k1. cbn [value].
    pose proof (skip_ws_length s) as Hs. destruct (skip_ws s) as [|c s']; [done|]. cbn [length] in Hs.
    repeat case_decide; try done; destruct (skip_ws s') as [|e s2]; try done; case_decide; try done.
    + by rewrite IHm by lia.
    + by rewrite IHe by lia.
  - intros d s Hf. rewrite (members_S (S k)), (members_S k).
    destruct (key_colon s) as [[key s1]|] eqn:Hk; [|done]. cbn [mbind option_bind]. apply key_colon_length in Hk.
    rewrite IHv by lia. destruct (value k d s1) as [[x s2]|] eqn:Hv; [|done]. cbn [mbind option_bind]. apply Sv in Hv.
    pose proof (skip_ws_length s2). destruct (skip_ws s2) as [|c s3]; [done|]. cbn [length] in *.
    case_decide; [|done]. by rewrite IHm by lia.
  - intros d s Hf. rewrite (elements_S (S k)), (elements_S k).
    rewrite IHv by lia. destruct (value k d s) as [[x s2]|] eqn:Hv; [|done]. cbn [mbind option_bind]. apply Sv in Hv.
    pose proof (skip_ws_length s2). destruct (skip_ws s2) as [|c s3]; [done|]. cbn [length] in *.
    case_decide; [|done]. by rewrite IHe by lia.
Qed.

Lemma parse_value_fuel fuel d s : (fuel_for s ≤ fuel)%nat → value fuel d s = value (fuel_for s) d s.
Proof.
  unfold fuel_for. intros Hf. induction Hf as [|fuel Hf IH]; [done|].
  rewrite <- IH. apply parse_fuel_step. lia.
Qed.

Lemma getu4_length s r rest : getu4 s = Some (r, rest) → (length rest < length s)%nat.
Proof.
  destruct s as [|c [|e [|h1 [|h2 [|h3 [|h4 s]]]]]]; try done. cbn [getu4]. case_decide; [|done].
  destruct (hex4 h1 h2 h3 h4); [|done]. intros [= _ <-]. cbn. lia.
Qed.

Lemma unquote_fuel_enough n s f1 f2 :
  (length s ≤ n)%nat → (n ≤ f1)%nat → (n ≤ f2)%nat → unquote_fuel f1 s = unquote_fuel f2 s.
Proof.
  revert s f1 f2. induction n as [|n IH]; intros [|c s] [|f1] [|f2] Hs H1 H2; cbn [length] in *; try done; try lia.
  cbn [unquote_fuel]. case_decide.
  - destruct (getu4 (c :: s)) as [[r rest]|] eqn:Hg.
    + apply getu4_length in Hg. cbn [length] in Hg. rewrite (IH rest f1 f2) by lia. destruct (is_surrogate r); [|done].
      destruct (getu4 rest) as [[r2 rest2]|] eqn:Hg2; [|done]. apply getu4_length in Hg2.
      by rewrite (IH rest2 f1 f2) by lia.
    + destruct s as [|e rest]; [done|]. cbn [length] in *. by rewrite (IH rest f1 f2) by lia.
  - pose proof (Utf8.decode_rune_shorter c s) as Hd. destruct (Utf8.decode_rune c s) as [r rest]. cbn in Hd.
    by rewrite (IH rest f1 f2) by lia.
Qed.

Lemma unquote_step c s' fuel :
  (length s' ≤ fuel)%nat → Utf8.is_ascii c → c ≠ backslash → unquote_fuel (S fuel) (c :: s') = c :: unquote s'.
Proof.
  intros Hf Hc Hb. cbn [unquote_fuel]. rewrite decide_False by done. rewrite Utf8.decode_ascii by done.
  rewrite Utf8.encode_ascii by done. cbn. f_equal. by apply (unquote_fuel_enough (length s')).
Qed.

(** ** Printers *)

Definition comma : byte := ","%char.

(** Integers. *)
Definition digits_ok (lit : bytes) : Prop :=
  match lit with
  | [] => False
  | c :: ds => is_dec c = true ∧ (b2z c = 48 → ds = []) ∧ Forall (λ d, is_dec d = true) ds
  end.
Definition number_ok (lit : bytes) : Prop :=
  match lit with
  | c :: ds => if decide (c = "-"%char) then digits_ok ds else digits_ok lit
  | [] => False
  end.

Fixpoint depth_of (j : json) : nat :=
  match j with
  | JArray l => S (max_list (map depth_of l))
  | JObject ms => S (max_list (map (λ kv, depth_of kv.2) ms))
  | _ => 0
  end.

Lemma json_nested_ind (P : json → Prop) :
  P JNull → (∀ b, P (JBool b)) → (∀ lit, P (JNumber lit)) → (∀ s, P (JString s)) →
  (∀ l, Forall P l → P (JArray l)) → (∀ ms, Forall (λ kv, P kv.2) ms → P (JObject ms)) → ∀ j, P j.
Proof.
  intros Hn Hb Hnum Hs Ha Ho. fix IH 1. intros [| | | |l|ms]; [done|apply Hb|apply Hnum|apply Hs| |].
  - apply Ha. induction l as [|j l IHl]; constructor; [apply IH|done].
  - apply Ho. induction ms as [|[k j] ms IHl]; constructor; [apply IH|done].
Qed.

Definition white (s : bytes) : Prop := Forall (λ c, is_space c = true) s.

Lemma skip_white w s : white w → skip_ws (w ++ s) = skip_ws s.
Proof. induction 1 as [|c w Hc _ IH]; [done|]. cbn. by rewrite Hc. Qed.

(** *** Scalars *)

(** What may follow a value in a printed document. *)
Definition stop (rest : bytes) : Prop :=
  match rest with [] => True | c :: _ => c ∈ [","%char; "}"%char; "]"%char] ∨ is_space c = true end.

Lemma space_cases c : is_space c = true → c ∈ map z2b [32; 9; 13; 10].
Proof. apply bool_decide_eq_true_1. Qed.

Lemma stop_not_dec c rest : stop (c :: rest) → is_dec c = false ∧ c ≠ "."%char ∧ c ≠ "e"%char ∧ c ≠ "E"%char.
Proof.
  cbn [stop]. intros [Hc|Hc%space_cases]; revert Hc; cbn [map]; rewrite !elem_of_cons.
  - intros [->|[->|[->|[]%elem_of_nil]]]; by vm_compute.
  - intros [->|[->|[->|[->|[]%elem_of_nil]]]]; by vm_compute.
Qed.

Lemma dec_not_space c : is_dec c = true → is_space c = false.
Proof.
  intros Hc. destruct (is_space c) eqn:Hs; [|done]. apply space_cases in Hs. revert Hs Hc. cbn [map].
  rewrite !elem_of_cons. by intros [->|[->|[->|[->|[]%elem_of_nil]]]].
Qed.

Lemma white_stop w c rest : white w → c ∈ [","%char; "}"%char; "]"%char] → stop (w ++ c :: rest).
Proof. destruct 1 as [|x w Hx _]; cbn; [by left|by right]. Qed.

Lemma span_digits_app ds rest :
  Forall (λ d, is_dec d = true) ds → stop rest → span_digits (ds ++ rest) = (ds, rest).
Proof.
  intros Hd Hs. induction Hd as [|c ds Hc _ IH]; cbn [app span_digits].
  - destruct rest as [|c rest]; [done|]. cbn [span_digits]. by destruct (stop_not_dec _ _ Hs) as [-> _].
  - by rewrite Hc, IH.
Qed.

Lemma scan_int_print lit rest : digits_ok lit → stop rest → scan_int (lit ++ rest) = Some (lit, rest).
Proof.
  destruct lit as [|c ds]; [done|]. intros (Hc & H0 & Hds) Hs. cbn [app]. unfold scan_int.
  case_decide as Hz; [by rewrite H0|]. rewrite Hc. f_equal.
  change (c :: ds ++ rest) with ((c :: ds) ++ rest). apply span_digits_app; [by constructor|done].
Qed.

Lemma scan_number_print lit rest : number_ok lit → stop rest → scan_number (lit ++ rest) = Some (lit, rest).
Proof.
  intros Hl Hs. assert (scan_frac rest = Some ([], rest) ∧ scan_exp rest = Some ([], rest)) as [Hf He].
  { destruct rest as [|x rest]; [done|]. destruct (stop_not_dec _ _ Hs) as (_ & H1 & H2 & H3).
    cbn. by rewrite !decide_False by naive_solver. }
  unfold scan_number. destruct lit as [|c ds]; [done|]. cbn [number_ok] in Hl. cbn [app]. case_decide.
  - rewrite scan_int_print by done. cbn. rewrite Hf. cbn. rewrite He. cbn. by rewrite !app_nil_r.
  - change (c :: ds ++ rest) with ((c :: ds) ++ rest). rewrite scan_int_print by done.
    cbn. rewrite Hf. cbn. rewrite He. cbn. by rewrite !app_nil_r.
Qed.

Lemma number_head c ds : number_ok (c :: ds) → c = "-"%char ∨ is_dec c = true.
Proof. cbn [number_ok]. case_decide; [by left|]. intros [? _]. by right. Qed.

(** *** Documents *)

Section printer.
(** The escaping of a string, what precedes a value at a depth, and what follows a
    colon. *)
Variables (chars : bytes → bytes) (newline : nat → bytes) (space : bytes).

Definition print_string (s : bytes) : bytes := quote :: chars s ++ [quote].

Fixpoint print_at (d : nat) (j : json) : bytes :=
  match j with
  | JNull => gs "null"
  | JBool b => if b then gs "true" else gs "false"
  | JNumber lit => lit
  | JString s => print_string s
  | JArray [] => gs "[]"
  | JArray l => "["%char :: Strings.join comma (map (λ v, newline (S d) ++ print_at (S d) v) l) ++ newline d ++ ["]"%char]
  | JObject [] => gs "{}"
  | JObject ms =>
      "{"%char :: Strings.join comma (map (λ kv,
        newline (S d) ++ print_string kv.1 ++ ":"%char :: space ++ print_at (S d) kv.2) ms) ++ newline d ++ ["}"%char]
  end.

(** The strings that can be printed, and what comes back of one. *)
Variables (fit : bytes → Prop) (norm : bytes → bytes).

Fixpoint printable_by (j : json) : Prop :=
  match j with
  | JNumber lit => number_ok lit
  | JString s => fit s
  | JArray l => Forall id (map printable_by l)
  | JObject ms => Forall id (map (λ kv, fit kv.1 ∧ printable_by kv.2) ms)
  | _ => True
  end.

Fixpoint norm_json (j : json) : json :=
  match j with
  | JString s => JString (norm s)
  | JArray l => JArray (map norm_json l)
  | JObject ms => JObject (map (λ kv, (norm kv.1, norm_json kv.2)) ms)
  | _ => j
  end.

Hypothesis newline_white : ∀ d, white (newline d).
Hypothesis space_white : white space.
Hypothesis chars_parse : ∀ s rest, fit s → parse_string (chars s ++ quote :: rest) = Some (norm s, rest).

Lemma print_head d j : printable_by j → ∃ c r, print_at d j = c :: r ∧ is_space c = false ∧ c ≠ "]"%char.
Proof.
  destruct j as [|[]|lit|s|[|v l]|[|kv ms]]; cbn [printable_by print_at]; intros Hp; try (eexists _, _; by split_and!).
  destruct lit as [|c ds]; [done|]. exists c, ds. split; [done|].
  destruct (number_head _ _ Hp) as [->|Hc]; [done|]. split; [by apply dec_not_space|]. by intros ->.
Qed.

Lemma skip_print d j rest : printable_by j → skip_ws (print_at d j ++ rest) = print_at d j ++ rest.
Proof. intros (c & r & -> & Hc & _)%(print_head d). cbn. by rewrite Hc. Qed.

Lemma value_white f d w s : white w → value f d (w ++ s) = value f d s.
Proof. intros Hw. destruct f as [|f]; [done|]. cbn [value]. by rewrite skip_white. Qed.

(** Scalars need one unit of fuel. *)
Lemma value_scalar n j f d rest :
  printable_by j → stop rest → match j with JArray _ | JObject _ => False | _ => True end → (0 < f)%nat →
  value f d (print_at n j ++ rest) = Some (norm_json j, rest).
Proof.
  intros Hp Hs Hj Hf. destruct f as [|f]; [lia|]. cbn [value]. rewrite skip_print by done.
  destruct j as [|[]|lit|s|l|ms]; try done; cbn [print_at printable_by] in *.
  - destruct lit as [|c ds]; [done|]. pose proof (number_head _ _ Hp) as Hc. cbn [app].
    rewrite !decide_False by (intros ->; by destruct Hc). unfold scalar.
    rewrite decide_False by (intros ->; by destruct Hc).
    assert (bool_decide (c = "-"%char) || is_dec c = true) as ->.
    { destruct Hc as [->| ->]; [done|apply orb_true_r]. }
    change (c :: ds ++ rest) with ((c :: ds) ++ rest). by rewrite scan_number_print.
  - unfold print_string. cbn [app]. rewrite !decide_False by done. unfold scalar. rewrite decide_True by done.
    rewrite <- app_assoc. cbn [app]. by rewrite chars_parse.
Qed.

(** Twice its length is enough fuel for a value. *)
Definition value_prints (j : json) : Prop := ∀ n f d rest,
  printable_by j → stop rest → (d + depth_of j ≤ maxNestingDepth)%nat →
  (2 * length (print_at n j) + 1 ≤ f)%nat → value f d (print_at n j ++ rest) = Some (norm_json j, rest).

Lemma join_cons x y l : Strings.join comma (x :: y :: l) = x ++ comma :: Strings.join comma (y :: l).
Proof. done. Qed.

Definition print_element (n : nat) (v : json) : bytes := newline n ++ print_at n v.

Lemma elements_print n w l f d rest :
  white w → Forall value_prints l → Forall printable_by l → l ≠ [] →
  (d + max_list (map depth_of l) ≤ maxNestingDepth)%nat →
  (2 * length (Strings.join comma (map (print_element n) l)) + 2 ≤ f)%nat →
  elements f d (Strings.join comma (map (print_element n) l) ++ w ++ "]"%char :: rest) = Some (map norm_json l, rest).
Proof.
  intros Hw Hv. revert f. induction Hv as [|j l Hj _ IH]; intros f Hp Hne Hd Hf; [done|].
  apply Forall_cons in Hp as [Hpj Hpl]. destruct f as [|f]; [lia|]. rewrite elements_S.
  cbn [map max_list_with id] in *. destruct l as [|j' l]; cbn [map] in *.
  - cbn [Strings.join] in *. unfold print_element in *. rewrite <- app_assoc, value_white by done.
    rewrite length_app in Hf. rewrite Hj; [|done|apply white_stop; [done|by right; right; left]|lia|lia].
    cbn [mbind option_bind]. by rewrite skip_white.
  - rewrite join_cons in *. unfold print_element at 1 in Hf. unfold print_element at 1. rewrite <- !app_assoc.
    rewrite !length_app in Hf. cbn [length app] in *.
    rewrite value_white by done. rewrite Hj; [|done|by left; left|lia|lia].
    cbn [mbind option_bind skip_ws]. assert (is_space comma = false) as -> by done. rewrite decide_True by done.
    rewrite IH; [done|done|done|lia|lia].
Qed.

Lemma key_colon_print w key rest :
  white w → fit key → key_colon (w ++ print_string key ++ ":"%char :: rest) = Some (norm key, rest).
Proof.
  intros Hw Hk. unfold key_colon, print_string. rewrite skip_white by done.
  cbn [app skip_ws]. assert (is_space quote = false) as -> by done.
  rewrite decide_True by done. rewrite <- app_assoc. cbn [app]. rewrite chars_parse by done.
  cbn [mbind option_bind skip_ws]. assert (is_space ":"%char = false) as -> by done. by rewrite decide_True.
Qed.

Definition print_member (n : nat) (kv : bytes * json) : bytes :=
  newline n ++ print_string kv.1 ++ ":"%char :: space ++ print_at n kv.2.

Lemma members_print n w ms f d rest :
  white w → Forall (λ kv, value_prints kv.2) ms → Forall (λ kv, fit kv.1 ∧ printable_by kv.2) ms → ms ≠ [] →
  (d + max_list (map (λ kv, depth_of kv.2) ms) ≤ maxNestingDepth)%nat →
  (2 * length (Strings.join comma (map (print_member n) ms)) + 2 ≤ f)%nat →
  members f d (Strings.join comma (map (print_member n) ms) ++ w ++ "}"%char :: rest) =
    Some (map (λ kv, (norm kv.1, norm_json kv.2)) ms, rest).
Proof.
  intros Hw Hv. revert f. induction Hv as [|[key j] ms Hj _ IH]; intros f Hp Hne Hd Hf; [done|].
  apply Forall_cons in Hp as [[Hkey Hpj] Hpl]. destruct f as [|f]; [lia|]. rewrite members_S.
  cbn [map max_list_with id fst snd] in *. destruct ms as [|kv' ms]; cbn [map] in *.
  - cbn [Strings.join] in *. unfold print_member in *. cbn [fst snd] in *. rewrite <- !app_assoc. cbn [app].
    rewrite !length_app in Hf. cbn [length] in Hf. rewrite length_app in Hf. rewrite <- app_assoc.
    rewrite key_colon_print by done. cbn [mbind option_bind].
    rewrite value_white by done. rewrite Hj; [|done|apply white_stop; [done|by right; left]|lia|lia].
    cbn [mbind option_bind]. by rewrite skip_white.
  - rewrite join_cons in *. unfold print_member at 1 in Hf. unfold print_member at 1. cbn [fst snd] in *.
    rewrite <- !app_assoc. cbn [app]. rewrite <- !app_assoc. rewrite !length_app in Hf. cbn [length] in Hf.
    rewrite !length_app in Hf. cbn [length app] in *. rewrite key_colon_print by done. cbn [mbind option_bind].
    rewrite value_white by done. rewrite Hj; [|done|by left; left|lia|lia].
    cbn [mbind option_bind skip_ws]. assert (is_space comma = false) as -> by done. rewrite decide_True by done.
    rewrite IH; [done|done|done|lia|lia].
Qed.

Lemma join_head {A} (g : A → bytes) (x : A) (l : list A) : ∃ r, Strings.join comma (map g (x :: l)) = g x ++ r.
Proof. cbn [map]. destruct (map g l) as [|y ys]; [exists []; cbn; by rewrite app_nil_r|]. rewrite join_cons. by eexists. Qed.

Lemma value_array f d s c r :
  (d < maxNestingDepth)%nat → skip_ws s = c :: r → c ≠ "]"%char →
  value (S f) d ("["%char :: s) = '(vs, rest) ← elements f (S d) s; Some (JArray vs, rest).
Proof.
  intros Hd Hs Hc. cbn [value skip_ws]. change (is_space "["%char) with false. cbn match.
  rewrite decide_False, decide_True by done. rewrite decide_False by lia. by rewrite Hs, decide_False.
Qed.

Lemma value_object f d s c r :
  (d < maxNestingDepth)%nat → skip_ws s = c :: r → c ≠ "}"%char →
  value (S f) d ("{"%char :: s) = '(ms, rest) ← members f (S d) s; Some (JObject ms, rest).
Proof.
  intros Hd Hs Hc. cbn [value skip_ws]. change (is_space "{"%char) with false. cbn match.
  rewrite decide_True by done. rewrite decide_False by lia. by rewrite Hs, decide_False.
Qed.

Lemma value_empty f d rest :
  (d < maxNestingDepth)%nat →
  value (S f) d ("["%char :: "]"%char :: rest) = Some (JArray [], rest) ∧
  value (S f) d ("{"%char :: "}"%char :: rest) = Some (JObject [], rest).
Proof.
  intros Hd. split; cbn [value skip_ws].
  - change (is_space "["%char) with false. cbn match. rewrite decide_False, decide_True by done.
    rewrite decide_False by lia. cbn [skip_ws]. change (is_space "]"%char) with false. cbn match. by rewrite decide_True.
  - change (is_space "{"%char) with false. cbn match. rewrite decide_True by done.
    rewrite decide_False by lia. cbn [skip_ws]. change (is_space "}"%char) with false. cbn match. by rewrite decide_True.
Qed.

Lemma skip_elements n j l rest : printable_by j →
  ∃ c r, skip_ws (Strings.join comma (map (print_element n) (j :: l)) ++ rest) = c :: r ∧ c ≠ "]"%char.
Proof.
  intros (c & r & Hh & Hc & Hne)%(print_head n). destruct (join_head (print_element n) j l) as [r' ->].
  unfold print_element. rewrite Hh, <- !app_assoc, skip_white by done. cbn [app skip_ws]. rewrite Hc. eauto.
Qed.

Lemma skip_members n kv ms rest :
  ∃ r, skip_ws (Strings.join comma (map (print_member n) (kv :: ms)) ++ rest) = quote :: r.
Proof.
  destruct (join_head (print_member n) kv ms) as [r' ->]. unfold print_member, print_string.
  rewrite <- !app_assoc, skip_white by done. cbn [app skip_ws]. change (is_space quote) with false. eauto.
Qed.

Lemma value_print j : value_prints j.
Proof.
  induction j as [|b|lit|s|l IH|ms IH] using json_nested_ind; intros n f d rest Hp Hs Hd Hf;
    try (apply value_scalar; [done|done|done|lia]); destruct f as [|f]; try lia; cbn [depth_of] in Hd.
  - destruct l as [|j l]; [apply value_empty; lia|]. cbn [print_at printable_by] in *. fold (print_element (S n)) in *.
    rewrite Forall_map in Hp. cbn [app length] in *. rewrite <- !app_assoc. rewrite !length_app in Hf. cbn [app].
    pose proof Hp as Hp'. apply Forall_cons in Hp' as [Hj _].
    destruct (skip_elements (S n) j l (newline n ++ "]"%char :: rest) Hj) as (c & r & Hsk & Hc).
    rewrite (value_array f d _ c r), elements_print; [done|done|done|by eapply Forall_impl|done|lia|lia|lia|done|done].
  - destruct ms as [|kv ms]; [apply value_empty; lia|]. cbn [print_at printable_by] in *. fold (print_member (S n)) in *.
    rewrite Forall_map in Hp. cbn [app length] in *. rewrite <- !app_assoc. rewrite !length_app in Hf. cbn [app].
    destruct (skip_members (S n) kv ms (newline n ++ "}"%char :: rest)) as (r & Hsk).
    rewrite (value_object f d _ quote r), members_print; [done|done|done|by eapply Forall_impl|done|lia|lia|lia|done|done].
Qed.

(** Any document that fits is parsed back, whatever whitespace follows it. *)
Lemma parse_print_at n j w :
  printable_by j → (depth_of j ≤ maxNestingDepth)%nat → white w → parse (print_at n j ++ w) = Some (norm_json j).
Proof.
  intros Hp Hd Hw. unfold parse. rewrite value_print; [|done| |done|].
  - cbn. rewrite <- (app_nil_r w), skip_white by done. by rewrite decide_True.
  - destruct Hw; [done|by right].
  - unfold fuel_for. rewrite length_app. lia.
Qed.

End printer.

(** ** A compact printer *)

Definition u_escape (c : byte) : bytes := gs "\u00" ++ Hex.encode [c].
Definition print_char (c : byte) : bytes :=
  if decide (c = quote ∨ c = backslash) then [backslash; c]
  else if b2z c <? 0x20 then u_escape c else [c].
Definition print_chars (s : bytes) : bytes := concat (map print_char s).

Definition print (j : json) : bytes := print_at print_chars (λ _, []) [] 0 j.

(** ASCII strings and integers. *)
Definition printable (j : json) : Prop := printable_by (Forall Utf8.is_ascii) j.

Lemma u_escape_hex c : ∃ a b, Hex.encode [c] = [a; b] ∧ hex4 "0"%char "0"%char a b = Some (b2z c).
Proof.
  assert (∀ n, (n < 256)%nat → let c := z2b (Z.of_nat n) in
    match Hex.encode [c] with [a; b] => bool_decide (hex4 "0"%char "0"%char a b = Some (b2z c)) | _ => false end = true) as Hall.
  { intros n Hn. assert (forallb (λ n, let c := z2b (Z.of_nat n) in
      match Hex.encode [c] with [a; b] => bool_decide (hex4 "0"%char "0"%char a b = Some (b2z c)) | _ => false end) (seq 0 256) = true)
      as Hf by (vm_compute; reflexivity).
    rewrite forallb_forall in Hf. apply Hf. apply in_seq. lia. }
  pose proof (b2z_range c). specialize (Hall (Z.to_nat (b2z c)) ltac:(lia)). cbn zeta in Hall.
  rewrite Z2Nat.id, z2b_b2z in Hall by lia. destruct (Hex.encode [c]) as [|a [|b [|? ?]]]; try done.
  apply bool_decide_eq_true_1 in Hall. by exists a, b.
Qed.

Lemma scan_print s rest : scan_string (print_chars s ++ quote :: rest) = Some (print_chars s, rest).
Proof.
  induction s as [|c s IH]; [done|]. unfold print_chars in *. cbn [map concat]. rewrite <- app_assoc.
  unfold print_char at 1 3. case_decide as Hc; [|destruct (Z.ltb_spec (b2z c) 32)].
  - cbn [app scan_string]. rewrite decide_False, decide_True by done.
    rewrite decide_False by by destruct Hc as [->| ->].
    assert (is_Some (simple_escape c)) as [r ->] by (by destruct Hc as [->| ->]; eexists). by rewrite IH.
  - unfold u_escape. destruct (u_escape_hex c) as (a & b & -> & Hx).
    change (gs "\u00" ++ [a; b]) with [backslash; z2b 117; "0"%char; "0"%char; a; b].
    cbn [app scan_string]. rewrite decide_False, decide_True by done. rewrite decide_True by done. by rewrite Hx, IH.
  - cbn [app scan_string]. rewrite !decide_False by naive_solver.
    destruct (Z.ltb_spec (b2z c) 32); [lia|]. by rewrite IH.
Qed.

Lemma unquote_cons_escape (r : Z) (esc s : bytes) :
  getu4 (esc ++ s) = Some (r, s) → is_surrogate r = false → hd_error esc = Some backslash →
  unquote (esc ++ s) = Utf8.encode_rune r ++ unquote s.
Proof.
  intros Hg Hr Hh. destruct esc as [|c esc]; [done|]. injection Hh as ->. unfold unquote. cbn [app length unquote_fuel].
  rewrite decide_True by done. cbn [app] in Hg. rewrite Hg, Hr. f_equal.
  apply getu4_length in Hg. cbn [length] in Hg. apply (unquote_fuel_enough (length s)); lia.
Qed.

Lemma unquote_simple (e : byte) (r : Z) (s : bytes) :
  simple_escape e = Some r → unquote (backslash :: e :: s) = z2b r :: unquote s.
Proof.
  intros He. assert (e ≠ z2b 117) as Hu by (by intros ->). unfold unquote. cbn [length].
  remember (S (length s)) as k eqn:Hk. cbn [unquote_fuel]. rewrite decide_True by done.
  assert (getu4 (backslash :: e :: s) = None) as ->.
  { unfold getu4. destruct s as [|h1 [|h2 [|h3 [|h4 r']]]]; try done. rewrite decide_False; [done|]. by intros [_ ?]. }
  rewrite He. cbn [app]. f_equal. apply (unquote_fuel_enough (length s)); lia.
Qed.

Lemma unquote_print s : Forall Utf8.is_ascii s → unquote (print_chars s) = s.
Proof.
  induction 1 as [|c s Hc _ IH]; [done|]. unfold print_chars in *. cbn [map concat]. unfold print_char at 1.
  case_decide as Hq; [|destruct (Z.ltb_spec (b2z c) 32)].
  - cbn [app]. rewrite (unquote_simple c (b2z c)) by (by destruct Hq as [->| ->]). by rewrite z2b_b2z, IH.
  - unfold u_escape. destruct (u_escape_hex c) as (a & b & -> & Hx).
    change (gs "\u00" ++ [a; b]) with [backslash; z2b 117; "0"%char; "0"%char; a; b].
    rewrite (unquote_cons_escape (b2z c)); [by rewrite IH, Utf8.encode_ascii| | |done].
    + cbn [app getu4]. rewrite decide_True by done. by rewrite Hx.
    + unfold is_surrogate. destruct (Z.leb_spec 55296 (b2z c)); [lia|done].
  - cbn [app]. unfold unquote at 1. cbn [length]. rewrite unquote_step by naive_solver. by rewrite IH.
Qed.

Lemma norm_id j : norm_json (λ s, s) j = j.
Proof.
  induction j as [|b|lit|s|l IH|ms IH] using json_nested_ind; try done; cbn [norm_json]; f_equal;
    (induction IH as [|x l Hx _ IHl]; [done|]; cbn [map]; f_equal; [|done]).
  - done.
  - destruct x. cbn in *. by rewrite Hx.
Qed.

(** Any document of ASCII strings and integers, printed compactly, is parsed back. *)
Lemma parse_print j : printable j → (depth_of j ≤ maxNestingDepth)%nat → parse (print j) = Some j.
Proof.
  intros Hp Hd. unfold print. rewrite <- (app_nil_r (print_at _ _ _ _ _)).
  rewrite (parse_print_at _ _ _ (Forall Utf8.is_ascii) (λ s, s)); [by rewrite norm_id| | | |done|done|by apply Forall_nil_2].
  - intros d. by apply Forall_nil_2.
  - by apply Forall_nil_2.
  - intros s rest Hs. unfold parse_string. by rewrite scan_print, unquote_print.
Qed.

End Json.
