(* ===== verification/Stripe.v ===== *)
(** * internal/entitlement/stripe.go: the Stripe payment provider

    Construction with its options, the checkout request and its response, and
    webhook verification: the signature header, the timestamp tolerance, the HMAC
    over the timestamp and the raw payload, and the decoding of the event.  The
    HTTP client is a function from the request to the response; the clock is the
    [now] of the provider interface.  Error texts are the operations' short names. *)

From S2P Require Import Prelude GoText GoUnicode GoTime Crypto Entitlement Json.
Import GoTime Entitlement.

Module Stripe.

(** ** Requests *)

(** The POST of [CreateCheckout]. *)
Record request := mkRequest { rURL : bytes; rBody : bytes; rAuthorization : bytes; rContentType : bytes }.
(** Status code and body; the body is [None] when reading it fails. *)
Record response := mkResponse { StatusCode : Z; Body : option bytes }.

(** [http.Client.Do] after [http.NewRequest]; [None] when either fails. *)
Definition http_client := request → option response.

(** [url.QueryEscape]. *)
Definition unreserved (c : byte) : bool :=
  let z := b2z c in
  ((48 <=? z) && (z <=? 57)) || ((65 <=? z) && (z <=? 90)) || ((97 <=? z) && (z <=? 122)) ||
  bool_decide (c ∈ [("-"%char : byte); "_"%char; "."%char; "~"%char]).
Definition upper_hex (n : Z) : byte := z2b (if n <? 10 then 48 + n else 55 + n).
Definition escape_byte (c : byte) : bytes :=
  if unreserved c then [c]
  else if decide (c = z2b 32) then ["+"%char]
  else ["%"%char; upper_hex (b2z c / 16); upper_hex (b2z c mod 16)].
Definition QueryEscape (s : bytes) : bytes := concat (map escape_byte s).

(** [url.Values.Encode] of single-valued fields already in key order. *)
Definition encode_form (fields : list (bytes * bytes)) : bytes :=
  Strings.join "&"%char (map (λ kv, QueryEscape kv.1 ++ "="%char :: QueryEscape kv.2) fields).

(** ** Construction *)

Definition defaultStripeBaseURL : bytes := gs "https://api.stripe.com".
Definition defaultWebhookTolerance : Z := 5 * Minute.

(** A clock, as what it answers at a moment of the system's time. *)
Definition Clock := Time → Time.
Definition SystemClock : Clock := λ now, now.

Record StripeProvider := mkStripe {
  apiKey : bytes; whSecret : bytes; baseURL : bytes; client : http_client; clock : Clock; tolerance : Z
}.

(** [strings.TrimRight(base, "/")]. *)
Fixpoint trim_slashes (rev : bytes) : bytes :=
  match rev with c :: r => if decide (c = "/"%char) then trim_slashes r else rev | [] => [] end.
Definition TrimRightSlash (base : bytes) : bytes := reverse (trim_slashes (reverse base)).

Definition StripeOption := StripeProvider → StripeProvider.
Definition WithHTTPClient (c : option http_client) : StripeOption := λ p,
  match c with Some c => mkStripe (apiKey p) (whSecret p) (baseURL p) c (clock p) (tolerance p) | None => p end.
Definition WithBaseURL (base : bytes) : StripeOption := λ p,
  if decide (base = []) then p
  else mkStripe (apiKey p) (whSecret p) (TrimRightSlash base) (client p) (clock p) (tolerance p).
Definition WithClock (c : option Clock) : StripeOption := λ p,
  match c with Some c => mkStripe (apiKey p) (whSecret p) (baseURL p) (client p) c (tolerance p) | None => p end.
Definition WithWebhookTolerance (d : Z) : StripeOption := λ p,
  if d >? 0 then mkStripe (apiKey p) (whSecret p) (baseURL p) (client p) (clock p) d else p.

Definition NewStripeProvider (default_client : http_client) (apiKey webhookSecret : bytes) (opts : list StripeOption)
  : StripeProvider :=
  foldl (λ p opt, opt p) (mkStripe apiKey webhookSecret defaultStripeBaseURL default_client SystemClock defaultWebhookTolerance) opts.

(** ** Checkout *)

Definition checkoutMode (tier : Tier) : bytes := if decide (tier = TierHosted) then gs "subscription" else gs "payment".

Definition form_fields (subject : bytes) (tier : Tier) : list (bytes * bytes) :=
  [(gs "client_reference_id", subject); (gs "metadata[subject]", subject);
   (gs "metadata[tier]", tier); (gs "mode", checkoutMode tier)].

Definition checkout_request (p : StripeProvider) (subject : bytes) (tier : Tier) : request :=
  mkRequest (baseURL p ++ gs "/v1/checkout/sessions") (encode_form (form_fields subject tier))
    (gs "Bearer " ++ apiKey p) (gs "application/x-www-form-urlencoded").

(** The anonymous response struct: id and url. *)
Definition checkout_member (out : bytes * bytes) (key : bytes) (v : Json.json) : option (bytes * bytes) :=
  if Json.key_is (gs "id") key then id ← Json.set_string out.1 v; Some (id, out.2)
  else if Json.key_is (gs "url") key then url ← Json.set_string out.2 v; Some (out.1, url)
  else Some out.

Definition StripeCreateCheckout (p : StripeProvider) (subject : bytes) (tier : Tier)
  : StripeProvider * result error CheckoutSession :=
  if decide (subject = []) then (p, Err (ProviderError "checkout" "empty subject")) else
  if negb (validTier tier) then (p, Err (ProviderError "checkout" "unknown tier")) else
  match client p (checkout_request p subject tier) with
  | None => (p, Err (ProviderError "checkout" "request"))
  | Some resp =>
      match Body resp with
      | None => (p, Err (ProviderError "checkout" "read"))
      | Some body =>
          let body := take (Z.to_nat (2 ^ 20)) body in
          if (StatusCode resp <? 200) || (StatusCode resp >=? 300)
          then (p, Err (ProviderError "checkout" "stripe responded")) else
          match (doc ← Json.parse body; Json.set_struct checkout_member ([], []) doc) with
          | None => (p, Err (ProviderError "checkout" "decode response"))
          | Some (id, url) =>
              if decide (id = []) then (p, Err (ProviderError "checkout" "stripe response missing session id"))
              else (p, Ok (mkCheckout id subject tier url))
          end
      end
  end.

(** ** Webhooks *)

(** The fields of [stripeEvent], flat. *)
Record stripeEvent := mkStripeEvent { eType : bytes; ClientReferenceID : bytes; MetaSubject : bytes; MetaTier : bytes }.

Definition metadata_member (e : stripeEvent) (key : bytes) (v : Json.json) : option stripeEvent :=
  if Json.key_is (gs "subject") key then
    s ← Json.set_string (MetaSubject e) v; Some (mkStripeEvent (eType e) (ClientReferenceID e) s (MetaTier e))
  else if Json.key_is (gs "tier") key then
    t ← Json.set_string (MetaTier e) v; Some (mkStripeEvent (eType e) (ClientReferenceID e) (MetaSubject e) t)
  else Some e.

Definition object_member (e : stripeEvent) (key : bytes) (v : Json.json) : option stripeEvent :=
  if Json.key_is (gs "client_reference_id") key then
    c ← Json.set_string (ClientReferenceID e) v; Some (mkStripeEvent (eType e) c (MetaSubject e) (MetaTier e))
  else if Json.key_is (gs "metadata") key then Json.set_struct metadata_member e v
  else Some e.

Definition data_member (e : stripeEvent) (key : bytes) (v : Json.json) : option stripeEvent :=
  if Json.key_is (gs "object") key then Json.set_struct object_member e v else Some e.

Definition event_member (e : stripeEvent) (key : bytes) (v : Json.json) : option stripeEvent :=
  if Json.key_is (gs "type") key then
    t ← Json.set_string (eType e) v; Some (mkStripeEvent t (ClientReferenceID e) (MetaSubject e) (MetaTier e))
  else if Json.key_is (gs "data") key then Json.set_struct data_member e v
  else Some e.

(** [json.Unmarshal(payload, &ev)]. *)
Definition decode_event (payload : bytes) : option stripeEvent :=
  doc ← Json.parse payload; Json.set_struct event_member (mkStripeEvent [] [] [] []) doc.

(** The loop of [parseStripeSignature]; [None] is a malformed timestamp. *)
Fixpoint signature_parts (ts : option Z) (v1s : list bytes) (parts : list bytes) : option (option Z * list bytes) :=
  match parts with
  | [] => Some (ts, v1s)
  | part :: parts =>
      match Strings.cut "="%char (Strings.trim_space part) with
      | None => signature_parts ts v1s parts
      | Some (k, v) =>
          if decide (k = gs "t") then
            match Strconv.parse_int v with
            | None => None
            | Some n => signature_parts (Some n) v1s parts
            end
          else if decide (k = gs "v1") then
            signature_parts ts (if decide (v = []) then v1s else v1s ++ [v]) parts
          else signature_parts ts v1s parts
      end
  end.

Definition parseStripeSignature (header : bytes) : result string (Z * list bytes) :=
  if decide (header = []) then Err "empty signature header"%string else
  match signature_parts None [] (Strings.split ","%char header) with
  | None => Err "malformed timestamp"%string
  | Some (None, _) => Err "missing timestamp"%string
  | Some (Some ts, v1s) => if decide (v1s = []) then Err "missing v1 signature"%string else Ok (ts, v1s)
  end.

(** [matched] is not reset: every candidate is compared. *)
Definition anyHexEqual (candidates : list bytes) (want : bytes) : bool :=
  foldl (λ matched c,
    match Hex.decode c with
    | None => matched
    | Some got => if decide (got = want) then true else matched
    end) false candidates.

Section ops.
Context `{HMAC}.

Definition signed_payload (ts : Z) (payload : bytes) : bytes := Strconv.format_int ts ++ "."%char :: payload.

Definition StripeVerifyWebhook (p : StripeProvider) (now : Time) (payload signature : bytes)
  : result error PaymentEvent :=
  match parseStripeSignature signature with
  | Err msg => Err (ProviderError "webhook" msg)
  | Ok (ts, sigs) =>
      let skew := Sub (clock p now) (Unix ts) in
      let skew := abs_duration skew in
      if skew >? tolerance p then Err (ProviderError "webhook" "timestamp outside tolerance") else
      let want := hmac_sha256 (whSecret p) (signed_payload ts payload) in
      if negb (anyHexEqual sigs want) then Err (ProviderError "webhook" "signature mismatch") else
      match decode_event payload with
      | None => Err (ProviderError "webhook" "decode event")
      | Some ev =>
          if decide (eType ev ≠ gs "checkout.session.completed")
          then Err (ProviderError "webhook" "unhandled event type") else
          let subject := if decide (ClientReferenceID ev = []) then MetaSubject ev else ClientReferenceID ev in
          if decide (subject = []) then Err (ProviderError "webhook" "event missing subject") else
          let tier := MetaTier ev in
          if negb (validTier tier) then Err (ProviderError "webhook" "unknown tier") else
          Ok (mkEvent subject tier true)
      end
  end.

#[export] Instance StripeProvider_provider : PaymentProvider StripeProvider :=
  {| CreateCheckout := StripeCreateCheckout; VerifyWebhook := StripeVerifyWebhook |}.

End ops.

(** ** Lemmas: the form *)

(** [url.QueryUnescape] and [url.ParseQuery], what the receiver of the form runs. *)
Fixpoint QueryUnescape (s : bytes) : option bytes :=
  match s with
  | [] => Some []
  | c :: s =>
      if decide (c = "%"%char) then
        match s with
        | a :: b :: s =>
            match Hex.nibble a, Hex.nibble b, QueryUnescape s with
            | Some x, Some y, Some r => Some (z2b (x * 16 + y) :: r)
            | _, _, _ => None
            end
        | _ => None
        end
      else match QueryUnescape s with Some r => Some ((if decide (c = "+"%char) then z2b 32 else c) :: r) | None => None end
  end.

Definition parse_field (f : bytes) : option (bytes * bytes) :=
  let '(k, v) := match Strings.cut "="%char f with Some (k, v) => (k, v) | None => (f, []) end in
  k ← QueryUnescape k; v ← QueryUnescape v; Some (k, v).
Definition ParseQuery (s : bytes) : option (list (bytes * bytes)) := mapM parse_field (Strings.split "&"%char s).

Lemma every_byte (P : byte → bool) c : forallb (λ n, P (z2b (Z.of_nat n))) (seq 0 256) = true → P c = true.
Proof.
  intros Hall. rewrite forallb_forall in Hall. pose proof (b2z_range c).
  specialize (Hall (Z.to_nat (b2z c)) ltac:(apply in_seq; lia)). by rewrite Z2Nat.id, z2b_b2z in Hall by lia.
Qed.

Definition escape_ok (c : byte) : bool :=
  bool_decide ("&"%char ∉ escape_byte c) && bool_decide ("="%char ∉ escape_byte c) &&
  match escape_byte c with
  | [e] => bool_decide (e ≠ "%"%char) && bool_decide ((if decide (e = "+"%char) then z2b 32 else e) = c)
  | [p; a; b] => bool_decide (p = "%"%char) &&
      match Hex.nibble a, Hex.nibble b with Some x, Some y => bool_decide (z2b (x * 16 + y) = c) | _, _ => false end
  | _ => false
  end.

Lemma escape_byte_shape c :
  ("&"%char ∉ escape_byte c) ∧ ("="%char ∉ escape_byte c) ∧
  ((∃ e, escape_byte c = [e] ∧ e ≠ "%"%char ∧ (if decide (e = "+"%char) then z2b 32 else e) = c) ∨
   (∃ a b x y, escape_byte c = ["%"%char; a; b] ∧ Hex.nibble a = Some x ∧ Hex.nibble b = Some y ∧ z2b (x * 16 + y) = c)).
Proof.
  assert (escape_ok c = true) as Hb by (apply every_byte; vm_compute; reflexivity). unfold escape_ok in Hb.
  apply andb_true_iff in Hb as [[H1%bool_decide_eq_true_1 H2%bool_decide_eq_true_1]%andb_true_iff Hb].
  split_and!; [done|done|]. destruct (escape_byte c) as [|e [|a [|b [|? ?]]]]; try done.
  - left. exists e. apply andb_true_iff in Hb as [?%bool_decide_eq_true_1 ?%bool_decide_eq_true_1]. done.
  - right. apply andb_true_iff in Hb as [->%bool_decide_eq_true_1 Hb].
    destruct (Hex.nibble a) as [x|] eqn:Hx; [|done]. destruct (Hex.nibble b) as [y|] eqn:Hy; [|done].
    apply bool_decide_eq_true_1 in Hb. by exists a, b, x, y.
Qed.

Lemma unescape_escape s : QueryUnescape (QueryEscape s) = Some s.
Proof.
  induction s as [|c s IH]; [done|]. unfold QueryEscape in *. cbn [map concat].
  destruct (escape_byte_shape c) as (_ & _ & [(e & -> & He & Hc)|(a & b & x & y & -> & Ha & Hb & Hc)]); cbn [app QueryUnescape].
  - rewrite decide_False by done. by rewrite IH, Hc.
  - rewrite decide_True by done. by rewrite Ha, Hb, IH, Hc.
Qed.

Lemma escape_clean s c : c ∈ QueryEscape s → c ≠ "&"%char ∧ c ≠ "="%char.
Proof.
  unfold QueryEscape. intros (l & (b & <- & _)%in_map_iff & Hl%list_elem_of_In)%list_elem_of_In%in_concat.
  destruct (escape_byte_shape b) as (H1 & H2 & _). split; by intros ->.
Qed.

Lemma parse_field_encode k v : parse_field (QueryEscape k ++ "="%char :: QueryEscape v) = Some (k, v).
Proof.
  unfold parse_field. rewrite Strings.cut_app by (intros [_ ?]%escape_clean; done).
  by rewrite !unescape_escape.
Qed.

Lemma form_roundtrip fields : fields ≠ [] → ParseQuery (encode_form fields) = Some fields.
Proof.
  intros Hne. unfold ParseQuery, encode_form. rewrite Strings.split_join.
  - clear Hne. induction fields as [|[k v] fields IH]; [done|]. cbn [map fst snd].
    change (mapM parse_field (?x :: ?l)) with (y ← parse_field x; ys ← mapM parse_field l; Some (y :: ys)).
    rewrite parse_field_encode. cbn [mbind option_bind]. by rewrite IH.
  - by destruct fields.
  - apply Forall_map, Forall_forall. intros [k v] _. cbn [fst snd].
    rewrite elem_of_app, elem_of_cons. intros [[? _]%escape_clean|[?|[? _]%escape_clean]]; done.
Qed.

(** ** Lemmas: the signature header *)

(** The parts of the header that carry a v1 signature. *)
Definition v1_part (v part : bytes) : Prop :=
  Strings.cut "="%char (Strings.trim_space part) = Some (gs "v1", v) ∧ v ≠ [].
Definition t_part (ts : Z) (part : bytes) : Prop :=
  ∃ v, Strings.cut "="%char (Strings.trim_space part) = Some (gs "t", v) ∧ Strconv.parse_int v = Some ts.

Lemma signature_parts_spec ts v1s parts ts' v1s' :
  signature_parts ts v1s parts = Some (ts', v1s') →
  (∀ v, v ∈ v1s' ↔ v ∈ v1s ∨ ∃ part, part ∈ parts ∧ v1_part v part) ∧
  (ts' = ts ∨ ∃ part n, part ∈ parts ∧ t_part n part ∧ ts' = Some n).
Proof.
  revert ts v1s. induction parts as [|part parts IH]; intros ts v1s; cbn [signature_parts].
  { intros [= <- <-]. split; [set_solver|by left]. }
  destruct (Strings.cut "="%char (Strings.trim_space part)) as [[k v]|] eqn:Hcut.
  2: { intros [H1 H2]%IH. split.
       - intros x. rewrite H1. split; [set_solver|]. intros [?|(q & [->|?]%elem_of_cons & Hq)]; [by left| |right; by exists q].
         destruct Hq as [Hq _]. congruence.
       - destruct H2 as [?|(q & n & ? & ? & ?)]; [by left|right]. exists q, n. set_solver. }
  assert (∀ ts'' v1s'', (∀ x, x ∈ v1s'' ↔ x ∈ v1s ∨ v1_part x part) →
    (ts'' = ts ∨ ∃ n, t_part n part ∧ ts'' = Some n) →
    signature_parts ts'' v1s'' parts = Some (ts', v1s') →
    (∀ x, x ∈ v1s' ↔ x ∈ v1s ∨ ∃ q, q ∈ part :: parts ∧ v1_part x q) ∧
    (ts' = ts ∨ ∃ q n, q ∈ part :: parts ∧ t_part n q ∧ ts' = Some n)) as Hstep.
  { intros ts'' v1s'' Hv Ht [H1 H2]%IH. split.
    - intros x. rewrite H1, Hv. setoid_rewrite elem_of_cons. naive_solver.
    - setoid_rewrite elem_of_cons. destruct H2 as [->|(q & n & ? & ? & ?)]; [|right; exists q, n; naive_solver].
      destruct Ht as [->|(n & ? & ->)]; [by left|right; exists part, n; naive_solver]. }
  assert (∀ x, v1_part x part ↔ k = gs "v1" ∧ x = v ∧ v ≠ []) as Hp
    by (intros x; unfold v1_part; rewrite Hcut; naive_solver).
  case_decide as Hk; [|case_decide as Hk1].
  - destruct (Strconv.parse_int v) as [n|] eqn:Hn; [|done]. apply Hstep; [|right; exists n; split; [|done]].
    + intros x. rewrite Hp. subst k. split; [by left|]. intros [?|[? _]]; done.
    + exists v. by subst k.
  - apply Hstep; [|by left]. intros x. rewrite Hp. case_decide; [naive_solver|]. set_solver.
  - apply Hstep; [|by left]. intros x. rewrite Hp. naive_solver.
Qed.

Lemma anyHexEqual_spec cs want : anyHexEqual cs want = true ↔ ∃ c, c ∈ cs ∧ Hex.decode c = Some want.
Proof.
  unfold anyHexEqual. assert (∀ b, foldl (λ matched c, match Hex.decode c with
    | None => matched | Some got => if decide (got = want) then true else matched end) b cs = true ↔
    b = true ∨ ∃ c, c ∈ cs ∧ Hex.decode c = Some want) as Hg.
  2: { rewrite Hg. naive_solver. }
  induction cs as [|c cs IH]; intros b; cbn [foldl]; [set_solver|]. rewrite IH. setoid_rewrite elem_of_cons.
  destruct (Hex.decode c) as [got|] eqn:Hc; [case_decide|]; naive_solver.
Qed.

(** The header Stripe sends. *)
Definition stripe_header (ts : Z) (mac : bytes) : bytes :=
  gs "t=" ++ Strconv.format_int ts ++ ","%char :: gs "v1=" ++ Hex.encode mac.

Lemma parse_header ts mac :
  0 ≤ ts < 2 ^ 63 → mac ≠ [] → parseStripeSignature (stripe_header ts mac) = Ok (ts, [Hex.encode mac]).
Proof.
  intros Hts Hmac. unfold parseStripeSignature, stripe_header. rewrite decide_False by done.
  pose proof (Strconv.format_nat_digits ts ltac:(lia)) as Hd. pose proof (Hex.encode_digits mac) as Hx.
  rewrite Forall_forall in Hd, Hx.
  assert (∀ c : byte, c ∈ gs "t=" ++ Strconv.format_int ts → Strings.graphic c ∧ c ≠ ","%char) as Ht.
  { intros c [[->|[->|[]%elem_of_nil]%elem_of_cons]%elem_of_cons|Hc%Hd]%elem_of_app.
    1, 2: by vm_compute. split; [unfold Strings.graphic; lia|]. intros ->. change (b2z ","%char) with 44 in Hc. lia. }
  assert (∀ c : byte, c ∈ gs "v1=" ++ Hex.encode mac → Strings.graphic c ∧ c ≠ ","%char) as Hv.
  { intros c [[->|[->|[->|[]%elem_of_nil]%elem_of_cons]%elem_of_cons]%elem_of_cons|Hc%Hx]%elem_of_app.
    1, 2, 3: by vm_compute. split; [unfold Strings.graphic; lia|]. intros ->. change (b2z ","%char) with 44 in Hc. lia. }
  rewrite app_assoc, Strings.split_app by (intros [_ ?]%Ht; done).
  rewrite Strings.split_nosep by (intros [_ ?]%Hv; done). cbn [signature_parts].
  rewrite Strings.trim_graphic by (apply Forall_forall; intros c ?; by apply Ht).
  assert (∀ s, Strings.cut "="%char (gs "t=" ++ s) = Some (gs "t", s)) as -> by done.
  rewrite decide_True by done. rewrite Strconv.parse_format_int by (unfold is_i64; lia).
  rewrite Strings.trim_graphic by (apply Forall_forall; intros c ?; by apply Hv).
  assert (∀ s, Strings.cut "="%char (gs "v1=" ++ s) = Some (gs "v1", s)) as -> by done.
  assert (Hex.encode mac ≠ []).
  { intros E. apply (f_equal length) in E. rewrite Hex.length_encode in E. destruct mac; [done|cbn in E; lia]. }
  rewrite decide_False, decide_True by done. rewrite (decide_False (P := Hex.encode mac = [])) by done. done.
Qed.

Section webhooks.
Context `{HMAC}.

Lemma no_dot ts : 0 ≤ ts < 2 ^ 63 → "."%char ∉ Strconv.format_int ts.
Proof.
  intros Hts Hin. pose proof (Strconv.format_nat_digits ts ltac:(lia)) as Hd. rewrite Forall_forall in Hd.
  apply Hd in Hin. change (b2z "."%char) with 46 in Hin. lia.
Qed.

(** The MAC covers the timestamp and the payload without ambiguity. *)
Lemma signed_payload_inj ts payload ts' payload' :
  0 ≤ ts < 2 ^ 63 → 0 ≤ ts' < 2 ^ 63 → signed_payload ts payload = signed_payload ts' payload' →
  ts = ts' ∧ payload = payload'.
Proof.
  intros Hts Hts' E. unfold signed_payload in E. apply (f_equal (Strings.cut "."%char)) in E.
  rewrite !Strings.cut_app in E.
  2, 3: by apply no_dot.
  injection E as E1 E2. split; [|done]. apply (f_equal Strconv.parse_int) in E1.
  rewrite !Strconv.parse_format_int in E1 by (unfold is_i64; lia). by injection E1.
Qed.

(** ** Properties *)

(** The subject an event is for. *)
Definition subject_of (e : stripeEvent) : bytes := if decide (ClientReferenceID e = []) then MetaSubject e else ClientReferenceID e.

(** C31: Only Stripe can report a payment.  A webhook is accepted only if its
    signature header carries a timestamp and a v1 signature that is the HMAC, under
    the webhook secret, of that timestamp and this exact payload; the timestamp is
    within the tolerance of the provider's clock (or 292 years in the future, where the
    duration saturates); and the payload is a completed checkout with a subject and
    the hosted tier, which is what the event reports. *)
Theorem stripe_webhook_sound (p : StripeProvider) (now : Time) (payload signature : bytes) (ev : PaymentEvent) :
  plain (clock p now) → 0 ≤ tolerance p < maxDuration →
  StripeVerifyWebhook p now payload signature = Ok ev →
  ∃ ts v e,
    (∃ part, part ∈ Strings.split ","%char signature ∧ t_part ts part) ∧
    (∃ part, part ∈ Strings.split ","%char signature ∧ v1_part v part) ∧
    Hex.decode v = Some (hmac_sha256 (whSecret p) (signed_payload ts payload)) ∧
    (Z.abs (nanos (clock p now) - nanos (Unix ts)) ≤ tolerance p ∨ nanos (clock p now) - nanos (Unix ts) ≤ minDuration) ∧
    decode_event payload = Some e ∧ eType e = gs "checkout.session.completed" ∧ MetaTier e = TierHosted ∧
    subject_of e ≠ [] ∧ ev = mkEvent (subject_of e) TierHosted true.
Proof.
  intros Hnow Htol. unfold StripeVerifyWebhook, parseStripeSignature. case_decide; [done|].
  destruct (signature_parts None [] (Strings.split ","%char signature)) as [[[ts|] sigs]|] eqn:Hsig; try done.
  case_decide; [done|]. rewrite skew_spec by (done || apply Unix_wf). rewrite Z.gtb_ltb.
  destruct (Z.ltb_spec (tolerance p) (if nanos (clock p now) - nanos (Unix ts) <=? minDuration then minDuration
    else Z.min maxDuration (Z.abs (nanos (clock p now) - nanos (Unix ts))))) as [|Hskew]; [done|].
  destruct (anyHexEqual sigs _) eqn:Hany; cbn [negb]; [|done].
  destruct (decode_event payload) as [e|] eqn:He; [|done]. case_decide as Hty; [done|].
  fold (subject_of e). case_decide as Hs; [done|]. unfold validTier. case_bool_decide as Ht; cbn [negb]; [|done].
  intros [= <-]. apply signature_parts_spec in Hsig as [Hv1 Hts].
  apply anyHexEqual_spec in Hany as (v & Hv & Hdec). apply Hv1 in Hv as [[]%elem_of_nil|Hv].
  destruct Hts as [|(part & n & Hin & Hn & [= <-])]; [done|]. exists ts, v, e.
  split; [by exists part|]. split; [done|]. split; [done|]. split.
  { destruct (Z.leb_spec (nanos (clock p now) - nanos (Unix ts)) minDuration); [by right|left]. lia. }
  split; [done|]. split; [done|]. split; [done|]. split; [done|]. by rewrite Ht.
Qed.

(** C32: Payment opens the gate, end to end.  For every event document of ASCII
    strings and natural numbers that decodes to a completed checkout of the hosted
    tier for a subject without the token separator, sent by Stripe (printed,
    signed under the webhook secret, with a timestamp within the tolerance of the
    provider's clock), the service mints a token, and the hosted gate admits that token, with
    the payer as subject, until it expires. *)
Theorem stripe_payment_admits `{!HMACLaws} (s : Service StripeProvider) (p : StripeProvider) (doc : Json.json)
    (e : stripeEvent) (ts : Z) (now now' : Time) :
  SMode s = ModeHosted → Key s ≠ [] → Provider s = Some p →
  Json.printable doc → (Json.depth_of doc ≤ Json.maxNestingDepth)%nat →
  Json.set_struct event_member (mkStripeEvent [] [] [] []) doc = Some e →
  eType e = gs "checkout.session.completed" → MetaTier e = TierHosted → subject_of e ≠ [] → bar ∉ subject_of e →
  plain (clock p now) → 0 ≤ ts < 2 ^ 63 → Z.abs (nanos (clock p now) - nanos (Unix ts)) ≤ tolerance p < maxDuration →
  0 < unix (Add now (TokenTTL s)) → unix now' ≤ unix (Add now (TokenTTL s)) →
  let payload := Json.print doc in
  let header := stripe_header ts (hmac_sha256 (whSecret p) (signed_payload ts payload)) in
  ∃ tok, OnPaymentEvent s now payload header = Ok tok ∧
    Admit s tok now' = Ok (mkClaims (subject_of e) TierHosted (unix (Add now (TokenTTL s)))).
Proof.
  intros Hm Hk Hp Hpr Hd Hdoc Hty Htier Hs Hbar Hnow Hts Htol Hpos Hexp payload header.
  assert (VerifyWebhook p now payload header = Ok (mkEvent (subject_of e) TierHosted true)) as Hv.
  { cbn [VerifyWebhook StripeProvider_provider]. unfold StripeVerifyWebhook, header. rewrite parse_header; [|done|].
    2: { intros E. apply (f_equal length) in E. by rewrite hmac_length in E. }
    rewrite skew_spec by (done || apply Unix_wf). rewrite Z.gtb_ltb.
    destruct (Z.leb_spec (nanos (clock p now) - nanos (Unix ts)) minDuration); [unfold minDuration, maxDuration in *; lia|].
    destruct (Z.ltb_spec (tolerance p) (Z.min maxDuration (Z.abs (nanos (clock p now) - nanos (Unix ts))))); [lia|].
    assert (anyHexEqual [Hex.encode (hmac_sha256 (whSecret p) (signed_payload ts payload))]
      (hmac_sha256 (whSecret p) (signed_payload ts payload)) = true) as ->.
    { apply anyHexEqual_spec. eexists. split; [by left|]. apply Hex.hex_decode_encode. }
    cbn [negb]. unfold decode_event, payload. rewrite Json.parse_print by done. cbn [mbind option_bind]. rewrite Hdoc.
    rewrite decide_False by (intros Hne; by apply Hne). fold (subject_of e). rewrite decide_False by done.
    unfold validTier. by rewrite Htier, bool_decide_eq_true_2. }
  set (c := mkClaims (subject_of e) TierHosted (unix (Add now (TokenTTL s)))).
  assert (issuable c) as Hc by by split_and!.
  exists (token_of c (Key s)). unfold OnPaymentEvent. rewrite Hp, decide_False by by destruct (Key s).
  rewrite Hv. cbn [Paid negb evSubject evTier]. split; [by apply Issue_inv|].
  unfold Admit. rewrite Hm, decide_False by by destruct (Key s).
  rewrite decide_False by (unfold token_of; intros E%app_nil; naive_solver).
  rewrite Verify_token by (done || apply i64_range). cbn [c Expiry]. rewrite Z.gtb_ltb.
  destruct (Z.ltb_spec (unix (Add now (TokenTTL s))) (unix now')); [lia|].
  rewrite decide_False; [done|]. intros Hne. by apply Hne.
Qed.

End webhooks.

(** A checkout is what was asked for.  A session is returned only for a
    subject and the hosted tier, after one request to the checkout endpoint, under
    the API key, whose form is read back as exactly that subject and tier in
    subscription mode; the answer was a success whose document carries the
    session's non-empty id and its URL. *)
Theorem stripe_checkout_sound (p p' : StripeProvider) (subject : bytes) (tier : Tier) (sess : CheckoutSession) :
  StripeCreateCheckout p subject tier = (p', Ok sess) →
  p' = p ∧ subject ≠ [] ∧ tier = TierHosted ∧ csSubject sess = subject ∧ csTier sess = tier ∧
  ∃ req resp body doc, client p req = Some resp ∧ 200 ≤ StatusCode resp < 300 ∧ Body resp = Some body ∧
    rURL req = baseURL p ++ gs "/v1/checkout/sessions" ∧ rAuthorization req = gs "Bearer " ++ apiKey p ∧
    ParseQuery (rBody req) = Some [(gs "client_reference_id", subject); (gs "metadata[subject]", subject);
      (gs "metadata[tier]", gs "hosted"); (gs "mode", gs "subscription")] ∧
    Json.parse (take (Z.to_nat (2 ^ 20)) body) = Some doc ∧
    Json.set_struct checkout_member ([], []) doc = Some (ID sess, URL sess) ∧ ID sess ≠ [].
Proof.
  unfold StripeCreateCheckout. case_decide; [done|]. unfold validTier. case_bool_decide as Ht; cbn [negb]; [|done].
  destruct (client p (checkout_request p subject tier)) as [resp|] eqn:Hc; [|done].
  destruct (Body resp) as [body|] eqn:Hb; [|done]. rewrite Z.geb_leb.
  destruct (Z.ltb_spec (StatusCode resp) 200), (Z.leb_spec 300 (StatusCode resp)); cbn [orb]; try done.
  destruct (Json.parse _) as [doc|] eqn:Hdoc; [|done]. cbn [mbind option_bind].
  destruct (Json.set_struct checkout_member ([], []) doc) as [[id url]|] eqn:Hset; [|done].
  case_decide; [done|]. intros [= <- <-]. split_and!; try done.
  exists (checkout_request p subject tier), resp, body, doc. split_and!; try done.
  subst tier. unfold checkout_request. cbn [rBody]. by rewrite form_roundtrip.
Qed.

(** ** Witnesses, at the toy primitives *)

Module Witness.
Import Toy.

Definition doc1 : Json.json :=
  Json.JObject
    [(gs "id", Json.JString (gs "evt_1")); (gs "created", Json.JNumber (gs "1767225590"));
     (gs "livemode", Json.JBool true); (gs "type", Json.JString (gs "checkout.session.completed"));
     (gs "data", Json.JObject [(gs "object", Json.JObject
        [(gs "client_reference_id", Json.JString (gs "cus_42"));
         (gs "metadata", Json.JObject [(gs "tier", Json.JString (gs "hosted"))])])])].
Definition event1 : stripeEvent := mkStripeEvent (gs "checkout.session.completed") (gs "cus_42") [] (gs "hosted").

Definition client1 : http_client := λ _,
  Some (mkResponse 200 (Some (Json.print (Json.JObject
    [(gs "id", Json.JString (gs "cs_1")); (gs "url", Json.JString (gs "https://checkout.stripe.com/c/cs_1"))])))).
Definition stripe1 : StripeProvider := NewStripeProvider client1 (gs "sk_test") (gs "whsec") [WithBaseURL (gs "https://api.example/")].
Definition service1 : Service StripeProvider := mkService ModeHosted (gs "signing-key") (Some stripe1) (30 * 24 * Hour).
Definition now1 : Time := Unix 1767225600.
Definition payload1 : bytes := Json.print doc1.
Definition header1 : bytes := stripe_header 1767225590 (hmac_sha256 (whSecret stripe1) (signed_payload 1767225590 payload1)).

Lemma stripe_now_plain : plain now1.
Proof. vm_compute. repeat split; congruence. Qed.

Ltac show_printable :=
  lazymatch goal with
  | |- Forall id [] => apply Forall_nil_2
  | |- Forall id (_ :: _) => apply Forall_cons_2; show_printable
  | |- id ?P => change P; show_printable
  | |- _ ∧ _ => split; show_printable
  | |- True => exact I
  | |- _ => apply (bool_decide_unpack _); vm_compute; exact I
  end.

Lemma doc1_printable : Json.printable doc1.
Proof. unfold doc1, Json.printable. cbn [Json.printable_by map fst snd]. unfold Utf8.is_ascii. show_printable. Qed.

Lemma stripe_webhook_sound_witness :
  ∃ ts v e,
    (∃ part, part ∈ Strings.split ","%char header1 ∧ t_part ts part) ∧
    (∃ part, part ∈ Strings.split ","%char header1 ∧ v1_part v part) ∧
    Hex.decode v = Some (hmac_sha256 (whSecret stripe1) (signed_payload ts payload1)) ∧
    (Z.abs (nanos (clock stripe1 now1) - nanos (Unix ts)) ≤ tolerance stripe1 ∨ nanos (clock stripe1 now1) - nanos (Unix ts) ≤ minDuration) ∧
    decode_event payload1 = Some e ∧ eType e = gs "checkout.session.completed" ∧ MetaTier e = TierHosted ∧
    subject_of e ≠ [] ∧ mkEvent (gs "cus_42") TierHosted true = mkEvent (subject_of e) TierHosted true.
Proof.
  apply (stripe_webhook_sound stripe1 now1 payload1 header1).
  - apply stripe_now_plain.
  - vm_compute. split; congruence.
  - vm_compute. reflexivity.
Defined.

Lemma stripe_payment_admits_witness :
  ∃ tok, OnPaymentEvent service1 now1 payload1 header1 = Ok tok ∧
    Admit service1 tok (Unix 1767225700) =
    Ok (mkClaims (subject_of event1) TierHosted (unix (Add now1 (TokenTTL service1)))).
Proof.
  apply (stripe_payment_admits service1 stripe1 doc1 event1 1767225590 now1 (Unix 1767225700)).
  - reflexivity.
  - discriminate.
  - reflexivity.
  - apply doc1_printable.
  - apply (bool_decide_unpack _). vm_compute. exact I.
  - vm_compute. reflexivity.
  - reflexivity.
  - reflexivity.
  - discriminate.
  - apply (bool_decide_unpack _). vm_compute. exact I.
  - apply stripe_now_plain.
  - lia.
  - vm_compute. split; congruence.
  - vm_compute. reflexivity.
  - vm_compute. congruence.
Defined.

Lemma stripe_checkout_sound_witness :
  stripe1 = stripe1 ∧ gs "cus_42" ≠ [] ∧ TierHosted = TierHosted ∧ gs "cus_42" = gs "cus_42" ∧ TierHosted = TierHosted ∧
  ∃ req resp body doc, client stripe1 req = Some resp ∧ 200 ≤ StatusCode resp < 300 ∧ Body resp = Some body ∧
    rURL req = baseURL stripe1 ++ gs "/v1/checkout/sessions" ∧ rAuthorization req = gs "Bearer " ++ apiKey stripe1 ∧
    ParseQuery (rBody req) = Some [(gs "client_reference_id", gs "cus_42"); (gs "metadata[subject]", gs "cus_42");
      (gs "metadata[tier]", gs "hosted"); (gs "mode", gs "subscription")] ∧
    Json.parse (take (Z.to_nat (2 ^ 20)) body) = Some doc ∧
    Json.set_struct checkout_member ([], []) doc = Some (gs "cs_1", gs "https://checkout.stripe.com/c/cs_1") ∧ gs "cs_1" ≠ [].
Proof.
  apply (stripe_checkout_sound stripe1 stripe1 (gs "cus_42") TierHosted
    (mkCheckout (gs "cs_1") (gs "cus_42") TierHosted (gs "https://checkout.stripe.com/c/cs_1"))).
  vm_compute. reflexivity.
Defined.

End Witness.
End Stripe.
