(* ===== verification/GoFlag.v ===== *)
(** * Package flag, as the command-line tool uses it

    [FlagSet.Parse] with [ContinueOnError] over string, int, bool and duration flags:
    one or two minus signs, [-name=value] or [-name value], bool flags that take
    no separate value, [--] and the first non-flag argument ending the flags, and
    the help request.  The value syntaxes are [strconv.ParseInt] with base 0
    (prefixes and underscores) and [strconv.ParseBool].  Usage texts are not
    modelled. *)

From S2P Require Import Prelude GoText GoDuration.

Module Flag.

Definition underscore : byte := "_"%char.
(** [strconv.lower]: letters to lower case, other bytes to themselves with bit 5 set. *)
Definition lower (c : byte) : byte := z2b (Z.lor (b2z c) 32).

(** The base and the digits of an unsigned literal in base 0. *)
Definition literal_base (s : bytes) : Z * bytes :=
  match s with
  | c :: rest =>
      if decide (c = "0"%char) then
        match rest with
        | p :: ds =>
            if decide (ds = []) then (8, rest)
            else if decide (lower p = "b"%char) then (2, ds)
            else if decide (lower p = "o"%char) then (8, ds)
            else if decide (lower p = "x"%char) then (16, ds)
            else (8, rest)
        | [] => (8, rest)
        end
      else (10, s)
  | [] => (10, s)
  end.

Inductive seen := SeenStart | SeenDigit | SeenUnderscore | SeenOther.

Fixpoint underscore_scan (hex : bool) (i : seen) (s : bytes) : bool :=
  match s with
  | [] => match i with SeenUnderscore => false | _ => true end
  | c :: s =>
      if ((48 <=? b2z c) && (b2z c <=? 57)) || (hex && (97 <=? b2z (lower c)) && (b2z (lower c) <=? 102))
      then underscore_scan hex SeenDigit s
      else if decide (c = underscore) then
        match i with SeenDigit => underscore_scan hex SeenUnderscore s | _ => false end
      else match i with SeenUnderscore => false | _ => underscore_scan hex SeenOther s end
  end.

(** [strconv.underscoreOK] of an unsigned literal. *)
Definition underscoreOK (s : bytes) : bool :=
  match s with
  | c :: p :: rest =>
      if decide (c = "0"%char ∧ (lower p = "b"%char ∨ lower p = "o"%char ∨ lower p = "x"%char))
      then underscore_scan (bool_decide (lower p = "x"%char)) SeenDigit rest
      else underscore_scan false SeenStart s
  | _ => underscore_scan false SeenStart s
  end.

(** [strconv.ParseUint(s, 0, 64)]. *)
Definition ParseUint0 (s : bytes) : option Z :=
  if decide (s = []) then None else
  let '(base, ds) := literal_base s in
  n ← Strconv.digits_val base 0 (filter (λ c, c ≠ underscore) ds);
  if n >=? 2 ^ 64 then None
  else if bool_decide (underscore ∈ ds) && negb (underscoreOK s) then None else Some n.

(** [strconv.ParseInt(s, 0, 64)]. *)
Definition ParseInt0 (s : bytes) : option Z :=
  let '(neg, ds) := match s with
    | c :: ds => if decide (c = "-"%char) then (true, ds) else if decide (c = "+"%char) then (false, ds) else (false, s)
    | [] => (false, [])
    end in
  n ← ParseUint0 ds;
  if neg then if n >? 2 ^ 63 then None else Some (- n) else if n >=? 2 ^ 63 then None else Some n.

Definition ParseBool (s : bytes) : option bool :=
  if decide (s ∈ map gs ["1"; "t"; "T"; "TRUE"; "true"; "True"]%string) then Some true
  else if decide (s ∈ map gs ["0"; "f"; "F"; "FALSE"; "false"; "False"]%string) then Some false
  else None.

Inductive kind := KString | KInt | KBool | KDuration.
Inductive val := VString (s : bytes) | VInt (n : Z) | VBool (b : bool) | VDuration (d : Z).
Inductive error := ErrHelp | ErrParse.

Definition set (k : kind) (v : bytes) : option val :=
  match k with
  | KString => Some (VString v)
  | KInt => VInt <$> ParseInt0 v
  | KBool => VBool <$> ParseBool v
  | KDuration => VDuration <$> Duration.ParseDuration v
  end.

(** The defined flags, by name. *)
Definition formal := list (bytes * kind).
Fixpoint find_flag (fs : formal) (name : bytes) : option kind :=
  match fs with [] => None | (n, k) :: fs => if decide (n = name) then Some k else find_flag fs name end.

(** What one argument is. *)
Inductive token := Stop (rest : list bytes) | Bad | Named (name : bytes) (value : option bytes).

Definition equals : byte := "="%char.

(** The name and value of a flag argument: the equals sign is sought from the
    second byte of the name on. *)
Definition token_of (s : bytes) (args : list bytes) : token :=
  match s with
  | m :: c :: rest =>
      if decide (m ≠ "-"%char) then Stop (s :: args) else
      if decide (c = "-"%char ∧ rest = []) then Stop args else
      let name := if decide (c = "-"%char) then rest else c :: rest in
      match name with
      | [] => Bad
      | a :: tail =>
          if decide (a = "-"%char ∨ a = equals) then Bad else
          match Strings.cut equals tail with
          | Some (n, v) => Named (a :: n) (Some v)
          | None => Named (a :: tail) None
          end
      end
  | _ => Stop (s :: args)
  end.

(** [FlagSet.Parse]: the values set, in order, and the remaining arguments. *)
Fixpoint Parse (fs : formal) (args : list bytes) : result error (list (bytes * val) * list bytes) :=
  match args with
  | [] => Ok ([], [])
  | s :: args =>
      match token_of s args with
      | Stop rest => Ok ([], rest)
      | Bad => Err ErrParse
      | Named name value =>
          match find_flag fs name with
          | None => Err (if decide (name = gs "help" ∨ name = gs "h") then ErrHelp else ErrParse)
          | Some KBool =>
              match ParseBool (default (gs "true") value) with
              | None => Err ErrParse
              | Some b =>
                  match Parse fs args with Ok (vs, rest) => Ok ((name, VBool b) :: vs, rest) | Err e => Err e end
              end
          | Some k =>
              match value, args with
              | Some v, _ =>
                  match set k v with
                  | None => Err ErrParse
                  | Some x => match Parse fs args with Ok (vs, rest) => Ok ((name, x) :: vs, rest) | Err e => Err e end
                  end
              | None, v :: args =>
                  match set k v with
                  | None => Err ErrParse
                  | Some x => match Parse fs args with Ok (vs, rest) => Ok ((name, x) :: vs, rest) | Err e => Err e end
                  end
              | None, [] => Err ErrParse
              end
          end
      end
  end.

(** The value of a flag: the last one set, or the default. *)
Definition string_of (vs : list (bytes * val)) (name : bytes) (dflt : bytes) : bytes :=
  foldl (λ cur nv, if decide (nv.1 = name) then match nv.2 with VString s => s | _ => cur end else cur) dflt vs.
Definition int_of (vs : list (bytes * val)) (name : bytes) (dflt : Z) : Z :=
  foldl (λ cur nv, if decide (nv.1 = name) then match nv.2 with VInt n => n | _ => cur end else cur) dflt vs.
Definition bool_of (vs : list (bytes * val)) (name : bytes) (dflt : bool) : bool :=
  foldl (λ cur nv, if decide (nv.1 = name) then match nv.2 with VBool b => b | _ => cur end else cur) dflt vs.
Definition duration_of (vs : list (bytes * val)) (name : bytes) (dflt : Z) : Z :=
  foldl (λ cur nv, if decide (nv.1 = name) then match nv.2 with VDuration d => d | _ => cur end else cur) dflt vs.

(** The values of a repeated flag, in order. *)
Definition strings_of (vs : list (bytes * val)) (name : bytes) : list bytes :=
  omap (λ nv, if decide (nv.1 = name) then match nv.2 with VString s => Some s | _ => None end else None) vs.

Lemma parse_int_examples :
  ParseInt0 (gs "10") = Some 10 ∧ ParseInt0 (gs "0") = Some 0 ∧ ParseInt0 (gs "-0x1F") = Some (-31) ∧
  ParseInt0 (gs "0b101") = Some 5 ∧ ParseInt0 (gs "017") = Some 15 ∧ ParseInt0 (gs "1_000") = Some 1000 ∧
  ParseInt0 (gs "1__0") = None ∧ ParseInt0 (gs "_1") = None ∧ ParseInt0 (gs "0x") = None ∧ ParseInt0 (gs "") = None ∧
  ParseInt0 (gs "9223372036854775808") = None ∧ ParseInt0 (gs "-9223372036854775808") = Some (- 2 ^ 63).
Proof. vm_compute. repeat split. Qed.


(** A parsed int is in the range of the type. *)
Lemma ParseInt0_range s n : ParseInt0 s = Some n → is_i64 n.
Proof.
  unfold ParseInt0. destruct (match s with [] => _ | _ => _ end) as [neg ds].
  destruct (ParseUint0 ds) as [m|] eqn:Hm; [|done]. cbn.
  assert (0 ≤ m) as H0.
  { unfold ParseUint0 in Hm. case_decide; [done|]. assert (0 ≤ (literal_base ds).1) as Hb.
    { unfold literal_base. repeat (case_match; try done). }
    destruct (literal_base ds) as [base l]. destruct (Strconv.digits_val _ _ _) as [x|] eqn:Hx; [|done]. cbn in Hm.
    apply Strconv.digits_val_nonneg in Hx; [|done|lia]. repeat (case_match; try done). by injection Hm as <-. }
  unfold is_i64. rewrite Z.gtb_ltb, Z.geb_leb. destruct neg.
  - destruct (Z.ltb_spec (2 ^ 63) m); [done|]. intros [= <-]. lia.
  - destruct (Z.leb_spec (2 ^ 63) m); [done|]. intros [= <-]. lia.
Qed.

Definition val_ok (x : val) : Prop := match x with VInt n => is_i64 n | _ => True end.

Lemma set_ok k v x : set k v = Some x → val_ok x.
Proof.
  destruct k; cbn; [by intros [= <-]| | |].
  - destruct (ParseInt0 v) as [n|] eqn:Hn; [|done]. intros [= <-]. by apply ParseInt0_range in Hn.
  - destruct (ParseBool v); [|done]. by intros [= <-].
  - destruct (Duration.ParseDuration v); [|done]. by intros [= <-].
Qed.

Lemma Parse_ok n fs args vs rest :
  (length args ≤ n)%nat → Parse fs args = Ok (vs, rest) → Forall (λ nv, val_ok nv.2) vs.
Proof.
  revert args vs rest. induction n as [|n IH]; intros [|s args] vs rest Hn; cbn [length] in Hn; try lia;
    [by intros [= <- _]; constructor..|]. cbn [Parse].
  destruct (token_of s args) as [r| |name value]; [by intros [= <- _]; constructor|done|].
  assert (∀ x args', val_ok x → (length args' ≤ n)%nat →
    match Parse fs args' with Ok (vs, rest) => Ok ((name, x) :: vs, rest) | Err e => Err e end = Ok (vs, rest) →
    Forall (λ nv, val_ok nv.2) vs) as Hcons.
  { intros x args' Hx Hl. destruct (Parse fs args') as [[vs' rest']|] eqn:Hp; [|done]. intros [= <- _].
    constructor; [done|]. by eapply IH. }
  destruct (find_flag fs name) as [k|]; [|done]. destruct k.
  3: { destruct (ParseBool _); [|done]. apply Hcons; [done|lia]. }
  all: destruct value as [v|]; [destruct (set _ v) as [x|] eqn:Hs; [|done]; apply Hcons; [by eapply set_ok|lia]|].
  all: destruct args as [|v args]; [done|]; cbn [length] in *;
    destruct (set _ v) as [x|] eqn:Hs; [|done]; apply Hcons; [by eapply set_ok|lia].
Qed.

Lemma int_of_range vs name dflt : is_i64 dflt → Forall (λ nv, val_ok nv.2) vs → is_i64 (int_of vs name dflt).
Proof.
  intros Hd Hv. unfold int_of. revert dflt Hd. induction Hv as [|[k x] vs Hx _ IH]; intros dflt Hd; cbn [foldl]; [done|].
  apply IH. case_decide; [|done]. by destruct x.
Qed.

End Flag.
