(* ===== verification/JsonEncode.v ===== *)
(** * encoding/json, as an [Encoder] writes a value

    The string escaping of [json.Marshal] with its HTML escapes, the layout of
    [SetIndent] with an empty prefix and two spaces, and the newline of [Encode].
    A Go value is given as the [Json.json] its fields and tags make of it.
    [encode_roundtrip] is the round trip with [json.Unmarshal]: the document comes
    back, with the invalid UTF-8 of its strings replaced. *)

From S2P Require Import Prelude GoText GoUnicode Json.

Module JsonEncode.

Import Json.

(** ** Strings *)

(** [htmlSafeSet]. *)
Definition html_safe (c : byte) : bool :=
  (0x20 <=? b2z c) && negb (bool_decide (c ∈ [quote; backslash; "<"%char; ">"%char; "&"%char])).

(** A byte below [utf8.RuneSelf]. *)
Definition escape_byte (c : byte) : bytes :=
  if html_safe c then [c]
  else if decide (c = backslash ∨ c = quote) then [backslash; c]
  else if b2z c =? 8 then gs "\b" else if b2z c =? 12 then gs "\f" else if b2z c =? 10 then gs "\n"
  else if b2z c =? 13 then gs "\r" else if b2z c =? 9 then gs "\t" else u_escape c.

(** [appendString], without its quotes.  A step consumes at least one byte. *)
Fixpoint chars_fuel (fuel : nat) (s : bytes) : bytes :=
  match fuel, s with
  | S k, c :: s' =>
      if b2z c <? 0x80 then escape_byte c ++ chars_fuel k s' else
      let '(r, rest) := Utf8.decode_rune c s' in
      if bool_decide (r = Utf8.RuneError) && bool_decide (length rest = length s') then gs "\ufffd" ++ chars_fuel k rest
      else if bool_decide (r = 0x2028 ∨ r = 0x2029) then gs "\u202" ++ [Strconv.digit (Z.land r 0xF)] ++ chars_fuel k rest
      else take (S (length s') - length rest) s ++ chars_fuel k rest
  | _, _ => []
  end.
Definition chars (s : bytes) : bytes := chars_fuel (length s) s.

(** ** Documents *)

Definition newline (d : nat) : bytes := z2b 10 :: concat (replicate d (gs "  ")).

(** [Encode], after [SetIndent] with no prefix and two spaces. *)
Definition Encode (j : json) : bytes := print_at chars newline (gs " ") 0 j ++ [z2b 10].

(** ** Lemmas *)

(** The text of a rune: a scan passes over it, and unquoting it gives the rune. *)
Record stands_for (text : bytes) (r : Z) : Prop := {
  sf_scan : ∀ raw s rest, scan_string s = Some (raw, rest) → scan_string (text ++ s) = Some (text ++ raw, rest);
  sf_unquote : ∀ s, unquote (text ++ s) = Utf8.encode_rune r ++ unquote s
}.

Lemma stands_escape a b c d r :
  hex4 a b c d = Some r → is_surrogate r = false → stands_for [backslash; z2b 117; a; b; c; d] r.
Proof.
  intros Hx Hr. split.
  - intros raw s rest Hs. cbn [app scan_string]. rewrite decide_False, decide_True by done. rewrite decide_True by done.
    by rewrite Hx, Hs.
  - intros s. apply unquote_cons_escape; [|done|done]. cbn [app getu4]. rewrite decide_True by done. by rewrite Hx.
Qed.

Lemma stands_simple e r : simple_escape e = Some r → 0 ≤ r < 0x80 → stands_for [backslash; e] r.
Proof.
  intros He Hr. split.
  - intros raw s rest Hs. cbn [app scan_string]. rewrite decide_False, decide_True by done.
    rewrite decide_False by (by intros ->). by rewrite He, Hs.
  - intros s. cbn [app]. rewrite (unquote_simple e r) by done. by rewrite Utf8.encode_small.
Qed.

Lemma stands_plain c : Utf8.is_ascii c → html_safe c = true → stands_for [c] (b2z c).
Proof.
  intros Ha [Hc Hn]%andb_true_iff. apply Z.leb_le in Hc. apply negb_true_iff, bool_decide_eq_false_1 in Hn.
  rewrite !elem_of_cons in Hn. split.
  - intros raw s rest Hs. cbn [app scan_string]. rewrite !decide_False by naive_solver.
    destruct (Z.ltb_spec (b2z c) 32); [lia|]. by rewrite Hs.
  - intros s. rewrite Utf8.encode_ascii by done. apply unquote_step; [done|done|naive_solver].
Qed.

Lemma u_escape_stands c : Utf8.is_ascii c → stands_for (u_escape c) (b2z c).
Proof.
  intros Ha. unfold u_escape. destruct (u_escape_hex c) as (a & b & -> & Hx).
  apply (stands_escape "0"%char "0"%char a b); [done|]. unfold is_surrogate, Utf8.is_ascii in *.
  destruct (Z.leb_spec 0xD800 (b2z c)); [lia|done].
Qed.

Lemma escape_byte_stands c : Utf8.is_ascii c → stands_for (escape_byte c) (b2z c).
Proof.
  intros Ha. unfold escape_byte. destruct (html_safe c) eqn:Hs; [by apply stands_plain|].
  case_decide as Hq; [by apply stands_simple; destruct Hq as [->| ->]|].
  repeat match goal with
  | |- context [b2z c =? ?v] => destruct (Z.eqb_spec (b2z c) v) as [->|]; [by apply stands_simple|]
  end.
  by apply u_escape_stands.
Qed.

Lemma high_bytes_scan m raw s rest :
  Forall Utf8.high m → scan_string s = Some (raw, rest) → scan_string (m ++ s) = Some (m ++ raw, rest).
Proof.
  intros Hm Hs. induction Hm as [|c m Hc _ IH]; [done|]. unfold Utf8.high in Hc. cbn [app scan_string].
  rewrite !decide_False by (by intros ->). destruct (Z.ltb_spec (b2z c) 32); [lia|]. by rewrite IH.
Qed.

Lemma valid_stands c s r rest :
  Utf8.decode_rune c s = (r, rest) → Utf8.high c → (length rest < length s)%nat →
  stands_for (take (S (length s) - length rest) (c :: s)) r.
Proof.
  intros Hd Hc Hl. destruct (Utf8.decode_valid _ _ _ _ Hd Hc Hl) as (m & -> & He & Hm & Ht).
  assert (take (S (length (m ++ rest)) - length rest) (c :: m ++ rest) = c :: m) as ->.
  { rewrite length_app. replace (S (length m + length rest) - length rest)%nat with (S (length m)) by lia.
    cbn [take]. by rewrite take_app_length. }
  split.
  - intros raw u rest' Hu. apply high_bytes_scan; [by constructor|done].
  - intros u. unfold unquote at 1. cbn [app length unquote_fuel]. unfold Utf8.high in Hc.
    rewrite decide_False by (by intros ->). rewrite Ht. f_equal.
    apply (unquote_fuel_enough (length u)); rewrite ?length_app; lia.
Qed.

Lemma line_separator r : r = 0x2028 ∨ r = 0x2029 → stands_for (gs "\u202" ++ [Strconv.digit (Z.land r 0xF)]) r.
Proof. intros [->| ->]; by apply stands_escape. Qed.

Lemma chars_step c s k :
  (length s ≤ k)%nat → ∃ text, chars_fuel (S k) (c :: s) = text ++ chars_fuel k (Utf8.decode_rune c s).2 ∧
    stands_for text (Utf8.decode_rune c s).1.
Proof.
  intros Hk. cbn [chars_fuel]. destruct (Z.ltb_spec (b2z c) 0x80) as [Ha|Hc].
  { rewrite Utf8.decode_ascii by done. exists (escape_byte c). split; [done|]. by apply escape_byte_stands. }
  pose proof (Utf8.decode_rune_shorter c s) as Hs. destruct (Utf8.decode_rune c s) as [r rest] eqn:Hd. cbn [fst snd] in *.
  destruct (bool_decide (r = Utf8.RuneError) && bool_decide (length rest = length s)) eqn:Hi.
  { apply andb_true_iff in Hi as [->%bool_decide_eq_true_1 _]. exists (gs "\ufffd"). split; [done|]. by apply stands_escape. }
  destruct (bool_decide (r = 0x2028 ∨ r = 0x2029)) eqn:Hr.
  { apply bool_decide_eq_true_1 in Hr. exists (gs "\u202" ++ [Strconv.digit (Z.land r 0xF)]). split; [by rewrite <- app_assoc|]. by apply line_separator. }
  exists (take (S (length s) - length rest) (c :: s)). split; [done|]. apply valid_stands; [done|done|].
  apply andb_false_iff in Hi. rewrite !bool_decide_eq_false in Hi.
  destruct (decide (length rest = length s)) as [Hl|]; [|lia]. exfalso.
  destruct Hi as [Hi|]; [|done]. apply Hi. by eapply Utf8.decode_invalid.
Qed.

(** A printed string is parsed back, with its invalid bytes replaced. *)
Lemma chars_parse s rest : parse_string (chars s ++ quote :: rest) = Some (Utf8.coerce s, rest).
Proof.
  assert (∀ n s, (length s ≤ n)%nat →
    scan_string (chars_fuel n s ++ quote :: rest) = Some (chars_fuel n s, rest) ∧ unquote (chars_fuel n s) = Utf8.coerce s) as Hg.
  { clear s. induction n as [|n IH]; intros [|c s] Hn; try done; [cbn in Hn; lia|]. cbn [length] in Hn.
    destruct (chars_step c s n) as (text & -> & Hsc & Huq); [lia|]. pose proof (Utf8.decode_rune_shorter c s) as Hs.
    destruct (IH (Utf8.decode_rune c s).2) as [H1 H2]; [lia|]. rewrite <- app_assoc, (Hsc _ _ _ H1), Huq, H2.
    rewrite Utf8.coerce_cons. by destruct (Utf8.decode_rune c s). }
  unfold parse_string, chars. destruct (Hg (length s) s) as [-> ->]; [lia|done].
Qed.

Lemma newline_white d : white (newline d).
Proof. unfold newline. constructor; [done|]. induction d as [|d IH]; [done|]. cbn. by repeat constructor. Qed.

(** The document comes back, with the invalid UTF-8 of its strings replaced. *)
Lemma encode_roundtrip j :
  printable_by (λ _, True) j → (depth_of j ≤ maxNestingDepth)%nat → parse (Encode j) = Some (norm_json Utf8.coerce j).
Proof.
  intros Hp Hd. apply (parse_print_at _ _ _ (λ _, True)); [apply newline_white| |intros; apply chars_parse|done|done|];
    by repeat constructor.
Qed.

(** Nothing is replaced in valid strings. *)
Lemma norm_fixed (norm : bytes → bytes) j : printable_by (λ s, norm s = s) j → norm_json norm j = j.
Proof.
  induction j as [|b|lit|s|l IH|ms IH] using json_nested_ind; try done; cbn [printable_by norm_json].
  - by intros ->.
  - rewrite Forall_map. intros Hp. f_equal. induction IH as [|x l Hx _ IHl]; [done|].
    apply Forall_cons in Hp as [Hp1 Hp2]. cbn [map]. by rewrite Hx, IHl.
  - rewrite Forall_map. intros Hp. f_equal. induction IH as [|[k x] l Hx _ IHl]; [done|].
    apply Forall_cons in Hp as [[Hk Hp1] Hp2]. cbn [map fst snd] in *. by rewrite Hk, Hx, IHl.
Qed.

(** ** Integers *)

Lemma digit_dec z : 0 ≤ z < 10 → is_dec (Strconv.digit z) = true ∧ b2z (Strconv.digit z) = 48 + z.
Proof.
  intros Hz. unfold Strconv.digit, is_dec. destruct (Z.ltb_spec z 10); [|lia]. rewrite b2z_z2b, Z.mod_small by lia.
  split; [|done]. apply andb_true_iff. rewrite !Z.leb_le. lia.
Qed.

Lemma format_digits_number k n : 0 ≤ n < 10 ^ Z.of_nat (S k) →
  ∃ c ds, Strconv.format_digits (S k) 10 n = c :: ds ∧ is_dec c = true ∧ (0 < n → b2z c ≠ 48) ∧
    Forall (λ d, is_dec d = true) ds ∧ (n = 0 → ds = []).
Proof.
  revert n. induction k as [|k IH]; intros n Hn; cbn [Strconv.format_digits]; destruct (Z.ltb_spec n 10) as [Hs|Hs];
    try (destruct (digit_dec n) as [Hd Hv]; [lia|]; exists (Strconv.digit n), []; split_and!; try done; lia).
  destruct (IH (n / 10)) as (c & ds & HE & Hc & H0 & Hds & _).
  { split; [apply Z.div_pos; lia|]. apply Z.div_lt_upper_bound; [lia|].
    rewrite Nat2Z.inj_succ, Z.pow_succ_r in Hn by lia. lia. }
  change (if n / 10 <? 10 then _ else _) with (Strconv.format_digits (S k) 10 (n / 10)). rewrite HE.
  exists c, (ds ++ [Strconv.digit (n mod 10)]). split_and!; [done|done| | |lia].
  - intros _. apply H0. apply Z.div_str_pos. lia.
  - apply Forall_app. split; [done|]. constructor; [|done]. apply digit_dec. by apply Z.mod_pos_bound.
Qed.

Lemma format_number n : is_i64 n → number_ok (Strconv.format_int n).
Proof.
  intros Hn. unfold Strconv.format_int, is_i64 in *.
  assert (∀ m, 0 ≤ m < 10 ^ 20 → digits_ok (Strconv.format_digits 20 10 m)) as Hd.
  { intros m Hm. destruct (format_digits_number 19 m) as (c & ds & -> & Hc & H0 & Hds & Hz); [lia|].
    split; [done|]. split; [|done]. intros Hc0. apply Hz. destruct (decide (m = 0)); [done|]. destruct H0; [lia|done]. }
  destruct (Z.ltb_spec n 0); [cbn [number_ok]; rewrite decide_True by done; apply Hd; lia|].
  specialize (Hd n ltac:(lia)). destruct (Strconv.format_digits 20 10 n) as [|c ds]; [done|].
  cbn [number_ok]. rewrite decide_False; [done|]. intros ->. by destruct Hd.
Qed.

(** Apostrophes stand for quotes. *)
Definition requote (s : string) : bytes := map (λ c, if decide (c = "'"%char) then quote else c) (gs s).

Lemma encode_example :
  Encode (JObject [(gs "a", JArray []); (gs "b", JArray [JNumber (gs "-7"); JString (gs "x<y")])]) =
  concat (map (λ s, requote s ++ [z2b 10]) ["{"; "  'a': [],"; "  'b': ["; "    -7,"; "    'x\u003cy'"; "  ]"; "}"]%string).
Proof. vm_compute. reflexivity. Qed.

End JsonEncode.
