(* ===== verification/Benchmark.v ===== *)
(** * cmd/geminactl/benchmark.go: comparing gateways

    [pingTarget], [summarise], [recommend], the printed table and [runBenchmark].
    A [float64] is a [spec_float] of the Standard Library with the binary64
    operations; a [time.Duration] is an [int64].  The network is, per target, the
    error of the dial and, per ping, the nonce drawn, whether the write succeeded,
    the datagram read before the deadline and the time measured. *)

From Stdlib Require Import Floats.SpecFloat.
From stdpp Require Import sorting.
From S2P Require Import Prelude GoText GoTime GoDuration GoFlag GoUnicode Protocol Wire Crypto Session Handshake.
From S2P Require Import Allocator PathSet Router Entitlement Metrics Gateway.
Import Wire.

Module Benchmark.

(** ** float64 *)

Definition float := spec_float.
Definition of_int (z : Z) : float := binary_normalize 53 1024 z 0 false.
Definition fdiv (x y : float) : float := SFdiv 53 1024 x y.
Definition fmul (x y : float) : float := SFmul 53 1024 x y.

(** ** Pings *)

Record ping := mkPing { nonce : Z; write_ok : bool; reply : option bytes; elapsed : Z }.

Definition bufSize : nat := 64.

(** One iteration of the loop of [pingTarget]: the round trip, when counted. *)
Definition ping_once (p : ping) : go (list Z) :=
  wire ← EncodePing (nonce p);
  if negb (write_ok p) then Ret [] else
  match reply p with
  | None => Ret []
  | Some datagram =>
      d ← DecodePing (take bufSize datagram);
      match d with
      | Ok (true, got) => Ret (if got =? nonce p then [elapsed p] else [])
      | _ => Ret []
      end
  end.

(** [None] when the dial fails. *)
Fixpoint ping_loop (ps : list ping) : go (list Z) :=
  match ps with
  | [] => Ret []
  | p :: ps => r ← ping_once p; rs ← ping_loop ps; Ret (r ++ rs)
  end.
Definition pingTarget (dialled : bool) (ps : list ping) : go (option (list Z)) :=
  if negb dialled then Ret None else rs ← ping_loop ps; Ret (Some rs).

(** ** Statistics *)

Record benchmarkStats := mkBench {
  Label : bytes; Sent : Z; Received : Z; LossPercent : float; Min : Z; Avg : Z; Max : Z
}.

(** [sort.Slice] by [<]. *)
Definition sorted (l : list Z) : list Z := merge_sort Z.le l.

Definition summarise (label : bytes) (sent : Z) (rtts : list Z) : benchmarkStats :=
  let received := Z.of_nat (length rtts) in
  let loss := if sent >? 0 then fmul (fdiv (of_int (sent - received)) (of_int sent)) (of_int 100) else of_int 0 in
  match sorted rtts with
  | [] => mkBench label sent received (if sent >? 0 then of_int 100 else loss) 0 0 0
  | first :: rest =>
      let total := foldl (λ acc d, i64 (acc + d)) 0 (first :: rest) in
      mkBench label sent received loss first (Z.quot total received) (List.last (first :: rest) 0)
  end.

(** The loop of [recommend], with the best so far. *)
Fixpoint recommend_loop (best : bytes) (bestLoss : float) (bestAvg : Z) (results : list benchmarkStats) : bytes :=
  match results with
  | [] => best
  | r :: results =>
      if Received r =? 0 then recommend_loop best bestLoss bestAvg results
      else if SFltb (LossPercent r) bestLoss || (SFeqb (LossPercent r) bestLoss && (Avg r <? bestAvg))
      then recommend_loop (Label r) (LossPercent r) (Avg r) results
      else recommend_loop best bestLoss bestAvg results
  end.
Definition recommend (results : list benchmarkStats) : bytes := recommend_loop [] (of_int 101) 0 results.

(** ** The table *)

Definition space : byte := z2b 32.
Definition newline : byte := z2b 10.

(** [fmt] pads to a width counted in runes, on the left or on the right. *)
Definition padding (width : nat) (s : bytes) : bytes := replicate (width - length (Utf8.runes s)) space.
Definition pad_left (width : nat) (s : bytes) : bytes := padding width s ++ s.
Definition pad_right (width : nat) (s : bytes) : bytes := s ++ padding width s.

(** The integer nearest to a finite [float64] of the given parts, ties to even. *)
Definition nearest (m : positive) (e : Z) : Z :=
  if 0 <=? e then Zpos m * 2 ^ e else
  let q := Zpos m / 2 ^ (- e) in
  let r := Zpos m mod 2 ^ (- e) in
  if (2 * r >? 2 ^ (- e)) || ((2 * r =? 2 ^ (- e)) && Z.odd q) then q + 1 else q.

(** The verb [%.0f]; [fuel] for 309 digits, the most a [float64] has. *)
Definition format_f0 (x : float) : bytes :=
  match x with
  | S754_zero s => if s then gs "-0" else gs "0"
  | S754_infinity s => if s then gs "-Inf" else gs "+Inf"
  | S754_nan => gs "NaN"
  | S754_finite s m e => (if s then gs "-" else []) ++ Strconv.format_digits 310 10 (nearest m e)
  end.

Definition dur (d : Z) : bytes :=
  if d =? 0 then gs "-" else Duration.String (Duration.Round d (Duration.Microsecond * 100)).

Definition row (label loss min avg max : bytes) : bytes :=
  pad_right 16 label ++ space :: loss ++ space :: pad_left 8 min ++ space :: pad_left 8 avg ++
  space :: pad_left 8 max ++ [newline].

Definition formatComparison (results : list benchmarkStats) : bytes :=
  let best := recommend results in
  row (gs "gateway") (pad_left 8 (gs "loss")) (gs "min") (gs "avg") (gs "max") ++
  concat (map (λ r, row (Label r) (pad_left 7 (format_f0 (LossPercent r)) ++ gs "%") (dur (Min r)) (dur (Avg r)) (dur (Max r))) results) ++
  (if decide (best = []) then [] else
   newline :: gs "Recommended: " ++ best ++ gs " (lowest loss, then lowest latency)." ++ [newline]).

(** ** The command *)

Inductive error := ErrFlag (e : Flag.error) | ErrNoTarget.

Definition benchmark_flags : Flag.formal :=
  [(gs "to", Flag.KString); (gs "count", Flag.KInt); (gs "timeout", Flag.KDuration)].

(** A target on the network: the text of the dial's error, or the outcome of each
    ping with the timeout given. *)
Record target := mkTarget { dial_error : option bytes; ping_at : Z → nat → ping }.

Definition pings (t : target) (count timeout : Z) : list ping := map (ping_at t timeout) (seq 0 (Z.to_nat count)).

(** The loop over the targets, the [i]th of which meets the network [net i]: what
    it prints, and the results. *)
Fixpoint run_targets (net : nat → target) (count timeout : Z) (targets : list bytes) : go (bytes * list benchmarkStats) :=
  match targets with
  | [] => Ret ([], [])
  | t :: targets =>
      rtts ← pingTarget (bool_decide (dial_error (net 0%nat) = None)) (pings (net 0%nat) count timeout);
      let line := match dial_error (net 0%nat) with Some e => t ++ gs ": " ++ e ++ [newline] | None => [] end in
      '(out, results) ← run_targets (λ i, net (S i)) count timeout targets;
      Ret (line ++ out, summarise t count (default [] rtts) :: results)
  end.

Definition runBenchmark (args : list bytes) (net : nat → target) : go (result error bytes) :=
  match Flag.Parse benchmark_flags args with
  | Err e => Ret (Err (ErrFlag e))
  | Ok (vs, _) =>
      let targets := Flag.strings_of vs (gs "to") in
      let count := Flag.int_of vs (gs "count") 10 in
      let timeout := Flag.duration_of vs (gs "timeout") GoTime.Second in
      if decide (targets = []) then Ret (Err ErrNoTarget) else
      '(out, results) ← run_targets net count timeout targets;
      Ret (Ok (out ++ formatComparison results))
  end.

(** ** Lemmas: floats are ordered *)

Definition is_num (x : float) : Prop := x ≠ S754_nan.

Definition key (x : float) : Z * Z * Z :=
  match x with
  | S754_infinity true => (-2, 0, 0)
  | S754_finite true m e => (-1, - e, - Zpos m)
  | S754_finite false m e => (1, e, Zpos m)
  | S754_infinity false => (2, 0, 0)
  | _ => (0, 0, 0)
  end.
Definition lex_lt (a b : Z * Z * Z) : Prop :=
  a.1.1 < b.1.1 ∨ a.1.1 = b.1.1 ∧ (a.1.2 < b.1.2 ∨ a.1.2 = b.1.2 ∧ a.2 < b.2).

Lemma compare_key x y :
  is_num x → is_num y →
  match SFcompare x y with
  | Some Lt => lex_lt (key x) (key y)
  | Some Eq => key x = key y
  | Some Gt => lex_lt (key y) (key x)
  | None => False
  end.
Proof.
  intros Hx Hy. destruct x as [sx|sx| |sx mx ex]; try done; destruct y as [sy|sy| |sy my ey]; try done;
    try destruct sx; try destruct sy; cbn [SFcompare key]; unfold lex_lt; cbn [fst snd]; try lia; try done.
  all: change (Pos.compare_cont Eq mx my) with (mx ?= my)%positive.
  all: destruct (Z.compare_spec ex ey); try lia; destruct (Pos.compare_spec mx my); cbn [CompOpp]; try lia;
    f_equal; try f_equal; lia.
Qed.

Lemma SFltb_key x y : is_num x → is_num y → SFltb x y = true ↔ lex_lt (key x) (key y).
Proof.
  intros Hx Hy. pose proof (compare_key x y Hx Hy) as Hc. unfold SFltb, lex_lt in *.
  destruct (SFcompare x y) as [[]|]; split; intros; try done; try (rewrite Hc in *); lia.
Qed.

Lemma SFeqb_key x y : is_num x → is_num y → SFeqb x y = true ↔ key x = key y.
Proof.
  intros Hx Hy. pose proof (compare_key x y Hx Hy) as Hc. unfold SFeqb, lex_lt in *.
  destruct (SFcompare x y) as [[]|]; split; intros Hk; try done; rewrite Hk in Hc; lia.
Qed.

(** A target is better with less loss, or the same loss and less latency. *)
Definition better (l : float) (a : Z) (l' : float) (a' : Z) : Prop :=
  SFltb l l' = true ∨ SFeqb l l' = true ∧ a < a'.

Lemma better_trans l1 a1 l2 a2 l3 a3 :
  is_num l1 → is_num l2 → is_num l3 → better l1 a1 l2 a2 → better l2 a2 l3 a3 → better l1 a1 l3 a3.
Proof.
  intros H1 H2 H3. unfold better. rewrite !SFltb_key, !SFeqb_key by done. unfold lex_lt.
  destruct (key l1) as [[x1 y1] z1], (key l2) as [[x2 y2] z2], (key l3) as [[x3 y3] z3]. cbn [fst snd].
  intros [Ha|[[= -> -> ->] Ha]] [Hb|[[= -> -> ->] Hb]]; try (left; lia). right. split; [done|lia].
Qed.

Lemma better_irrefl l a : is_num l → ¬ better l a l a.
Proof. intros Hl. unfold better. rewrite SFltb_key by done. unfold lex_lt. intros [?|[_ ?]]; lia. Qed.

Lemma better_dec l a l' a' :
  SFltb l l' || (SFeqb l l' && (a <? a')) = true ↔ better l a l' a'.
Proof. unfold better. rewrite orb_true_iff, andb_true_iff, Z.ltb_lt. done. Qed.

(** The loop ends with the starting label, which no target beats, or with the
    label of a target that no target beats. *)
Lemma recommend_loop_spec results best bl ba :
  is_num bl → Forall (λ r, Received r ≠ 0 → is_num (LossPercent r)) results →
  (recommend_loop best bl ba results = best ∧
     Forall (λ r, Received r ≠ 0 → ¬ better (LossPercent r) (Avg r) bl ba) results) ∨
  (∃ b, b ∈ results ∧ Received b ≠ 0 ∧ recommend_loop best bl ba results = Label b ∧
     better (LossPercent b) (Avg b) bl ba ∧
     Forall (λ r, Received r ≠ 0 → ¬ better (LossPercent r) (Avg r) (LossPercent b) (Avg b)) results).
Proof.
  intros Hbl Hres. revert best bl ba Hbl. induction Hres as [|r results Hr Hres IH]; intros best bl ba Hbl.
  { left. by split. }
  cbn [recommend_loop]. destruct (Z.eqb_spec (Received r) 0) as [H0|H0].
  { destruct (IH best bl ba Hbl) as [[HE HF]|(b & Hin & Hb0 & HE & Hbt & HF)].
    - left. split; [done|]. by constructor.
    - right. exists b. split; [by right|]. split_and!; try done. by constructor. }
  specialize (Hr H0). destruct (SFltb _ _ || _) eqn:Hbet.
  - apply better_dec in Hbet.
    destruct (IH (Label r) (LossPercent r) (Avg r) Hr) as [[HE HF]|(b & Hin & Hb0 & HE & Hbt & HF)].
    + right. exists r. split; [by left|]. split_and!; try done. constructor; [intros _; by apply better_irrefl|done].
    + right. exists b. assert (is_num (LossPercent b)) by (rewrite Forall_forall in Hres; by apply Hres).
      split; [by right|]. split_and!; try done; [by apply (better_trans _ _ (LossPercent r) (Avg r))|].
      constructor; [|done]. intros _ Hrb. apply (better_irrefl (LossPercent r) (Avg r) Hr).
      by apply (better_trans _ _ (LossPercent b) (Avg b)).
  - assert (¬ better (LossPercent r) (Avg r) bl ba) as Hnb by (rewrite <- better_dec; by rewrite Hbet).
    destruct (IH best bl ba Hbl) as [[HE HF]|(b & Hin & Hb0 & HE & Hbt & HF)].
    + left. split; [done|]. by constructor.
    + right. exists b. assert (is_num (LossPercent b)) by (rewrite Forall_forall in Hres; by apply Hres).
      split; [by right|]. split_and!; try done. constructor; [|done].
      intros _ Hrb. apply Hnb. by apply (better_trans _ _ (LossPercent b) (Avg b)).
Qed.

(** ** Lemmas: pings *)

Definition pong (n : Z) : bytes := pingMagic ++ [pingTypePong] ++ be_bytes 8 n.

(** The reply to this very ping arrived. *)
Definition answered (p : ping) : Prop := write_ok p = true ∧ take bufSize <$> reply p = Some (pong (nonce p)).
#[export] Instance answered_dec p : Decision (answered p).
Proof. unfold answered. apply _. Defined.

Lemma ping_once_spec p :
  is_u64 (nonce p) → ping_once p = Ret (if decide (answered p) then [elapsed p] else []).
Proof.
  intros Hn. unfold ping_once, EncodePing. rewrite encodePing_layout. mstep.
  destruct (DecodePing_encoded pingTypePong (nonce p) Hn) as (b & Hb & _ & Hd); [by right|].
  rewrite encodePing_layout in Hb. apply (inj Ret) in Hb. fold (pong (nonce p)) in Hb. subst b.
  destruct (decide (answered p)) as [[Hw Hp]|Hne].
  - rewrite Hw. destruct (reply p) as [d|]; [|done]. injection Hp as Hp. cbn [negb].
    rewrite Hp, Hd. mstep. rewrite bool_decide_eq_true_2 by done. by rewrite Z.eqb_refl.
  - destruct (write_ok p) eqn:Hw; cbn [negb]; [|done]. destruct (reply p) as [d|] eqn:Hr; [|done].
    destruct (DecodePing_spec (take bufSize d)) as [->|[(m & _ & -> & _)|(m & Hm & -> & He)]]; mstep; try done.
    destruct (Z.eqb_spec m (nonce p)) as [->|]; [|done]. destruct Hne. split; [done|]. rewrite Hr. cbn. f_equal.
    unfold EncodePong in He. rewrite encodePing_layout in He. by apply (inj Ret) in He.
Qed.

Lemma ping_loop_spec ps :
  Forall (λ p, is_u64 (nonce p)) ps → ping_loop ps = Ret (elapsed <$> filter answered ps).
Proof.
  induction 1 as [|p ps Hp _ IH]; [done|]. cbn [ping_loop]. rewrite ping_once_spec by done. mstep. rewrite IH. mstep.
  rewrite filter_cons. by case_decide.
Qed.

Lemma gateway_pongs `{CA : AEAD, CX : X25519, CK : HKDF, CE : Ed25519, CM : HMAC} {P}
    (g : Gateway.DataGateway (P := P)) n rkey now :
  is_u64 n → ∃ wire rec, EncodePing n = Ret wire ∧
    Gateway.HandleDatagram g (take Gateway.maxRead wire) rkey now = Ret (g, Some (pong n), rec).
Proof.
  intros Hn. destruct (DecodePing_encoded pingTypePing n Hn) as (b & Hb & Hl & Hd); [by left|].
  exists b. eexists. split; [done|]. rewrite take_ge by (rewrite Hl; apply Nat.leb_le; by vm_compute).
  unfold Gateway.HandleDatagram. rewrite encodePing_layout in Hb. apply (inj Ret) in Hb. subst b.
  rewrite ClassifyDatagram_fields by done. rewrite decide_False, decide_True by done. mstep. rewrite Hd. mstep.
  rewrite bool_decide_eq_false_2 by done. unfold EncodePong. rewrite encodePing_layout. mstep. done.
Qed.

Lemma pong_inj a b : is_u64 a → is_u64 b → take bufSize (pong a) = pong b → a = b.
Proof.
  intros Ha Hb. rewrite take_ge by (unfold pong; rewrite !length_app, length_be_bytes; apply Nat.leb_le; by vm_compute). unfold pong.
  intros E%app_inv_head%app_inv_head. apply (f_equal be_val) in E.
  by rewrite !be_val_be_bytes, !Z.mod_small in E.
Qed.

(** A socket that is one reply behind: after a first reply that misses its
    deadline, each read returns the reply to the ping before. *)
Fixpoint one_behind (prev : Z) (ns : list Z) (t : Z) : list ping :=
  match ns with
  | [] => []
  | n :: ns => mkPing n true (Some (pong prev)) t :: one_behind n ns t
  end.

(** Every later ping is then lost, although every one of them was answered. *)
Lemma late_reply_cascade n ns t :
  Forall is_u64 (n :: ns) → NoDup (n :: ns) →
  pingTarget true (mkPing n true None t :: one_behind n ns t) = Ret (Some []).
Proof.
  intros Hu Hnd. unfold pingTarget. cbn [negb].
  assert (∀ prev ns, is_u64 prev → Forall is_u64 ns → NoDup (prev :: ns) → ping_loop (one_behind prev ns t) = Ret []) as Hg.
  { clear. intros prev ns. revert prev. induction ns as [|m ns IH]; intros prev Hp Hns Hnd; [done|].
    apply Forall_cons in Hns as [Hm Hns]. apply NoDup_cons in Hnd as [Hin Hnd]. cbn [one_behind ping_loop].
    rewrite ping_once_spec by done. rewrite decide_False.
    - mstep. by rewrite IH.
    - intros [_ Hr]. cbn [reply nonce fmap option_fmap option_map] in Hr. apply (inj Some), pong_inj in Hr; [|done|done].
      apply Hin. subst m. by left. }
  apply Forall_cons in Hu as [Hn Hns]. cbn [ping_loop]. rewrite ping_once_spec by done.
  rewrite decide_False by (by intros [_ ?]). mstep. rewrite Hg by done. by mstep.
Qed.

(** ** Lemmas: statistics *)

Lemma sorted_spec l : Sorted Z.le (sorted l) ∧ sorted l ≡ₚ l.
Proof. split; [apply Sorted_merge_sort|apply merge_sort_Permutation]; apply _. Qed.

Lemma sorted_first x l : StronglySorted Z.le (x :: l) → Forall (λ y, x ≤ y) (x :: l).
Proof. intros Hs%StronglySorted_inv. destruct Hs as [_ Hs]. constructor; [lia|done]. Qed.

Lemma sorted_last x l : StronglySorted Z.le (x :: l) → Forall (λ y, y ≤ List.last (x :: l) 0) (x :: l) ∧ List.last (x :: l) 0 ∈ x :: l.
Proof.
  revert x. induction l as [|y l IH]; intros x Hs; [split; [by repeat constructor|by left]|].
  apply StronglySorted_inv in Hs as [Hs Hx]. destruct (IH y Hs) as [Hall Hin].
  change (List.last (x :: y :: l) 0) with (List.last (y :: l) 0). split; [|by right]. constructor; [|done].
  rewrite Forall_forall in Hx. by apply Hx.
Qed.

Lemma sum_exact l acc :
  Forall (λ d, 0 ≤ d) l → 0 ≤ acc → acc + foldr Z.add 0 l < 2 ^ 63 →
  foldl (λ acc d, i64 (acc + d)) acc l = acc + foldr Z.add 0 l.
Proof.
  intros Hl. revert acc. induction Hl as [|d l Hd Hl IH]; intros acc Ha Hs; cbn [foldl foldr] in *; [lia|].
  assert (0 ≤ foldr Z.add 0 l) by (clear -Hl; induction Hl; cbn; lia).
  rewrite i64_small by (unfold is_i64; lia). rewrite IH; lia.
Qed.

Lemma sum_bounds l a b : Forall (λ d, a ≤ d ≤ b) l → a * Z.of_nat (length l) ≤ foldr Z.add 0 l ≤ b * Z.of_nat (length l).
Proof. induction 1 as [|d l Hd _ IH]; cbn [length foldr]; lia. Qed.

Lemma sum_perm l l' : l ≡ₚ l' → foldr Z.add 0 l = foldr Z.add 0 l'.
Proof. induction 1; cbn; lia. Qed.

(** ** Properties *)

(** A round trip is counted exactly when it is one.  On a dialled target, for
    any nonces, replies, losses and late or forged datagrams, the loop returns the
    measured time of exactly the pings whose read returned the pong of that very
    nonce, in order; and the data gateway, in any state, answers a ping with a pong
    that is so counted, and is not changed by it. *)
Theorem ping_target_exact `{CA : AEAD, CX : X25519, CK : HKDF, CE : Ed25519, CM : HMAC} {P}
    (g : Gateway.DataGateway (P := P)) (ps : list ping) (rkey : option bytes) (now : GoTime.Time) :
  Forall (λ p, is_u64 (nonce p)) ps →
  pingTarget true ps = Ret (Some (elapsed <$> filter answered ps)) ∧
  (∀ p, p ∈ ps → ∃ wire reply rec, EncodePing (nonce p) = Ret wire ∧
     Gateway.HandleDatagram g (take Gateway.maxRead wire) rkey now = Ret (g, Some reply, rec) ∧
     answered (mkPing (nonce p) true (Some reply) (elapsed p))).
Proof.
  intros Hps. split; [unfold pingTarget; cbn [negb]; rewrite ping_loop_spec by done; by mstep|].
  intros p Hp. rewrite Forall_forall in Hps. destruct (gateway_pongs g (nonce p) rkey now (Hps p Hp)) as (wire & rec & Hw & HH).
  exists wire, (pong (nonce p)), rec. split; [done|]. split; [done|]. split; [done|]. cbn [reply nonce]. cbn. f_equal.
Qed.

(** The summary of a target is right: the minimum and maximum are those of
    the counted round trips, and the average, when their sum fits the duration
    type, is the sum divided by their number, between the two; with no reply, the
    loss is 100 percent. *)
Theorem summarise_exact (label : bytes) (sent : Z) (rtts : list Z) :
  Forall (λ d, 0 ≤ d) rtts → foldr Z.add 0 rtts < 2 ^ 63 →
  let s := summarise label sent rtts in
  Received s = Z.of_nat (length rtts) ∧
  (rtts = [] → 0 < sent → LossPercent s = of_int 100) ∧
  (rtts ≠ [] → Min s ∈ rtts ∧ Max s ∈ rtts ∧ Forall (λ d, Min s ≤ d ≤ Max s) rtts ∧
     Avg s = foldr Z.add 0 rtts / Z.of_nat (length rtts) ∧ Min s ≤ Avg s ≤ Max s).
Proof.
  intros Hpos Hsum. cbn zeta. unfold summarise. destruct (sorted_spec rtts) as [Hs Hp].
  apply Sorted_StronglySorted in Hs; [|apply _].
  destruct (sorted rtts) as [|x l].
  { apply Permutation_nil in Hp as ->. split; [done|]. split; [|done]. intros _ Hsent. cbn [LossPercent].
    rewrite Z.gtb_ltb. by destruct (Z.ltb_spec 0 sent); [|lia]. }
  cbn [Received Min Max Avg LossPercent]. split; [done|]. split; [by intros ->; apply Permutation_length in Hp|].
  intros _. pose proof (sorted_first x l Hs) as Hmin. destruct (sorted_last x l Hs) as [Hmax Hin].
  assert (Forall (λ d, x ≤ d ≤ List.last (x :: l) 0) rtts) as Hb.
  { rewrite <- Hp. rewrite Forall_forall in *. intros d Hd. split; [by apply Hmin|by apply Hmax]. }
  rewrite sum_exact, (sum_perm _ _ Hp), Z.add_0_l; [|by rewrite Hp|lia|by rewrite (sum_perm _ _ Hp)].
  pose proof (sum_bounds rtts _ _ Hb) as Hsb. apply Permutation_length in Hp as Hlen. cbn [length] in Hlen.
  assert (0 ≤ foldr Z.add 0 rtts) by (clear -Hpos; induction Hpos; cbn; lia).
  rewrite Z.quot_div_nonneg by lia. split_and!; [rewrite <- Hp; by left|by rewrite <- Hp|done|done| |].
  - apply Z.div_le_lower_bound; lia.
  - apply Z.div_le_upper_bound; lia.
Qed.

(** The recommendation is the best target: if some target answered, and the
    losses are numbers below 101, the label recommended is that of a target that
    answered and that no target that answered beats, by lower loss or by equal loss
    and lower average latency; if none answered there is no recommendation. *)
Theorem recommend_best (results : list benchmarkStats) :
  Forall (λ r, Received r ≠ 0 → is_num (LossPercent r) ∧ SFltb (LossPercent r) (of_int 101) = true) results →
  (Forall (λ r, Received r = 0) results ∧ recommend results = []) ∨
  (∃ b, b ∈ results ∧ Received b ≠ 0 ∧ recommend results = Label b ∧
     ∀ r, r ∈ results → Received r ≠ 0 → ¬ better (LossPercent r) (Avg r) (LossPercent b) (Avg b)).
Proof.
  intros Hres. destruct (recommend_loop_spec results [] (of_int 101) 0) as [[HE HF]|(b & Hin & Hb0 & HE & _ & HF)].
  - by vm_compute.
  - eapply Forall_impl; [exact Hres|]. intros r Hr H0. by apply Hr.
  - left. split; [|done]. rewrite Forall_forall in *. intros r Hr. destruct (decide (Received r = 0)) as [|H0]; [done|].
    destruct (HF r Hr H0). left. by apply Hres.
  - right. exists b. split_and!; try done. rewrite Forall_forall in HF. intros r Hr H0. by apply HF.
Qed.

(** The loss of [received] replies to [sent] pings. *)
Definition loss (sent received : Z) : float := fmul (fdiv (of_int (sent - received)) (of_int sent)) (of_int 100).

(** A nonnegative number, its nearest integer and whether that is below 101. *)
Definition percent (x : float) : Z := match x with S754_finite _ m e => nearest m e | _ => 0 end.
Definition loss_fine (sent received : Z) : bool :=
  match loss sent received with
  | S754_zero false | S754_finite false _ _ => true
  | _ => false
  end &&
  SFltb (loss sent received) (of_int 101) &&
  (2 * Z.abs (percent (loss sent received) * sent - 100 * (sent - received)) <=? sent).

Definition upto100 (f : Z → Z → bool) (n : nat → nat) : bool :=
  forallb (λ s, forallb (λ r, f (Z.of_nat s) (Z.of_nat r)) (seq 0 (n s))) (seq 1 100).

Lemma upto100_spec f n s r :
  upto100 f n = true → 0 < s ≤ 100 → 0 ≤ r < Z.of_nat (n (Z.to_nat s)) → f s r = true.
Proof.
  unfold upto100. rewrite forallb_forall. intros H Hs Hr. specialize (H (Z.to_nat s) ltac:(apply in_seq; lia)).
  rewrite forallb_forall in H. specialize (H (Z.to_nat r) ltac:(apply in_seq; lia)). by rewrite !Z2Nat.id in H by lia.
Qed.

Lemma loss_fine_all : upto100 loss_fine S = true.
Proof. vm_compute. reflexivity. Qed.
Lemma loss_decreases_all : upto100 (λ s r, SFltb (loss s (r + 1)) (loss s r)) (λ s, s) = true.
Proof. vm_compute. reflexivity. Qed.
#[local] Instance float_eq_dec : EqDecision float.
Proof. unfold float. solve_decision. Defined.
Lemma loss_all_all : upto100 (λ s _, bool_decide (loss s 0 = of_int 100)) (λ _, 1%nat) = true.
Proof. vm_compute. reflexivity. Qed.

Lemma loss_ok sent received :
  0 < sent ≤ 100 → 0 ≤ received ≤ sent →
  is_num (loss sent received) ∧ SFltb (loss sent received) (of_int 101) = true ∧
  (∃ pct, format_f0 (loss sent received) = Strconv.format_digits 310 10 pct ∧ 2 * Z.abs (pct * sent - 100 * (sent - received)) ≤ sent).
Proof.
  intros Hs Hr. pose proof (upto100_spec _ _ sent received loss_fine_all Hs ltac:(lia)) as H. unfold loss_fine in H.
  apply andb_true_iff in H as [[H1 H2]%andb_true_iff H3%Z.leb_le]. split_and!; [by destruct (loss _ _)|done|].
  exists (percent (loss sent received)). split; [|done]. destruct (loss sent received) as [[]|[]| |[] m e]; try done.
Qed.

(** Every reply more is less loss. *)
Lemma loss_less sent r1 r2 : 0 < sent ≤ 100 → 0 ≤ r2 < r1 → r1 ≤ sent → SFltb (loss sent r1) (loss sent r2) = true.
Proof.
  intros Hs [H2 H12] H1. revert H1. apply (Zlt_lower_bound_ind (λ r1, r1 ≤ sent → SFltb (loss sent r1) (loss sent r2) = true) (r2 + 1)); [|lia].
  clear r1 H12. intros r1 IH Hlt Hle.
  pose proof (upto100_spec _ _ sent (r1 - 1) loss_decreases_all Hs ltac:(cbn beta; lia)) as Hstep. cbn beta in Hstep.
  replace (r1 - 1 + 1) with r1 in Hstep by lia. destruct (decide (r1 = r2 + 1)) as [->|]; [by replace (r2 + 1 - 1) with r2 in Hstep by lia|].
  specialize (IH (r1 - 1) ltac:(lia) ltac:(lia)). destruct (loss_ok sent r1) as (N1 & _); [lia..|]. destruct (loss_ok sent r2) as (N2 & _); [lia..|].
  destruct (loss_ok sent (r1 - 1)) as (N3 & _); [lia..|]. rewrite !SFltb_key in * by done. unfold lex_lt in *. lia.
Qed.

(** ** What the command prints *)

(** The round trips of a target: of the pings whose own read returned their own pong.
    A reply that misses its deadline is not among them. *)
Definition returned (n : target) (count timeout : Z) : list Z :=
  match dial_error n with Some _ => [] | None => elapsed <$> filter answered (pings n count timeout) end.

Definition average (rtts : list Z) : Z := foldr Z.add 0 rtts / Z.of_nat (length rtts).

(** The loss in percent to the nearest integer, and the extremes and the average of
    the round trips. *)
Definition figures (count : Z) (rtts : list Z) (pct mn av mx : Z) : Prop :=
  2 * Z.abs (pct * count - 100 * (count - Z.of_nat (length rtts))) ≤ count ∧
  if decide (rtts = []) then mn = 0 ∧ av = 0 ∧ mx = 0
  else mn ∈ rtts ∧ mx ∈ rtts ∧ Forall (λ d, mn ≤ d ≤ mx) rtts ∧ av = average rtts.

Definition dial_line (t : bytes) (n : target) : bytes :=
  match dial_error n with Some e => t ++ gs ": " ++ e ++ [newline] | None => [] end.
Definition heading : bytes := row (gs "gateway") (pad_left 8 (gs "loss")) (gs "min") (gs "avg") (gs "max").
Definition table_line (t : bytes) (pct mn av mx : Z) : bytes :=
  row t (pad_left 7 (Strconv.format_digits 310 10 pct) ++ gs "%") (dur mn) (dur av) (dur mx).
Definition recommendation (best : bytes) : bytes :=
  if decide (best = []) then [] else newline :: gs "Recommended: " ++ best ++ gs " (lowest loss, then lowest latency)." ++ [newline].

Lemma returned_length n count timeout : 0 < count → Z.of_nat (length (returned n count timeout)) ≤ count.
Proof.
  intros Hc. unfold returned. destruct (dial_error n); [cbn; lia|]. rewrite length_fmap.
  pose proof (length_filter answered (pings n count timeout)) as Hl. unfold pings in Hl at 2. rewrite length_map, length_seq in Hl. lia.
Qed.

Lemma run_targets_exact net count timeout targets :
  (∀ i j, is_u64 (nonce (ping_at (net i) timeout j))) →
  run_targets net count timeout targets =
    Ret (concat (imap (λ i t, dial_line t (net i)) targets), imap (λ i t, summarise t count (returned (net i) count timeout)) targets).
Proof.
  revert net. induction targets as [|t targets IH]; intros net Hn; [done|]. cbn [run_targets imap concat].
  rewrite (IH (λ i, net (S i))) by (intros; apply Hn). unfold pingTarget, returned at 2, dial_line at 2.
  destruct (dial_error (net 0%nat)) as [e|] eqn:Hd.
  - rewrite bool_decide_eq_false_2 by done. cbn [negb]. by mstep.
  - rewrite bool_decide_eq_true_2 by done. cbn [negb]. rewrite ping_loop_spec; [by mstep|].
    unfold pings. apply Forall_map, Forall_forall. intros; apply Hn.
Qed.

(** The summary of a target, for pings that took less than 2^56 ns each. *)
Lemma summary_figures t count rtts :
  0 < count ≤ 100 → Z.of_nat (length rtts) ≤ count → Forall (λ d, 0 ≤ d < 2 ^ 56) rtts →
  let r := summarise t count rtts in
  Label r = t ∧ Received r = Z.of_nat (length rtts) ∧ LossPercent r = loss count (Z.of_nat (length rtts)) ∧
  (rtts ≠ [] → Avg r = average rtts) ∧
  ∃ pct, format_f0 (LossPercent r) = Strconv.format_digits 310 10 pct ∧ figures count rtts pct (Min r) (Avg r) (Max r).
Proof.
  intros Hc Hl Hr r. assert (LossPercent r = loss count (Z.of_nat (length rtts)) ∧ Label r = t) as [Hloss Hlabel].
  { unfold r, summarise. destruct (sorted_spec rtts) as [_ Hp]. rewrite Z.gtb_ltb. destruct (Z.ltb_spec 0 count); [|lia].
    destruct (sorted rtts); [|done]. apply Permutation_nil in Hp as ->. split; [|done]. cbn [LossPercent length].
    pose proof (upto100_spec _ _ count 0 loss_all_all Hc ltac:(cbn beta; lia)) as E. by apply bool_decide_eq_true_1 in E. }
  destruct (summarise_exact t count rtts) as (H1 & _ & H3).
  { eapply Forall_impl; [exact Hr|]. cbn. lia. }
  { pose proof (sum_bounds rtts 0 (2 ^ 56) ltac:(eapply Forall_impl; [exact Hr|]; cbn; lia)). lia. }
  fold r in H1, H3. destruct (loss_ok count (Z.of_nat (length rtts))) as (_ & _ & pct & Hp & Hn); [lia..|].
  split_and!; try done; [intros Hne; by destruct (H3 Hne) as (_ & _ & _ & ? & _)|].
  exists pct. rewrite Hloss. split; [done|]. split; [done|]. case_decide as Hd; [by subst rtts|].
  destruct (H3 Hd) as (? & ? & ? & ? & _). done.
Qed.

(** The best of the targets measured, by the replies and then by the average. *)
Lemma recommend_targets count (targets : list bytes) (rtts : nat → list Z) :
  0 < count ≤ 100 → (∀ i, Z.of_nat (length (rtts i)) ≤ count) → (∀ i, Forall (λ d, 0 ≤ d < 2 ^ 56) (rtts i)) →
  let best := recommend (imap (λ i t, summarise t count (rtts i)) targets) in
  (best = [] ∧ ∀ i, (i < length targets)%nat → rtts i = []) ∨
  ∃ i, targets !! i = Some best ∧ rtts i ≠ [] ∧ ∀ j, (j < length targets)%nat → rtts j ≠ [] →
    (length (rtts j) < length (rtts i))%nat ∨ length (rtts j) = length (rtts i) ∧ average (rtts i) ≤ average (rtts j).
Proof.
  intros Hc Hl Hr best.
  assert (∀ i t, targets !! i = Some t → imap (λ i t, summarise t count (rtts i)) targets !! i = Some (summarise t count (rtts i))) as Him.
  { intros i t Ht. by rewrite list_lookup_imap, Ht. }
  assert (∀ i t, let r := summarise t count (rtts i) in (Received r = 0 ↔ rtts i = [])) as Hrec.
  { intros i t r. destruct (summary_figures t count (rtts i) Hc (Hl i) (Hr i)) as (_ & E & _). unfold r. rewrite E. destruct (rtts i); cbn [length]; split; done || lia. }
  destruct (recommend_best (imap (λ i t, summarise t count (rtts i)) targets)) as [[H1 H2]|(b & Hb & Hb0 & HE & Hbest)].
  - apply Forall_forall. intros r (i & t & -> & _)%elem_of_lookup_imap_1. intros _.
    destruct (summary_figures t count (rtts i) Hc (Hl i) (Hr i)) as (_ & _ & -> & _). destruct (loss_ok count (Z.of_nat (length (rtts i)))) as (? & ? & _); [lia|split; [lia|apply Hl]|done].
  - left. split; [done|]. intros i [t Ht]%lookup_lt_is_Some_2. apply (Hrec i t). rewrite Forall_forall in H1. apply H1.
    eapply list_elem_of_lookup_2. by apply Him.
  - right. apply elem_of_lookup_imap_1 in Hb as (i & t & -> & Ht). exists i.
    destruct (summary_figures t count (rtts i) Hc (Hl i) (Hr i)) as (El & _ & Eb & Ab & _). unfold best. rewrite HE, El. split; [done|].
    assert (rtts i ≠ []) as Hi by (by rewrite <-(Hrec i t)). split; [done|]. intros j [u Hu]%lookup_lt_is_Some_2 Hj.
    specialize (Hbest (summarise u count (rtts j)) ltac:(eapply list_elem_of_lookup_2; by apply Him) ltac:(by rewrite (Hrec j u))).
    destruct (summary_figures u count (rtts j) Hc (Hl j) (Hr j)) as (_ & _ & Ej & Aj & _). rewrite Eb, Ej, (Ab Hi), (Aj Hj) in Hbest.
    destruct (lt_eq_lt_dec (length (rtts j)) (length (rtts i))) as [[Hlt|Heq]|Hgt]; [by left| |].
    + right. split; [done|]. destruct (Z.le_gt_cases (average (rtts i)) (average (rtts j))) as [|Hgt]; [done|]. destruct Hbest. right. rewrite Heq.
      split; [|done]. destruct (loss_ok count (Z.of_nat (length (rtts i)))) as (N & _); [lia|split; [lia|apply Hl]|]. by apply SFeqb_key.
    + destruct Hbest. left. apply loss_less; [done|lia|apply Hl].
Qed.

(** C39: The benchmark command prints what it measured.  On every command line that
    parses, names a target and asks for 1 to 100 pings, and for any network (dial
    errors, losses, late or forged replies, round trips below 2^56 ns), the text is: a
    line for each target that could not be dialled, with its error; the heading; for
    each target in the order given a row with its loss in percent to the nearest
    integer and the least, the average and the greatest round trip, where a ping counts
    as received exactly when its own read returned its own pong (so a gateway's answer
    that comes after the deadline is a loss, and so may be those that follow it); and a
    recommendation of a target with a counted ping, such that no other has more, or as
    many and a smaller average, or none when no ping of any target counted. *)
Theorem benchmark_honest (args : list bytes) (net : nat → target) (vs : list (bytes * Flag.val)) (rest : list bytes) :
  Flag.Parse benchmark_flags args = Ok (vs, rest) →
  let targets := Flag.strings_of vs (gs "to") in
  let count := Flag.int_of vs (gs "count") 10 in
  let timeout := Flag.duration_of vs (gs "timeout") GoTime.Second in
  let rtts i := returned (net i) count timeout in
  targets ≠ [] → 0 < count ≤ 100 →
  (∀ i j, is_u64 (nonce (ping_at (net i) timeout j)) ∧ 0 ≤ elapsed (ping_at (net i) timeout j) < 2 ^ 56) →
  ∃ lines best,
    runBenchmark args net =
      Ret (Ok (concat (imap (λ i t, dial_line t (net i)) targets) ++ heading ++ concat lines ++ recommendation best)) ∧
    length lines = length targets ∧
    (∀ i t l, targets !! i = Some t → lines !! i = Some l →
       ∃ pct mn av mx, figures count (rtts i) pct mn av mx ∧ l = table_line t pct mn av mx) ∧
    ((best = [] ∧ ∀ i, (i < length targets)%nat → rtts i = []) ∨
     ∃ i, targets !! i = Some best ∧ rtts i ≠ [] ∧ ∀ j, (j < length targets)%nat → rtts j ≠ [] →
       (length (rtts j) < length (rtts i))%nat ∨ length (rtts j) = length (rtts i) ∧ average (rtts i) ≤ average (rtts j)).
Proof.
  intros HP targets count timeout rtts Hne Hc Hn. set (results := imap (λ i t, summarise t count (rtts i)) targets).
  assert (∀ i, Z.of_nat (length (rtts i)) ≤ count) as Hl by (intros i; apply returned_length; lia).
  assert (∀ i, Forall (λ d, 0 ≤ d < 2 ^ 56) (rtts i)) as Hr.
  { intros i. unfold rtts, returned. destruct (dial_error (net i)); [done|]. apply Forall_fmap, Forall_forall.
    intros p [_ Hp]%list_elem_of_filter. unfold pings in Hp. apply list_elem_of_fmap in Hp as (j & -> & _). apply Hn. }
  exists (map (λ r, row (Label r) (pad_left 7 (format_f0 (LossPercent r)) ++ gs "%") (dur (Min r)) (dur (Avg r)) (dur (Max r))) results), (recommend results).
  split_and!; [| | |by apply recommend_targets].
  - unfold runBenchmark. rewrite HP. fold targets count timeout. rewrite decide_False by done.
    rewrite run_targets_exact by apply Hn. mstep. reflexivity.
  - unfold results. by rewrite length_map, length_imap.
  - intros i t l Ht Hlk. apply list_lookup_fmap_Some in Hlk as (r & -> & Hlk). unfold results in Hlk. rewrite list_lookup_imap, Ht in Hlk.
    injection Hlk as <-. destruct (summary_figures t count (rtts i) Hc (Hl i) (Hr i)) as (E & _ & _ & _ & pct & Ep & Hf).
    exists pct, (Min (summarise t count (rtts i))), (Avg (summarise t count (rtts i))), (Max (summarise t count (rtts i))).
    split; [done|]. unfold table_line. by rewrite E, Ep.
Qed.

(** ** Witnesses *)

Module Witness.
Import Toy.

Definition ps1 : list ping :=
  [mkPing 7 true (Some (pong 7)) 1200; mkPing 8 true None 0; mkPing 9 true (Some (pong 8)) 900;
   mkPing 10 false None 0; mkPing 11 true (Some (pong 11)) 800].
Definition g1 : Gateway.DataGateway (P := ()) :=
  Gateway.NewDataGateway (gs "identity") (Entitlement.mkService Entitlement.ModeOpen [] None 0) 64.

Lemma ping_target_exact_witness :
  pingTarget true ps1 = Ret (Some (elapsed <$> filter answered ps1)) ∧
  (∀ p, p ∈ ps1 → ∃ wire reply rec, EncodePing (nonce p) = Ret wire ∧
     Gateway.HandleDatagram g1 (take Gateway.maxRead wire) None (GoTime.Unix 0) = Ret (g1, Some reply, rec) ∧
     answered (mkPing (nonce p) true (Some reply) (elapsed p))).
Proof.
  apply (ping_target_exact g1 ps1 None (GoTime.Unix 0)).
  unfold ps1, is_u64. repeat (apply Forall_cons_2; [cbn [nonce]; lia|]). apply Forall_nil_2.
Defined.

Lemma ps1_rtts : elapsed <$> filter answered ps1 = [1200; 800].
Proof. vm_compute. reflexivity. Qed.

Definition stats1 : benchmarkStats := summarise (gs "home") 5 [1200; 800].
Definition stats2 : benchmarkStats := summarise (gs "hosted") 5 [500; 700; 600; 900; 400].
Definition stats3 : benchmarkStats := summarise (gs "down") 5 [].

Lemma summarise_exact_witness :
  Received stats1 = 2 ∧ ([1200; 800] = [] → 0 < 5 → LossPercent stats1 = of_int 100) ∧
  ([1200; 800] ≠ [] → Min stats1 ∈ [1200; 800] ∧ Max stats1 ∈ [1200; 800] ∧
     Forall (λ d, Min stats1 ≤ d ≤ Max stats1) [1200; 800] ∧
     Avg stats1 = foldr Z.add 0 [1200; 800] / 2 ∧ Min stats1 ≤ Avg stats1 ≤ Max stats1).
Proof.
  apply (summarise_exact (gs "home") 5 [1200; 800]).
  - repeat (apply Forall_cons_2; [lia|]). apply Forall_nil_2.
  - cbn. lia.
Defined.

Lemma recommend_best_witness :
  (Forall (λ r, Received r = 0) [stats1; stats2; stats3] ∧ recommend [stats1; stats2; stats3] = []) ∨
  (∃ b, b ∈ [stats1; stats2; stats3] ∧ Received b ≠ 0 ∧ recommend [stats1; stats2; stats3] = Label b ∧
     ∀ r, r ∈ [stats1; stats2; stats3] → Received r ≠ 0 →
       ¬ better (LossPercent r) (Avg r) (LossPercent b) (Avg b)).
Proof.
  apply (recommend_best [stats1; stats2; stats3]).
  repeat (apply Forall_cons_2; [vm_compute; intros _; split; [discriminate|reflexivity]|]). apply Forall_nil_2.
Defined.

(** Two targets, one of which cannot be dialled. *)
Definition net1 (i : nat) : target :=
  match i with
  | O => mkTarget None (λ _ i, let n := Z.of_nat i mod 2 ^ 64 in mkPing n true (Some (pong n)) (1234567 + 100000 * (Z.of_nat i mod 4)))
  | _ => mkTarget (Some (gs "no such host")) (λ _ _, mkPing 0 false None 0)
  end.

Definition args1 : list bytes := map gs ["-to"; "home:1"; "--to=away:1"; "-count"; "3"; "-timeout"; "1.5s"]%string.

Lemma benchmark1 :
  runBenchmark args1 net1 =
  Ret (Ok (concat (map (λ s, gs s ++ [newline])
    ["away:1: no such host";
     "gateway              loss      min      avg      max";
     "home:1                 0%    1.2ms    1.3ms    1.4ms";
     "away:1               100%        -        -        -"]%string) ++
    newline :: gs "Recommended: home:1 (lowest loss, then lowest latency)." ++ [newline])).
Proof. vm_compute. reflexivity. Qed.

Lemma net1_elapsed i j : 0 ≤ elapsed (ping_at (net1 i) 1500000000 j) < 2 ^ 56.
Proof. destruct i; cbn [net1 ping_at elapsed]; [|lia]. pose proof (Z.mod_pos_bound (Z.of_nat j) 4). lia. Qed.

Lemma benchmark_honest_witness :
  ∃ lines best, runBenchmark args1 net1 =
      Ret (Ok (concat (imap (λ i t, dial_line t (net1 i)) (map gs ["home:1"; "away:1"]%string)) ++ heading ++ concat lines ++ recommendation best)) ∧
    length lines = 2%nat.
Proof.
  destruct (benchmark_honest args1 net1
    [(gs "to", Flag.VString (gs "home:1")); (gs "to", Flag.VString (gs "away:1")); (gs "count", Flag.VInt 3);
     (gs "timeout", Flag.VDuration 1500000000)] []) as (lines & best & HE & Hl & _).
  - vm_compute. reflexivity.
  - by vm_compute.
  - vm_compute. split; [reflexivity|discriminate].
  - intros [|i] j; (split; [|exact (net1_elapsed _ j)]); unfold is_u64; cbn -[Z.modulo Z.pow]; [apply Z.mod_pos_bound; lia|lia].
  - exists lines, best. split; [exact HE|exact Hl].
Defined.

Lemma recommended1 : recommend [stats1; stats2; stats3] = gs "hosted".
Proof. vm_compute. reflexivity. Qed.

End Witness.
End Benchmark.
