(* ===== verification/Geminactl.v ===== *)
(** * cmd/geminactl: the command-line tool

    The probe command (its flags and their validation, the session identity, the
    send loop over one or two paths and the printed summary), the evidence and
    preflight commands with the JSON they print, the dispatch of [main] and
    [ComponentStage] of internal/bootstrap.  The network is the outcome of each dial
    and of each write.  The benchmark command is in Benchmark.v. *)

From S2P Require Import Prelude GoText GoFlag GoUnicode Protocol DedupWindow Metrics ProbeServer.
From S2P Require Import Paths Darwin Diagnostics Json JsonEncode Benchmark.
Import Protocol.

Module Geminactl.

(** ** internal/bootstrap/stage.go *)

Definition Stage : bytes := gs "stage-1-probe".
Definition ComponentStage (component : bytes) : bytes :=
  if decide (component = []) then Stage else component ++ gs ":" ++ Stage.

(** ** probe.go: configuration *)

Inductive error :=
| ErrFlag (e : Flag.error) | ErrInterfaceRequired | ErrToRequired | ErrCount | ErrUnknownPath (name : bytes)
| ErrDial (iface : bytes) | ErrRandom | ErrMarshal (e : Protocol.error) | ErrSend (n : Z) (iface : bytes)
| ErrEvidence (e : Darwin.error).

Record probeConfig := mkConfig {
  iface : bytes; to : bytes; path : PathTag; count : Z; duplicate : bool; iface2 : bytes; path2 : PathTag
}.
Definition dualPath (c : probeConfig) : bool := negb (bool_decide (iface2 c = [])).

Definition parsePathTag (name : bytes) : result error PathTag :=
  if decide (name ∈ [gs "wifi"; gs "wi-fi"]) then Ok PathWiFi
  else if decide (name ∈ [gs "usb"; gs "android-usb-tether"; gs "android-usb-tethering"]) then Ok PathAndroidUSBTether
  else Err (ErrUnknownPath name).

Definition probe_flags : Flag.formal :=
  [(gs "interface", Flag.KString); (gs "to", Flag.KString); (gs "path", Flag.KString); (gs "count", Flag.KInt);
   (gs "duplicate", Flag.KBool); (gs "interface2", Flag.KString); (gs "path2", Flag.KString)].

Definition parseProbeConfig (args : list bytes) : result error probeConfig :=
  match Flag.Parse probe_flags args with
  | Err e => Err (ErrFlag e)
  | Ok (vs, _) =>
      let iface := Flag.string_of vs (gs "interface") [] in
      let to := Flag.string_of vs (gs "to") [] in
      let pathName := Flag.string_of vs (gs "path") (gs "wifi") in
      let count := Flag.int_of vs (gs "count") 1 in
      let duplicate := Flag.bool_of vs (gs "duplicate") false in
      let iface2 := Flag.string_of vs (gs "interface2") [] in
      let path2Name := Flag.string_of vs (gs "path2") (gs "usb") in
      if decide (iface = []) then Err ErrInterfaceRequired else
      if decide (to = []) then Err ErrToRequired else
      if count <? 1 then Err ErrCount else
      match parsePathTag pathName with
      | Err e => Err e
      | Ok tag =>
          if decide (iface2 = []) then Ok (mkConfig iface to tag count duplicate [] PathUnknown) else
          match parsePathTag path2Name with
          | Err e => Err e
          | Ok tag2 => Ok (mkConfig iface to tag count duplicate iface2 tag2)
          end
      end
  end.

(** ** probe.go: sending *)

(** The 16 random bytes, or the failure of the source. *)
Definition randomSession (random : option bytes) : option SessionID :=
  raw ← random;
  let s := arr 16 raw in
  Some (if IsZero s then arr 16 (z2b 1 :: drop 1 (s : bytes)) else s).

(** What the outside does: dialling through an interface, and the n-th write. *)
Record network := mkNetwork { dial : bytes → bytes → bool; write : nat → bool }.

(** The datagrams written so far, each with its interface. *)
Definition sent_log := list (bytes * bytes).

Fixpoint send_copies (net : network) (log : sent_log) (ifname wire : bytes) (copies : nat) : sent_log * bool :=
  match copies with
  | O => (log, true)
  | S k => if write net (length log) then send_copies net (log ++ [(ifname, wire)]) ifname wire k else (log, false)
  end.

Fixpoint probe_loop (net : network) (cfg : probeConfig) (session : SessionID) (ns : list Z) (log : sent_log)
  : go (sent_log * result error ()) :=
  match ns with
  | [] => Ret (log, Ok ())
  | n :: ns =>
      let id := mkPacketID session n in
      w ← MarshalBinary (mkProbe id (path cfg));
      match w with
      | Err e => Ret (log, Err (ErrMarshal e))
      | Ok wire =>
          let '(log, fine) := send_copies net log (iface cfg) wire (if duplicate cfg then 2 else 1) in
          if negb fine then Ret (log, Err (ErrSend n (iface cfg))) else
          if dualPath cfg then
            w2 ← MarshalBinary (mkProbe id (path2 cfg));
            match w2 with
            | Err e => Ret (log, Err (ErrMarshal e))
            | Ok wire2 =>
                let '(log, fine) := send_copies net log (iface2 cfg) wire2 1 in
                if negb fine then Ret (log, Err (ErrSend n (iface2 cfg))) else probe_loop net cfg session ns log
            end
          else probe_loop net cfg session ns log
      end
  end.

Definition quoted (s : string) : bytes := z2b 34 :: gs s ++ [z2b 34].
Definition duplicateNote (dup : bool) : bytes := if dup then gs " (each duplicated)" else [].

Definition summary (cfg : probeConfig) (sent : nat) : bytes :=
  let total := gs "sent " ++ Strconv.format_int (Z.of_nat sent) ++ gs " datagram(s): " ++
               Strconv.format_int (count cfg) ++ gs " distinct probe(s) over " ++ iface cfg in
  (if dualPath cfg
   then total ++ gs " (" ++ quoted (PathTag_String (path cfg)) ++ gs ") and " ++ iface2 cfg ++
        gs " (" ++ quoted (PathTag_String (path2 cfg)) ++ gs ")"
   else total ++ gs " as path " ++ quoted (PathTag_String (path cfg)) ++ duplicateNote (duplicate cfg))
  ++ [z2b 10].

(** The datagrams sent and the printed text, or the error. *)
Definition runProbe (net : network) (random : option bytes) (args : list bytes) : go (sent_log * result error bytes) :=
  match parseProbeConfig args with
  | Err e => Ret ([], Err e)
  | Ok cfg =>
      if negb (dial net (iface cfg) (to cfg)) then Ret ([], Err (ErrDial (iface cfg))) else
      if dualPath cfg && negb (dial net (iface2 cfg) (to cfg)) then Ret ([], Err (ErrDial (iface2 cfg))) else
      match randomSession random with
      | None => Ret ([], Err ErrRandom)
      | Some session =>
          '(log, r) ← probe_loop net cfg session (seqZ 1 (count cfg)) [];
          Ret (log, match r with Err e => Err e | Ok _ => Ok (summary cfg (length log)) end)
      end
  end.

(** ** The JSON of the reports, by the tags of their fields *)

Definition tether_json (t : Diagnostics.AndroidTetherSupport) : Json.json :=
  Json.JObject [(gs "present", Json.JBool (Diagnostics.Present t)); (gs "usable", Json.JBool (Diagnostics.SUsable t));
    (gs "mode", Json.JString (Diagnostics.Mode t))].

Definition compatibility_json (r : Diagnostics.CompatibilityReport) : Json.json :=
  Json.JObject
    [(gs "type", Json.JString (Diagnostics.Type_ r));
     (gs "verdict", Json.JString (Diagnostics.verdict_text (Diagnostics.Verdict r)));
     (gs "ready", Json.JBool (Diagnostics.Ready r));
     (gs "macos_version", Json.JString (Diagnostics.MacOSVersion r));
     (gs "macos_supported", Json.JBool (Diagnostics.MacOSSupported r));
     (gs "wifi", Json.JBool (Diagnostics.WiFi r));
     (gs "android_tether", tether_json (Diagnostics.AndroidTether r));
     (gs "next_step", Json.JString (Diagnostics.NextStep r))].

Definition function_json (f : Diagnostics.DiagnosticDeviceFunction) : Json.json :=
  Json.JObject [(gs "transport", Json.JString (Diagnostics.fTransport f));
    (gs "host_driver_claimed", Json.JBool (Diagnostics.fHostDriverClaimed f)); (gs "usable", Json.JBool (Diagnostics.fUsable f))].

Definition item_json (e : Diagnostics.DiagnosticEvidence) : Json.json :=
  Json.JObject [(gs "source", Json.JString (Diagnostics.dSource e)); (gs "key", Json.JString (Diagnostics.dKey e));
    (gs "value", Json.JString (Diagnostics.dValue e))].

Definition interface_json (i : Diagnostics.DiagnosticInterface) : Json.json :=
  Json.JObject
    [(gs "bsd_name", Json.JString (Diagnostics.iBSDName i)); (gs "kind", Json.JString (Diagnostics.iKind i));
     (gs "usable", Json.JBool (Diagnostics.iUsable i)); (gs "up", Json.JBool (Diagnostics.iUp i));
     (gs "running", Json.JBool (Diagnostics.iRunning i)); (gs "loopback", Json.JBool (Diagnostics.iLoopback i));
     (gs "has_ipv4", Json.JBool (Diagnostics.iHasIPv4 i));
     (gs "evidence", Json.JArray (map item_json (Diagnostics.iEvidence i)))].

Definition candidate_json (c : Diagnostics.DiagnosticCandidate) : Json.json :=
  Json.JObject [(gs "role", Json.JString (Diagnostics.dcRole c)); (gs "bsd_name", Json.JString (Diagnostics.dcBSDName c));
    (gs "kind", Json.JString (Diagnostics.dcKind c))].

(** The count is omitted when it is zero. *)
Definition issue_json (i : Diagnostics.DiagnosticIssue) : Json.json :=
  Json.JObject ([(gs "code", Json.JString (Diagnostics.diCode i)); (gs "role", Json.JString (Diagnostics.diRole i))] ++
    if Diagnostics.diCount i =? 0 then [] else [(gs "count", Json.JNumber (Strconv.format_int (Diagnostics.diCount i)))]).

Definition evidence_json (r : Diagnostics.DarwinEvidenceReport) : Json.json :=
  Json.JObject
    [(gs "type", Json.JString (Diagnostics.rType r)); (gs "stage", Json.JString (Diagnostics.rStage r));
     (gs "claim", Json.JString (Diagnostics.rClaim r));
     (gs "classification_status", Json.JString (Diagnostics.rClassificationStatus r));
     (gs "complete", Json.JBool (Diagnostics.rComplete r));
     (gs "interfaces", Json.JArray (map interface_json (Diagnostics.rInterfaces r)));
     (gs "candidates", Json.JArray (map candidate_json (Diagnostics.rCandidates r)));
     (gs "device_functions", Json.JArray (map function_json (Diagnostics.rDeviceFunctions r)));
     (gs "issues", Json.JArray (map issue_json (Diagnostics.rIssues r)))].

(** ** preflight.go and main.go *)

Definition writePreflight (r : Diagnostics.CompatibilityReport) (asJSON share : bool) : bytes :=
  if asJSON then JsonEncode.Encode (compatibility_json r)
  else if share then Diagnostics.ShareReport r ++ [z2b 10]
  else Diagnostics.Summary r ++ [z2b 10].

Section live.
Context `{UN : Unicode}.

Definition preflight_flags : Flag.formal := [(gs "json", Flag.KBool); (gs "share", Flag.KBool)].

Definition runPreflight (listed : option (list Darwin.net_interface)) (runner : Darwin.CommandRunner) (args : list bytes)
  : result error bytes :=
  match Flag.Parse preflight_flags args with
  | Err e => Err (ErrFlag e)
  | Ok (vs, _) =>
      match Diagnostics.preflight listed runner with
      | Err e => Err (ErrEvidence e)
      | Ok report =>
          Ok (writePreflight report (Flag.bool_of vs (gs "json") false) (Flag.bool_of vs (gs "share") false))
      end
  end.

(** What the machine is: its interfaces and commands, the network of the probe and
    of the benchmark, and the session drawn. *)
Record host := mkHost {
  listed : option (list Darwin.net_interface);
  runner : Darwin.CommandRunner;
  net : network;
  targets : nat → Benchmark.target;
  random : option bytes
}.

Definition exit_code {E} (r : result E bytes) : Z * bytes := match r with Ok text => (0, text) | Err _ => (1, []) end.

(** Exit code and standard output. *)
Definition main (h : host) (args : list bytes) : go (Z * bytes) :=
  match args with
  | [] => Ret (0, ComponentStage (gs "geminactl") ++ [z2b 10])
  | cmd :: args =>
      if decide (cmd = gs "darwin-evidence") then
        Ret (match Diagnostics.runDarwinEvidence (listed h) (runner h) with
             | Ok r => (0, JsonEncode.Encode (evidence_json r)) | Err _ => (1, []) end)
      else if decide (cmd = gs "preflight") then Ret (exit_code (runPreflight (listed h) (runner h) args))
      else if decide (cmd = gs "probe") then '(_, r) ← runProbe (net h) (random h) args; Ret (exit_code r)
      else if decide (cmd = gs "benchmark") then r ← Benchmark.runBenchmark args (targets h); Ret (exit_code r)
      else Ret (2, [])
  end.

End live.

(** ** Lemmas *)

Definition reliable (net : network) : Prop := (∀ i a, dial net i a = true) ∧ ∀ k, write net k = true.

(** The probes of one number, in sending order. *)
Definition burst (cfg : probeConfig) (session : SessionID) (n : Z) : list ProbePacket :=
  replicate (if duplicate cfg then 2 else 1) (mkProbe (mkPacketID session n) (path cfg)) ++
  (if dualPath cfg then [mkProbe (mkPacketID session n) (path2 cfg)] else []).
Definition all_probes (cfg : probeConfig) (session : SessionID) : list ProbePacket :=
  concat (map (burst cfg session) (seqZ 1 (count cfg))).

Lemma parseProbeConfig_ok args cfg : parseProbeConfig args = Ok cfg → 1 ≤ count cfg < 2 ^ 63.
Proof.
  unfold parseProbeConfig. destruct (Flag.Parse probe_flags args) as [[vs rest]|] eqn:Hp; [|done].
  apply (Flag.Parse_ok (length args)) in Hp; [|done].
  pose proof (Flag.int_of_range vs (gs "count") 1 ltac:(unfold is_i64; lia) Hp) as Hi. unfold is_i64 in Hi.
  generalize dependent (Flag.int_of vs (gs "count") 1). intros c Hi.
  case_decide; [done|]. case_decide; [done|]. destruct (Z.ltb_spec c 1); [done|].
  destruct (parsePathTag _) as [tag|]; [|done]. case_decide; [intros [= <-]; cbn [count]; lia|].
  destruct (parsePathTag _) as [tag2|]; [|done]. intros [= <-]. cbn [count]. lia.
Qed.

Lemma randomSession_nonzero random s : randomSession random = Some s → IsZero s = false.
Proof.
  unfold randomSession. destruct random as [raw|]; [|done]. cbn. intros [= <-].
  destruct (IsZero (arr 16 raw)) eqn:Hz; [|done].
  assert (length (z2b 1 :: drop 1 (arr 16 raw : bytes)) = 16%nat) as Hl
    by (cbn [length]; rewrite length_drop, length_session; done).
  unfold IsZero. rewrite vec_arr by done. done.
Qed.

Lemma send_copies_reliable net log ifname wire k :
  reliable net → send_copies net log ifname wire k = (log ++ replicate k (ifname, wire), true).
Proof.
  intros [_ Hw]. revert log. induction k as [|k IH]; intros log; cbn; [by rewrite app_nil_r|].
  rewrite Hw, IH, <- app_assoc. done.
Qed.

Definition good_id (session : SessionID) (n : Z) : Prop := IsZero session = false ∧ 1 ≤ n < 2 ^ 63.

Lemma good_id_valid session n : good_id session n → Valid (mkPacketID session n) = true.
Proof. intros [Hs Hn]. apply Valid_intro; [cbn; lia|done]. Qed.

(** The datagrams of one number, with the interfaces they leave by. *)
Definition burst_log (cfg : probeConfig) (session : SessionID) (n : Z) : sent_log :=
  replicate (if duplicate cfg then 2 else 1) (iface cfg, probe_bytes (mkProbe (mkPacketID session n) (path cfg))) ++
  (if dualPath cfg then [(iface2 cfg, probe_bytes (mkProbe (mkPacketID session n) (path2 cfg)))] else []).

Lemma probe_loop_reliable net cfg session ns log :
  reliable net → Forall (good_id session) ns →
  probe_loop net cfg session ns log = Ret (log ++ concat (map (burst_log cfg session) ns), Ok ()).
Proof.
  intros Hnet Hns. revert log. induction Hns as [|n ns Hn _ IH]; intros log; [cbn; by rewrite app_nil_r|].
  cbn [probe_loop map concat]. apply good_id_valid in Hn.
  rewrite !Marshal_layout by done. mstep. rewrite send_copies_reliable by done. cbn [negb].
  unfold burst_log at 1. destruct (dualPath cfg).
  - mstep. cbn [send_copies]. rewrite (proj2 Hnet). cbn [negb].
    rewrite IH. by rewrite !app_assoc.
  - rewrite IH, app_nil_r. by rewrite !app_assoc.
Qed.

Lemma burst_log_wires cfg session n : (burst_log cfg session n).*2 = map probe_bytes (burst cfg session n).
Proof.
  unfold burst_log, burst. rewrite fmap_app, map_app. f_equal; [by destruct (duplicate cfg)|by destruct (dualPath cfg)].
Qed.

(** *** The server's account of a run *)

(** Nothing the queue knows of the session has reached number [n]. *)
Definition below (session : SessionID) (n : Z) (q : Dedup.Fifo) : Prop :=
  ∀ id, is_Some (Dedup.info q !! id) → Session id = session → Number id < n.

Definition same_id (id : PacketID) (ps : list ProbePacket) : Prop := Forall (λ p, ID p = id) ps.

(** Further copies of a queued identity are duplicates and add nothing. *)
Lemma copies_records cap q id ps rest :
  Valid id = true → is_u64 (Number id) → same_id id ps → is_Some (Dedup.info q !! id) →
  ∃ q' rs, ProbeServer.spec_records cap q (map probe_bytes ps ++ rest) = rs ++ ProbeServer.spec_records cap q' rest ∧
    Forall (λ r, ProbeServer.rDecision r = ProbeServer.DecisionDuplicate) rs ∧ length rs = length ps ∧
    (∀ id', is_Some (Dedup.info q' !! id') ↔ is_Some (Dedup.info q !! id')).
Proof.
  intros Hv Hn Hps. revert q. induction Hps as [|p ps Hp _ IH]; intros q Hq; [by exists q, []|].
  cbn [map app ProbeServer.spec_records]. rewrite ProbeServer.unmarshal_own by by rewrite Hp. rewrite Hp.
  unfold Dedup.fifo_observe. rewrite Hv, ProbeServer.path_valid. cbn [negb orb].
  destruct Hq as [e He]. rewrite He.
  destruct (IH (Dedup.mkFifo (Dedup.queue q) (<[id := Dedup.mkEntry (Dedup.firstPath e) (i64 (Dedup.copyCount e + 1))]> (Dedup.info q))))
    as (q' & rs & Hr & Hd & Hl & Hdom); [cbn; rewrite lookup_insert_eq; by eexists|].
  eexists q', (_ :: rs). rewrite Hr. split; [done|]. split; [by constructor|]. split; [cbn; by rewrite Hl|].
  intros id'. rewrite Hdom. cbn. destruct (decide (id' = id)) as [->|Hne].
  - rewrite lookup_insert_eq, He. by split; eexists.
  - by rewrite lookup_insert_ne.
Qed.

(** A burst of a new number is one first copy and duplicates. *)
Lemma burst_records cap q session n p ps rest :
  good_id session n → below session n q → same_id (mkPacketID session n) (p :: ps) →
  ∃ q' r rs, ProbeServer.spec_records cap q (map probe_bytes (p :: ps) ++ rest) =
      r :: rs ++ ProbeServer.spec_records cap q' rest ∧
    ProbeServer.rDecision r = ProbeServer.DecisionFirstCopy ∧
    Forall (λ r, ProbeServer.rDecision r = ProbeServer.DecisionDuplicate) rs ∧ length rs = length ps ∧
    below session (n + 1) q'.
Proof.
  intros Hg Hb [Hp Hps]%Forall_cons. pose proof (good_id_valid _ _ Hg) as Hv.
  assert (is_u64 n) as Hn by (destruct Hg; unfold is_u64; lia).
  cbn [map app ProbeServer.spec_records]. rewrite ProbeServer.unmarshal_own by by rewrite Hp. rewrite Hp.
  unfold Dedup.fifo_observe. rewrite Hv, ProbeServer.path_valid. cbn [negb orb].
  assert (Dedup.info q !! mkPacketID session n = None) as Hnone.
  { apply eq_None_not_Some. intros Hs. specialize (Hb _ Hs eq_refl). cbn in Hb. lia. }
  rewrite Hnone. set (q1 := Dedup.mkFifo _ _).
  destruct (copies_records cap q1 (mkPacketID session n) ps rest Hv Hn Hps) as (q' & rs & Hr & Hd & Hl & Hdom).
  { cbn. rewrite lookup_insert_eq. by eexists. }
  eexists q', _, rs. split; [by rewrite Hr|]. split; [done|]. split; [done|]. split; [done|].
  intros id Hid Hsess. apply Hdom in Hid. cbn in Hid. destruct (decide (id = mkPacketID session n)) as [->|Hne]; [cbn; lia|].
  rewrite lookup_insert_ne in Hid by done.
  assert (is_Some (Dedup.info q !! id)) as Hq.
  { unfold Dedup.fifo_room in Hid. destruct (Dedup.queue q); [done|]. case_decide; [|done]. cbn in Hid.
    destruct Hid as [e He]. apply lookup_delete_Some in He as [_ He]. by exists e. }
  specialize (Hb _ Hq Hsess). lia.
Qed.

Lemma tally_app d l1 l2 : ProbeServer.tally d (l1 ++ l2) = ProbeServer.tally d l1 + ProbeServer.tally d l2.
Proof. unfold ProbeServer.tally. rewrite filter_app, length_app. lia. Qed.

Lemma tally_all d d' rs :
  Forall (λ r, ProbeServer.rDecision r = d') rs →
  ProbeServer.tally d rs = if decide (d' = d) then Z.of_nat (length rs) else 0.
Proof.
  induction 1 as [|r rs Hr _ IH]; [by case_decide|]. rewrite ProbeServer.tally_cons, IH, Hr.
  case_decide; cbn [length]; lia.
Qed.

(** Copies per number. *)
Definition copies_of (cfg : probeConfig) : Z := (if duplicate cfg then 2 else 1) + (if dualPath cfg then 1 else 0).

Lemma burst_shape cfg session n :
  ∃ p ps, burst cfg session n = p :: ps ∧ same_id (mkPacketID session n) (p :: ps) ∧
    Z.of_nat (length ps) = copies_of cfg - 1.
Proof.
  unfold burst, copies_of. destruct (duplicate cfg), (dualPath cfg); eexists _, _; (split; [reflexivity|]);
    (split; [by repeat constructor|done]).
Qed.

Lemma run_records cap q cfg session a ns :
  below session a q → ns = seqZ a (Z.of_nat (length ns)) → Forall (good_id session) ns →
  let rs := ProbeServer.spec_records cap q (map probe_bytes (concat (map (burst cfg session) ns))) in
  ProbeServer.tally ProbeServer.DecisionFirstCopy rs = Z.of_nat (length ns) ∧
  ProbeServer.tally ProbeServer.DecisionDuplicate rs = Z.of_nat (length ns) * (copies_of cfg - 1) ∧
  ProbeServer.tally ProbeServer.DecisionRejected rs = 0.
Proof.
  revert a q. induction ns as [|n ns IH]; intros a q Hb Hseq Hg; [by unfold ProbeServer.tally|]. cbn zeta.
  rewrite seqZ_cons in Hseq by (cbn [length]; lia). injection Hseq as -> Hseq.
  apply Forall_cons in Hg as [Hn Hg]. cbn [map concat]. rewrite map_app.
  destruct (burst_shape cfg session a) as (p & ps & -> & Hsame & Hlen).
  destruct (burst_records cap q session a p ps (map probe_bytes (concat (map (burst cfg session) ns))) Hn Hb Hsame)
    as (q' & r & rs & -> & Hr & Hd & Hl & Hb').
  specialize (IH (Z.succ a) q'). cbn zeta in IH. destruct IH as (H1 & H2 & H3); [done| |done|].
  { rewrite Hseq at 1. f_equal. cbn [length]. lia. }
  rewrite !ProbeServer.tally_cons, !tally_app, H1, H2, H3, Hr, !(tally_all _ _ rs Hd). cbn [length].
  repeat case_decide; try done. split_and!; lia.
Qed.

(** ** Properties *)

(** A probe run is accounted for, end to end.  On a network that dials and
    writes, whatever the flags (validated by [parseProbeConfig]) and the random
    bytes, the command sends every number from 1 to the count as many times as the
    duplicate and second-interface flags ask, and prints that number; and a probe
    server that receives the datagrams in order counts exactly one first copy per
    number, every other datagram as a duplicate, and rejects none. *)
Theorem probe_run_accounted (net : network) (args : list bytes) (raw : bytes) (cfg : probeConfig)
    (cap : Z) (server : ProbeServer.Server) :
  reliable net → parseProbeConfig args = Ok cfg →
  0 < cap ≤ 2 ^ 62 → ProbeServer.NewServer cap = Ok server → count cfg * 3 < 2 ^ 64 →
  ∃ log server' n rs,
    runProbe net (Some raw) args = Ret (log, Ok (summary cfg (length log))) ∧
    Z.of_nat (length log) = count cfg * copies_of cfg ∧
    ProbeServer.Serve server 0 0 log.*2 = Ret (server', n, rs) ∧
    ProbeServer.server_stats server' = ProbeServer.mkStats (count cfg) (count cfg * (copies_of cfg - 1)) 0.
Proof.
  intros Hnet Hcfg Hcap Hs Hbig. pose proof (parseProbeConfig_ok _ _ Hcfg) as Hc. pose proof Hnet as [Hdial _].
  unfold runProbe. rewrite Hcfg, !Hdial. cbn [negb]. rewrite andb_false_r.
  destruct (randomSession (Some raw)) as [session|] eqn:Hr; [|done].
  pose proof (randomSession_nonzero _ _ Hr) as Hz.
  assert (Forall (good_id session) (seqZ 1 (count cfg))) as Hg.
  { apply Forall_forall. intros x Hx%elem_of_seqZ. split; [done|lia]. }
  rewrite probe_loop_reliable by done. mstep. cbn [app].
  set (log := concat (map (burst_log cfg session) (seqZ 1 (count cfg)))).
  assert (log.*2 = map probe_bytes (concat (map (burst cfg session) (seqZ 1 (count cfg))))) as Hlog.
  { unfold log. clear. induction (seqZ 1 (count cfg)) as [|n ns IH]; [done|].
    cbn [map concat]. by rewrite fmap_app, map_app, burst_log_wires, IH. }
  apply ProbeServer.NewServer_ok in Hs as (Hok & Hu & Hst); [|done].
  destruct (ProbeServer.Serve_spec _ _ server 0 0 log.*2 Hok Hu) as (server' & n & HS & H1 & H2 & H3 & _).
  destruct (run_records (Z.to_nat cap) (Dedup.mkFifo [] ∅) cfg session 1 (seqZ 1 (count cfg))) as (T1 & T2 & T3).
  { intros id [? Hid]. cbn in Hid. by rewrite lookup_empty in Hid. }
  { rewrite length_seqZ. f_equal. lia. }
  { done. }
  cbn zeta in *. rewrite <- Hlog in T1, T2, T3. rewrite length_seqZ, Z2Nat.id in * by lia.
  injection Hst as E1 E2 E3. rewrite E1, T1 in H1. rewrite E2, T2 in H2. rewrite E3, T3 in H3.
  assert (1 ≤ copies_of cfg ≤ 3) as Hk by (unfold copies_of; destruct (duplicate cfg), (dualPath cfg); lia).
  exists log, server', n. eexists. split_and!; [done| |done|].
  - assert (∀ ns, Z.of_nat (length (concat (map (burst_log cfg session) ns))) = Z.of_nat (length ns) * copies_of cfg) as Hlen.
    2: { unfold log. rewrite Hlen, length_seqZ. lia. }
    intros ns. induction ns as [|m ns IH]; [done|]. cbn [map concat length]. rewrite length_app, Nat2Z.inj_add, IH.
    unfold burst_log, copies_of. destruct (duplicate cfg), (dualPath cfg); cbn [length app replicate]; lia.
  - unfold ProbeServer.server_stats. rewrite H1, H2, H3. rewrite !Z.add_0_l, !u64_small; try done; unfold is_u64; nia.
Qed.

(** ** The printed reports *)

Lemma object_printable ms :
  Forall (λ kv, Json.printable_by (λ _, True) kv.2) ms → Json.printable_by (λ _, True) (Json.JObject ms).
Proof. intros Hm. cbn [Json.printable_by]. apply Forall_map. eapply Forall_impl; [exact Hm|]. done. Qed.

Lemma array_printable {A} (f : A → Json.json) l :
  (∀ x, x ∈ l → Json.printable_by (λ _, True) (f x)) → Json.printable_by (λ _, True) (Json.JArray (map f l)).
Proof. intros Hf. cbn [Json.printable_by]. rewrite !Forall_map. apply Forall_forall. done. Qed.

Lemma object_depth ms k :
  Forall (λ kv, Json.depth_of kv.2 ≤ k)%nat ms → (Json.depth_of (Json.JObject ms) ≤ S k)%nat.
Proof. intros Hm. cbn [Json.depth_of]. induction Hm as [|kv ms Hk _ IH]; cbn in *; lia. Qed.

Lemma array_depth {A} (f : A → Json.json) l k :
  (∀ x, Json.depth_of (f x) ≤ k)%nat → (Json.depth_of (Json.JArray (map f l)) ≤ S k)%nat.
Proof. intros Hf. cbn [Json.depth_of]. induction l as [|x l IH]; cbn in *; [lia|]. specialize (Hf x). lia. Qed.

Ltac each_field := repeat (apply Forall_cons_2; [try done|]); try apply Forall_nil_2.

Lemma issue_printable i : is_i64 (Diagnostics.diCount i) → Json.printable_by (λ _, True) (issue_json i).
Proof.
  intros Hi. apply object_printable. each_field. destruct (_ =? 0); each_field. by apply JsonEncode.format_number.
Qed.

Lemma evidence_printable r : Diagnostics.counts_ok r → Json.printable_by (λ _, True) (evidence_json r).
Proof.
  intros Hr. apply object_printable. each_field; cbn [snd]; apply array_printable.
  - intros i _. apply object_printable. each_field. apply array_printable. intros e _. apply object_printable. each_field.
  - intros c _. apply object_printable. each_field.
  - intros f _. apply object_printable. each_field.
  - intros i Hi. apply issue_printable. unfold Diagnostics.counts_ok in Hr. rewrite Forall_forall in Hr. by apply Hr.
Qed.

Lemma evidence_depth r : (Json.depth_of (evidence_json r) ≤ 5)%nat.
Proof.
  apply object_depth. each_field; cbn [snd]; try (cbn; lia); apply array_depth; intros x; apply object_depth; each_field;
    cbn [snd]; try (cbn; lia).
  - apply array_depth. intros e. apply object_depth. each_field; cbn; lia.
  - destruct (_ =? 0); each_field; cbn; lia.
Qed.

Lemma compatibility_printable r : Json.printable_by (λ _, True) (compatibility_json r).
Proof. apply object_printable. each_field. Qed.

Lemma compatibility_depth r : (Json.depth_of (compatibility_json r) ≤ 2)%nat.
Proof. apply object_depth. each_field; cbn; lia. Qed.

(** The JSON printed by the evidence command, and by the preflight command when it
    is asked for, is a document that parses back to the fields of the report, with
    the invalid UTF-8 of its texts replaced; nothing is replaced when there is
    none. *)
Theorem reports_parse_back `{UN : Unicode} (h : host) :
  (∀ r, Diagnostics.runDarwinEvidence (listed h) (runner h) = Ok r → Z.of_nat (length (Diagnostics.rInterfaces r)) < 2 ^ 63 →
     ∃ text, main h [gs "darwin-evidence"] = Ret (0, text) ∧ Json.parse text = Some (Json.norm_json Utf8.coerce (evidence_json r))) ∧
  (∀ r, Diagnostics.preflight (listed h) (runner h) = Ok r →
     ∃ text, main h [gs "preflight"; gs "-json"] = Ret (0, text) ∧
       Json.parse text = Some (Json.norm_json Utf8.coerce (compatibility_json r))).
Proof.
  split; intros r Hr.
  - intros Hl. exists (JsonEncode.Encode (evidence_json r)). unfold main. rewrite decide_True by done. rewrite Hr.
    split; [done|]. pose proof (evidence_depth r). apply JsonEncode.encode_roundtrip; [|unfold Json.maxNestingDepth; lia].
    apply evidence_printable. revert Hr Hl. unfold Diagnostics.runDarwinEvidence. repeat case_match; try done.
    intros [= <-]. cbn [Diagnostics.rInterfaces Diagnostics.BuildDarwinEvidenceReport]. unfold Diagnostics.diagnosticInterfaces.
    rewrite length_map. apply Diagnostics.report_counts.
  - exists (JsonEncode.Encode (compatibility_json r)). unfold main. rewrite decide_False, decide_True by done.
    unfold runPreflight. rewrite Hr. split; [done|].
    pose proof (compatibility_depth r). apply JsonEncode.encode_roundtrip; [|unfold Json.maxNestingDepth; lia].
    apply compatibility_printable.
Qed.

(** ** Witnesses *)

Module Witness.

Definition net1 : network := mkNetwork (λ _ _, true) (λ _, true).
Definition args1 : list bytes :=
  map gs ["-interface"; "en0"; "--to=gw.example:51820"; "-count"; "0x2"; "-duplicate"; "-interface2=en5"]%string.
Definition cfg1 : probeConfig := mkConfig (gs "en0") (gs "gw.example:51820") PathWiFi 2 true (gs "en5") PathAndroidUSBTether.
Definition raw1 : bytes := gs "session-id-00001".

Lemma net1_reliable : reliable net1.
Proof. done. Qed.

Lemma probe_run_accounted_witness :
  ∃ log server' n rs,
    runProbe net1 (Some raw1) args1 = Ret (log, Ok (summary cfg1 (length log))) ∧
    Z.of_nat (length log) = count cfg1 * copies_of cfg1 ∧
    ProbeServer.Serve ProbeServer.server1 0 0 log.*2 = Ret (server', n, rs) ∧
    ProbeServer.server_stats server' = ProbeServer.mkStats (count cfg1) (count cfg1 * (copies_of cfg1 - 1)) 0.
Proof.
  apply (probe_run_accounted net1 args1 raw1 cfg1 4 ProbeServer.server1).
  - apply net1_reliable.
  - vm_compute. reflexivity.
  - lia.
  - reflexivity.
  - vm_compute. reflexivity.
Defined.

(** The printed summary of that run. *)
Lemma args1_summary :
  (match runProbe net1 (Some raw1) args1 with Ret (_, Ok text) => text | _ => [] end) =
  gs "sent 6 datagram(s): 2 distinct probe(s) over en0 (" ++ quoted "wi-fi" ++ gs ") and en5 (" ++
  quoted "android-usb-tether" ++ gs ")" ++ [z2b 10].
Proof. vm_compute. reflexivity. Qed.

End Witness.
End Geminactl.
