(* ===== verification/Rndis.v ===== *)
(** * research/usb-rndis-spike/rndis_lib.c: framing for the cellular path

    The C library behind the USB tether: RNDIS messages, Ethernet, ARP, IPv4 and
    UDP frames, DHCP and the continuity probe.  A buffer argument is the bytes the
    pointer may access; an access outside it, which C leaves undefined, is [Panic],
    and so is a signed overflow.  The theorems are about every input: the parsers
    stay inside their buffers, and what the builders write is what the other side
    (RNDIS function, DHCP server, Go gateway) reads. *)

From S2P Require Import Prelude GoText Protocol.

Import Protocol.

Module Rndis.

(** ** Buffers and C integers *)

Definition u32 (z : Z) : Z := z mod 2 ^ 32.
Definition u16 (z : Z) : Z := z mod 2 ^ 16.
Definition INT_MAX : Z := 2 ^ 31 - 1.

(** [memcpy(buf + off, src, n)] *)
Fixpoint overwrite (src buf : bytes) : go bytes :=
  match src, buf with
  | [], _ => Ret buf
  | s :: src, _ :: buf => r ← overwrite src buf; Ret (s :: r)
  | _ :: _, [] => Panic
  end.
Fixpoint wr (off : nat) (src buf : bytes) : go bytes :=
  match off, buf with
  | O, _ => overwrite src buf
  | S k, b :: buf => r ← wr k src buf; Ret (b :: r)
  | S _, [] => Panic
  end.

(** ** rndis_lib.h *)

Definition RNDIS_MSG_PACKET : Z := 1.
Definition RNDIS_PACKET_HDR : nat := 44.
Definition FRAME_CAP : nat := 600.
Definition DHCP_DISCOVER : Z := 1.
Definition DHCP_OFFER : Z := 2.
Definition DHCP_REQUEST : Z := 3.
Definition DHCP_ACK : Z := 5.
Definition CVP_PROBE_SIZE : nat := 30.

Record rl_lease_t := mkLease {
  client_ip : bytes;
  server_id : bytes;
  router : bytes;
  has_server_id : bool;
  has_router : bool
}.
Definition zero_lease : rl_lease_t := mkLease (zeros 4) (zeros 4) (zeros 4) false false.

(** ** Integers in buffers *)

Definition le32 (v : Z) : bytes :=
  [z2b (Z.land v 0xff); z2b (Z.land (Z.shiftr v 8) 0xff); z2b (Z.land (Z.shiftr v 16) 0xff); z2b (Z.land (Z.shiftr v 24) 0xff)].
Definition be16 (v : Z) : bytes := [z2b (Z.land (Z.shiftr v 8) 0xff); z2b (Z.land v 0xff)].

Definition rl_rd32 (p : bytes) (off : nat) : go Z :=
  b0 ← byte_at p off; b1 ← byte_at p (off + 1); b2 ← byte_at p (off + 2); b3 ← byte_at p (off + 3);
  Ret (Z.lor (Z.lor (Z.lor (b2z b0) (Z.shiftl (b2z b1) 8)) (Z.shiftl (b2z b2) 16)) (Z.shiftl (b2z b3) 24)).
Definition rl_wr32 (off : nat) (v : Z) (p : bytes) : go bytes := wr off (le32 v) p.
Definition wbe16 (off : nat) (v : Z) (p : bytes) : go bytes := wr off (be16 v) p.

(** ** The Internet checksum *)

(** The summing loop and the odd byte; [sum] is a [uint32_t]. *)
Fixpoint csum_loop (sum : Z) (data : bytes) : Z :=
  match data with
  | a :: b :: rest => csum_loop (u32 (sum + Z.lor (Z.shiftl (b2z a) 8) (b2z b))) rest
  | [a] => u32 (sum + Z.shiftl (b2z a) 8)
  | [] => sum
  end.

(** [while (sum >> 16)]: at most two iterations for a [uint32_t]. *)
Fixpoint fold_carry (fuel : nat) (sum : Z) : Z :=
  match fuel with
  | O => sum
  | S k => if Z.shiftr sum 16 =? 0 then sum else fold_carry k (u32 (Z.land sum 0xffff + Z.shiftr sum 16))
  end.

Definition rl_inet_csum (data : bytes) : Z := u16 (Z.lnot (fold_carry 3 (csum_loop 0 data))).

(** ** Ethernet, IPv4 and UDP *)

(** The checksum over the pseudo-header and the segment, assembled in the scratch
    buffer [pseudo] of 532 bytes, whose first contents do not matter. *)
Definition pseudo_csum (src_ip dst_ip udp : bytes) : go Z :=
  p ← wr 0 src_ip (zeros 532);
  p ← wr 4 dst_ip p;
  p ← wr 8 [z2b 0] p;
  p ← wr 9 [z2b 17] p;
  p ← wbe16 10 (u16 (Z.of_nat (length udp))) p;
  p ← wr 12 udp p;
  summed ← slice p 0 (12 + length udp);
  let csum := rl_inet_csum summed in
  Ret (if csum =? 0 then 0xffff else csum).

Definition udp_ip_eth (frame dst_mac src_mac src_ip dst_ip : bytes) (sport dport : Z) (payload : bytes)
  : go (Z * bytes) :=
  let plen := Z.of_nat (length payload) in
  if 14 + 20 + 8 + plen >? INT_MAX then Panic else
  let total := Nat.add 42 (length payload) in
  if Z.of_nat total >? Z.of_nat FRAME_CAP then Ret (-1, frame) else
  f ← wr 0 (zeros total) frame;
  f ← wr 0 dst_mac f;
  f ← wr 6 src_mac f;
  f ← wbe16 12 0x0800 f;
  f ← wr 42 payload f;
  let udp_len := 8 + plen in
  f ← wbe16 34 sport f;
  f ← wbe16 36 dport f;
  f ← wbe16 38 (u16 udp_len) f;
  f ← wbe16 40 0 f;
  f ← wr 14 [z2b 0x45] f;
  f ← wr 15 [z2b 0] f;
  f ← wbe16 16 (u16 (20 + udp_len)) f;
  f ← wbe16 18 0 f;
  f ← wbe16 20 0 f;
  f ← wr 22 [z2b 64] f;
  f ← wr 23 [z2b 17] f;
  f ← wbe16 24 0 f;
  f ← wr 26 src_ip f;
  f ← wr 30 dst_ip f;
  ip ← slice f 14 34;
  f ← wbe16 24 (rl_inet_csum ip) f;
  if udp_len <=? 532 - 12 then
    udp ← slice f 34 total;
    csum ← pseudo_csum src_ip dst_ip udp;
    f ← wbe16 40 csum f;
    Ret (Z.of_nat total, f)
  else Ret (Z.of_nat total, f).

Definition rl_build_udp_frame (src_mac dst_mac src_ip dst_ip : bytes) (src_port dst_port : Z)
    (payload frame : bytes) : go (Z * bytes) :=
  udp_ip_eth frame dst_mac src_mac src_ip dst_ip src_port dst_port payload.

(** ** DHCP *)

(** The BOOTP body, written into the scratch buffer [body]; the result carries the
    body's length. *)
Definition dhcp_body (body mac : bytes) (xid msgtype : Z) (req_ip server_id : option bytes) : go (bytes * nat) :=
  b ← wr 0 (zeros 240) body;
  b ← wr 0 [z2b 1] b;
  b ← wr 1 [z2b 1] b;
  b ← wr 2 [z2b 6] b;
  b ← rl_wr32 4 xid b;
  b ← wbe16 10 0x8000 b;
  b ← wr 28 mac b;
  b ← rl_wr32 236 0x63538263 b;
  b ← wr 240 [z2b 53; z2b 1; z2b msgtype] b;
  let option_ip code ip (x : bytes * nat) : go (bytes * nat) :=
    match ip with
    | Some ip => let '(b, opt) := x in
        b ← wr opt [z2b code; z2b 4] b; b ← wr (opt + 2) ip b; Ret (b, (opt + 6)%nat)
    | None => Ret x
    end in
  x ← option_ip 50 req_ip (b, 243%nat);
  '(b, opt) ← option_ip 54 server_id x;
  b ← wr opt [z2b 55; z2b 3; z2b 1; z2b 3; z2b 6; z2b 255] b;
  Ret (b, (opt + 6)%nat).

Definition bcast_mac : bytes := replicate 6 (z2b 0xff).
Definition any_ip : bytes := zeros 4.
Definition bcast_ip : bytes := replicate 4 (z2b 0xff).

(** [body] is the function's uninitialised local array of 300 bytes. *)
Definition rl_build_dhcp_discover (src_mac : bytes) (xid : Z) (frame body : bytes) : go (Z * bytes) :=
  '(b, blen) ← dhcp_body body src_mac xid DHCP_DISCOVER None None;
  payload ← slice b 0 blen;
  udp_ip_eth frame bcast_mac src_mac any_ip bcast_ip 68 67 payload.

Definition rl_build_dhcp_request (src_mac : bytes) (xid : Z) (lease : rl_lease_t) (frame body : bytes) : go (Z * bytes) :=
  let sid := if has_server_id lease then Some (server_id lease) else None in
  '(b, blen) ← dhcp_body body src_mac xid DHCP_REQUEST (Some (client_ip lease)) sid;
  payload ← slice b 0 blen;
  udp_ip_eth frame bcast_mac src_mac any_ip bcast_ip 68 67 payload.

(** The position of the DHCP body in a server's reply. *)
Definition dhcp_reply_body (f : bytes) : go (option nat) :=
  if decide (length f < 14 + 20 + 8 + 240)%nat then Ret None else
  t0 ← byte_at f 12; t1 ← byte_at f 13;
  if negb (b2z t0 =? 0x08) || negb (b2z t1 =? 0) then Ret None else
  proto ← byte_at f 23;
  if negb (b2z proto =? 17) then Ret None else
  v ← byte_at f 14;
  let ihl := Z.to_nat (Z.land (b2z v) 0x0f * 4) in
  if decide (ihl < 20)%nat then Ret None else
  let udp := (14 + ihl)%nat in
  if decide (length f < udp + 8)%nat then Ret None else
  p0 ← byte_at f udp; p1 ← byte_at f (udp + 1); p2 ← byte_at f (udp + 2); p3 ← byte_at f (udp + 3);
  if negb ((b2z p0 =? 0) && (b2z p1 =? 67) && (b2z p2 =? 0) && (b2z p3 =? 68)) then Ret None else
  let dhcp := (udp + 8)%nat in
  if decide (length f < dhcp + 240)%nat then Ret None else
  op ← byte_at f dhcp;
  if negb (b2z op =? 2) then Ret None else Ret (Some dhcp).

(** One option of code [code] and length [l], whose value is at [val]. *)
Definition take_option (f : bytes) (want_type code : Z) (l val : nat) (x : bool * rl_lease_t) : go (bool * rl_lease_t) :=
  let '(matched, lease) := x in
  if (code =? 53) && bool_decide (1 ≤ l)%nat then v ← byte_at f val; Ret (b2z v =? want_type, lease)
  else if (code =? 54) && bool_decide (l = 4%nat) then
    ip ← slice f val (val + 4);
    Ret (matched, mkLease (client_ip lease) ip (router lease) true (has_router lease))
  else if (code =? 3) && bool_decide (4 ≤ l)%nat then
    ip ← slice f val (val + 4);
    Ret (matched, mkLease (client_ip lease) (server_id lease) ip (has_server_id lease) true)
  else Ret x.

(** The option loop from the position [opt] to the end of the frame. *)
Fixpoint dhcp_options (fuel : nat) (f : bytes) (want_type : Z) (opt : nat) (x : bool * rl_lease_t) : go (bool * rl_lease_t) :=
  match fuel with
  | O => Panic
  | S k =>
      if decide (length f < opt + 2)%nat then Ret x else
      code ← byte_at f opt;
      if b2z code =? 255 then Ret x else
      if b2z code =? 0 then dhcp_options k f want_type (opt + 1) x else
      l ← byte_at f (opt + 1);
      let l := Z.to_nat (b2z l) in
      if decide (length f < opt + 2 + l)%nat then Ret x else
      x ← take_option f want_type (b2z code) l (opt + 2) x;
      dhcp_options k f want_type (opt + 2 + l) x
  end.

(** The lease is written only when the frame is a DHCP reply. *)
Definition rl_parse_dhcp_reply (f : bytes) (want_type : Z) (lease : rl_lease_t) : go (bool * rl_lease_t) :=
  d ← dhcp_reply_body f;
  match d with
  | None => Ret (false, lease)
  | Some dhcp =>
      yiaddr ← slice f (dhcp + 16) (dhcp + 20);
      dhcp_options (S (length f)) f want_type (dhcp + 240) (false, mkLease yiaddr (zeros 4) (zeros 4) false false)
  end.

Definition rl_is_dhcp_offer (f : bytes) : go bool :=
  '(matched, _) ← rl_parse_dhcp_reply f DHCP_OFFER zero_lease; Ret matched.

(** ** ARP *)

Definition rl_build_arp_request (src_mac src_ip target_ip frame : bytes) : go (Z * bytes) :=
  f ← wr 0 (zeros 42) frame;
  f ← wr 0 (replicate 6 (z2b 0xff)) f;
  f ← wr 6 src_mac f;
  f ← wbe16 12 0x0806 f;
  f ← wbe16 14 1 f;
  f ← wbe16 16 0x0800 f;
  f ← wr 18 [z2b 6] f;
  f ← wr 19 [z2b 4] f;
  f ← wbe16 20 1 f;
  f ← wr 22 src_mac f;
  f ← wr 28 src_ip f;
  f ← wr 38 target_ip f;
  Ret (42, f).

Definition rl_parse_arp_reply (f target_ip : bytes) : go (option bytes) :=
  if decide (length f < 42)%nat then Ret None else
  t0 ← byte_at f 12; t1 ← byte_at f 13;
  if negb (b2z t0 =? 0x08) || negb (b2z t1 =? 0x06) then Ret None else
  o0 ← byte_at f 20; o1 ← byte_at f 21;
  if negb ((b2z o0 =? 0) && (b2z o1 =? 2)) then Ret None else
  spa ← slice f 28 32;
  if decide (spa ≠ target_ip) then Ret None else
  sha ← slice f 22 28; Ret (Some sha).

(** ** RNDIS packet messages *)

Definition rl_wrap_packet (frame msg : bytes) : go (Z * bytes) :=
  let frame_len := Z.of_nat (length frame) in
  if Z.of_nat RNDIS_PACKET_HDR + frame_len >? INT_MAX then Panic else
  let total := Z.of_nat RNDIS_PACKET_HDR + frame_len in
  if total >? Z.of_nat (length msg) then Ret (-1, msg) else
  m ← wr 0 (zeros RNDIS_PACKET_HDR) msg;
  m ← rl_wr32 0 RNDIS_MSG_PACKET m;
  m ← rl_wr32 4 total m;
  m ← rl_wr32 8 (Z.of_nat (RNDIS_PACKET_HDR - 8)) m;
  m ← rl_wr32 12 frame_len m;
  m ← wr RNDIS_PACKET_HDR frame m;
  Ret (total, m).

(** The frame is a position in the buffer. *)
Definition rl_unwrap_packet (buf : bytes) : go (Z * nat) :=
  if decide (length buf < RNDIS_PACKET_HDR)%nat then Ret (-1, 0%nat) else
  t ← rl_rd32 buf 0;
  if negb (t =? RNDIS_MSG_PACKET) then Ret (0, 0%nat) else
  data_off ← rl_rd32 buf 8;
  data_len ← rl_rd32 buf 12;
  if 8 + data_off + data_len >? Z.of_nat (length buf) then Ret (-1, 0%nat) else
  Ret (data_len, (8 + Z.to_nat data_off)%nat).

(** ** The continuity probe *)

Definition rl_build_probe (session : bytes) (number : Z) (path : byte) (out : bytes) : go bytes :=
  o ← wr 0 (gs "CVP1") out;
  o ← wr 4 [z2b 1] o;
  o ← wr 5 [path] o;
  o ← wr 6 session o;
  foldl (λ o i, o ← o; wr (22 + i) [z2b (Z.shiftr number (56 - 8 * Z.of_nat i))] o) (Ret o) (seq 0 8).

(** ** Writing *)

Lemma overwrite_app src mid post : length mid = length src → overwrite src (mid ++ post) = Ret (src ++ post).
Proof.
  revert mid. induction src as [|s src IH]; intros [|m mid] Hl; try done. cbn.
  rewrite IH by (by injection Hl). by mstep.
Qed.

Lemma wr_mid off src pre mid post :
  length pre = off → length mid = length src → wr off src (pre ++ mid ++ post) = Ret (pre ++ src ++ post).
Proof.
  intros <- Hl. induction pre as [|b pre IH]; [exact (overwrite_app src mid post Hl)|]. cbn. rewrite IH. by mstep.
Qed.

(** [memset(buf, 0, n)] *)
Lemma wr_zeros n buf : (n ≤ length buf)%nat → wr 0 (zeros n) buf = Ret (zeros n ++ drop n buf).
Proof.
  intros Hn. rewrite <-(take_drop n buf) at 1. apply (wr_mid 0 (zeros n) []); [done|].
  rewrite length_take, length_zeros. lia.
Qed.

Lemma wr_ret off src buf :
  (off + length src ≤ length buf)%nat → wr off src buf = Ret (take off buf ++ src ++ drop (off + length src) buf).
Proof.
  intros Hl. rewrite <-(take_drop off buf) at 1. rewrite <-(take_drop (length src) (drop off buf)) at 1.
  rewrite drop_drop. apply wr_mid; rewrite length_take, ?length_drop; lia.
Qed.

Arguments wr : simpl never.

(** Evaluate a write at a fixed position of a buffer given byte by byte. *)
Ltac write :=
  unfold wbe16, rl_wr32, be16, le32; rewrite wr_ret by (cbn [length]; autorewrite with len; cbn [length]; lia);
  cbn [take drop app length Nat.add]; mstep.

Lemma list4 (l : bytes) : length l = 4%nat → ∃ a b c d, l = [a; b; c; d].
Proof. destruct l as [|a [|b [|c [|d [|]]]]]; try done. by exists a, b, c, d. Qed.
Lemma list6 (l : bytes) : length l = 6%nat → ∃ a b c d e f, l = [a; b; c; d; e; f].
Proof. destruct l as [|a [|b [|c [|d [|e [|f [|]]]]]]]; try done. by exists a, b, c, d, e, f. Qed.

(** The checksum [pseudo_csum] gives. *)
Definition udp_csum (src_ip dst_ip udp : bytes) : Z :=
  let csum := rl_inet_csum (src_ip ++ dst_ip ++ [z2b 0; z2b 17] ++ be16 (u16 (Z.of_nat (length udp))) ++ udp) in
  if csum =? 0 then 0xffff else csum.

Lemma slice_take b m n : take n b = m → length m = n → slice b 0 n = Ret m.
Proof.
  intros <- Hl. rewrite length_take in Hl. rewrite slice_ret by lia. by rewrite drop_0, Nat.sub_0_r.
Qed.

Lemma pseudo_csum_ret src_ip dst_ip udp :
  length src_ip = 4%nat → length dst_ip = 4%nat → (length udp ≤ 520)%nat →
  pseudo_csum src_ip dst_ip udp = Ret (udp_csum src_ip dst_ip udp).
Proof.
  intros (? & ? & ? & ? & ->)%list4 (? & ? & ? & ? & ->)%list4 Hu. unfold pseudo_csum, udp_csum.
  change (zeros 532) with (zeros 12 ++ zeros 520). change (zeros 12) with (replicate 12 "000"%char). cbn [replicate app].
  pose proof (length_zeros 520) as Hr. revert Hr. generalize (zeros 520). intros rest Hr. do 5 write.
  rewrite wr_ret by len. cbn [take drop app Nat.add]. rewrite take_0. mstep. cbn [app].
  erewrite slice_take; [|by cbn [take app Nat.add]; rewrite take_app_length|done]. by mstep.
Qed.

(** The frame [udp_ip_eth] writes. *)
Definition eth_ip (dst_mac src_mac : bytes) : bytes := dst_mac ++ src_mac ++ be16 0x0800.
Definition ip_header (len csum : Z) (src_ip dst_ip : bytes) : bytes :=
  [z2b 0x45; z2b 0] ++ be16 len ++ be16 0 ++ be16 0 ++ [z2b 64; z2b 17] ++ be16 csum ++ src_ip ++ dst_ip.
Definition udp_segment (sport dport csum : Z) (payload : bytes) : bytes :=
  be16 sport ++ be16 dport ++ be16 (u16 (8 + Z.of_nat (length payload))) ++ be16 csum ++ payload.

Definition udp_frame (dst_mac src_mac src_ip dst_ip : bytes) (sport dport : Z) (payload : bytes) : bytes :=
  let iplen := u16 (20 + (8 + Z.of_nat (length payload))) in
  eth_ip dst_mac src_mac ++
  ip_header iplen (rl_inet_csum (ip_header iplen 0 src_ip dst_ip)) src_ip dst_ip ++
  udp_segment sport dport
    (if 8 + Z.of_nat (length payload) <=? 520 then udp_csum src_ip dst_ip (udp_segment sport dport 0 payload) else 0) payload.

Lemma udp_ip_eth_layout frame dst_mac src_mac src_ip dst_ip sport dport payload :
  length dst_mac = 6%nat → length src_mac = 6%nat → length src_ip = 4%nat → length dst_ip = 4%nat →
  length frame = FRAME_CAP → (42 + length payload ≤ FRAME_CAP)%nat →
  udp_ip_eth frame dst_mac src_mac src_ip dst_ip sport dport payload =
    Ret (42 + Z.of_nat (length payload),
         udp_frame dst_mac src_mac src_ip dst_ip sport dport payload ++ drop (42 + length payload) frame).
Proof.
  intros H1 H2 H3 H4 Hf Hp. unfold udp_ip_eth. unfold FRAME_CAP, INT_MAX in *.
  destruct (Z.gtb_spec (14 + 20 + 8 + Z.of_nat (length payload)) (2 ^ 31 - 1)); [lia|].
  destruct (Z.gtb_spec (Z.of_nat (42 + length payload)) (Z.of_nat 600)); [lia|].
  rewrite wr_zeros by lia. mstep. set (rest := drop (42 + length payload) frame).
  assert (zeros (42 + length payload) = zeros 42 ++ zeros (length payload)) as ->.
  { unfold zeros. by rewrite replicate_add. }
  apply list6 in H1 as (? & ? & ? & ? & ? & ? & ->). apply list6 in H2 as (? & ? & ? & ? & ? & ? & ->).
  apply list4 in H3 as (? & ? & ? & ? & ->). apply list4 in H4 as (? & ? & ? & ? & ->).
  rewrite <-app_assoc. change (zeros 42) with (replicate 42 "000"%char). cbn [replicate app].
  do 3 write. rewrite wr_ret by len. cbn [take drop app Nat.add]. rewrite take_0, drop_app_length' by len. cbn [app]. mstep.
  do 14 write.
  rewrite (slice_ret _ 14 34) by len. cbn [take drop Nat.sub]. mstep. write.
  destruct (Z.leb_spec (8 + Z.of_nat (length payload)) (532 - 12)).
  - rewrite slice_ret by len. cbn [take drop Nat.sub Nat.add]. rewrite drop_0, take_app_length. mstep. rewrite pseudo_csum_ret by (done || (cbn [length]; lia)). mstep. write.
    f_equal. f_equal; [lia|]. unfold udp_frame. destruct (Z.leb_spec (8 + Z.of_nat (length payload)) 520); [done|lia].
  - f_equal. f_equal; [lia|]. unfold udp_frame. destruct (Z.leb_spec (8 + Z.of_nat (length payload)) 520); [lia|done].
Qed.

(** ** The checksum, arithmetically *)

(** The sum of the 16-bit words, the last byte padded. *)
Fixpoint sum16 (l : bytes) : Z :=
  match l with
  | a :: b :: rest => 256 * b2z a + b2z b + sum16 rest
  | [a] => 256 * b2z a
  | [] => 0
  end.

Lemma pair_ind (Q : bytes → Prop) :
  Q [] → (∀ a, Q [a]) → (∀ a b l, Q l → Q (a :: b :: l)) → ∀ l, Q l.
Proof. intros H0 H1 H2. fix IH 1. intros [|a [|b l]]; [done|done|]. apply H2, IH. Qed.

Lemma sum16_bounds l : 0 ≤ sum16 l ≤ 32768 * Z.of_nat (length l + 1).
Proof.
  induction l as [|a|a b l IH] using pair_ind; cbn [sum16 length]; [lia|pose proof (b2z_range a); lia|].
  pose proof (b2z_range a). pose proof (b2z_range b). lia.
Qed.

Lemma lor_shift x y k : 0 ≤ k → 0 ≤ x < 2 ^ k → Z.lor x (Z.shiftl y k) = x + y * 2 ^ k.
Proof.
  intros Hk Hx. rewrite Z.shiftl_mul_pow2 by lia.
  assert (Z.land x (y * 2 ^ k) = 0) as Hd.
  { apply Z.bits_inj'. intros i Hi. rewrite Z.land_spec, Z.bits_0. destruct (Z.lt_ge_cases i k).
    - rewrite (Z.mul_pow2_bits_low y) by lia. apply andb_false_r.
    - by rewrite <-(Z.mod_small x (2 ^ k)), Z.mod_pow2_bits_high by lia. }
  rewrite <-Z.lxor_lor, <-Z.add_nocarry_lxor by done. done.
Qed.

Lemma word16 a b : Z.lor (Z.shiftl (b2z a) 8) (b2z b) = 256 * b2z a + b2z b.
Proof. pose proof (b2z_range b). rewrite Z.lor_comm, lor_shift by lia. lia. Qed.

Lemma csum_loop_sum l s : 0 ≤ s → s + sum16 l < 2 ^ 32 → csum_loop s l = s + sum16 l.
Proof.
  revert s. induction l as [|a|a b l IH] using pair_ind; intros s Hs Hl; cbn [csum_loop sum16] in *; [lia| |].
  - rewrite Z.shiftl_mul_pow2 by lia. unfold u32. pose proof (b2z_range a). rewrite Z.mod_small; lia.
  - pose proof (b2z_range a). pose proof (b2z_range b). pose proof (sum16_bounds l).
    rewrite word16. unfold u32. rewrite Z.mod_small by lia. rewrite IH by lia. lia.
Qed.

Lemma fold_step s : 0 ≤ s < 2 ^ 32 → u32 (Z.land s 0xffff + Z.shiftr s 16) = s - 65535 * (s / 65536).
Proof.
  intros Hs. change (Z.land s 0xffff) with (Z.land s (Z.ones 16)). rewrite Z.land_ones, Z.shiftr_div_pow2 by lia.
  change (2 ^ 16) with 65536. unfold u32. pose proof (Z.div_mod s 65536 ltac:(lia)).
  pose proof (Z.mod_pos_bound s 65536 ltac:(lia)).
  assert (0 ≤ s / 65536 < 65536) by (Z.to_euclidean_division_equations; lia). rewrite Z.mod_small; lia.
Qed.

(** Carrying keeps the sum modulo 65535, and zero only for zero. *)
Lemma fold_carry_spec s :
  0 ≤ s < 2 ^ 32 →
  0 ≤ fold_carry 3 s ≤ 65535 ∧ fold_carry 3 s mod 65535 = s mod 65535 ∧ (0 < s → 0 < fold_carry 3 s).
Proof.
  intros Hs.
  assert (∀ k x, 0 ≤ x < 65536 → fold_carry k x = x) as Hdone.
  { intros [|k] x Hx; [done|]. cbn. rewrite Z.shiftr_div_pow2 by lia. by rewrite Z.div_small by lia. }
  assert (∀ k x, 65536 ≤ x < 2 ^ 32 → fold_carry (S k) x = fold_carry k (x - 65535 * (x / 65536))) as Hstep.
  { intros k x Hx. cbn. rewrite fold_step by lia. rewrite Z.shiftr_div_pow2 by lia. change (2 ^ 16) with 65536.
    destruct (Z.eqb_spec (x / 65536) 0); [|done]. Z.to_euclidean_division_equations. lia. }
  assert (∀ x q, (x - 65535 * q) mod 65535 = x mod 65535) as Hmod.
  { intros x q. replace (x - 65535 * q) with (x + (- q) * 65535) by lia. by rewrite Z.mod_add by lia. }
  destruct (Z.lt_ge_cases s 65536) as [H1|H1]; [rewrite Hdone by lia; lia|]. rewrite Hstep by lia.
  set (y := s - 65535 * (s / 65536)).
  assert (0 < y < 131071) as Hy by (subst y; Z.to_euclidean_division_equations; lia).
  destruct (Z.lt_ge_cases y 65536) as [H2|H2].
  { rewrite Hdone by lia. split; [lia|]. split; [apply Hmod|lia]. }
  rewrite Hstep by lia. set (z := y - 65535 * (y / 65536)).
  assert (0 < z < 65536) as Hz by (subst z; Z.to_euclidean_division_equations; lia).
  rewrite Hdone by lia. split; [lia|]. split; [unfold z, y; by rewrite !Hmod|lia].
Qed.

Lemma csum_fold l : Z.of_nat (length l) ≤ 65536 →
  rl_inet_csum l = 65535 - fold_carry 3 (sum16 l) ∧ 0 ≤ sum16 l < 2 ^ 32.
Proof.
  intros Hl. pose proof (sum16_bounds l) as Hb. assert (0 ≤ sum16 l < 2 ^ 32) as Hs by lia. split; [|done].
  unfold rl_inet_csum. rewrite csum_loop_sum by lia. change (0 + sum16 l) with (sum16 l).
  destruct (fold_carry_spec (sum16 l) Hs) as (Hr & _). unfold u16.
  replace (Z.lnot (fold_carry 3 (sum16 l))) with (- fold_carry 3 (sum16 l) - 1) by (unfold Z.lnot; lia).
  change (2 ^ 16) with 65536. rewrite <-(Z.mod_add _ 1) by lia. rewrite Z.mod_small; lia.
Qed.

Lemma csum_range l : Z.of_nat (length l) ≤ 65536 → 0 ≤ rl_inet_csum l ≤ 65535.
Proof.
  intros Hl. destruct (csum_fold l Hl) as [-> Hs]. destruct (fold_carry_spec _ Hs) as (Hr & _). lia.
Qed.

(** A receiver's check: the sum over data and checksum is all ones. *)
Lemma csum_zero l : Z.of_nat (length l) ≤ 65536 → 0 < sum16 l → sum16 l mod 65535 = 0 → rl_inet_csum l = 0.
Proof.
  intros Hl H0 Hm. destruct (csum_fold l Hl) as [-> Hs]. destruct (fold_carry_spec _ Hs) as (Hr & Hf & Hp).
  rewrite Hm in Hf. specialize (Hp H0). destruct (Z.eq_dec (fold_carry 3 (sum16 l)) 65535) as [->|Hne]; [done|].
  rewrite Z.mod_small in Hf; lia.
Qed.

Lemma csum_complement l : Z.of_nat (length l) ≤ 65536 → (sum16 l + rl_inet_csum l) mod 65535 = 0.
Proof.
  intros Hl. destruct (csum_fold l Hl) as [-> Hs]. destruct (fold_carry_spec _ Hs) as (_ & Hf & _).
  rewrite <-Zplus_mod_idemp_l, <-Hf, Zplus_mod_idemp_l. by replace (_ + _) with (1 * 65535) by lia.
Qed.

Lemma sum16_app l1 l2 : Nat.even (length l1) = true → sum16 (l1 ++ l2) = sum16 l1 + sum16 l2.
Proof.
  induction l1 as [|a|a b l1 IH] using pair_ind; intros He; [done|done|]. cbn [app sum16]. rewrite IH by done. lia.
Qed.

Lemma sum16_be16 v : 0 ≤ v < 65536 → sum16 (be16 v) = v.
Proof.
  intros Hv. cbn [be16 sum16]. rewrite !b2z_z2b. change 255 with (Z.ones 8). rewrite !Z.land_ones, Z.shiftr_div_pow2 by lia.
  change (2 ^ 8) with 256. rewrite !Zmod_mod. rewrite (Z.mod_small (v / 256)) by (Z.to_euclidean_division_equations; lia).
  pose proof (Z.div_mod v 256). lia.
Qed.

(** ** 32-bit fields *)

Lemma rl_rd32_bytes pre a b c d post :
  rl_rd32 (pre ++ [a; b; c; d] ++ post) (length pre) = Ret (b2z a + 2 ^ 8 * b2z b + 2 ^ 16 * b2z c + 2 ^ 24 * b2z d).
Proof.
  unfold rl_rd32. fields.
  replace (length pre - length pre)%nat with 0%nat by lia. replace (length pre + 1 - length pre)%nat with 1%nat by lia.
  replace (length pre + 2 - length pre)%nat with 2%nat by lia. replace (length pre + 3 - length pre)%nat with 3%nat by lia.
  fields. pose proof (b2z_range a). pose proof (b2z_range b). pose proof (b2z_range c). pose proof (b2z_range d).
  rewrite (lor_shift (b2z a) (b2z b) 8), (lor_shift _ (b2z c) 16), (lor_shift _ (b2z d) 24) by lia. f_equal. lia.
Qed.

Lemma le32_val v :
  b2z (z2b (Z.land v 255)) + 2 ^ 8 * b2z (z2b (Z.land (Z.shiftr v 8) 255)) +
  2 ^ 16 * b2z (z2b (Z.land (Z.shiftr v 16) 255)) + 2 ^ 24 * b2z (z2b (Z.land (Z.shiftr v 24) 255)) = v mod 2 ^ 32.
Proof.
  rewrite !b2z_z2b. change 255 with (Z.ones 8). rewrite !Z.land_ones, !Z.shiftr_div_pow2 by lia.
  change (2 ^ 8) with 256. rewrite !Zmod_mod. change (2 ^ 24) with (256 * 2 ^ 16). change (2 ^ 32) with (256 * (256 * (256 * 256))).
  rewrite !Z.rem_mul_r by lia. change (2 ^ 16) with (256 * 256). rewrite <-!Z.div_div by lia. lia.
Qed.

Lemma rl_rd32_le32 pre v post : rl_rd32 (pre ++ le32 v ++ post) (length pre) = Ret (v mod 2 ^ 32).
Proof. unfold le32. rewrite rl_rd32_bytes. f_equal. apply le32_val. Qed.

Lemma rl_rd32_total p off : (off + 4 ≤ length p)%nat → ∃ v, rl_rd32 p off = Ret v ∧ 0 ≤ v < 2 ^ 32.
Proof.
  intros Hl. destruct (split_at off p) as (pre & q & -> & Hpre); [lia|]. rewrite length_app in Hl.
  destruct (split_at 4 q) as (w & post & -> & Hw); [lia|]. apply list4 in Hw as (a & b & c & d & ->).
  rewrite <-Hpre, rl_rd32_bytes. eexists. split; [done|].
  pose proof (b2z_range a). pose proof (b2z_range b). pose proof (b2z_range c). pose proof (b2z_range d). lia.
Qed.

(** ** RNDIS messages *)

Definition packet_header (frame_len : Z) : bytes :=
  le32 RNDIS_MSG_PACKET ++ le32 (Z.of_nat RNDIS_PACKET_HDR + frame_len) ++ le32 36 ++ le32 frame_len ++ zeros 28.

Lemma rl_wrap_layout frame msg :
  Z.of_nat (44 + length frame) ≤ INT_MAX → (44 + length frame ≤ length msg)%nat →
  rl_wrap_packet frame msg =
    Ret (44 + Z.of_nat (length frame), packet_header (Z.of_nat (length frame)) ++ frame ++ drop (44 + length frame) msg).
Proof.
  intros Hi Hm. unfold rl_wrap_packet, RNDIS_PACKET_HDR, packet_header.
  destruct (Z.gtb_spec (Z.of_nat 44 + Z.of_nat (length frame)) INT_MAX); [lia|].
  destruct (Z.gtb_spec (Z.of_nat 44 + Z.of_nat (length frame)) (Z.of_nat (length msg))); [lia|].
  rewrite wr_zeros by lia. mstep. change (zeros 44) with (replicate 44 "000"%char). cbn [replicate app Nat.sub].
  do 4 write. rewrite wr_ret by len. cbn [take drop app Nat.add]. rewrite take_0. mstep. cbn [app].
  rewrite drop_drop. done.
Qed.

(** Reading the fields of a packet message. *)
Lemma rl_unwrap_fields t0 len off dlen rest :
  (28 ≤ length rest)%nat →
  rl_unwrap_packet (le32 t0 ++ le32 len ++ le32 off ++ le32 dlen ++ rest) =
    if negb (t0 mod 2 ^ 32 =? RNDIS_MSG_PACKET) then Ret (0, 0%nat) else
    if 8 + off mod 2 ^ 32 + dlen mod 2 ^ 32 >? Z.of_nat (16 + length rest) then Ret (-1, 0%nat) else
    Ret (dlen mod 2 ^ 32, (8 + Z.to_nat (off mod 2 ^ 32))%nat).
Proof.
  intros Hr. unfold rl_unwrap_packet. rewrite decide_False by (unfold RNDIS_PACKET_HDR; rewrite !length_app; cbn [length le32]; lia).
  assert (length (le32 t0 ++ le32 len ++ le32 off ++ le32 dlen ++ rest) = (16 + length rest)%nat) as -> by by rewrite !length_app.
  assert (rl_rd32 (le32 t0 ++ le32 len ++ le32 off ++ le32 dlen ++ rest) 0 = Ret (t0 mod 2 ^ 32)) as -> by apply (rl_rd32_le32 [] t0).
  mstep.
  assert (rl_rd32 (le32 t0 ++ le32 len ++ le32 off ++ le32 dlen ++ rest) 8 = Ret (off mod 2 ^ 32)) as ->.
  { rewrite (app_assoc (le32 t0)). apply (rl_rd32_le32 (le32 t0 ++ le32 len)). }
  assert (rl_rd32 (le32 t0 ++ le32 len ++ le32 off ++ le32 dlen ++ rest) 12 = Ret (dlen mod 2 ^ 32)) as ->.
  { rewrite (app_assoc (le32 t0)), (app_assoc (_ ++ le32 len)). apply (rl_rd32_le32 ((le32 t0 ++ le32 len) ++ le32 off)). }
  case_match; [done|]. by mstep.
Qed.

(** The parser stays in its buffer, and the frame it returns does too. *)
Lemma rl_unwrap_safe buf :
  ∃ n off, rl_unwrap_packet buf = Ret (n, off) ∧
    (n = -1 ∨ n = 0 ∨ 0 ≤ n ∧ (off + Z.to_nat n ≤ length buf)%nat).
Proof.
  unfold rl_unwrap_packet, RNDIS_PACKET_HDR. case_decide as Hl; [by eexists _, _; auto|].
  destruct (rl_rd32_total buf 0) as (t & -> & _); [lia|]. mstep. case_match; [by eexists _, _; auto|].
  destruct (rl_rd32_total buf 8) as (o & -> & Ho); [lia|]. mstep.
  destruct (rl_rd32_total buf 12) as (n & -> & Hn); [lia|]. mstep.
  destruct (Z.gtb_spec (8 + o + n) (Z.of_nat (length buf))); eexists _, _; (split; [done|]); [by left|]. right; right. lia.
Qed.

Lemma rl_unwrap_wrapped frame :
  Z.of_nat (length frame) < 2 ^ 31 →
  ∀ rest, rl_unwrap_packet (packet_header (Z.of_nat (length frame)) ++ frame ++ rest) = Ret (Z.of_nat (length frame), 44%nat).
Proof.
  intros Hf rest. unfold packet_header. rewrite <-!app_assoc, rl_unwrap_fields by len.
  change (RNDIS_MSG_PACKET mod 2 ^ 32 =? RNDIS_MSG_PACKET) with true. cbn [negb].
  rewrite (Z.mod_small (Z.of_nat (length frame))) by lia. change (36 mod 2 ^ 32) with 36.
  match goal with |- context [?a >? ?b] => destruct (Z.gtb_spec a b) as [H|] end; [|done].
  autorewrite with len in H. lia.
Qed.

(** ** Checksums of the UDP frame *)

Lemma be16_length v : length (be16 v) = 2%nat.
Proof. done. Qed.
Lemma le32_length v : length (le32 v) = 4%nat.
Proof. done. Qed.
#[local] Hint Rewrite be16_length le32_length : len.

Lemma u16_range v : 0 ≤ u16 v < 65536.
Proof. apply Z.mod_pos_bound. lia. Qed.

Lemma ip_header_csum len csum src_ip dst_ip :
  length src_ip = 4%nat → length dst_ip = 4%nat → 0 ≤ csum < 65536 →
  sum16 (ip_header len csum src_ip dst_ip) = sum16 (ip_header len 0 src_ip dst_ip) + csum ∧
  0 < sum16 (ip_header len 0 src_ip dst_ip) ∧ length (ip_header len csum src_ip dst_ip) = 20%nat.
Proof.
  intros (? & ? & ? & ? & ->)%list4 (? & ? & ? & ? & ->)%list4 Hc.
  pose proof (sum16_be16 csum Hc) as Hs. unfold ip_header, be16 in *. cbn [app sum16 length] in *.
  split; [change (b2z (z2b (Z.land 0 255))) with 0; change (b2z (z2b (Z.land (Z.shiftr 0 8) 255))) with 0; lia|].
  split; [|done]. change (b2z (z2b 0x45)) with 0x45.
  repeat match goal with |- context [b2z ?b] => pose proof (b2z_range b); generalize dependent (b2z b); intros end. lia.
Qed.

Lemma udp_segment_csum sport dport csum payload :
  0 ≤ csum < 65536 →
  sum16 (udp_segment sport dport csum payload) = sum16 (udp_segment sport dport 0 payload) + csum ∧
  length (udp_segment sport dport csum payload) = (8 + length payload)%nat.
Proof.
  intros Hc. pose proof (sum16_be16 csum Hc) as Hs. unfold udp_segment, be16 in *. cbn [app sum16 length] in *.
  split; [|done]. change (b2z (z2b (Z.land 0 255))) with 0. change (b2z (z2b (Z.land (Z.shiftr 0 8) 255))) with 0. lia.
Qed.

(** The pseudo-header and the segment, as a receiver sums them. *)
Definition udp_summed (src_ip dst_ip udp : bytes) : bytes :=
  src_ip ++ dst_ip ++ [z2b 0; z2b 17] ++ be16 (u16 (Z.of_nat (length udp))) ++ udp.

Lemma udp_summed_sum src_ip dst_ip udp :
  length src_ip = 4%nat → length dst_ip = 4%nat →
  sum16 (udp_summed src_ip dst_ip udp) =
    sum16 src_ip + sum16 dst_ip + 17 + u16 (Z.of_nat (length udp)) + sum16 udp ∧
  length (udp_summed src_ip dst_ip udp) = (12 + length udp)%nat.
Proof.
  intros H1 H2. unfold udp_summed. rewrite !sum16_app by (rewrite ?H1, ?H2; done).
  rewrite sum16_be16 by apply u16_range. change (sum16 [z2b 0; z2b 17]) with 17. split; [lia|]. len.
Qed.

(** A receiver accepts both checksums. *)
Lemma udp_frame_checks dst_mac src_mac src_ip dst_ip sport dport payload :
  length src_ip = 4%nat → length dst_ip = 4%nat → (length payload ≤ 512)%nat →
  ∃ ip udp, udp_frame dst_mac src_mac src_ip dst_ip sport dport payload = eth_ip dst_mac src_mac ++ ip ++ udp ∧
    length ip = 20%nat ∧ rl_inet_csum ip = 0 ∧ rl_inet_csum (udp_summed src_ip dst_ip udp) = 0 ∧
    drop 8 udp = payload.
Proof.
  intros H1 H2 Hp. unfold udp_frame. destruct (Z.leb_spec (8 + Z.of_nat (length payload)) 520); [|lia].
  set (iplen := u16 _). set (seg := udp_segment sport dport 0 payload).
  eexists _, _. split; [done|].
  destruct (ip_header_csum iplen 0 src_ip dst_ip H1 H2) as (_ & Hpos & Hl0); [lia|].
  destruct (csum_range (ip_header iplen 0 src_ip dst_ip)) as [Hc0 Hc1]; [lia|].
  destruct (ip_header_csum iplen (rl_inet_csum (ip_header iplen 0 src_ip dst_ip)) src_ip dst_ip H1 H2) as (Hs & _ & Hl); [lia|].
  split; [done|]. split; [apply csum_zero; [lia|lia|]; rewrite Hs; apply csum_complement; lia|]. split; [|done].
  destruct (udp_segment_csum sport dport 0 payload) as [_ Hlen0]; [lia|]. fold seg in Hlen0.
  destruct (udp_summed_sum src_ip dst_ip seg H1 H2) as [Hsum0 Hlen].
  destruct (csum_range (udp_summed src_ip dst_ip seg)) as [Hu0 Hu1]; [lia|].
  assert (∃ c, udp_csum src_ip dst_ip seg = c ∧ 0 ≤ c < 65536 ∧ (sum16 (udp_summed src_ip dst_ip seg) + c) mod 65535 = 0)
    as (c & -> & Hc & Hmod).
  { unfold udp_csum. fold (udp_summed src_ip dst_ip seg). pose proof (csum_complement (udp_summed src_ip dst_ip seg)) as Hcc.
    destruct (Z.eqb_spec (rl_inet_csum (udp_summed src_ip dst_ip seg)) 0) as [E|].
    - eexists. split; [done|]. split; [lia|]. rewrite E in Hcc. rewrite <-(Z.mod_add _ (-1)) by lia.
      rewrite <-Hcc by lia. f_equal. lia.
    - eexists. split; [done|]. split; [lia|]. apply Hcc. lia. }
  destruct (udp_segment_csum sport dport c payload Hc) as [Hsc Hlenc]. fold seg in Hsc.
  destruct (udp_summed_sum src_ip dst_ip (udp_segment sport dport c payload) H1 H2) as [Hsumc Hlenc'].
  assert (sum16 (udp_summed src_ip dst_ip (udp_segment sport dport c payload)) = sum16 (udp_summed src_ip dst_ip seg) + c) as E.
  { rewrite Hsumc, Hsum0, Hsc, Hlenc, Hlen0. lia. }
  apply csum_zero; [lia| |by rewrite E].
  rewrite Hsumc. pose proof (sum16_bounds src_ip). pose proof (sum16_bounds dst_ip).
  pose proof (sum16_bounds (udp_segment sport dport c payload)). pose proof (u16_range (Z.of_nat (length (udp_segment sport dport c payload)))). lia.
Qed.

(** ** The probe *)

Lemma rl_build_probe_layout session number path out :
  length session = 16%nat → (30 ≤ length out)%nat →
  rl_build_probe session number path out =
    Ret (probeMagic ++ [z2b ProbeVersion; path] ++ session ++ be_bytes 8 number ++ drop 30 out).
Proof.
  intros Hs Ho. destruct (split_at 30 out) as (w & rest & -> & Hw); [lia|]. rewrite drop_app_length' by done.
  do 30 (destruct w as [|? w]; [done|]). destruct w; [|done]. clear Hw Ho.
  do 16 (destruct session as [|? session]; [done|]). destruct session; [|done]. clear Hs.
  unfold rl_build_probe, probeMagic. change (gs "CVP1") with ["C"%char; "V"%char; "P"%char; "1"%char].
  do 4 write. cbn [seq foldl]. mstep. do 8 write. reflexivity.
Qed.

(** ** DHCP and ARP parsers *)

(** Read the bytes whose positions are known to be in the buffer. *)
Ltac read_bytes :=
  repeat match goal with |- context [byte_at ?f ?i] => destruct (byte_at_is_ret f i) as (? & -> & _); [lia|] end; mstep.

Lemma dhcp_reply_body_total f :
  ∃ d, dhcp_reply_body f = Ret d ∧ ∀ k, d = Some k → (k + 240 ≤ length f)%nat ∧ (42 ≤ k)%nat.
Proof.
  unfold dhcp_reply_body. case_decide as Hl; [by eexists|].
  read_bytes. case_match; [by eexists|]. case_match; [by eexists|].
  set (ihl := Z.to_nat _). case_decide as Hi; [by eexists|]. case_decide as Hu; [by eexists|].
  read_bytes. case_match; [by eexists|]. case_decide as Hd; [by eexists|].
  read_bytes. case_match; eexists; (split; [done|]); [done|].
  intros k [= <-]. lia.
Qed.

(** The addresses of a lease are four bytes long. *)
Definition lease_ok (l : rl_lease_t) : Prop :=
  length (client_ip l) = 4%nat ∧ length (server_id l) = 4%nat ∧ length (router l) = 4%nat.

(** An option whose value is in the frame is read there. *)
Lemma take_option_total f want code l val x :
  (val + l ≤ length f)%nat → ∃ y, take_option f want code l val x = Ret y ∧ (lease_ok x.2 → lease_ok y.2).
Proof.
  intros Hl. destruct x as [m le]. unfold take_option. cbn [snd].
  destruct ((code =? 53) && _) eqn:E1.
  { apply andb_prop in E1 as [_ E1%bool_decide_eq_true]. read_bytes. by eexists. }
  destruct ((code =? 54) && _) eqn:E2.
  { apply andb_prop in E2 as [_ E2%bool_decide_eq_true]. rewrite slice_ret by lia. mstep. eexists. split; [done|].
    intros (? & ? & ?). repeat split; try done. cbn. len. }
  destruct ((code =? 3) && _) eqn:E3; [|by eexists].
  apply andb_prop in E3 as [_ E3%bool_decide_eq_true]. rewrite slice_ret by lia. mstep. eexists. split; [done|].
  intros (? & ? & ?). repeat split; try done. cbn. len.
Qed.

(** The option loop reads inside the frame, and ends. *)
Lemma dhcp_options_total k f want opt x :
  (length f - opt < k)%nat → ∃ y, dhcp_options k f want opt x = Ret y ∧ (lease_ok x.2 → lease_ok y.2).
Proof.
  revert opt x. induction k as [|k IH]; intros opt x Hk; [lia|]. cbn [dhcp_options].
  case_decide; [by eexists|]. read_bytes. case_match; [by eexists|]. case_match; [apply IH; lia|].
  read_bytes. case_decide; [by eexists|].
  match goal with |- context [take_option f want ?c ?n ?v x] => destruct (take_option_total f want c n v x) as (y & -> & Hy); [lia|] end.
  mstep. edestruct IH as (z & Hz & Hok); [|exists z; split; [exact Hz|auto]]. lia.
Qed.

(** A larger bound on the iterations changes nothing. *)
Lemma dhcp_options_fuel k1 k2 f want opt x :
  (length f - opt < k1)%nat → (length f - opt < k2)%nat → dhcp_options k1 f want opt x = dhcp_options k2 f want opt x.
Proof.
  revert k2 opt x. induction k1 as [|k1 IH]; intros [|k2] opt x H1 H2; try lia. cbn [dhcp_options].
  case_decide; [done|]. read_bytes. case_match; [done|]. case_match; [apply IH; lia|].
  read_bytes. case_decide; [done|].
  destruct (take_option f want _ _ _ x) as [y|]; mstep; [apply IH; lia|done].
Qed.

Lemma rl_parse_dhcp_spec f want lease :
  ∃ m l, rl_parse_dhcp_reply f want lease = Ret (m, l) ∧ (m = true → lease_ok l).
Proof.
  unfold rl_parse_dhcp_reply. destruct (dhcp_reply_body_total f) as ([k|] & -> & Hk); mstep; [|by eexists _, _].
  destruct (Hk k eq_refl). rewrite slice_ret by lia. mstep.
  edestruct (dhcp_options_total (S (length f)) f want (k + 240)) as ([m l] & -> & Hok); [lia|].
  exists m, l. split; [done|]. intros _. apply Hok. repeat split; cbn; len.
Qed.

Lemma rl_parse_dhcp_total f want lease : ∃ r, rl_parse_dhcp_reply f want lease = Ret r.
Proof. destruct (rl_parse_dhcp_spec f want lease) as (m & l & -> & _). by eexists. Qed.

(** A matching reply gives a whole lease. *)
Lemma rl_parse_dhcp_ok f want lease l : rl_parse_dhcp_reply f want lease = Ret (true, l) → lease_ok l.
Proof. destruct (rl_parse_dhcp_spec f want lease) as (m & l' & -> & Hok). intros [= -> ->]. by apply Hok. Qed.

Lemma rl_parse_arp_total f ip : ∃ r, rl_parse_arp_reply f ip = Ret r.
Proof.
  unfold rl_parse_arp_reply. case_decide as Hl; [by eexists|].
  read_bytes. case_match; [by eexists|]. case_match; [by eexists|].
  rewrite !slice_ret by lia. mstep. case_decide; by eexists.
Qed.

(** What an option with the value [val] does. *)
Definition option_effect (want_type code : Z) (val : bytes) (x : bool * rl_lease_t) : bool * rl_lease_t :=
  let '(matched, lease) := x in
  match val with
  | v :: _ =>
      if code =? 53 then (b2z v =? want_type, lease)
      else if (code =? 54) && bool_decide (length val = 4%nat) then
        (matched, mkLease (client_ip lease) val (router lease) true (has_router lease))
      else if (code =? 3) && bool_decide (4 ≤ length val)%nat then
        (matched, mkLease (client_ip lease) (server_id lease) (take 4 val) (has_server_id lease) true)
      else x
  | [] => x
  end.

Lemma take_option_effect pre val post want code x :
  take_option (pre ++ val ++ post) want code (length val) (length pre) x = Ret (option_effect want code val x).
Proof.
  destruct x as [m le]. unfold take_option, option_effect. destruct val as [|v vs].
  { cbn [length]. rewrite !bool_decide_false, !andb_false_r by lia. done. }
  rewrite (bool_decide_true (1 ≤ _)%nat) by (cbn; lia). rewrite andb_true_r. destruct (code =? 53).
  { rewrite (byte_at_ret _ _ v); [by mstep|]. by apply list_lookup_middle. }
  assert (∀ n, (n ≤ length (v :: vs))%nat → slice (pre ++ (v :: vs) ++ post) (length pre) (length pre + n) = Ret (take n (v :: vs))) as Hs.
  { intros n Hn. rewrite slice_ret by (rewrite ?length_app; lia). rewrite drop_app_length.
    replace (length pre + n - length pre)%nat with n by lia. by rewrite take_app_le by lia. }
  destruct ((code =? 54) && _) eqn:E.
  { apply andb_prop in E as [_ E%bool_decide_eq_true]. rewrite Hs by lia. mstep. by rewrite take_ge by lia. }
  destruct ((code =? 3) && _) eqn:E3; [|done]. apply andb_prop in E3 as [_ E3%bool_decide_eq_true]. rewrite Hs by lia. by mstep.
Qed.

(** Options on the wire: code, length and value, closed by 255. *)
Definition option_bytes (o : byte * bytes) : bytes := o.1 :: z2b (Z.of_nat (length o.2)) :: o.2.
Definition options_bytes (os : list (byte * bytes)) : bytes := concat (map option_bytes os).

Definition option_ok (o : byte * bytes) : Prop := b2z o.1 ≠ 0 ∧ b2z o.1 ≠ 255 ∧ (length o.2 ≤ 255)%nat.

Lemma dhcp_options_encoded k pre want os pad x :
  Forall option_ok os → let f := pre ++ options_bytes os ++ z2b 255 :: pad in (length f - length pre < k)%nat →
  dhcp_options k f want (length pre) x = Ret (foldl (λ x o, option_effect want (b2z o.1) o.2 x) x os).
Proof.
  intros Hos. revert k pre x. induction Hos as [|[c v] os (H0 & H255 & Hv) Hos IH]; intros [|k] pre x f Hk; try lia; cbn [dhcp_options].
  { case_decide; [done|]. change f with (pre ++ z2b 255 :: pad).
    rewrite (byte_at_ret _ (length pre) (z2b 255)) by by apply list_lookup_middle. mstep. by rewrite b2z_z2b. }
  cbn [fst snd foldl] in *. set (l := z2b (Z.of_nat (length v))).
  assert (Z.to_nat (b2z l) = length v) as Hn by (subst l; rewrite b2z_z2b, Z.mod_small; lia).
  assert (f = pre ++ [c; l] ++ v ++ options_bytes os ++ z2b 255 :: pad) as Ef.
  { unfold f. change (options_bytes ((c, v) :: os)) with (c :: l :: v ++ options_bytes os). cbn [app]. by rewrite <-app_assoc. }
  assert (length f = length pre + 2 + length v + length (options_bytes os ++ z2b 255 :: pad))%nat as Hlf.
  { rewrite Ef, !length_app. cbn [length]. lia. }
  rewrite decide_False by lia. rewrite (byte_at_ret f (length pre) c) by (rewrite Ef; by apply list_lookup_middle). mstep.
  destruct (Z.eqb_spec (b2z c) 255); [done|]. destruct (Z.eqb_spec (b2z c) 0); [done|].
  rewrite (byte_at_ret f (length pre + 1) l).
  2: { rewrite Ef. rewrite lookup_app_r by lia. by replace (length pre + 1 - length pre)%nat with 1%nat by lia. }
  mstep. rewrite Hn, decide_False by lia.
  assert (length (pre ++ [c; l]) = (length pre + 2)%nat) as Hp by (rewrite length_app; done).
  rewrite <-Hp. rewrite Ef at 1. rewrite (app_assoc pre), take_option_effect. mstep.
  rewrite <-length_app. rewrite Ef, (app_assoc pre), (app_assoc (pre ++ [c; l])). apply IH.
  rewrite <-app_assoc, <-(app_assoc pre), <-Ef, length_app, Hp. lia.
Qed.

(** ** DHCP messages *)

Definition dhcp_fixed (mac : bytes) (xid : Z) : bytes :=
  [z2b 1; z2b 1; z2b 6; z2b 0] ++ le32 xid ++ zeros 2 ++ be16 0x8000 ++ zeros 16 ++ mac ++ zeros 202 ++ le32 0x63538263.

Definition ip_option (code : Z) (ip : option bytes) : list (byte * bytes) :=
  match ip with Some ip => [(z2b code, ip)] | None => [] end.
Definition dhcp_message (mac : bytes) (xid msgtype : Z) (req_ip server_id : option bytes) : bytes :=
  dhcp_fixed mac xid ++
  options_bytes ([(z2b 53, [z2b msgtype])] ++ ip_option 50 req_ip ++ ip_option 54 server_id ++ [(z2b 55, [z2b 1; z2b 3; z2b 6])]) ++
  [z2b 255].

Definition ip_ok (ip : option bytes) : Prop := ∀ a, ip = Some a → length a = 4%nat.

Lemma dhcp_fixed_layout body mac xid :
  length body = 300%nat → length mac = 6%nat →
  (b ← wr 0 (zeros 240) body; b ← wr 0 [z2b 1] b; b ← wr 1 [z2b 1] b; b ← wr 2 [z2b 6] b; b ← rl_wr32 4 xid b;
   b ← wbe16 10 0x8000 b; b ← wr 28 mac b; rl_wr32 236 0x63538263 b) = Ret (dhcp_fixed mac xid ++ drop 240 body).
Proof.
  intros Hb (? & ? & ? & ? & ? & ? & ->)%list6. rewrite wr_zeros by lia. mstep.
  change (zeros 240) with (replicate 240 "000"%char). cbn [replicate app]. do 7 write. done.
Qed.

Lemma wr_next pre src rest off :
  length pre = off → (length src ≤ length rest)%nat → wr off src (pre ++ rest) = Ret ((pre ++ src) ++ drop (length src) rest).
Proof.
  intros Hp Hl. rewrite <-(take_drop (length src) rest) at 1. rewrite wr_mid by (rewrite ?length_take; lia). by rewrite <-app_assoc.
Qed.

Lemma take_prefix (b msg r : bytes) : b = msg ++ r → take (length msg) b = msg.
Proof. intros ->. apply take_app_length. Qed.

Lemma dhcp_body_layout body mac xid msgtype req_ip server_id :
  length body = 300%nat → length mac = 6%nat → ip_ok req_ip → ip_ok server_id →
  ∃ b, dhcp_body body mac xid msgtype req_ip server_id = Ret (b, length (dhcp_message mac xid msgtype req_ip server_id)) ∧
    take (length (dhcp_message mac xid msgtype req_ip server_id)) b = dhcp_message mac xid msgtype req_ip server_id ∧
    (length (dhcp_message mac xid msgtype req_ip server_id) ≤ 261)%nat.
Proof.
  intros Hb Hm Hr Hs.
  assert (length (dhcp_fixed mac xid) = 240%nat) as Hfix by (unfold dhcp_fixed; len).
  unfold dhcp_body. pose proof (dhcp_fixed_layout body mac xid Hb Hm) as Hfl.
  repeat (apply go_bind_inv in Hfl as (? & -> & Hfl); mstep). rewrite Hfl. mstep.
  unfold dhcp_message. rewrite wr_next by len. mstep. set (rest := drop _ _).
  assert (length rest = 57%nat) as Hrest by (subst rest; rewrite !length_drop; cbn [length]; lia). clearbody rest.
  destruct req_ip as [r|]; [specialize (Hr r eq_refl); apply list4 in Hr as (? & ? & ? & ? & ->)|];
  (destruct server_id as [s|]; [specialize (Hs s eq_refl); apply list4 in Hs as (? & ? & ? & ? & ->)|]);
    cbv beta iota; mstep; repeat (rewrite wr_next by len; mstep);
    (eexists; split; [f_equal; apply f_equal2; [reflexivity|]; cbn [ip_option options_bytes option_bytes map concat fst snd app]; len|]);
    (split; [|cbn [ip_option options_bytes option_bytes map concat fst snd app]; len]);
    (eapply take_prefix; rewrite <-!app_assoc; reflexivity).
Qed.

(** A server's reply: BOOTREPLY, [yiaddr] at 16, options from 240. *)
Definition dhcp_reply (head yiaddr mid : bytes) (os : list (byte * bytes)) (pad : bytes) : bytes :=
  z2b 2 :: head ++ yiaddr ++ mid ++ options_bytes os ++ z2b 255 :: pad.

Lemma rl_parse_reply dst_mac src_mac src_ip dst_ip head yiaddr mid os pad want lease :
  length dst_mac = 6%nat → length src_mac = 6%nat → length src_ip = 4%nat → length dst_ip = 4%nat →
  length head = 15%nat → length yiaddr = 4%nat → length mid = 220%nat → Forall option_ok os →
  rl_parse_dhcp_reply (udp_frame dst_mac src_mac src_ip dst_ip 67 68 (dhcp_reply head yiaddr mid os pad)) want lease =
    Ret (foldl (λ x o, option_effect want (b2z o.1) o.2 x) (false, mkLease yiaddr (zeros 4) (zeros 4) false false) os).
Proof.
  intros Hdm Hsm Hs Hd Hh Hy Hm Hos. unfold rl_parse_dhcp_reply.
  set (body := dhcp_reply _ _ _ _ _). set (f := udp_frame _ _ _ _ _ _ _).
  assert (∃ h, f = h ++ body ∧ length h = 42%nat ∧ dhcp_reply_body f = Ret (Some 42%nat)) as (h & -> & Hl & ->).
  { subst f. unfold udp_frame, udp_segment, eth_ip, ip_header. set (n1 := u16 _). set (n2 := u16 _).
    set (c1 := rl_inet_csum _). set (c2 := if 8 + _ <=? 520 then _ else _). clearbody n1 n2 c1 c2.
    apply list6 in Hdm as (? & ? & ? & ? & ? & ? & ->). apply list6 in Hsm as (? & ? & ? & ? & ? & ? & ->).
    apply list4 in Hs as (? & ? & ? & ? & ->). apply list4 in Hd as (? & ? & ? & ? & ->).
    eexists. split; [by rewrite !app_assoc|]. split; [done|]. unfold dhcp_reply_body.
    assert (240 ≤ length body)%nat by (subst body; unfold dhcp_reply; len).
    rewrite decide_False by len. cbn [be16 app]. erewrite !byte_at_ret by reflexivity. mstep.
    rewrite !b2z_z2b. change (Z.land (Z.shiftr 2048 8) 255 mod 256) with 8. change (Z.land 2048 255 mod 256) with 0.
    change (17 mod 256) with 17. change (Z.to_nat (Z.land (69 mod 256) 15 * 4)) with 20%nat. cbn [Z.eqb Pos.eqb negb orb].
    rewrite !decide_False by len. erewrite !byte_at_ret by reflexivity. mstep.
    rewrite !b2z_z2b. change (Z.land (Z.shiftr 67 8) 255 mod 256) with 0. change (Z.land 67 255 mod 256) with 67.
    change (Z.land (Z.shiftr 68 8) 255 mod 256) with 0. change (Z.land 68 255 mod 256) with 68. change (2 mod 256) with 2. done. }
  mstep. assert (240 ≤ length body)%nat as Hlb by (subst body; unfold dhcp_reply; len).
  rewrite slice_ret by len. mstep. subst body. unfold dhcp_reply.
  replace (drop (42 + 16) _) with (yiaddr ++ mid ++ options_bytes os ++ z2b 255 :: pad); cycle 1.
  { rewrite drop_app_ge by lia. rewrite Hl. change (42 + 16 - 42)%nat with 16%nat. rewrite skipn_cons, drop_app_length' by done. done. }
  rewrite (take_app_length' yiaddr) by lia. set (pre := h ++ z2b 2 :: head ++ yiaddr ++ mid).
  assert (h ++ z2b 2 :: head ++ yiaddr ++ mid ++ options_bytes os ++ z2b 255 :: pad = pre ++ options_bytes os ++ z2b 255 :: pad) as ->.
  { unfold pre. rewrite <-app_assoc. cbn [app]. by rewrite <-!app_assoc. }
  assert (length pre = (42 + 240)%nat) as <- by (unfold pre; len). apply dhcp_options_encoded; [done|]. lia.
Qed.

Lemma option_effect_other want os x :
  Forall (λ o, b2z o.1 ≠ 53 ∧ b2z o.1 ≠ 54 ∧ b2z o.1 ≠ 3) os →
  foldl (λ x o, option_effect want (b2z o.1) o.2 x) x os = x.
Proof.
  intros Hos. revert x. induction Hos as [|[c v] os (H53 & H54 & H3) Hos IH]; intros x; [done|]. cbn [foldl fst snd] in *.
  rewrite <-(IH x) at 2. f_equal. destruct x as [m l]. cbn. destruct v; [done|].
  destruct (Z.eqb_spec (b2z c) 53); [done|]. destruct (Z.eqb_spec (b2z c) 54); [done|]. by destruct (Z.eqb_spec (b2z c) 3).
Qed.

(** An option the lease does not record. *)
Definition other_option (o : byte * bytes) : Prop := b2z o.1 ≠ 53 ∧ b2z o.1 ≠ 54 ∧ b2z o.1 ≠ 3.

Lemma take_options_lease want kind o1 o2 o3 o4 yiaddr sid rtr :
  0 ≤ kind < 256 → length sid = 4%nat → length rtr = 4%nat → Forall other_option (o1 ++ o2 ++ o3 ++ o4) →
  foldl (λ x o, option_effect want (b2z o.1) o.2 x) (false, mkLease yiaddr (zeros 4) (zeros 4) false false)
    (o1 ++ [(z2b 53, [z2b kind])] ++ o2 ++ [(z2b 54, sid)] ++ o3 ++ [(z2b 3, rtr)] ++ o4) =
  (kind =? want, mkLease yiaddr sid rtr true true).
Proof.
  intros Hk (? & ? & ? & ? & ->)%list4 (? & ? & ? & ? & ->)%list4. rewrite !Forall_app. intros (F1 & F2 & F3 & F4).
  rewrite !foldl_app, !option_effect_other by done. cbn [foldl fst snd option_effect]. rewrite !option_effect_other by done.
  unfold option_effect. rewrite !b2z_z2b. rewrite (Z.mod_small kind) by lia. reflexivity.
Qed.

(** A listed option with a code and a short value. *)
Ltac opt := split; [done|split; [done|cbn [snd length]; lia]].

(** ** What the builders write and the parsers return *)

Definition discover_frame (mac : bytes) (xid : Z) : bytes :=
  udp_frame bcast_mac mac any_ip bcast_ip 68 67 (dhcp_message mac xid DHCP_DISCOVER None None).
Definition request_frame (mac : bytes) (xid : Z) (lease : rl_lease_t) : bytes :=
  udp_frame bcast_mac mac any_ip bcast_ip 68 67
    (dhcp_message mac xid DHCP_REQUEST (Some (client_ip lease)) (if has_server_id lease then Some (server_id lease) else None)).
Definition arp_frame (mac src_ip target_ip : bytes) : bytes :=
  bcast_mac ++ mac ++ be16 0x0806 ++ be16 1 ++ be16 0x0800 ++ [z2b 6; z2b 4] ++ be16 1 ++ mac ++ src_ip ++ zeros 6 ++ target_ip.

(** A builder filled the front of a frame buffer. *)
Definition built (m : go (Z * bytes)) (f : bytes) : Prop :=
  (length f ≤ FRAME_CAP)%nat ∧ ∃ rest, m = Ret (Z.of_nat (length f), f ++ rest) ∧ length (f ++ rest) = FRAME_CAP.

Lemma udp_frame_length dst_mac src_mac src_ip dst_ip sport dport payload :
  length dst_mac = 6%nat → length src_mac = 6%nat → length src_ip = 4%nat → length dst_ip = 4%nat →
  length (udp_frame dst_mac src_mac src_ip dst_ip sport dport payload) = (42 + length payload)%nat.
Proof. intros. unfold udp_frame, eth_ip, ip_header, udp_segment. len. Qed.

Lemma udp_frame_payload dst_mac src_mac src_ip dst_ip sport dport payload :
  length dst_mac = 6%nat → length src_mac = 6%nat → length src_ip = 4%nat → length dst_ip = 4%nat →
  drop 42 (udp_frame dst_mac src_mac src_ip dst_ip sport dport payload) = payload.
Proof. intros. unfold udp_frame, udp_segment. rewrite !app_assoc. apply drop_app_length'. unfold eth_ip, ip_header. len. Qed.

Lemma udp_built frame dst_mac src_mac src_ip dst_ip sport dport payload :
  length dst_mac = 6%nat → length src_mac = 6%nat → length src_ip = 4%nat → length dst_ip = 4%nat →
  length frame = FRAME_CAP → (42 + length payload ≤ FRAME_CAP)%nat →
  built (udp_ip_eth frame dst_mac src_mac src_ip dst_ip sport dport payload)
    (udp_frame dst_mac src_mac src_ip dst_ip sport dport payload).
Proof.
  intros. unfold built. rewrite udp_ip_eth_layout by done.
  pose proof (udp_frame_length dst_mac src_mac src_ip dst_ip sport dport payload) as Hl. rewrite Hl by done.
  split; [lia|]. eexists. split; [repeat f_equal; lia|]. rewrite length_app, length_drop, Hl by done. lia.
Qed.

Lemma discover_built mac xid frame body :
  length mac = 6%nat → length frame = FRAME_CAP → length body = 300%nat →
  built (rl_build_dhcp_discover mac xid frame body) (discover_frame mac xid).
Proof.
  intros Hm Hf Hb. destruct (dhcp_body_layout body mac xid DHCP_DISCOVER None None) as (b & E & Ht & Hl); [done..|].
  unfold rl_build_dhcp_discover. rewrite E. mstep. rewrite (slice_take _ _ _ Ht) by done. mstep. apply udp_built; try done. unfold FRAME_CAP. lia.
Qed.

Lemma request_built mac xid lease frame body :
  length mac = 6%nat → length frame = FRAME_CAP → length body = 300%nat →
  length (client_ip lease) = 4%nat → length (server_id lease) = 4%nat →
  built (rl_build_dhcp_request mac xid lease frame body) (request_frame mac xid lease).
Proof.
  intros Hm Hf Hb Hc Hs. unfold rl_build_dhcp_request, request_frame. set (sid := if has_server_id lease then _ else _).
  destruct (dhcp_body_layout body mac xid DHCP_REQUEST (Some (client_ip lease)) sid) as (b & E & Ht & Hl); [done|done|..].
  { by intros ? [= <-]. } { intros a. subst sid. case_match; [|done]. by intros [= <-]. }
  rewrite E. mstep. rewrite (slice_take _ _ _ Ht) by done. mstep. apply udp_built; try done. unfold FRAME_CAP. lia.
Qed.

Lemma arp_built mac src_ip target_ip frame :
  length mac = 6%nat → length src_ip = 4%nat → length target_ip = 4%nat → length frame = FRAME_CAP →
  built (rl_build_arp_request mac src_ip target_ip frame) (arp_frame mac src_ip target_ip).
Proof.
  intros (? & ? & ? & ? & ? & ? & ->)%list6 (? & ? & ? & ? & ->)%list4 (? & ? & ? & ? & ->)%list4 Hf. unfold rl_build_arp_request, built.
  unfold FRAME_CAP in *. rewrite wr_zeros by lia. mstep. change (zeros 42) with (replicate 42 "000"%char). cbn [replicate app].
  do 11 write. unfold arp_frame, bcast_mac. split; [len|]. exists (drop 42 frame). split; [done|]. len.
Qed.

Lemma rl_parse_arp_ok f ip m : rl_parse_arp_reply f ip = Ret (Some m) → length m = 6%nat.
Proof.
  unfold rl_parse_arp_reply. case_decide as Hl; [done|].
  read_bytes. case_match; [done|]. case_match; [done|].
  rewrite !slice_ret by lia. mstep. case_decide; [done|]. intros [= <-]. len.
Qed.

(** ** Properties *)

(** A probe written by the C cellular path reaches the Go gateway intact.  For
    every valid session, packet number and path tag, [rl_build_probe] writes the
    bytes Go's [MarshalBinary] writes, [rl_build_udp_frame] and [rl_wrap_packet]
    accept it, [rl_unwrap_packet] on the message finds the frame again, a receiver's
    IPv4 and UDP checksum tests both give 0 on that frame, and the gateway's
    [UnmarshalProbe] reads the same session, number and tag from its payload. *)
Theorem usb_probe_delivered (session : vec byte 16) number path out src_mac dst_mac src_ip dst_ip sport dport frame msg :
  Valid (mkPacketID session number) = true → is_u64 number →
  (30 ≤ length out)%nat → length src_mac = 6%nat → length dst_mac = 6%nat → length src_ip = 4%nat → length dst_ip = 4%nat →
  length frame = FRAME_CAP → (116 ≤ length msg)%nat →
  let p := mkProbe (mkPacketID session number) path in
  ∃ o f m, rl_build_probe session number path out = Ret o ∧ MarshalBinary p = Ret (Ok (take CVP_PROBE_SIZE o)) ∧
    rl_build_udp_frame src_mac dst_mac src_ip dst_ip sport dport (take CVP_PROBE_SIZE o) frame = Ret (72, f) ∧
    rl_wrap_packet (take 72 f) msg = Ret (116, m) ∧ rl_unwrap_packet (take 116 m) = Ret (72, 44%nat) ∧
    take 72 (drop 44 m) = take 72 f ∧
    rl_inet_csum (take 20 (drop 14 (take 72 f))) = 0 ∧
    rl_inet_csum (udp_summed src_ip dst_ip (drop 34 (take 72 f))) = 0 ∧
    UnmarshalProbe (drop 42 (take 72 f)) = Ret (Ok p).
Proof.
  intros Hv Hn Ho Hsm Hdm Hsi Hdi Hf Hm p. destruct (Unmarshal_marshalled p [] Hv Hn) as [Hlp Hun]. rewrite app_nil_r in Hun.
  change ProbeWireSize with 30%nat in Hlp.
  set (o := probe_bytes p ++ drop 30 out).
  assert (take CVP_PROBE_SIZE o = probe_bytes p) as Ho'.
  { subst o. apply take_app_length'. rewrite Hlp. done. }
  destruct (udp_frame_checks dst_mac src_mac src_ip dst_ip sport dport (probe_bytes p) Hsi Hdi) as (ip & udp & Hfr & Hip & Hc1 & Hc2 & Hpl);
    [lia|].
  assert (length (eth_ip dst_mac src_mac) = 14%nat) as He by (unfold eth_ip; len).
  set (u := udp_frame dst_mac src_mac src_ip dst_ip sport dport (probe_bytes p)) in *.
  assert (length u = 72%nat) as Hu.
  { rewrite Hfr, !length_app, He, Hip. pose proof (f_equal length Hpl) as Hlu. rewrite length_drop, Hlp in Hlu. lia. }
  set (f := u ++ drop 72 frame). assert (take 72 f = u) as Hfu by by apply take_app_length'.
  exists o, f, (packet_header 72 ++ u ++ drop 116 msg). rewrite Ho', Hfu.
  split. { rewrite rl_build_probe_layout by (len || done). subst o. unfold probe_bytes. by rewrite <-!app_assoc. }
  split. { by apply Marshal_layout. }
  split. { unfold rl_build_udp_frame. rewrite udp_ip_eth_layout by (rewrite ?Hlp; unfold FRAME_CAP; done || lia).
    rewrite Hlp. done. }
  split. { rewrite rl_wrap_layout by (rewrite Hu; unfold INT_MAX; lia). by rewrite Hu. }
  assert (length (packet_header 72) = 44%nat) as Hh by done.
  split. { replace (take 116 _) with (packet_header 72 ++ u ++ []).
    - change 72 with (Z.of_nat 72). rewrite <-Hu. apply rl_unwrap_wrapped. lia.
    - rewrite app_nil_r, app_assoc. symmetry. apply take_app_length'. rewrite length_app. lia. }
  split. { rewrite drop_app_length' by done. by apply take_app_length'. }
  rewrite Hfr. split; [by rewrite drop_app_length', take_app_length' by done|].
  rewrite app_assoc. split; [rewrite drop_app_length'; [done|len]|].
  replace (drop 42 _) with (drop 8 udp); [by rewrite Hpl|]. rewrite drop_app_ge by len. f_equal. len.
Qed.

(** C38: The C parsers are memory safe on every input.  On any bytes received from
    USB, [rl_unwrap_packet], [rl_parse_dhcp_reply], [rl_is_dhcp_offer] and
    [rl_parse_arp_reply] return without an access outside the buffer; a frame
    [rl_unwrap_packet] reports lies inside the buffer, a matching DHCP reply gives
    whole addresses, and an ARP reply a whole hardware address; and the DHCP option
    loop, from any position, ends after at most one iteration per byte left and one
    more, so a larger bound changes nothing. *)
Theorem usb_parsers_safe (buf ip : bytes) (want : Z) (lease : rl_lease_t) :
  (∃ n off, rl_unwrap_packet buf = Ret (n, off) ∧ (n = -1 ∨ n = 0 ∨ 0 ≤ n ∧ (off + Z.to_nat n ≤ length buf)%nat)) ∧
  (∃ m l, rl_parse_dhcp_reply buf want lease = Ret (m, l) ∧ (m = true → lease_ok l)) ∧ (∃ r, rl_is_dhcp_offer buf = Ret r) ∧
  (∃ r, rl_parse_arp_reply buf ip = Ret r ∧ ∀ mac, r = Some mac → length mac = 6%nat) ∧
  (∀ k opt x, (length buf - opt < k)%nat →
     ∃ y, dhcp_options (S (length buf - opt)) buf want opt x = Ret y ∧ dhcp_options k buf want opt x = Ret y).
Proof.
  split; [apply rl_unwrap_safe|]. split; [apply rl_parse_dhcp_spec|].
  split. { unfold rl_is_dhcp_offer. destruct (rl_parse_dhcp_total buf DHCP_OFFER zero_lease) as [[m l] ->]. mstep. by eexists. }
  split. { destruct (rl_parse_arp_total buf ip) as [r Hr]. exists r. split; [done|]. intros mac ->. by eapply rl_parse_arp_ok. }
  intros k opt x Hk. destruct (dhcp_options_total k buf want opt x Hk) as (y & Hy & _). exists y. split; [|done].
  rewrite <-Hy. apply dhcp_options_fuel; lia.
Qed.

(** The DHCP exchange carries the lease through.  From a server's reply, whatever
    other options it holds and in between which ones, [rl_parse_dhcp_reply] returns a
    match exactly when the message type is the wanted one, with the offered address,
    the server identifier and the router; [rl_build_dhcp_request] from that lease
    broadcasts a REQUEST for exactly this address to exactly this server, in a frame
    whose IPv4 and UDP checksums a receiver accepts. *)
Theorem dhcp_lease_carried dst_mac src_mac src_ip dst_ip head yiaddr mid o1 o2 o3 o4 sid rtr pad kind want lease0 mac xid frame body :
  length dst_mac = 6%nat → length src_mac = 6%nat → length src_ip = 4%nat → length dst_ip = 4%nat →
  length head = 15%nat → length yiaddr = 4%nat → length mid = 220%nat → length sid = 4%nat → length rtr = 4%nat →
  0 ≤ kind < 256 → Forall option_ok (o1 ++ o2 ++ o3 ++ o4) → Forall other_option (o1 ++ o2 ++ o3 ++ o4) →
  length mac = 6%nat → length frame = FRAME_CAP → length body = 300%nat →
  let os := o1 ++ [(z2b 53, [z2b kind])] ++ o2 ++ [(z2b 54, sid)] ++ o3 ++ [(z2b 3, rtr)] ++ o4 in
  let lease := mkLease yiaddr sid rtr true true in
  let req := dhcp_message mac xid DHCP_REQUEST (Some yiaddr) (Some sid) in
  rl_parse_dhcp_reply (udp_frame dst_mac src_mac src_ip dst_ip 67 68 (dhcp_reply head yiaddr mid os pad)) want lease0 =
    Ret (kind =? want, lease) ∧
  ∃ ip udp, rl_build_dhcp_request mac xid lease frame body =
      Ret (42 + Z.of_nat (length req), (eth_ip bcast_mac mac ++ ip ++ udp) ++ drop (42 + length req) frame) ∧
    drop 8 udp = req ∧ rl_inet_csum ip = 0 ∧ rl_inet_csum (udp_summed any_ip bcast_ip udp) = 0.
Proof.
  intros Hdm Hsm Hsi Hdi Hh Hy Hm Hsid Hr Hk Hok Hoth Hmac Hf Hb os lease req. split.
  { unfold os. rewrite rl_parse_reply; try done; [by rewrite take_options_lease|]. rewrite !Forall_app in Hok.
    destruct Hok as (? & ? & ? & ?). apply Forall_app_2; [done|]. constructor; [opt|]. apply Forall_app_2; [done|].
    constructor; [opt|]. apply Forall_app_2; [done|].
    constructor; [opt|done]. }
  destruct (dhcp_body_layout body mac xid DHCP_REQUEST (Some yiaddr) (Some sid) Hb Hmac) as (b & E & Ht & Hl);
    [by intros ? [= <-]|by intros ? [= <-]|]. fold req in E, Ht, Hl.
  destruct (udp_frame_checks bcast_mac mac any_ip bcast_ip 68 67 req) as (ip & udp & Hfr & _ & Hc1 & Hc2 & Hpl); [done|done|lia|].
  exists ip, udp. split; [|done]. unfold rl_build_dhcp_request. cbn [has_server_id client_ip server_id lease].
  rewrite E. mstep. rewrite (slice_take _ _ _ Ht) by done. mstep. rewrite udp_ip_eth_layout by (done || (unfold FRAME_CAP; lia)). by rewrite Hfr.
Qed.

Module Witness.

Definition mac1 : bytes := gs "abcdef".
Definition ip1 : bytes := gs "wxyz".
Definition session1 : vec byte 16 := arr 16 (gs "session-id-00001").

Lemma usb_probe_delivered_witness :
  ∃ o f m, rl_build_probe session1 7 PathAndroidUSBTether (zeros 30) = Ret o ∧
    rl_build_udp_frame mac1 mac1 ip1 ip1 40000 4500 (take CVP_PROBE_SIZE o) (zeros 600) = Ret (72, f) ∧
    rl_wrap_packet (take 72 f) (zeros 2048) = Ret (116, m) ∧ take 72 (drop 44 m) = take 72 f ∧
    UnmarshalProbe (drop 42 (take 72 f)) = Ret (Ok (mkProbe (mkPacketID session1 7) PathAndroidUSBTether)).
Proof.
  destruct (usb_probe_delivered session1 7 PathAndroidUSBTether (zeros 30) mac1 mac1 ip1 ip1 40000 4500 (zeros 600) (zeros 2048))
    as (o & f & m & H); try reflexivity; try (unfold is_u64; lia); try (rewrite length_zeros; lia).
  exists o, f, m. naive_solver.
Defined.

(** A payload of 513 bytes is sent without a UDP checksum. *)
Lemma long_payload_unsummed :
  match rl_build_udp_frame mac1 mac1 ip1 ip1 40000 4500 (replicate 513 (z2b 1)) (zeros 600) with
  | Ret (total, f) => (total, take 2 (drop 40 f)) = (555, zeros 2)
  | Panic => False
  end.
Proof. vm_compute. reflexivity. Qed.

Lemma dhcp_lease_carried_witness :
  rl_parse_dhcp_reply (udp_frame mac1 mac1 ip1 ip1 67 68
    (dhcp_reply (zeros 15) ip1 (zeros 220) [(z2b 53, [z2b 2]); (z2b 54, gs "srvr"); (z2b 3, gs "rout")] [])) DHCP_OFFER zero_lease =
    Ret (true, mkLease ip1 (gs "srvr") (gs "rout") true true).
Proof.
  refine (proj1 (dhcp_lease_carried mac1 mac1 ip1 ip1 (zeros 15) ip1 (zeros 220) [] [] [] [] (gs "srvr") (gs "rout") [] 2 DHCP_OFFER
    zero_lease mac1 9 (zeros 600) (zeros 300) _ _ _ _ _ _ _ _ _ _ _ _ _ _ _)); reflexivity || lia || apply Forall_nil; done.
Defined.

End Witness.

End Rndis.
