(* ===== verification/Usb.v ===== *)
(** * research/usb-rndis-spike: the USB tether as a network uplink

    rndis_usb.c (finding, claiming and driving the RNDIS function) and
    rndis_uplink.c (lease, next hop, sending), over the frame library of Rndis.  A
    program is a function of the calls made so far and their answers ([io]): libusb,
    [rand] and the sockets are a [system], which may answer anything the laws of a
    theorem allow.  Reading or writing out of bounds, or freeing a pointer that was
    never set, is [Panic].  [held] is what a trace of calls left acquired. *)

From S2P Require Import Prelude GoText Protocol Rndis.

Module Usb.
Import Rndis.

(** ** Calls and answers *)

(** One alternate setting of an interface, with the addresses of its endpoints. *)
Record interface := mkInterface { bInterfaceClass : Z; bInterfaceNumber : Z; endpoints : list Z }.

Inductive call :=
| LInit | LExit
| LGetDeviceList | LFreeDeviceList
| LGetConfig (dev : nat) | LFreeConfig
| LOpen (dev : nat) | LOpenId (vid pid : Z) | LGetConfigOf (h : Z) | LClose (h : Z) | LAutoDetach (h : Z)
| LClaim (h i : Z) | LRelease (h i : Z)
| LControlOut (h i : Z) (msg : bytes) | LControlIn (h i : Z) (cap : nat)
| LBulkOut (h ep : Z) (msg : bytes) | LBulkIn (h ep : Z) (cap : nat)
| Rand
| Socket | IfNameToIndex (name : bytes) | BoundIf (fd idx : Z) | Connect (fd : Z) (ip : bytes) (port : Z)
| Send (fd : Z) (msg : bytes) | CloseFd (fd : Z).

(** The return code, and what the call stores: a handle or the number of bytes
    written, the bytes received, the interfaces of a configuration. *)
Record answer := mkAnswer { code : Z; value : Z; data : bytes; config : list interface }.

Definition event := (call * answer)%type.
Definition trace := list event.
Definition system := trace → call → answer.

(** ** Programs *)

Definition io (A : Type) := trace → go (A * trace).
#[export] Instance io_ret : MRet io := λ A x tr, Ret (x, tr).
#[export] Instance io_bind : MBind io := λ A B f m tr, '(x, tr) ← m tr; f x tr.
Definition lift {A} (m : go A) : io A := λ tr, x ← m; Ret (x, tr).
Definition undefined {A} : io A := λ _, Panic.

(** ** rndis_usb.h *)

Record rndis_usb_t := mkUsb { ctx : bool; h : option Z; ctrl_if : Z; data_if : Z; ep_in : Z; ep_out : Z }.
Definition zero_usb : rndis_usb_t := mkUsb false None 0 0 0 0.

Definition USB_CLASS_WIRELESS_RNDIS : Z := 0xE0.
Definition USB_CLASS_CDC_DATA : Z := 0x0A.
Definition RNDIS_MSG_INIT : Z := 2.
Definition RNDIS_MSG_INIT_CMPLT : Z := 0x80000002.
Definition RNDIS_MSG_SET : Z := 5.
Definition RNDIS_MSG_SET_CMPLT : Z := 0x80000005.
Definition OID_GEN_CURRENT_PACKET_FILTER : Z := 0x0001010E.
Definition packet_filter : Z := Z.lor (Z.lor 0x1 0x2) 0x10.   (* directed, multicast, broadcast *)

Section usb.
Variable sys : system.
(** The contents of an uninitialised array of [n] bytes, and of a lease. *)
Variable stack : nat → bytes.
Variable stack_lease : rl_lease_t.

Definition invoke (c : call) : io answer := λ tr, Ret (sys tr c, tr ++ [(c, sys tr c)]).

(** ** rndis_usb_open *)

(** The endpoints of the data interface: the last of each direction. *)
Definition scan_endpoint (x : Z * Z) (a : Z) : Z * Z := if Z.land a 0x80 =? 0 then (x.1, a) else (a, x.2).

(** The numbers of the control and data interfaces, -1 for none, and the endpoints. *)
Definition scan_interface (x : Z * Z * (Z * Z)) (id : interface) : Z * Z * (Z * Z) :=
  let '(c, d, e) := x in
  let c := if bInterfaceClass id =? USB_CLASS_WIRELESS_RNDIS then bInterfaceNumber id else c in
  if bInterfaceClass id =? USB_CLASS_CDC_DATA then (c, bInterfaceNumber id, foldl scan_endpoint e (endpoints id))
  else (c, d, e).
Definition scan_config (ids : list interface) : Z * Z * (Z * Z) := foldl scan_interface (-1, -1, (0, 0)) ids.

(** The loop over the devices. *)
Fixpoint find_device (devs : list nat) (u : rndis_usb_t) : io rndis_usb_t :=
  match devs with
  | [] => mret u
  | i :: devs =>
      match h u with
      | Some _ => mret u
      | None =>
          cfg ← invoke (LGetConfig i);
          if negb (code cfg =? 0) then find_device devs u else
          let '(c, d, (inp, out)) := scan_config (config cfg) in
          _ ← invoke LFreeConfig;
          if (0 <=? c) && (0 <=? d) && negb (inp =? 0) && negb (out =? 0) then
            o ← invoke (LOpen i);
            find_device devs (if code o =? 0 then mkUsb (ctx u) (Some (value o)) c d inp out else u)
          else find_device devs u
      end
  end.

Definition rndis_usb_close (u : rndis_usb_t) : io rndis_usb_t :=
  u ← match h u with
      | Some hd =>
          _ ← invoke (LRelease hd (ctrl_if u));
          _ ← invoke (LRelease hd (data_if u));
          _ ← invoke (LClose hd);
          mret (mkUsb (ctx u) None (ctrl_if u) (data_if u) (ep_in u) (ep_out u))
      | None => mret u
      end;
  if ctx u then _ ← invoke LExit; mret (mkUsb false (h u) (ctrl_if u) (data_if u) (ep_in u) (ep_out u)) else mret u.

(** The list pointer is set only by a successful [libusb_get_device_list]. *)
Definition rndis_usb_open : io (rndis_usb_t * Z) :=
  i ← invoke LInit;
  if negb (code i =? 0) then mret (zero_usb, -1) else
  l ← invoke LGetDeviceList;
  u ← find_device (seq 0 (Z.to_nat (code l))) (mkUsb true None 0 0 0 0);
  if code l <? 0 then undefined else
  _ ← invoke LFreeDeviceList;
  match h u with
  | None => _ ← invoke LExit; mret (mkUsb false None (ctrl_if u) (data_if u) (ep_in u) (ep_out u), -1)
  | Some hd =>
      _ ← invoke (LAutoDetach hd);
      c ← invoke (LClaim hd (ctrl_if u));
      if negb (code c =? 0) then u ← rndis_usb_close u; mret (u, -1) else
      d ← invoke (LClaim hd (data_if u));
      if negb (code d =? 0) then u ← rndis_usb_close u; mret (u, -1) else
      mret (u, 0)
  end.

(** ** Commands *)

(** A null handle is not passed to libusb: the functions below run on an open one. *)
Definition handle (u : rndis_usb_t) : io Z := match h u with Some hd => mret hd | None => undefined end.

Definition rndis_command (u : rndis_usb_t) (msg : bytes) (resp_cap : nat) : io (Z * bytes) :=
  hd ← handle u;
  s ← invoke (LControlOut hd (ctrl_if u) msg);
  if code s <? 0 then mret (code s, []) else
  r ← invoke (LControlIn hd (ctrl_if u) resp_cap);
  if code r <? 0 then mret (code r, []) else
  let resp := take resp_cap (data r) in mret (Z.of_nat (length resp), resp).

(** 0 when the response is a completion of the type with status 0. *)
Definition check_completion (got : Z) (resp : bytes) (type : Z) : go Z :=
  if got <? 16 then Ret (-1) else
  t ← rl_rd32 resp 0;
  if negb (t =? type) then Ret (-1) else
  status ← rl_rd32 resp 12;
  Ret (if status =? 0 then 0 else -1).

Definition init_message : go bytes :=
  m ← rl_wr32 0 RNDIS_MSG_INIT (zeros 24);
  m ← rl_wr32 4 24 m;
  m ← rl_wr32 8 1 m;
  m ← rl_wr32 12 1 m;
  m ← rl_wr32 16 0 m;
  rl_wr32 20 0x4000 m.

Definition rndis_usb_initialize (u : rndis_usb_t) : io Z :=
  msg ← lift init_message;
  '(got, resp) ← rndis_command u msg 1025;
  lift (check_completion got resp RNDIS_MSG_INIT_CMPLT).

Definition filter_message (f : Z) : go bytes :=
  m ← rl_wr32 0 RNDIS_MSG_SET (zeros 32);
  m ← rl_wr32 4 32 m;
  m ← rl_wr32 8 2 m;
  m ← rl_wr32 12 OID_GEN_CURRENT_PACKET_FILTER m;
  m ← rl_wr32 16 4 m;
  m ← rl_wr32 20 20 m;
  m ← rl_wr32 24 0 m;
  rl_wr32 28 f m.

Definition rndis_usb_set_filter (u : rndis_usb_t) (f : Z) : io Z :=
  msg ← lift (filter_message f);
  '(got, resp) ← rndis_command u msg 1025;
  lift (check_completion got resp RNDIS_MSG_SET_CMPLT).

(** ** Frames *)

Definition rndis_usb_send_frame (u : rndis_usb_t) (frame : bytes) : io Z :=
  '(total, msg) ← lift (rl_wrap_packet frame (stack 2048));
  if total <? 0 then mret (-1) else
  hd ← handle u;
  msg ← lift (slice msg 0 (Z.to_nat total));
  a ← invoke (LBulkOut hd (ep_out u) msg);
  mret (if (code a =? 0) && (value a =? total) then 0 else -1).

(** The frame is in the buffer, when its length is positive. *)
Definition rndis_usb_recv_frame (u : rndis_usb_t) (cap : nat) : io (Z * bytes) :=
  hd ← handle u;
  a ← invoke (LBulkIn hd (ep_in u) cap);
  if negb (code a =? 0) then mret (-1, []) else
  let buf := take cap (data a) in
  '(n, off) ← lift (rl_unwrap_packet buf);
  if n >? 0 then f ← lift (slice buf off (off + Z.to_nat n)); mret (n, f) else mret (n, []).

(** ** rndis_uplink.c *)

Record rndis_uplink_t := mkUplink {
  usb : rndis_usb_t; mac : bytes; client_ip : bytes; gw_mac : bytes; sport : Z; ready : bool
}.

(** Reads until the predicate accepts a frame. *)
Fixpoint drain {C} (reads : nat) (u : rndis_usb_t) (matches : bytes → C → go (bool * C)) (c : C) : io (bool * C) :=
  match reads with
  | O => mret (false, c)
  | S reads =>
      '(n, f) ← rndis_usb_recv_frame u 2048;
      if n >? 0 then
        '(m, c) ← lift (matches f c);
        if (m : bool) then mret (true, c) else drain reads u matches c
      else drain reads u matches c
  end.

Fixpoint exchange {C} (attempts : nat) (u : rndis_usb_t) (tx : bytes) (matches : bytes → C → go (bool * C)) (c : C)
  : io (Z * C) :=
  match attempts with
  | O => mret (0, c)
  | S attempts =>
      s ← rndis_usb_send_frame u tx;
      if negb (s =? 0) then mret (-1, c) else
      '(m, c) ← drain 16 u matches c;
      if (m : bool) then mret (1, c) else exchange attempts u tx matches c
  end.

Definition match_offer (f : bytes) (l : rl_lease_t) : go (bool * rl_lease_t) := rl_parse_dhcp_reply f DHCP_OFFER l.
Definition match_ack (f : bytes) (l : rl_lease_t) : go (bool * rl_lease_t) := rl_parse_dhcp_reply f DHCP_ACK l.
Definition match_arp (target_ip f m : bytes) : go (bool * bytes) :=
  r ← rl_parse_arp_reply f target_ip;
  Ret (match r with Some sha => (true, sha) | None => (false, m) end).

(** The line printed by a failed bring-up. *)
Inductive stage := FailOpen | FailInit | FailFilter | FailOffer | FailAck | FailLease | FailArp.

Fixpoint random_bytes (n : nat) : io bytes :=
  match n with
  | O => mret []
  | S n => r ← invoke Rand; rest ← random_bytes n; mret (z2b (value r) :: rest)
  end.

(** A locally administered unicast address. *)
Definition local_mac (m : bytes) : bytes :=
  match m with b :: m => z2b (Z.lor (Z.land (b2z b) 0xfe) 0x02) :: m | [] => [] end.

(** The router of an acknowledgement, or else of the offer. *)
Definition merge_router (ack offer : rl_lease_t) : rl_lease_t :=
  if negb (has_router ack) && has_router offer
  then mkLease (Rndis.client_ip ack) (server_id ack) (router offer) (has_server_id ack) true else ack.

Definition zero_uplink : rndis_uplink_t := mkUplink zero_usb (zeros 6) (zeros 4) (zeros 6) 0 false.

Definition fail (up : rndis_uplink_t) (st : stage) : io (rndis_uplink_t * option stage) :=
  u ← rndis_usb_close (usb up);
  mret (mkUplink u (mac up) (client_ip up) (gw_mac up) (sport up) (ready up), Some st).

(** The lease and the next hop, from line 77 of rndis_uplink_bring_up on; [None] for
    the return value 0. *)
Definition bring_up_lease (up : rndis_uplink_t) (xid : Z) : io (rndis_uplink_t * option stage) :=
  let u := usb up in let m := mac up in
  '(flen, frame) ← lift (rl_build_dhcp_discover m xid (stack FRAME_CAP) (stack 300));
  tx ← lift (slice frame 0 (Z.to_nat flen));
  '(r, offer) ← exchange 5 u tx match_offer stack_lease;
  if negb (r =? 1) then fail up FailOffer else
  '(flen, frame) ← lift (rl_build_dhcp_request m xid offer frame (stack 300));
  tx ← lift (slice frame 0 (Z.to_nat flen));
  '(r, ack) ← exchange 5 u tx match_ack stack_lease;
  if negb (r =? 1) then fail up FailAck else
  let ack := merge_router ack offer in
  if negb (has_router ack) then fail up FailLease else
  let up := mkUplink u m (Rndis.client_ip ack) (gw_mac up) (sport up) (ready up) in
  '(flen, frame) ← lift (rl_build_arp_request m (client_ip up) (router ack) frame);
  tx ← lift (slice frame 0 (Z.to_nat flen));
  '(r, gw) ← exchange 6 u tx (match_arp (router ack)) (zeros 6);
  if negb (r =? 1) then fail up FailArp else
  mret (mkUplink u m (client_ip up) gw (sport up) true, None).

Definition rndis_uplink_bring_up : io (rndis_uplink_t * option stage) :=
  '(u, rc) ← rndis_usb_open;
  let up := mkUplink u (zeros 6) (zeros 4) (zeros 6) 0 false in
  if negb (rc =? 0) then mret (up, Some FailOpen) else
  rc ← rndis_usb_initialize u;
  if negb (rc =? 0) then fail up FailInit else
  rc ← rndis_usb_set_filter u packet_filter;
  if negb (rc =? 0) then fail up FailFilter else
  m ← random_bytes 6;
  let m := local_mac m in
  x ← invoke Rand;
  let xid := u32 (value x) in
  p ← invoke Rand;
  bring_up_lease (mkUplink u m (zeros 4) (zeros 6) (u16 (40000 + Z.rem (value p) 20000)) false) xid.

Definition rndis_uplink_send_udp (up : rndis_uplink_t) (dst_ip : bytes) (dport : Z) (payload : bytes) : io Z :=
  if negb (ready up) then mret (-1) else
  '(flen, frame) ← lift (rl_build_udp_frame (mac up) (gw_mac up) (client_ip up) dst_ip (sport up) dport payload (stack FRAME_CAP));
  if flen <? 0 then mret (-1) else
  tx ← lift (slice frame 0 (Z.to_nat flen));
  rndis_usb_send_frame (usb up) tx.

Definition rndis_uplink_close (up : rndis_uplink_t) : io rndis_uplink_t :=
  u ← rndis_usb_close (usb up); mret (mkUplink u (mac up) (client_ip up) (gw_mac up) (sport up) false).

(** ** What a trace left acquired *)

Record resources := mkRes {
  contexts : Z; lists : Z; configs : Z; handles : gset Z; claims : gset (Z * Z); sockets : gset Z
}.
Definition nothing : resources := mkRes 0 0 0 ∅ ∅ ∅.

(** Closing a handle gives its claims back. *)
Definition account (s : resources) (e : event) : resources :=
  let '(c, a) := e in
  let ok := code a =? 0 in
  match c with
  | LInit => if ok then mkRes (contexts s + 1) (lists s) (configs s) (handles s) (claims s) (sockets s) else s
  | LExit => mkRes (contexts s - 1) (lists s) (configs s) (handles s) (claims s) (sockets s)
  | LGetDeviceList =>
      if code a <? 0 then s else mkRes (contexts s) (lists s + 1) (configs s) (handles s) (claims s) (sockets s)
  | LFreeDeviceList => mkRes (contexts s) (lists s - 1) (configs s) (handles s) (claims s) (sockets s)
  | LGetConfig _ => if ok then mkRes (contexts s) (lists s) (configs s + 1) (handles s) (claims s) (sockets s) else s
  | LGetConfigOf _ => if ok then mkRes (contexts s) (lists s) (configs s + 1) (handles s) (claims s) (sockets s) else s
  | LFreeConfig => mkRes (contexts s) (lists s) (configs s - 1) (handles s) (claims s) (sockets s)
  | LOpen _ => if ok then mkRes (contexts s) (lists s) (configs s) ({[value a]} ∪ handles s) (claims s) (sockets s) else s
  | LOpenId _ _ => if ok then mkRes (contexts s) (lists s) (configs s) ({[value a]} ∪ handles s) (claims s) (sockets s) else s
  | LClose hd =>
      mkRes (contexts s) (lists s) (configs s) (handles s ∖ {[hd]}) (filter (λ c, c.1 ≠ hd) (claims s)) (sockets s)
  | LClaim hd i => if ok then mkRes (contexts s) (lists s) (configs s) (handles s) ({[(hd, i)]} ∪ claims s) (sockets s) else s
  | LRelease hd i =>
      if ok then mkRes (contexts s) (lists s) (configs s) (handles s) (claims s ∖ {[(hd, i)]}) (sockets s) else s
  | Socket =>
      if code a <? 0 then s else mkRes (contexts s) (lists s) (configs s) (handles s) (claims s) ({[code a]} ∪ sockets s)
  | CloseFd fd => mkRes (contexts s) (lists s) (configs s) (handles s) (claims s) (sockets s ∖ {[fd]})
  | _ => s
  end.
Definition held (tr : trace) : resources := foldl account nothing tr.

(** A handle or descriptor given out is not in use, and no claim is left on it. *)
Record fresh_handles : Prop := {
  fresh_open tr i : code (sys tr (LOpen i)) = 0 →
    value (sys tr (LOpen i)) ∉ handles (held tr) ∧ ∀ c, c ∈ claims (held tr) → c.1 ≠ value (sys tr (LOpen i));
  fresh_open_id tr v p : code (sys tr (LOpenId v p)) = 0 →
    value (sys tr (LOpenId v p)) ∉ handles (held tr) ∧ ∀ c, c ∈ claims (held tr) → c.1 ≠ value (sys tr (LOpenId v p));
  fresh_socket tr : 0 ≤ code (sys tr Socket) → code (sys tr Socket) ∉ sockets (held tr)
}.

(** ** Reasoning about programs *)

(** The program returns, and what it returns and the trace satisfy [Q]. *)
Definition wp {A} (m : io A) (tr : trace) (Q : A → trace → Prop) : Prop := ∃ x tr', m tr = Ret (x, tr') ∧ Q x tr'.

Lemma wp_ret {A} (x : A) tr (Q : A → trace → Prop) : Q x tr → wp (mret x) tr Q.
Proof. intros H. by exists x, tr. Qed.

Lemma wp_bind {A B} (m : io A) (f : A → io B) tr Q : wp m tr (λ x tr', wp (f x) tr' Q) → wp (m ≫= f) tr Q.
Proof.
  intros (x & tr' & Hm & y & tr'' & Hf & HQ). exists y, tr''. split; [|done].
  unfold mbind, io_bind. rewrite Hm. by mstep.
Qed.

Lemma wp_lift {A} (m : go A) x tr (Q : A → trace → Prop) : m = Ret x → Q x tr → wp (lift m) tr Q.
Proof. intros -> HQ. exists x, tr. split; [|done]. unfold lift. by mstep. Qed.

Lemma wp_invoke c tr (Q : answer → trace → Prop) : Q (sys tr c) (tr ++ [(c, sys tr c)]) → wp (invoke c) tr Q.
Proof. intros HQ. by eexists _, _. Qed.

Lemma wp_mono {A} (m : io A) tr (Q Q' : A → trace → Prop) : wp m tr Q → (∀ x tr', Q x tr' → Q' x tr') → wp m tr Q'.
Proof. intros (x & tr' & Hm & HQ) Himp. exists x, tr'. auto. Qed.

Lemma held_snoc tr e : held (tr ++ [e]) = account (held tr) e.
Proof. unfold held. by rewrite foldl_app. Qed.

Lemma held_app tr tr' : held (tr ++ tr') = foldl account (held tr) tr'.
Proof. unfold held. by rewrite foldl_app. Qed.

(** Calls that acquire and release nothing. *)
Definition neutral (e : event) : Prop :=
  match e.1 with
  | LAutoDetach _ | LControlOut _ _ _ | LControlIn _ _ _ | LBulkOut _ _ _ | LBulkIn _ _ _ | Rand
  | IfNameToIndex _ | BoundIf _ _ | Connect _ _ _ | Send _ _ => True
  | _ => False
  end.

Lemma held_neutral tr ex : Forall neutral ex → held (tr ++ ex) = held tr.
Proof.
  rewrite held_app. generalize (held tr). intros s Hex. induction Hex as [|[c a] ex Hc _ IH]; [done|]. cbn [foldl].
  rewrite <- IH at 2. f_equal. by destruct c.
Qed.

(** ** Opening and closing *)

(** [u] is a session opened since the resources were [s]: one handle not among
    them, its claims, and one library context. *)
Record opened (s : resources) (u : rndis_usb_t) (r : resources) : Prop := {
  opened_ctx : ctx u = true ∧ contexts r = contexts s + 1;
  opened_rest : lists r = lists s ∧ configs r = configs s ∧ sockets r = sockets s;
  opened_handle : ∃ hd, h u = Some hd ∧ hd ∉ handles s ∧ handles r = {[hd]} ∪ handles s ∧
    (∀ c, c ∈ claims s → c.1 ≠ hd) ∧ (∀ c, c.1 ≠ hd → c ∈ claims r ↔ c ∈ claims s)
}.

Lemma resources_eq s r :
  contexts r = contexts s → lists r = lists s → configs r = configs s →
  handles r = handles s → claims r = claims s → sockets r = sockets s → r = s.
Proof. destruct s, r. cbn. congruence. Qed.

Lemma close_spec s u tr :
  opened s u (held tr) → wp (rndis_usb_close u) tr (λ u' tr', h u' = None ∧ ctx u' = false ∧ held tr' = s).
Proof.
  intros [[Hctx Hcs] (Hl & Hcf & Hso) (hd & Hh & Hnew & Hhs & Hold & Hcl)]. unfold rndis_usb_close. rewrite Hh.
  repeat first [apply wp_bind|apply wp_invoke|apply wp_ret]. cbn [ctx]. rewrite Hctx.
  apply wp_bind, wp_invoke, wp_ret. split; [done|]. split; [done|].
  assert (∀ s1 e, match e.1 with LRelease hd' _ => hd' = hd | _ => False end →
    (contexts (account s1 e), lists (account s1 e), configs (account s1 e), handles (account s1 e), sockets (account s1 e)) =
    (contexts s1, lists s1, configs s1, handles s1, sockets s1) ∧
    ∀ c, c.1 ≠ hd → c ∈ claims (account s1 e) ↔ c ∈ claims s1) as Hrel.
  { intros s1 [c a] Hc. destruct c; try done. cbn in Hc |- *. subst. case_match; [|done]. split; [done|]. cbn. set_solver. }
  rewrite !held_snoc. set (r1 := account (held tr) _). set (r2 := account r1 _).
  destruct (Hrel (held tr) (LRelease hd (ctrl_if u), sys tr (LRelease hd (ctrl_if u))) eq_refl) as [E1 C1]. fold r1 in E1, C1.
  match goal with r2 := account r1 ?e |- _ => destruct (Hrel r1 e eq_refl) as [E2 C2]; fold r2 in E2, C2 end.
  injection E1 as ? ? ? Hh1 ?. injection E2 as ? ? ? Hh2 ?.
  apply resources_eq; cbn [account contexts lists configs handles claims sockets]; [lia|congruence|congruence| |..|congruence].
  { rewrite Hh2, Hh1, Hhs. clear -Hnew. set_solver. }
  apply set_eq. intros c. rewrite elem_of_filter. split.
  - intros [Hc Hin]. by apply Hcl, C1, C2.
  - intros Hin. pose proof (Hold c Hin) as Hc. split; [done|]. by apply C2, C1, Hcl.
Qed.

(** Closing the handle alone gives its claims back too. *)
Lemma discard_spec s u hd tr :
  opened s u (held tr) → h u = Some hd →
  wp (_ ← invoke (LClose hd); _ ← invoke LExit; mret ()) tr (λ _ tr', held tr' = s).
Proof.
  intros [[_ Hcs] (Hl & Hcf & Hso) (hd' & Hh & Hnew & Hhs & Hold & Hcl)] Hu. rewrite Hu in Hh. injection Hh as <-.
  apply wp_bind, wp_invoke, wp_bind, wp_invoke, wp_ret. rewrite !held_snoc.
  apply resources_eq; cbn [account contexts lists configs handles claims sockets]; [lia|done|done| |..|done].
  { rewrite Hhs. clear -Hnew. set_solver. }
  apply set_eq. intros c. rewrite elem_of_filter. split; [intros [Hc Hin]; by apply Hcl|].
  intros Hin. pose proof (Hold c Hin) as Hc. split; [done|]. by apply Hcl.
Qed.

(** [s] with one more context and one more handle, and claims on it. *)
Definition with_handle (s : resources) (hd : Z) (cs : gset (Z * Z)) : resources :=
  mkRes (contexts s + 1) (lists s) (configs s) ({[hd]} ∪ handles s) (cs ∪ claims s) (sockets s).

Lemma opened_with s u hd cs r :
  ctx u = true → h u = Some hd → hd ∉ handles s → (∀ c, c ∈ claims s → c.1 ≠ hd) → (∀ c, c ∈ cs → c.1 = hd) →
  r = with_handle s hd cs → opened s u r.
Proof. intros Hc Hh Hn Ho Hcs ->. split; [done..|]. exists hd. cbn. set_solver. Qed.

Lemma with_claim s hd cs i a :
  code a = 0 → account (with_handle s hd cs) (LClaim hd i, a) = with_handle s hd ({[(hd, i)]} ∪ cs).
Proof. intros Ha. cbn [account with_handle]. rewrite Ha. cbn. unfold with_handle. f_equal. set_solver. Qed.

Lemma without_claim s i a : code a ≠ 0 → ∀ hd, account s (LClaim hd i, a) = s.
Proof. intros Ha hd. cbn [account]. by destruct (Z.eqb_spec (code a) 0). Qed.

Hypothesis fresh : fresh_handles.

(** The loop opens at most one device, and frees every configuration it reads. *)
Lemma find_device_spec devs u tr :
  h u = None →
  wp (find_device devs u) tr (λ u' tr', ctx u' = ctx u ∧
    match h u' with
    | None => held tr' = held tr
    | Some hd => hd ∉ handles (held tr) ∧ (∀ c, c ∈ claims (held tr) → c.1 ≠ hd) ∧
        held tr' = account (held tr) (LOpen 0, mkAnswer 0 hd [] [])
    end).
Proof.
  revert u tr. induction devs as [|i devs IH]; intros u tr Hu; cbn [find_device].
  { apply wp_ret. by rewrite Hu. }
  rewrite Hu. apply wp_bind, wp_invoke. destruct (code (sys tr (LGetConfig i)) =? 0) eqn:Ec; cbn [negb].
  2:{ eapply wp_mono; [by apply IH|]. rewrite held_snoc. cbn [account]. rewrite Ec. done. }
  destruct (scan_config _) as [[c d] [inp out]]. apply wp_bind, wp_invoke. set (tr1 := tr ++ _). set (tr2 := tr1 ++ _).
  assert (held tr2 = held tr) as Htr2.
  { subst tr2 tr1. rewrite !held_snoc. cbn [account]. rewrite Ec. cbn. apply resources_eq; cbn; try done; lia. }
  destruct (_ && _ && _ && _); [|eapply wp_mono; [by apply IH|]; rewrite Htr2; done].
  apply wp_bind, wp_invoke. destruct (code (sys tr2 (LOpen i)) =? 0) eqn:Eo.
  2:{ eapply wp_mono; [by apply IH|]. rewrite held_snoc, Htr2. cbn [account]. rewrite Eo. done. }
  apply Z.eqb_eq in Eo. destruct (fresh_open fresh tr2 i Eo) as [Hnew Hold]. rewrite Htr2 in Hnew, Hold.
  assert (∀ u' tr', h u' ≠ None → wp (find_device devs u') tr' (λ u'' tr'', u'' = u' ∧ tr'' = tr')) as Hstop.
  { intros u' tr' Hu'. destruct devs; cbn [find_device]; [by apply wp_ret|]. destruct (h u'); [by apply wp_ret|done]. }
  eapply wp_mono; [by apply Hstop|]. intros ? ? [-> ->]. cbn [ctx h]. split; [done|]. split; [done|]. split; [done|].
  rewrite held_snoc, Htr2. cbn [account code]. rewrite Eo. done.
Qed.

(** The device list is there. *)
Hypothesis listed : ∀ tr, 0 ≤ code (sys tr LGetDeviceList).

Lemma open_spec tr :
  wp rndis_usb_open tr (λ '(u, rc) tr',
    rc = 0 ∧ opened (held tr) u (held tr') ∧
      (∃ hd, h u = Some hd ∧ (hd, ctrl_if u) ∈ claims (held tr') ∧ (hd, data_if u) ∈ claims (held tr')) ∨
    rc = -1 ∧ h u = None ∧ ctx u = false ∧ held tr' = held tr).
Proof.
  unfold rndis_usb_open. apply wp_bind, wp_invoke. destruct (code (sys tr LInit) =? 0) eqn:Ei; cbn [negb].
  2:{ apply wp_ret. right. repeat split. rewrite held_snoc. cbn [account]. by rewrite Ei. }
  apply wp_bind, wp_invoke. set (tr2 := (tr ++ _) ++ _). apply wp_bind. eapply wp_mono; [by apply find_device_spec|].
  intros u tr3 [Hctx Hfound]. cbn [ctx] in Hctx.
  assert (∀ t, (code (sys t LGetDeviceList) <? 0) = false) as Hlist by (intros t; apply Z.ltb_ge, listed). rewrite Hlist.
  assert (held tr2 = mkRes (contexts (held tr) + 1) (lists (held tr) + 1) (configs (held tr)) (handles (held tr)) (claims (held tr)) (sockets (held tr))) as Htr2.
  { subst tr2. rewrite !held_snoc. cbn [account]. rewrite Ei, Hlist. done. }
  rewrite Htr2 in Hfound. apply wp_bind, wp_invoke. destruct (h u) as [hd|] eqn:Eh.
  2:{ apply wp_bind, wp_invoke, wp_ret. right. split; [done|]. split; [done|]. split; [done|]. rewrite !held_snoc, Hfound. apply resources_eq; cbn; try done; lia. }
  destruct Hfound as (Hnew & Hold & Htr3). cbn in Hnew, Hold, Htr3.
  apply wp_bind, wp_invoke. set (tr4 := (tr3 ++ _) ++ _).
  assert (held tr4 = with_handle (held tr) hd ∅) as Htr4.
  { subst tr4. rewrite !held_snoc, Htr3. apply resources_eq; cbn; try done; [lia|set_solver]. }
  assert (∀ cs tr', (∀ c, c ∈ cs → c.1 = hd) → held tr' = with_handle (held tr) hd cs →
    wp (u ← rndis_usb_close u; mret (u, -1)) tr' (λ '(u, rc) tr', rc = -1 ∧ h u = None ∧ ctx u = false ∧ held tr' = held tr)) as Hclose.
  { intros cs tr' Hcs Htr'. apply wp_bind. eapply wp_mono; [eapply close_spec, opened_with; done|].
    intros u' tr'' (? & ? & ?). by apply wp_ret. }
  apply wp_bind, wp_invoke. destruct (Z.eqb_spec (code (sys tr4 (LClaim hd (ctrl_if u)))) 0) as [Ec|Ec]; cbn [negb].
  2:{ eapply wp_mono; [apply (Hclose ∅); [set_solver|by rewrite held_snoc, without_claim]|]. intros [] ?. by right. }
  set (tr5 := tr4 ++ _). assert (held tr5 = with_handle (held tr) hd ({[(hd, ctrl_if u)]} ∪ ∅)) as Htr5
    by (by subst tr5; rewrite held_snoc, Htr4, with_claim).
  apply wp_bind, wp_invoke. destruct (Z.eqb_spec (code (sys tr5 (LClaim hd (data_if u)))) 0) as [Ed|Ed]; cbn [negb].
  2:{ eapply wp_mono; [eapply Hclose; [|by rewrite held_snoc, without_claim]; set_solver|]. intros [] ?. by right. }
  apply wp_ret. left. split; [done|]. rewrite held_snoc, Htr5, with_claim by done. split.
  - eapply opened_with; try done. set_solver.
  - exists hd. split; [done|]. cbn. set_solver.
Qed.

(** ** Transfers *)

(** From [tr] to [tr'] nothing was acquired or released, and the events [es] were
    among those that happened, in this order. *)
Definition during (tr : trace) (es : list event) (tr' : trace) : Prop :=
  ∃ ex, tr' = tr ++ ex ∧ Forall neutral ex ∧ es `sublist_of` ex.

Lemma during_refl tr : during tr [] tr.
Proof. exists []. by rewrite app_nil_r. Qed.

Lemma during_trans tr1 es1 tr2 es2 tr3 : during tr1 es1 tr2 → during tr2 es2 tr3 → during tr1 (es1 ++ es2) tr3.
Proof.
  intros (ex1 & -> & N1 & S1) (ex2 & -> & N2 & S2). exists (ex1 ++ ex2). rewrite app_assoc. split; [done|].
  split; [by apply Forall_app|by apply sublist_app].
Qed.

Lemma during_one tr e : neutral e → during tr [e] (tr ++ [e]).
Proof. intros He. exists [e]. split; [done|]. by split; [constructor|]. Qed.

Lemma during_less tr es es' tr' : during tr es tr' → es' `sublist_of` es → during tr es' tr'.
Proof. intros (ex & -> & N & S) Hs. exists ex. split; [done|]. split; [done|]. by etrans. Qed.

Lemma during_quiet tr e : neutral e → during tr [] (tr ++ [e]).
Proof. intros He. eapply during_less; [by apply during_one|]. apply sublist_nil_l. Qed.

Lemma during_held tr es tr' : during tr es tr' → held tr' = held tr.
Proof. intros (ex & -> & N & _). by apply held_neutral. Qed.

(** The answer to a command is in the buffer. *)
Lemma command_spec u hd msg cap tr :
  h u = Some hd → wp (rndis_command u msg cap) tr (λ '(got, resp) tr', during tr [] tr' ∧ (got < 0 ∨ got = Z.of_nat (length resp))).
Proof.
  intros Hu. unfold rndis_command, handle. rewrite Hu. apply wp_bind, wp_ret, wp_bind, wp_invoke.
  destruct (Z.ltb_spec (code (sys tr (LControlOut hd (ctrl_if u) msg))) 0); [apply wp_ret; split; [by apply during_quiet|lia]|].
  apply wp_bind, wp_invoke. set (tr1 := tr ++ _).
  assert (∀ a, during tr [] (tr1 ++ [(LControlIn hd (ctrl_if u) cap, a)])) as Hd.
  { intros a. apply (during_trans tr [] tr1 []); by apply during_quiet. }
  destruct (Z.ltb_spec (code (sys tr1 (LControlIn hd (ctrl_if u) cap))) 0); apply wp_ret; (split; [apply Hd|]); [lia|by right].
Qed.

Lemma check_completion_total got resp type :
  got < 0 ∨ got = Z.of_nat (length resp) → ∃ r, check_completion got resp type = Ret r.
Proof.
  intros Hg. unfold check_completion. destruct (Z.ltb_spec got 16); [by eexists|].
  destruct (rl_rd32_total resp 0) as (t & -> & _); [lia|]. mstep. case_match; [by eexists|].
  destruct (rl_rd32_total resp 12) as (st & -> & _); [lia|]. mstep. by eexists.
Qed.

Lemma control_spec (msg : go bytes) u hd type tr :
  h u = Some hd → (∃ m, msg = Ret m) →
  wp (msg ← lift msg; '(got, resp) ← rndis_command u msg 1025; lift (check_completion got resp type)) tr
    (λ _ tr', during tr [] tr').
Proof.
  intros Hu [m ->]. apply wp_bind, (wp_lift _ m); [done|]. apply wp_bind. eapply wp_mono; [by apply (command_spec u hd)|].
  intros [got resp] tr' [Hd Hg]. destruct (check_completion_total got resp type Hg) as [r Hr]. by apply (wp_lift _ r).
Qed.

Hypothesis stack_len : ∀ n, length (stack n) = n.

(** The frame went out whole, in a packet message. *)
Definition sent (u : rndis_usb_t) (frame : bytes) (e : event) : Prop :=
  ∃ hd, h u = Some hd ∧ e.1 = LBulkOut hd (ep_out u) (packet_header (Z.of_nat (length frame)) ++ frame) ∧
    code e.2 = 0 ∧ value e.2 = 44 + Z.of_nat (length frame).

(** The packet message that came in carries the frame. *)
Definition received (u : rndis_usb_t) (frame : bytes) (e : event) : Prop :=
  ∃ hd n off, h u = Some hd ∧ e.1 = LBulkIn hd (ep_in u) 2048 ∧ code e.2 = 0 ∧
    rl_unwrap_packet (take 2048 (data e.2)) = Ret (n, off) ∧ 0 < n ∧
    slice (take 2048 (data e.2)) off (off + Z.to_nat n) = Ret frame.

Lemma send_exact u hd frame tr :
  h u = Some hd → (length frame ≤ FRAME_CAP)%nat →
  wp (rndis_usb_send_frame u frame) tr (λ r tr', ∃ a,
    tr' = tr ++ [(LBulkOut hd (ep_out u) (packet_header (Z.of_nat (length frame)) ++ frame), a)] ∧
    r = if (code a =? 0) && (value a =? 44 + Z.of_nat (length frame)) then 0 else -1).
Proof.
  unfold FRAME_CAP. intros Hu Hf. unfold rndis_usb_send_frame. apply wp_bind. eapply wp_lift.
  { apply rl_wrap_layout; [unfold INT_MAX; lia|]. rewrite stack_len. lia. }
  cbv beta iota. destruct (Z.ltb_spec (44 + Z.of_nat (length frame)) 0); [lia|]. unfold handle. rewrite Hu. apply wp_bind, wp_ret, wp_bind.
  assert (length (packet_header (Z.of_nat (length frame)) ++ frame) = Z.to_nat (44 + Z.of_nat (length frame))) as Hlen.
  { rewrite length_app. change (length (packet_header _)) with 44%nat. lia. }
  eapply wp_lift; [apply (slice_take _ (packet_header (Z.of_nat (length frame)) ++ frame)); [|done]|].
  { rewrite app_assoc. by apply take_app_length'. }
  apply wp_bind, wp_invoke, wp_ret. by eexists.
Qed.

Lemma send_spec u hd frame tr :
  h u = Some hd → (length frame ≤ FRAME_CAP)%nat →
  wp (rndis_usb_send_frame u frame) tr (λ r tr', (r = 0 ∨ r = -1) ∧ ∃ e, neutral e ∧ tr' = tr ++ [e] ∧ (r = 0 → sent u frame e)).
Proof.
  intros Hu Hf. eapply wp_mono; [by apply (send_exact u hd)|]. intros r tr' (a & -> & ->). destruct (_ && _) eqn:E.
  - apply andb_prop in E as [E1%Z.eqb_eq E2%Z.eqb_eq]. split; [by left|]. eexists. split; [|split; [done|]]; [done|]. intros _. by exists hd.
  - split; [by right|]. eexists. split; [|split; [done|]]; done.
Qed.

Lemma recv_spec u hd tr :
  h u = Some hd →
  wp (rndis_usb_recv_frame u 2048) tr (λ '(n, f) tr', ∃ e, neutral e ∧ tr' = tr ++ [e] ∧ (0 < n → received u f e)).
Proof.
  intros Hu. unfold rndis_usb_recv_frame, handle. rewrite Hu. apply wp_bind, wp_ret, wp_bind, wp_invoke. set (a := sys tr _).
  destruct (Z.eqb_spec (code a) 0) as [Ec|]; cbn [negb]; [|apply wp_ret; eexists; split; [|split; [done|]]; done].
  destruct (rl_unwrap_safe (take 2048 (data a))) as (n & off & E & Hin). apply wp_bind. eapply wp_lift; [done|].
  cbv beta iota. destruct (Z.gtb_spec n 0); [|apply wp_ret; eexists; split; [|split; [done|]]; [done|]; lia].
  apply wp_bind. eapply wp_lift; [apply slice_ret; lia|]. apply wp_ret. eexists. split; [|split; [done|]]; [done|]. intros Hn.
  exists hd, n, off. do 5 (split; [done|]). apply slice_ret; lia.
Qed.

(** ** Exchanges *)

Section exchanges.
Context {C : Type} (matches : bytes → C → go (bool * C)).
Hypothesis matches_total : ∀ f c, ∃ r, matches f c = Ret r.

(** The reply that was accepted. *)
Definition accepted (u : rndis_usb_t) (c' : C) (e : event) : Prop :=
  ∃ f c, received u f e ∧ matches f c = Ret (true, c').

Lemma drain_spec reads u hd c tr :
  h u = Some hd →
  wp (drain reads u matches c) tr (λ '(m, c') tr',
    if (m : bool) then ∃ e, during tr [e] tr' ∧ accepted u c' e else during tr [] tr').
Proof.
  intros Hu. revert c tr. induction reads as [|reads IH]; intros c tr; cbn [drain]; [apply wp_ret, during_refl|].
  assert (∀ c e, neutral e → wp (drain reads u matches c) (tr ++ [e]) (λ '(m, c') tr',
    if (m : bool) then ∃ e, during tr [e] tr' ∧ accepted u c' e else during tr [] tr')) as Hrest.
  { intros c' e He. eapply wp_mono; [apply IH|]. intros [[] c''] tr'; [intros (e' & Hd & Hacc); exists e'; split; [|done]|intros Hd];
      (eapply (during_trans _ []); [by apply during_quiet|done]). }
  apply wp_bind. eapply wp_mono; [by apply (recv_spec u hd)|]. intros [n f] tr' (e & He & -> & Hr).
  destruct (Z.gtb_spec n 0); [|by apply Hrest]. apply wp_bind. destruct (matches_total f c) as [[m c'] E]. eapply wp_lift; [done|].
  destruct m; [|by apply Hrest]. apply wp_ret. exists e. split; [by apply during_one|]. exists f, c. split; [|done]. apply Hr. lia.
Qed.

Lemma exchange_spec attempts u hd tx c tr :
  h u = Some hd → (length tx ≤ FRAME_CAP)%nat →
  wp (exchange attempts u tx matches c) tr (λ '(r, c') tr',
    r = 1 ∧ (∃ e1 e2, during tr [e1; e2] tr' ∧ sent u tx e1 ∧ accepted u c' e2) ∨ r ≠ 1 ∧ during tr [] tr').
Proof.
  intros Hu Htx. revert c tr. induction attempts as [|attempts IH]; intros c tr; cbn [exchange].
  { apply wp_ret. right. split; [done|apply during_refl]. }
  apply wp_bind. eapply wp_mono; [by apply (send_spec u hd)|]. intros s tr1 (Hs & e1 & He1 & -> & Hsent).
  destruct (Z.eqb_spec s 0) as [->|]; cbn [negb]; [|apply wp_ret; right; split; [done|by apply during_quiet]].
  apply wp_bind. eapply wp_mono; [by apply (drain_spec 16 u hd)|]. intros [[] c'] tr2.
  - intros (e2 & Hd & Hacc). apply wp_ret. left. split; [done|]. exists e1, e2. split; [|split; [by apply Hsent|done]].
    by apply (during_trans _ [e1] (tr ++ [e1]) [e2]); [apply during_one|].
  - intros Hd. assert (during tr [] tr2) as Hd2 by (by apply (during_trans _ [] (tr ++ [e1]) []); [apply during_quiet|]).
    eapply wp_mono; [apply IH|]. intros [r c''] tr3 [(-> & f1 & f2 & Hx & ? & ?)|[? Hx]]; [left; split; [done|]; exists f1, f2|right];
      (split; [|done]) || (split; [done|]); by apply (during_trans _ [] tr2 _ _ Hd2).
Qed.

End exchanges.

(** ** Bringing the uplink up *)

(** A program only adds to the trace. *)
Definition grows {A} (m : io A) : Prop := ∀ tr x tr', m tr = Ret (x, tr') → tr `prefix_of` tr'.

Lemma grows_ret {A} (x : A) : grows (mret x).
Proof. intros tr y tr' E. by injection E as <- <-. Qed.
Lemma grows_bind {A B} (m : io A) (f : A → io B) : grows m → (∀ x, grows (f x)) → grows (m ≫= f).
Proof.
  intros Hm Hf tr y tr' E. apply go_bind_inv in E as ([x tr1] & E1 & E2). etrans; [by eapply Hm|]. by eapply Hf.
Qed.
Lemma grows_invoke c : grows (invoke c).
Proof. intros tr x tr' E. injection E as <- <-. by eexists. Qed.
Lemma grows_undefined {A} : grows (@undefined A).
Proof. done. Qed.
Lemma grows_close u : grows (rndis_usb_close u).
Proof.
  unfold rndis_usb_close. apply grows_bind.
  - destruct (h u); repeat first [apply grows_ret|apply grows_bind; [apply grows_invoke|intros ?]].
  - intros u'. destruct (ctx u'); repeat first [apply grows_ret|apply grows_bind; [apply grows_invoke|intros ?]].
Qed.
Lemma grows_find devs u : grows (find_device devs u).
Proof.
  revert u. induction devs as [|i devs IH]; intros u; cbn [find_device]; [apply grows_ret|].
  destruct (h u); [apply grows_ret|]. apply grows_bind; [apply grows_invoke|intros cfg]. case_match; [apply IH|].
  destruct (scan_config _) as [[c d] [inp out]]. apply grows_bind; [apply grows_invoke|intros _]. case_match; [|apply IH].
  apply grows_bind; [apply grows_invoke|]. intros o. apply IH.
Qed.
Create HintDb growing.
#[local] Hint Resolve grows_ret grows_invoke grows_undefined grows_close grows_find : growing.
Lemma grows_open : grows rndis_usb_open.
Proof.
  unfold rndis_usb_open. repeat first [apply grows_bind; [solve [eauto with growing]|intros ?]|case_match]; eauto with growing.
Qed.

Lemma wp_grows {A} (m : io A) tr (Q : A → trace → Prop) :
  grows m → wp m tr Q → wp m tr (λ x tr', Q x tr' ∧ tr `prefix_of` tr').
Proof. intros Hg (x & tr' & E & HQ). exists x, tr'. split; [done|]. split; [done|]. by eapply Hg. Qed.

Lemma wp_built {B} (m : go (Z * bytes)) f (k : Z * bytes → io B) tr Q :
  built m f →
  (∀ frame, length frame = FRAME_CAP → slice frame 0 (Z.to_nat (Z.of_nat (length f))) = Ret f → wp (k (Z.of_nat (length f), frame)) tr Q) →
  wp (lift m ≫= k) tr Q.
Proof.
  intros (_ & rest & -> & Hl) Hk. apply wp_bind. eapply wp_lift; [done|]. apply Hk; [done|].
  rewrite Nat2Z.id. apply slice_take; [by rewrite take_app_length|done].
Qed.

Lemma random_bytes_spec n tr : wp (random_bytes n) tr (λ m tr', length m = n ∧ during tr [] tr').
Proof.
  revert tr. induction n as [|n IH]; intros tr; cbn [random_bytes]; [apply wp_ret; split; [done|apply during_refl]|].
  apply wp_bind, wp_invoke, wp_bind. eapply wp_mono; [apply IH|]. intros m tr' [Hm Hd]. apply wp_ret. split; [cbn; by rewrite Hm|].
  by apply (during_trans _ [] (tr ++ [(Rand, sys tr Rand)]) []); [apply during_quiet|].
Qed.

Lemma fail_spec s up st tr :
  opened s (usb up) (held tr) → wp (fail up st) tr (λ '(up', st') tr', st' = Some st ∧ h (usb up') = None ∧ held tr' = s).
Proof. intros Ho. unfold fail. apply wp_bind. eapply wp_mono; [by apply close_spec|]. intros u tr' (? & ? & ?). by apply wp_ret. Qed.

(** What the uplink rests on: the events of the calls that made it, in their order. *)
Definition connected (tr : trace) (up : rndis_uplink_t) (tr' : trace) : Prop :=
  ready up = true ∧ length (mac up) = 6%nat ∧ length (client_ip up) = 4%nat ∧ length (gw_mac up) = 6%nat ∧
  ∃ tr0 xid offer ack e1 e2 e3 e4 e5 e6, tr `prefix_of` tr0 ∧ during tr0 [e1; e2; e3; e4; e5; e6] tr' ∧
    sent (usb up) (discover_frame (mac up) xid) e1 ∧ accepted match_offer (usb up) offer e2 ∧
    sent (usb up) (request_frame (mac up) xid offer) e3 ∧ accepted match_ack (usb up) ack e4 ∧
    client_ip up = Rndis.client_ip ack ∧ has_router (merge_router ack offer) = true ∧
    sent (usb up) (arp_frame (mac up) (client_ip up) (router (merge_router ack offer))) e5 ∧
    accepted (match_arp (router (merge_router ack offer))) (usb up) (gw_mac up) e6.

(** All or nothing. *)
Definition brought (tr : trace) (x : rndis_uplink_t * option stage) (tr' : trace) : Prop :=
  match x.2 with
  | Some _ => h (usb x.1) = None ∧ held tr' = held tr
  | None => opened (held tr) (usb x.1) (held tr') ∧ connected tr x.1 tr'
  end.

Lemma fail_brought tr up st tr' : opened (held tr) (usb up) (held tr') → wp (fail up st) tr' (brought tr).
Proof. intros Ho. eapply wp_mono; [by apply fail_spec|]. by intros [up' st'] tr'' (-> & ? & ?). Qed.

Lemma match_arp_total ip f c : ∃ r, match_arp ip f c = Ret r.
Proof. unfold match_arp. destruct (rl_parse_arp_total f ip) as [r ->]. mstep. by eexists. Qed.

Lemma accepted_lease want u l e :
  accepted (λ f l, rl_parse_dhcp_reply f want l) u l e → lease_ok l.
Proof. intros (f & c & _ & Hm). by eapply rl_parse_dhcp_ok. Qed.

Lemma accepted_arp ip u m e : accepted (match_arp ip) u m e → length m = 6%nat.
Proof.
  intros (f & c & _ & Hm). unfold match_arp in Hm. destruct (rl_parse_arp_total f ip) as [r Hr]. rewrite Hr in Hm. revert Hm. mstep.
  destruct r as [sha|]; [|done]. intros [= <-]. by eapply rl_parse_arp_ok.
Qed.

Lemma merge_ok ack offer : lease_ok ack → lease_ok offer → lease_ok (merge_router ack offer).
Proof. intros (? & ? & ?) (? & ? & ?). unfold merge_router. case_match; done. Qed.

Lemma merge_client ack offer : Rndis.client_ip (merge_router ack offer) = Rndis.client_ip ack.
Proof. unfold merge_router. by case_match. Qed.

(** One exchange of the bring-up: on a match the program goes on, and otherwise fails. *)
Lemma wp_exchange {C} (matches : bytes → C → go (bool * C)) attempts tr0 tr1 up hd tx c tr es st
    (k : C → io (rndis_uplink_t * option stage)) :
  (∀ f c, ∃ r, matches f c = Ret r) → h (usb up) = Some hd → (length tx ≤ FRAME_CAP)%nat →
  during tr1 es tr → opened (held tr0) (usb up) (held tr) →
  (∀ c' e1 e2 tr', during tr1 (es ++ [e1; e2]) tr' → opened (held tr0) (usb up) (held tr') →
     sent (usb up) tx e1 → accepted matches (usb up) c' e2 → wp (k c') tr' (brought tr0)) →
  wp ('(r, c') ← exchange attempts (usb up) tx matches c; if negb (r =? 1) then fail up st else k c') tr (brought tr0).
Proof.
  intros Hm Hh Htx Hd Ho Hk. apply wp_bind. eapply wp_mono; [by apply (exchange_spec matches Hm attempts (usb up) hd)|].
  intros [r c'] tr' [(-> & e1 & e2 & Hx & Hs & Ha)|[Hr Hx]].
  - cbn [Z.eqb Pos.eqb negb]. eapply Hk; try done; [by eapply during_trans|]. by rewrite (during_held _ _ _ Hx).
  - apply Z.eqb_neq in Hr as ->. cbn [negb]. apply fail_brought. by rewrite (during_held _ _ _ Hx).
Qed.

Lemma lease_spec tr0 up hd xid tr :
  tr0 `prefix_of` tr → h (usb up) = Some hd → opened (held tr0) (usb up) (held tr) → length (mac up) = 6%nat →
  wp (bring_up_lease up xid) tr (brought tr0).
Proof.
  intros Hp Hh Ho Hm. unfold bring_up_lease.
  eapply wp_built; [by apply discover_built|]. intros frame Hf Htx. apply wp_bind. eapply wp_lift; [done|].
  eapply (wp_exchange match_offer); [intros; apply rl_parse_dhcp_total|done|by eapply discover_built|apply during_refl|done|].
  intros offer e1 e2 tr2 Hd2 Ho2 Hs1 Ha2. pose proof (accepted_lease _ _ _ _ Ha2) as (Hc & Hsid & Hr).
  eapply wp_built; [by apply request_built|]. clear frame Hf Htx. intros frame Hf Htx. apply wp_bind. eapply wp_lift; [done|].
  eapply (wp_exchange match_ack); [intros; apply rl_parse_dhcp_total|done|by eapply request_built|done|done|].
  intros ack e3 e4 tr3 Hd3 Ho3 Hs3 Ha4. pose proof (accepted_lease _ _ _ _ Ha4) as Hack.
  destruct (merge_ok ack offer) as (Hc' & _ & Hr'); [done|done|].
  destruct (has_router (merge_router ack offer)) eqn:Er; cbn [negb]; [|by apply fail_brought].
  eapply wp_built; [by apply arp_built|]. clear frame Hf Htx. intros frame Hf Htx. apply wp_bind. eapply wp_lift; [done|].
  eapply (wp_exchange (match_arp _) 6 tr0 tr (mkUplink _ _ _ _ _ _)); [intros; apply match_arp_total|done|by eapply arp_built|done|done|].
  intros gw e5 e6 tr4 Hd4 Ho4 Hs5 Ha6. apply wp_ret. split; [done|]. cbn [client_ip] in *. rewrite merge_client in *.
  split; [done|]. split; [done|]. split; [done|]. split; [by eapply accepted_arp|].
  by exists tr, xid, offer, ack, e1, e2, e3, e4, e5, e6.
Qed.

Lemma bring_up_spec tr : wp rndis_uplink_bring_up tr (brought tr).
Proof.
  unfold rndis_uplink_bring_up. apply wp_bind. eapply wp_mono; [apply wp_grows, open_spec; apply grows_open|].
  intros [u rc] tr1 [[(-> & Ho & _)|(-> & Hh & _ & Hheld)] Hp]; cbn [Z.eqb negb]; [|by apply wp_ret].
  destruct (opened_handle _ _ _ Ho) as (hd & Hh & _).
  assert (∀ tr', during tr1 [] tr' → opened (held tr) u (held tr')) as Ho'.
  { intros tr' Hd. by rewrite (during_held _ _ _ Hd). }
  apply wp_bind. unfold rndis_usb_initialize. eapply wp_mono; [apply (control_spec _ u hd); [done|by eexists]|].
  intros rc1 tr2 Hd2. case_match; [apply fail_brought; by apply Ho'|].
  apply wp_bind. unfold rndis_usb_set_filter. eapply wp_mono; [apply (control_spec _ u hd); [done|by eexists]|].
  intros rc2 tr3 Hd3. pose proof (during_trans _ [] _ [] _ Hd2 Hd3) as Hd3'. case_match; [apply fail_brought; by apply Ho'|].
  apply wp_bind. eapply wp_mono; [apply random_bytes_spec|]. intros m tr4 [Hm Hd4].
  apply wp_bind, wp_invoke, wp_bind, wp_invoke. set (tr6 := (tr4 ++ _) ++ _).
  assert (during tr1 [] tr6) as Hd6.
  { apply (during_trans _ [] (tr4 ++ [(Rand, sys tr4 Rand)]) []); [|by apply during_quiet].
    apply (during_trans _ [] tr4 []); [|by apply during_quiet]. by apply (during_trans _ [] tr3 []). }
  eapply lease_spec; [|done|by apply Ho'|by destruct m].
  destruct Hd6 as (ex & -> & _). by apply prefix_app_r.
Qed.

Lemma uplink_close_spec s up tr :
  opened s (usb up) (held tr) →
  wp (rndis_uplink_close up) tr (λ up' tr', h (usb up') = None ∧ ready up' = false ∧ held tr' = s).
Proof.
  intros Ho. unfold rndis_uplink_close. apply wp_bind. eapply wp_mono; [by apply close_spec|]. intros u tr' (? & _ & ?). by apply wp_ret.
Qed.

End usb.

(** ** Properties *)

(** C21: The USB uplink leaks nothing.  Whatever libusb and the phone answer, as long
    as the device list can be read and handles given out are new,
    [rndis_uplink_bring_up] returns; when it fails, at whatever stage, every context,
    device list, configuration, handle and claim it took is given back; when it
    succeeds it holds one context and one new handle, and after any sequence of
    transfers [rndis_uplink_close] gives exactly that back.  Reading or writing outside
    a buffer would stop the program ([Panic]), and it returns. *)
Theorem usb_uplink_leak_free sys stack stack_lease tr :
  fresh_handles sys → (∀ tr, 0 ≤ code (sys tr LGetDeviceList)) → (∀ n, length (stack n) = n) →
  ∃ up st tr', rndis_uplink_bring_up sys stack stack_lease tr = Ret ((up, st), tr') ∧
    match st with
    | Some _ => h (usb up) = None ∧ held tr' = held tr
    | None => opened (held tr) (usb up) (held tr') ∧
        ∀ es tr2, during tr' es tr2 →
          ∃ up' tr3, rndis_uplink_close sys up tr2 = Ret (up', tr3) ∧ h (usb up') = None ∧ ready up' = false ∧ held tr3 = held tr
    end.
Proof.
  intros Hf Hl Hs. destruct (bring_up_spec sys stack stack_lease Hf Hl Hs tr) as ([up st] & tr' & E & Hb).
  exists up, st, tr'. split; [done|]. destruct st as [st|]; [done|]. destruct Hb as [Ho _]. split; [done|].
  intros es tr2 Hd. apply (uplink_close_spec sys (held tr)). by rewrite (during_held _ _ _ Hd).
Qed.

(** What a ready uplink rests on.  When [rndis_uplink_bring_up] returns 0, the
    trace holds, in this order and after the call, a DISCOVER sent whole, a received
    OFFER, a REQUEST for exactly the offered address and server sent whole, a received
    ACK, an ARP request for the router of the ACK (of the OFFER when the ACK names
    none) and a received reply of that router: the uplink's address is the
    acknowledged one and its next hop the address that reply gives. *)
Theorem usb_uplink_connected sys stack stack_lease tr up tr' :
  fresh_handles sys → (∀ tr, 0 ≤ code (sys tr LGetDeviceList)) → (∀ n, length (stack n) = n) →
  rndis_uplink_bring_up sys stack stack_lease tr = Ret ((up, None), tr') →
  ready up = true ∧
  ∃ tr0 xid offer ack e1 e2 e3 e4 e5 e6, tr `prefix_of` tr0 ∧ during tr0 [e1; e2; e3; e4; e5; e6] tr' ∧
    sent (usb up) (discover_frame (mac up) xid) e1 ∧ accepted match_offer (usb up) offer e2 ∧
    sent (usb up) (request_frame (mac up) xid offer) e3 ∧ accepted match_ack (usb up) ack e4 ∧
    client_ip up = Rndis.client_ip ack ∧ has_router (merge_router ack offer) = true ∧
    sent (usb up) (arp_frame (mac up) (client_ip up) (router (merge_router ack offer))) e5 ∧
    accepted (match_arp (router (merge_router ack offer))) (usb up) (gw_mac up) e6.
Proof.
  intros Hf Hl Hs E. destruct (bring_up_spec sys stack stack_lease Hf Hl Hs tr) as ([up' st] & tr'' & E' & Hb).
  rewrite E in E'. injection E' as <- <- <-. destruct Hb as (_ & Hr & _ & _ & _ & Hc). done.
Qed.

(** A failed [libusb_get_device_list] leaves the list pointer unset, and
    [rndis_usb_open] passes it to [libusb_free_device_list]. *)
Lemma list_failure_undefined sys tr l :
  code (sys tr LInit) = 0 → (∀ tr', sys tr' LGetDeviceList = l) → code l < 0 → rndis_usb_open sys tr = Panic.
Proof.
  intros Hi Hg Hl. unfold rndis_usb_open, mbind, io_bind, invoke. mstep. rewrite Hi. cbn [Z.eqb negb]. mstep. rewrite Hg.
  assert (Z.to_nat (code l) = 0%nat) as -> by lia. apply Z.ltb_lt in Hl. rewrite Hl.
  cbn [seq find_device]. unfold mret, io_ret. by mstep.
Qed.

Module Witness.

Definition above (s : gset Z) : Z := foldr Z.max 0 (elements s) + 1.
Lemma above_fresh s : above s ∉ s.
Proof.
  unfold above. intros Hin. apply elem_of_elements in Hin. revert Hin. generalize (elements s). intros l Hin.
  assert (∀ x, x ∈ l → x ≤ foldr Z.max 0 l) as Hl; [|specialize (Hl _ Hin); lia].
  clear Hin. induction l as [|y l IH]; intros x Hx; [set_solver|]. cbn. apply elem_of_cons in Hx as [->|Hx]; [lia|]. specialize (IH x Hx). lia.
Qed.

Definition mac0 : bytes := gs "router".
Definition reply (kind : Z) : bytes :=
  udp_frame mac0 mac0 (gs "addr") bcast_ip 67 68
    (dhcp_reply (zeros 15) (gs "mine") (zeros 220) [(z2b 53, [z2b kind]); (z2b 54, gs "srvr"); (z2b 3, gs "rout")] []).
Definition arp_answer : bytes :=
  mac0 ++ mac0 ++ be16 0x0806 ++ be16 1 ++ be16 0x0800 ++ [z2b 6; z2b 4] ++ be16 2 ++ mac0 ++ gs "rout" ++ zeros 6 ++ gs "mine".
Definition wrapped (f : bytes) : bytes := packet_header (Z.of_nat (length f)) ++ f.
Definition completion (type : Z) : bytes := le32 type ++ le32 16 ++ le32 1 ++ le32 0.

Definition frames_out (tr : trace) : nat :=
  length (List.filter (λ e, match e.1 with LBulkOut _ _ _ => true | _ => false end) tr).

(** A phone with tethering on, and a Wi-Fi interface. *)
Definition phone (tr : trace) (c : call) : answer :=
  match c with
  | LGetDeviceList => mkAnswer 1 0 [] []
  | LGetConfig _ | LGetConfigOf _ => mkAnswer 0 0 [] [mkInterface 0xE0 0 []; mkInterface 0x0A 1 [0x81; 0x02]]
  | LOpen _ | LOpenId _ _ => mkAnswer 0 (above (handles (held tr) ∪ set_map fst (claims (held tr)))) [] []
  | LControlIn _ _ _ =>
      match last tr with
      | Some (LControlOut _ _ (b :: _), _) => mkAnswer 16 0 (completion (if b2z b =? 2 then RNDIS_MSG_INIT_CMPLT else RNDIS_MSG_SET_CMPLT)) []
      | _ => mkAnswer (-1) 0 [] []
      end
  | LBulkOut _ _ msg => mkAnswer 0 (Z.of_nat (length msg)) [] []
  | LBulkIn _ _ _ =>
      match frames_out tr with
      | 1 => mkAnswer 0 0 (wrapped (reply 2)) []
      | 2 => mkAnswer 0 0 (wrapped (reply 5)) []
      | _ => mkAnswer 0 0 (wrapped arp_answer) []
      end%nat
  | Rand => mkAnswer 0 (Z.of_nat (length tr)) [] []
  | Socket => mkAnswer (above (sockets (held tr))) 0 [] []
  | IfNameToIndex _ => mkAnswer 4 0 [] []
  | Send _ msg => mkAnswer (Z.of_nat (length msg)) 0 [] []
  | _ => mkAnswer 0 0 [] []
  end.

Lemma phone_fresh : fresh_handles phone.
Proof.
  split; [| |intros; apply above_fresh]; intros tr **; cbn [phone value]; set (s := handles (held tr)); set (cs := claims (held tr));
    pose proof (above_fresh (s ∪ set_map fst cs)) as Hn; revert Hn; generalize (above (s ∪ set_map fst cs)); intros z Hn;
    (split; [set_solver|]); intros c Hc Heq; apply Hn, elem_of_union_r, elem_of_map; by exists c.
Qed.

Lemma phone_listed tr : 0 ≤ code (phone tr LGetDeviceList).
Proof. done. Qed.

#[local] Notation phone_up := (rndis_uplink_bring_up phone zeros zero_lease []).

Lemma phone_up_ready : ∃ up tr', phone_up = Ret ((up, None), tr') ∧ (client_ip up, gw_mac up) = (gs "mine", mac0) ∧
  (contexts (held tr'), size (handles (held tr')), size (claims (held tr'))) = (1, 1%nat, 2%nat).
Proof.
  assert (match phone_up with
          | Ret ((up, None), tr') => (client_ip up, gw_mac up) = (gs "mine", mac0) ∧
              (contexts (held tr'), size (handles (held tr')), size (claims (held tr'))) = (1, 1%nat, 2%nat)
          | _ => False
          end) as Hc by (vm_compute; split; reflexivity).
  destruct phone_up as [[[up [st|]] tr']|]; [destruct Hc| |destruct Hc]. exists up, tr'. split; [reflexivity|exact Hc].
Qed.

Lemma usb_uplink_leak_free_witness :
  ∃ up tr', phone_up = Ret ((up, None), tr') ∧
    ∃ up' tr3, rndis_uplink_close phone up tr' = Ret (up', tr3) ∧ held tr3 = nothing.
Proof.
  destruct (usb_uplink_leak_free phone zeros zero_lease [] phone_fresh phone_listed length_zeros) as (up & st & tr' & E & Hst).
  destruct phone_up_ready as (up0 & tr0 & E0 & _). rewrite E in E0. injection E0 as <- -> <-. destruct Hst as [_ Hclose].
  destruct (Hclose [] tr' (during_refl tr')) as (up' & tr3 & H1 & _ & _ & H2).
  exists up, tr'. split; [exact E|]. exists up', tr3. split; [exact H1|exact H2].
Defined.

Lemma usb_uplink_connected_witness :
  ∃ up tr' ack e, phone_up = Ret ((up, None), tr') ∧ accepted match_ack (usb up) ack e ∧ client_ip up = Rndis.client_ip ack.
Proof.
  destruct phone_up_ready as (up & tr' & E & _).
  destruct (usb_uplink_connected phone zeros zero_lease [] up tr' phone_fresh phone_listed length_zeros E)
    as (_ & ? & ? & ? & ack & ? & ? & ? & e4 & ? & ? & _ & _ & _ & _ & _ & Ha & Hc & _).
  exists up, tr', ack, e4. split; [exact E|]. split; [exact Ha|exact Hc].
Defined.

End Witness.

End Usb.
