(* ===== verification/UsbProbe.v ===== *)
(** * research/usb-rndis-spike/rndis_probe.c: the viability probe of the USB function

    The whole program, over the calls of [Usb]: it opens one device by its ids, claims
    the two RNDIS interfaces, and performs the initialisation handshake. *)

From S2P Require Import Prelude GoText Protocol Rndis Usb.

Module UsbProbe.
Import Rndis Usb.

Definition VID : Z := 0x22D9.
Definition PID : Z := 0x2766.

(** The line the program ends with; [Complete] carries the numbers it prints. *)
Inductive outcome :=
| FailLibusb | FailDevice | FailDescriptors | FailClaim (ctrl data : Z)
| FailSend (sent : Z) | FailShort (got : Z) | FailType (mtype : Z)
| Complete (status medium max_xfer : Z).

Section probe.
Variable sys : system.

(** The control and data interfaces and the endpoints; [None] for the result -1. *)
Definition find_rndis_interfaces (hd : Z) : io (option (Z * Z * (Z * Z))) :=
  cfg ← invoke sys (LGetConfigOf hd);
  if negb (code cfg =? 0) then mret None else
  let '(c, d, e) := scan_config (config cfg) in
  _ ← invoke sys LFreeConfig;
  mret (if (0 <=? c) && (0 <=? d) then Some (c, d, e) else None).

(** The handshake, up to the label [done]: a response of 24 bytes is enough, since the
    rest of the 1025 bytes is zero. *)
Definition probe_handshake (hd ctrl : Z) : io outcome :=
  init ← lift init_message;
  s ← invoke sys (LControlOut hd ctrl init);
  if code s <? 0 then mret (FailSend (code s)) else
  r ← invoke sys (LControlIn hd ctrl 1024);
  let resp := take 1024 (data r) in
  let got := if code r <? 0 then code r else Z.of_nat (length resp) in
  if got <? 24 then mret (FailShort got) else
  let resp := resp ++ zeros (1025 - length resp) in
  mtype ← lift (rl_rd32 resp 0);
  status ← lift (rl_rd32 resp 12);
  medium ← lift (rl_rd32 resp 28);
  max_xfer ← lift (rl_rd32 resp 36);
  mret (if negb (mtype =? RNDIS_MSG_INIT_CMPLT) then FailType mtype else Complete status medium max_xfer).

(** [libusb_close] and [libusb_exit] *)
Definition discard (hd : Z) : io unit := _ ← invoke sys (LClose hd); _ ← invoke sys LExit; mret ().

(** What follows [done] are the calls of [rndis_usb_close]. *)
Definition probe_device (hd : Z) : io (Z * outcome) :=
  _ ← invoke sys (LAutoDetach hd);
  found ← find_rndis_interfaces hd;
  match found with
  | None => _ ← discard hd; mret (1, FailDescriptors)
  | Some (ctrl_if, data_if, (inp, out)) =>
      c ← invoke sys (LClaim hd ctrl_if);
      d ← invoke sys (LClaim hd data_if);
      if negb (code c =? 0) || negb (code d =? 0) then _ ← discard hd; mret (1, FailClaim (code c) (code d)) else
      x ← probe_handshake hd ctrl_if;
      _ ← rndis_usb_close sys (mkUsb true (Some hd) ctrl_if data_if inp out);
      mret (0, x)
  end.

Definition main : io (Z * outcome) :=
  i ← invoke sys LInit;
  if negb (code i =? 0) then mret (1, FailLibusb) else
  o ← invoke sys (LOpenId VID PID);
  if negb (code o =? 0) then _ ← invoke sys LExit; mret (1, FailDevice) else
  probe_device (value o).

(** ** What the program leaves behind *)

Hypothesis fresh : fresh_handles sys.

Lemma init_message_ret : ∃ m, init_message = Ret m.
Proof. by eexists. Qed.

Lemma probe_handshake_spec hd ctrl tr : wp (probe_handshake hd ctrl) tr (λ x tr', during tr [] tr' ∧
  match x with
  | Complete status medium max_xfer => ∃ a resp, (LControlIn hd ctrl 1024, a) ∈ tr' ∧ (24 ≤ length (data a))%nat ∧
      resp = take 1024 (data a) ++ zeros (1025 - length (take 1024 (data a))) ∧
      rl_rd32 resp 0 = Ret RNDIS_MSG_INIT_CMPLT ∧ rl_rd32 resp 12 = Ret status ∧ rl_rd32 resp 28 = Ret medium ∧
      rl_rd32 resp 36 = Ret max_xfer
  | FailSend _ | FailShort _ | FailType _ => True
  | _ => False
  end).
Proof.
  unfold probe_handshake. destruct init_message_ret as [m ->]. apply wp_bind, (wp_lift _ m); [done|].
  apply wp_bind, wp_invoke. destruct (_ <? 0); [apply wp_ret; split; [by apply during_quiet|done]|].
  apply wp_bind, wp_invoke. set (tr1 := tr ++ _). set (a := sys tr1 _).
  assert (during tr [] (tr1 ++ [(LControlIn hd ctrl 1024, a)])) as Hd.
  { apply (during_trans tr [] tr1 []); by apply during_quiet. }
  set (got := if code a <? 0 then _ else _). destruct (Z.ltb_spec got 24) as [|Hgot]; [by apply wp_ret|].
  set (resp := take 1024 (data a) ++ _).
  assert (length resp = 1025%nat) as Hl by (subst resp; rewrite length_app, length_zeros, length_take; lia).
  destruct (rl_rd32_total resp 0) as (t & Ht & _); [lia|]. destruct (rl_rd32_total resp 12) as (st & Hst & _); [lia|].
  destruct (rl_rd32_total resp 28) as (me & Hme & _); [lia|]. destruct (rl_rd32_total resp 36) as (mx & Hmx & _); [lia|].
  apply wp_bind, (wp_lift _ t); [done|]. apply wp_bind, (wp_lift _ st); [done|].
  apply wp_bind, (wp_lift _ me); [done|]. apply wp_bind, (wp_lift _ mx); [done|]. apply wp_ret. split; [done|].
  destruct (Z.eqb_spec t RNDIS_MSG_INIT_CMPLT) as [->|]; [|done]. cbn [negb]. exists a, resp.
  split; [apply elem_of_app; right; by apply list_elem_of_singleton|]. split; [|done].
  subst got. revert Hgot. case_cmp; [lia|]. rewrite length_take. lia.
Qed.

Lemma find_spec hd tr : wp (find_rndis_interfaces hd) tr (λ _ tr', held tr' = held tr).
Proof.
  unfold find_rndis_interfaces. apply wp_bind, wp_invoke. destruct (code (sys tr (LGetConfigOf hd)) =? 0) eqn:Ec; cbn [negb].
  2:{ apply wp_ret. rewrite held_snoc. cbn [account]. by rewrite Ec. }
  destruct (scan_config _) as [[c d] e]. apply wp_bind, wp_invoke, wp_ret. rewrite !held_snoc. cbn [account]. rewrite Ec.
  apply resources_eq; cbn; try done; lia.
Qed.

Lemma claim_spec s hd cs i a : (∀ c, c ∈ cs → c.1 = hd) →
  ∃ cs', (∀ c, c ∈ cs' → c.1 = hd) ∧ account (with_handle s hd cs) (LClaim hd i, a) = with_handle s hd cs'.
Proof.
  intros Hcs. destruct (decide (code a = 0)).
  - exists ({[(hd, i)]} ∪ cs). split; [set_solver|by apply with_claim].
  - exists cs. split; [done|by apply without_claim].
Qed.

(** The exit code: 1 exactly when the program stops before the handshake. *)
Definition exit_code (x : outcome) : Z :=
  match x with FailLibusb | FailDevice | FailDescriptors | FailClaim _ _ => 1 | _ => 0 end.

(** From an open handle without claims, everything acquired since [s] is given back. *)
Lemma probe_device_spec s hd tr :
  hd ∉ handles s → (∀ c, c ∈ claims s → c.1 ≠ hd) → held tr = with_handle s hd ∅ →
  wp (probe_device hd) tr (λ '(rc, x) tr', held tr' = s ∧ rc = exit_code x).
Proof.
  intros Hnew Hold Htr. unfold probe_device. apply wp_bind, wp_invoke, wp_bind.
  assert (∀ c d inp out cs tr', (∀ c, c ∈ cs → c.1 = hd) → held tr' = with_handle s hd cs →
    opened s (mkUsb true (Some hd) c d inp out) (held tr')) as Hop by (intros; by eapply opened_with).
  assert (∀ cs x tr', (∀ c, c ∈ cs → c.1 = hd) → held tr' = with_handle s hd cs → exit_code x = 1 →
    wp (_ ← discard hd; mret (1, x)) tr' (λ '(rc, x) tr', held tr' = s ∧ rc = exit_code x)) as Hdiscard.
  { intros cs x tr' Hcs Htr' Hx. apply wp_bind. eapply wp_mono; [eapply discard_spec; [by eapply (Hop 0 0 0 0)|done]|].
    intros ? tr'' ?. by apply wp_ret. }
  eapply wp_mono; [apply find_spec|]. intros found tr1 H1. rewrite held_snoc, Htr in H1. cbn [account] in H1.
  destruct found as [[[c d] [inp out]]|]; [|by apply (Hdiscard ∅); [set_solver|..]].
  apply wp_bind, wp_invoke, wp_bind, wp_invoke. set (tr3 := (tr1 ++ _) ++ _).
  assert (∃ cs, (∀ c, c ∈ cs → c.1 = hd) ∧ held tr3 = with_handle s hd cs) as (cs & Hcs & H3).
  { subst tr3. rewrite !held_snoc, H1. destruct (claim_spec s hd ∅ c (sys tr1 (LClaim hd c))) as (cs & Hcs & ->); [set_solver|].
    by apply claim_spec. }
  destruct (_ || _); [by apply (Hdiscard cs)|]. apply wp_bind. eapply wp_mono; [apply probe_handshake_spec|].
  intros x tr4 [Hd Hx]. apply wp_bind. eapply wp_mono; [apply (close_spec sys s)|].
  { eapply Hop; [done|]. by rewrite (during_held _ _ _ Hd). }
  intros u tr5 (_ & _ & H5). apply wp_ret. split; [done|]. by destruct x.
Qed.

(** The program returns and gives back what it acquired. *)
Lemma main_spec tr : wp main tr (λ '(rc, x) tr', held tr' = held tr ∧ rc = exit_code x).
Proof.
  unfold main. apply wp_bind, wp_invoke. destruct (code (sys tr LInit) =? 0) eqn:Ei; cbn [negb].
  2:{ apply wp_ret. split; [|done]. rewrite held_snoc. cbn [account]. by rewrite Ei. }
  apply wp_bind, wp_invoke. set (tr1 := tr ++ _). set (o := sys tr1 _).
  assert (held tr1 = mkRes (contexts (held tr) + 1) (lists (held tr)) (configs (held tr)) (handles (held tr)) (claims (held tr)) (sockets (held tr))) as H1.
  { subst tr1. rewrite held_snoc. cbn [account]. by rewrite Ei. }
  destruct (Z.eqb_spec (code o) 0) as [Eo|Eo]; cbn [negb].
  2:{ apply wp_bind, wp_invoke, wp_ret. split; [|done]. rewrite !held_snoc. cbn [account].
      destruct (Z.eqb_spec (code o) 0); [done|]. rewrite H1. apply resources_eq; cbn; try done; lia. }
  destruct (fresh_open_id sys fresh tr1 VID PID Eo) as [Hnew Hold]. fold o in Hnew, Hold. rewrite H1 in Hnew, Hold.
  apply probe_device_spec; [done|done|]. rewrite held_snoc, H1. cbn [account]. rewrite Eo.
  apply resources_eq; cbn; try done. set_solver.
Qed.

End probe.

Module Witness.
Import Usb.Witness.

(** A device that refuses the initialisation, with 24 bytes and a status other than 0. *)
Definition refusing (tr : trace) (c : call) : answer :=
  match c with
  | LControlIn _ _ _ => mkAnswer 24 0 (le32 RNDIS_MSG_INIT_CMPLT ++ le32 24 ++ le32 1 ++ le32 0xC0000001 ++ zeros 8) []
  | _ => phone tr c
  end.

(** The program does not look at the status: it reports a completed handshake. *)
Lemma refusal_reported_complete :
  match main refusing [] with Ret (x, tr') => x = (0, Complete 0xC0000001 0 0) ∧ contexts (held tr') = 0 | Panic => False end.
Proof. vm_compute. by split. Qed.
End Witness.

End UsbProbe.
