(* ===== verification/DualPath.v ===== *)
(** * research/usb-rndis-spike: the dual-path proof

    rndis_net.c (the gateway's address from the environment, the session, the bound
    Wi-Fi socket) and the programs rndis_dualpath.c, rndis_egress.c and
    rndis_dataplane.c, over the uplink of Usb.  [handed] is the datagram a successful
    send left with the network; what a probe server makes of those datagrams, in
    whatever order they arrive, is the account of [ProbeServer].  A value an [int]
    cannot hold is undefined for [sscanf] and [atoi], and [Panic] here. *)

From S2P Require Import Prelude GoText Protocol DedupWindow Metrics ProbeServer Rndis Usb.
Import Protocol.

Module DualPath.
Import Rndis Usb.

(** ** The C library *)

Definition isspace (c : byte) : bool := (b2z c =? 32) || ((9 <=? b2z c) && (b2z c <=? 13)).
Definition isdigit (c : byte) : bool := (48 <=? b2z c) && (b2z c <=? 57).

Fixpoint skip_space (s : bytes) : bytes :=
  match s with c :: rest => if isspace c then skip_space rest else s | [] => [] end.
Fixpoint span_digits (s : bytes) : bytes * bytes :=
  match s with
  | c :: rest => if isdigit c then let '(ds, r) := span_digits rest in (c :: ds, r) else ([], s)
  | [] => ([], [])
  end.

Definition decimal (ds : bytes) : Z := foldl (λ acc c, acc * 10 + (b2z c - 48)) 0 ds.
Definition int_of (z : Z) : go Z := if (- 2 ^ 31 <=? z) && (z <? 2 ^ 31) then Ret z else Panic.

(** The integer [%d] and [atoi] read: white space, a sign, digits. *)
Definition scan_int (s : bytes) : option (Z * bytes) :=
  let s := skip_space s in
  let '(neg, body) := match s with
    | "-"%char :: rest => (true, rest)
    | "+"%char :: rest => (false, rest)
    | _ => (false, s)
    end in
  let '(ds, rest) := span_digits body in
  match ds with [] => None | _ => Some ((if neg then - decimal ds else decimal ds), rest) end.

(** [sscanf(s, "%d.%d…", …)] with [k + 1] conversions: those made. *)
Fixpoint scan_dotted (k : nat) (s : bytes) : go (list Z) :=
  match scan_int s with
  | None => Ret []
  | Some (n, rest) =>
      n ← int_of n;
      match k, rest with
      | S k, "."%char :: rest => ns ← scan_dotted k rest; Ret (n :: ns)
      | _, _ => Ret [n]
      end
  end.

Definition atoi (s : bytes) : go Z := match scan_int s with Some (n, _) => int_of n | None => Ret 0 end.

(** ** rndis_net.c *)

Definition default_port : Z := 51820.

(** The arguments are the variables GEMINA_GATEWAY_IP and GEMINA_GATEWAY_PORT. *)
Definition gateway_from_env (ip_s port_s : option bytes) : go (option (bytes * Z)) :=
  match ip_s with
  | None => Ret None
  | Some ip_s =>
      ns ← scan_dotted 3 ip_s;
      match ns with
      | [a; b; c; d] =>
          if (a <? 0) || (a >? 255) || (b <? 0) || (b >? 255) || (c <? 0) || (c >? 255) || (d <? 0) || (d >? 255) then Ret None else
          p ← match port_s with Some s => atoi s | None => Ret default_port end;
          Ret (Some ([z2b a; z2b b; z2b c; z2b d], if (p <=? 0) || (p >? 65535) then default_port else p))
      | _ => Ret None
      end
  end.

Section programs.
Variable sys : system.
Variable stack : nat → bytes.
Variable stack_lease : rl_lease_t.

Definition random_session : io bytes :=
  s ← random_bytes sys 16;
  mret (match s with b :: s => z2b (Z.lor (b2z b) 1) :: s | [] => [] end).

Definition wifi_socket_open (iface ip : bytes) (port : Z) : io Z :=
  s ← invoke sys Socket;
  let fd := code s in
  if fd <? 0 then mret (-1) else
  i ← invoke sys (IfNameToIndex iface);
  if code i =? 0 then _ ← invoke sys (CloseFd fd); mret (-1) else
  b ← invoke sys (BoundIf fd (code i));
  if negb (code b =? 0) then _ ← invoke sys (CloseFd fd); mret (-1) else
  c ← invoke sys (Connect fd ip (u16 port));
  if negb (code c =? 0) then _ ← invoke sys (CloseFd fd); mret (-1) else
  mret fd.

Definition wifi_socket_send (fd : Z) (payload : bytes) : io Z :=
  n ← invoke sys (Send fd payload);
  mret (if code n =? Z.of_nat (length payload) then 0 else -1).

Definition wifi_socket_close (fd : Z) : io unit :=
  if fd >=? 0 then _ ← invoke sys (CloseFd fd); mret () else mret ().

(** ** rndis_dualpath.c *)

Section phases.
Variables (fd : Z) (up : rndis_uplink_t) (gw_ip : bytes) (gw_port : Z) (session : bytes).

Definition send_wifi (num : Z) : io bool :=
  pa ← lift (rl_build_probe session num PathWiFi (stack CVP_PROBE_SIZE));
  r ← wifi_socket_send fd pa; mret (r =? 0).
Definition send_cell (num : Z) : io bool :=
  pb ← lift (rl_build_probe session num PathAndroidUSBTether (stack CVP_PROBE_SIZE));
  r ← rndis_uplink_send_udp sys stack up gw_ip (u16 gw_port) pb; mret (r =? 0).

Fixpoint phase_both (k : nat) (num both : Z) : io (Z * Z) :=
  match k with
  | O => mret (num, both)
  | S k =>
      let num := num + 1 in
      a_ok ← send_wifi num;
      b_ok ← send_cell num;
      phase_both k num (if a_ok && b_ok then both + 1 else both)
  end.

Fixpoint phase_one (send : Z → io bool) (k : nat) (num ok : Z) : io (Z * Z) :=
  match k with
  | O => mret (num, ok)
  | S k => let num := num + 1 in b ← send num; phase_one send k num (if (b : bool) then ok + 1 else ok)
  end.

(** Both paths, then Wi-Fi only, then cellular only. *)
Definition dual_phases : io (Z * Z * Z * Z) :=
  '(num, both) ← phase_both 5 0 0;
  '(num, wifi_only) ← phase_one send_wifi 3 num 0;
  '(num, cell_only) ← phase_one send_cell 3 num 0;
  mret (num, both, wifi_only, cell_only).

End phases.

(** What the program reports: the failing stage, or the numbers of the RESULT line. *)
Inductive dual_outcome := DualConfig | DualUplink (st : stage) | DualWifi | DualSent (num both wifi_only cell_only : Z).

Definition en0 : bytes := gs "en0".

Definition dualpath_main (ip_s port_s iface_s : option bytes) : io (Z * dual_outcome) :=
  gw ← lift (gateway_from_env ip_s port_s);
  match gw with
  | None => mret (2, DualConfig)
  | Some (gw_ip, gw_port) =>
      '(up, st) ← rndis_uplink_bring_up sys stack stack_lease;
      match st with
      | Some st => mret (1, DualUplink st)
      | None =>
          wifi ← wifi_socket_open (default en0 iface_s) gw_ip gw_port;
          if wifi <? 0 then _ ← rndis_uplink_close sys up; mret (1, DualWifi) else
          session ← random_session;
          '(num, both, wifi_only, cell_only) ← dual_phases wifi up gw_ip gw_port session;
          _ ← wifi_socket_close wifi;
          _ ← rndis_uplink_close sys up;
          mret (0, DualSent num both wifi_only cell_only)
      end
  end.

(** ** rndis_egress.c *)

Fixpoint egress_copies (up : rndis_uplink_t) (gw_ip : bytes) (gw_port : Z) (probe : bytes) (c : nat) (sent : Z) : io Z :=
  match c with
  | O => mret sent
  | S c =>
      r ← rndis_uplink_send_udp sys stack up gw_ip (u16 gw_port) probe;
      egress_copies up gw_ip gw_port probe c (if r =? 0 then sent + 1 else sent)
  end.
Fixpoint egress_loop (up : rndis_uplink_t) (gw_ip : bytes) (gw_port : Z) (session : bytes) (nums : list Z) (sent : Z) : io Z :=
  match nums with
  | [] => mret sent
  | num :: nums =>
      probe ← lift (rl_build_probe session num PathAndroidUSBTether (stack CVP_PROBE_SIZE));
      sent ← egress_copies up gw_ip gw_port probe 2 sent;
      egress_loop up gw_ip gw_port session nums sent
  end.

Inductive egress_outcome := EgressConfig | EgressUplink (st : stage) | EgressSent (sent : Z).

Definition egress_main (ip_s port_s : option bytes) : io (Z * egress_outcome) :=
  gw ← lift (gateway_from_env ip_s port_s);
  match gw with
  | None => mret (2, EgressConfig)
  | Some (gw_ip, gw_port) =>
      '(up, st) ← rndis_uplink_bring_up sys stack stack_lease;
      match st with
      | Some st => mret (1, EgressUplink st)
      | None =>
          session ← random_session;
          sent ← egress_loop up gw_ip gw_port session (seqZ 1 5) 0;
          _ ← rndis_uplink_close sys up;
          mret (0, EgressSent sent)
      end
  end.

(** ** rndis_dataplane.c *)

Inductive plane_outcome := PlaneOpen | PlaneInit | PlaneFilter | PlaneTx | PlaneDhcp | PlaneWorks.

(** At most four attempts of twelve reads. *)
Fixpoint offer_loop (attempts : nat) (u : rndis_usb_t) (frame : bytes) : io plane_outcome :=
  match attempts with
  | O => mret PlaneDhcp
  | S attempts =>
      s ← rndis_usb_send_frame sys stack u frame;
      if negb (s =? 0) then mret PlaneTx else
      '(offered, _) ← drain sys 12 u (λ f c, m ← rl_is_dhcp_offer f; Ret (m, c)) ();
      if (offered : bool) then mret PlaneWorks else offer_loop attempts u frame
  end.

Definition plane_body (u : rndis_usb_t) : io plane_outcome :=
  rc ← rndis_usb_initialize sys u;
  if negb (rc =? 0) then mret PlaneInit else
  rc ← rndis_usb_set_filter sys u packet_filter;
  if negb (rc =? 0) then mret PlaneFilter else
  m ← random_bytes sys 6;
  x ← invoke sys Rand;
  '(flen, frame) ← lift (rl_build_dhcp_discover (local_mac m) (u32 (value x)) (stack FRAME_CAP) (stack 300));
  tx ← lift (slice frame 0 (Z.to_nat flen));
  offer_loop 4 u tx.

Definition dataplane_main : io (Z * plane_outcome) :=
  '(u, rc) ← rndis_usb_open sys;
  if negb (rc =? 0) then mret (1, PlaneOpen) else
  out ← plane_body u;
  _ ← rndis_usb_close sys u;
  mret (0, out).

End programs.

(** ** The environment *)

Lemma c_digits_app ds rest :
  Forall (λ c, 48 ≤ b2z c ≤ 57) ds → match rest with c :: _ => isdigit c = false | [] => True end →
  span_digits (ds ++ rest) = (ds, rest).
Proof.
  intros Hds Hr. induction Hds as [|c ds Hc _ IH]; cbn [app span_digits].
  - destruct rest; [done|]. cbn. by rewrite Hr.
  - unfold isdigit. destruct (Z.leb_spec 48 (b2z c)); [|lia]. destruct (Z.leb_spec (b2z c) 57); [|lia]. cbn [andb]. by rewrite IH.
Qed.

Lemma decimal_digits acc ds :
  Forall (λ c, 48 ≤ b2z c ≤ 57) ds → Strconv.digits_val 10 acc ds = Some (foldl (λ acc c, acc * 10 + (b2z c - 48)) acc ds).
Proof.
  intros Hds. revert acc. induction Hds as [|c ds Hc _ IH]; intros acc; [done|]. cbn [Strconv.digits_val foldl].
  unfold Strconv.digit_val. destruct (Z.leb_spec 48 (b2z c)); [|lia]. destruct (Z.leb_spec (b2z c) 57); [|lia]. cbn [andb].
  destruct (Z.ltb_spec (b2z c - 48) 10); [|lia]. apply IH.
Qed.

(** A printed number is read back. *)
Lemma scan_int_format n rest :
  0 ≤ n < 2 ^ 64 → match rest with c :: _ => isdigit c = false | [] => True end →
  scan_int (Strconv.format_int n ++ rest) = Some (n, rest).
Proof.
  intros Hn Hr. pose proof (Strconv.format_nat_digits n) as Hds. specialize (Hds ltac:(lia)).
  assert (Strconv.format_int n ≠ []) as Hne.
  { unfold Strconv.format_int. destruct (Z.ltb_spec n 0); [lia|]. apply Strconv.format_digits_ne. lia. }
  assert (decimal (Strconv.format_int n) = n) as Hval.
  { apply (inj Some). unfold decimal. rewrite <-(decimal_digits 0 _ Hds). unfold Strconv.format_int. destruct (Z.ltb_spec n 0); [lia|].
    apply Strconv.format_digits_val; lia. }
  revert Hds Hne Hval. generalize (Strconv.format_int n). intros ds Hds Hne Hval.
  destruct ds as [|c ds]; [done|]. unfold scan_int. pose proof (c_digits_app (c :: ds) rest Hds Hr) as Hsp.
  apply Forall_cons in Hds as [Hc _]. cbn [app] in *.
  assert (skip_space (c :: ds ++ rest) = c :: ds ++ rest) as ->.
  { cbn [skip_space]. unfold isspace. destruct (Z.eqb_spec (b2z c) 32); [lia|]. destruct (Z.leb_spec 9 (b2z c)), (Z.leb_spec (b2z c) 13); cbn; done || lia. }
  assert (c ≠ "-"%char ∧ c ≠ "+"%char) as [H1 H2] by (split; intros ->; vm_compute in Hc; destruct Hc as [Hc _]; by apply Hc).
  match goal with |- context [let '(neg, body) := ?m in _] => replace m with (false, c :: ds ++ rest) end.
  - rewrite Hsp. by rewrite Hval.
  - destruct c as [[] [] [] [] [] [] [] []]; try reflexivity; (exfalso; apply H1; reflexivity) || (exfalso; apply H2; reflexivity).
Qed.

Definition dotted (a b c d : Z) : bytes :=
  Strconv.format_int a ++ gs "." ++ Strconv.format_int b ++ gs "." ++ Strconv.format_int c ++ gs "." ++ Strconv.format_int d.

(** What [gateway_from_env] accepts has octets and a port in range. *)
Lemma gateway_from_env_range ip_s port_s ip port :
  gateway_from_env ip_s port_s = Ret (Some (ip, port)) → length ip = 4%nat ∧ 0 < port ≤ 65535.
Proof.
  unfold gateway_from_env. destruct ip_s as [s|]; [|done]. intros E. apply go_bind_inv in E as (ns & _ & E).
  destruct ns as [|a [|b [|c [|d [|]]]]]; try done. case_match; [done|]. apply go_bind_inv in E as (p & _ & E).
  injection E as <- <-. split; [done|]. unfold default_port. destruct (Z.leb_spec p 0), (Z.gtb_spec p 65535); cbn [orb]; lia.
Qed.

Lemma scan_dotted_format a b c d rest :
  0 ≤ a < 256 → 0 ≤ b < 256 → 0 ≤ c < 256 → 0 ≤ d < 256 → match rest with c :: _ => isdigit c = false | [] => True end →
  scan_dotted 3 (dotted a b c d ++ rest) = Ret [a; b; c; d].
Proof.
  intros Ha Hb Hc Hd Hr. unfold dotted. change (gs ".") with ["."%char]. rewrite <-!app_assoc. cbn [app].
  assert (∀ n, 0 ≤ n < 256 → int_of n = Ret n) as Hint.
  { intros n Hn. unfold int_of. destruct (Z.leb_spec (- 2 ^ 31) n); [|lia]. destruct (Z.ltb_spec n (2 ^ 31)); [done|lia]. }
  cbn [scan_dotted]. rewrite (scan_int_format a) by (done || lia). rewrite Hint by done. mstep.
  rewrite (scan_int_format b) by (done || lia). rewrite Hint by done. mstep.
  rewrite (scan_int_format c) by (done || lia). rewrite Hint by done. mstep.
  rewrite (scan_int_format d) by (done || lia). rewrite Hint by done. mstep. done.
Qed.

(** A dotted quad is read as its octets; so is one followed by anything that does not
    begin with a digit, which the header's "malformed" does not say. *)
Lemma gateway_from_env_quad a b c d rest :
  0 ≤ a < 256 → 0 ≤ b < 256 → 0 ≤ c < 256 → 0 ≤ d < 256 → match rest with c :: _ => isdigit c = false | [] => True end →
  gateway_from_env (Some (dotted a b c d ++ rest)) None = Ret (Some ([z2b a; z2b b; z2b c; z2b d], default_port)).
Proof.
  intros Ha Hb Hc Hd Hr. unfold gateway_from_env. rewrite scan_dotted_format by done. mstep.
  destruct (_ || _) eqn:E; [|by mstep]. exfalso. revert E. repeat case_cmp; cbn; done || lia.
Qed.

(** ** What is handed to the network *)

(** The path a send takes and the datagram it carries. *)
Definition attempt (e : event) : option (byte * bytes) :=
  match e.1 with
  | Send _ msg => Some (PathWiFi, msg)
  | LBulkOut _ _ msg => Some (PathAndroidUSBTether, drop 86 msg)
  | _ => None
  end.
(** The send went through, whole. *)
Definition went (e : event) : bool :=
  match e with
  | (Send _ msg, a) => code a =? Z.of_nat (length msg)
  | (LBulkOut _ _ msg, a) => (code a =? 0) && (value a =? Z.of_nat (length msg))
  | _ => false
  end.
(** The datagram of a send that went through. *)
Definition handed (e : event) : option bytes := if went e then snd <$> attempt e else None.

(** The send is on the Wi-Fi socket, or a packet message of the UDP frame from the
    uplink's address, over its next hop, to the gateway. *)
Definition to_gateway (fd : Z) (up : rndis_uplink_t) (gw_ip : bytes) (gw_port : Z) (e : event) : Prop :=
  match e.1 with
  | Send fd' _ => fd' = fd
  | LBulkOut hd ep msg => h (usb up) = Some hd ∧ ep = ep_out (usb up) ∧
      ∃ payload, msg = packet_header (42 + Z.of_nat (length payload)) ++
        udp_frame (gw_mac up) (mac up) (client_ip up) gw_ip (sport up) (u16 gw_port) payload
  | _ => False
  end.

(** From [tr] to [tr'] there were only sends to the gateway, and those that went
    through carried the probes. *)
Definition handing (fd : Z) (up : rndis_uplink_t) (gw_ip : bytes) (gw_port : Z) (tr : trace) (ps : list ProbePacket) (tr' : trace) : Prop :=
  ∃ ex, tr' = tr ++ ex ∧ Forall (to_gateway fd up gw_ip gw_port) ex ∧ omap handed ex = map probe_bytes ps.

Lemma handing_refl fd up gw_ip gw_port tr : handing fd up gw_ip gw_port tr [] tr.
Proof. exists []. by rewrite app_nil_r. Qed.

Lemma handing_trans fd up gw_ip gw_port tr ps tr1 ps' tr2 :
  handing fd up gw_ip gw_port tr ps tr1 → handing fd up gw_ip gw_port tr1 ps' tr2 → handing fd up gw_ip gw_port tr (ps ++ ps') tr2.
Proof.
  intros (ex & -> & Hg & Ho) (ex' & -> & Hg' & Ho'). exists (ex ++ ex'). rewrite app_assoc, omap_app, map_app, Ho, Ho'.
  split; [done|]. split; [by apply Forall_app|done].
Qed.

Lemma handing_held fd up gw_ip gw_port tr ps tr' : handing fd up gw_ip gw_port tr ps tr' → held tr' = held tr.
Proof.
  intros (ex & -> & Hg & _). apply held_neutral. eapply Forall_impl; [done|]. intros [[] a]; done.
Qed.

(** The sends [es] attempt the probes [ps], each over its own path. *)
Definition attempts (ps : list ProbePacket) (es : trace) : Prop :=
  map attempt es = map (λ p, Some (Path p, probe_bytes p)) ps.
(** The probes whose sends went through. *)
Definition through (ps : list ProbePacket) (es : trace) : list ProbePacket :=
  omap (λ x, if went x.2 then Some x.1 else None) (zip ps es).

Lemma attempts_handed ps es : attempts ps es → omap handed es = map probe_bytes (through ps es).
Proof.
  unfold attempts, through. revert ps. induction es as [|e es IH]; intros [|p ps] H; try done. cbn in H. injection H as He Hes.
  cbn [zip zip_with omap list_omap]. cbn [fst snd]. unfold handed at 1. destruct (went e); [|by apply IH].
  rewrite He. cbn [fmap option_fmap option_map snd map]. f_equal. by apply IH.
Qed.

(** From [tr] to [tr'] there were only sends to the gateway: for each number [n] of
    [ns] one attempt per probe of [plan n]. *)
Definition batch (fd : Z) (up : rndis_uplink_t) (gw_ip : bytes) (gw_port : Z) (plan : Z → list ProbePacket) (tr : trace)
    (ns : list Z) (exs : list trace) (tr' : trace) : Prop :=
  tr' = tr ++ concat exs ∧ Forall (to_gateway fd up gw_ip gw_port) (concat exs) ∧ Forall2 (λ n, attempts (plan n)) ns exs.
(** The probes that went through, by number. *)
Definition arrivals (plan : Z → list ProbePacket) (ns : list Z) (exs : list trace) : list (list ProbePacket) :=
  zip_with (λ n, through (plan n)) ns exs.

Lemma batch_nil fd up gw_ip gw_port plan tr : batch fd up gw_ip gw_port plan tr [] [] tr.
Proof. split; [by rewrite app_nil_r|]. split; constructor. Qed.

Lemma batch_app fd up gw_ip gw_port plan tr ns exs tr1 ns' exs' tr2 :
  batch fd up gw_ip gw_port plan tr ns exs tr1 → batch fd up gw_ip gw_port plan tr1 ns' exs' tr2 →
  batch fd up gw_ip gw_port plan tr (ns ++ ns') (exs ++ exs') tr2.
Proof.
  intros (-> & Hg & Ha) (-> & Hg' & Ha'). split; [by rewrite concat_app, app_assoc|]. rewrite concat_app.
  split; [by apply Forall_app|by apply Forall2_app].
Qed.

Lemma batch_handing fd up gw_ip gw_port plan tr ns exs tr' :
  batch fd up gw_ip gw_port plan tr ns exs tr' → handing fd up gw_ip gw_port tr (concat (arrivals plan ns exs)) tr'.
Proof.
  intros (-> & Hg & Ha). exists (concat exs). split; [done|]. split; [done|]. clear Hg. unfold arrivals.
  induction Ha as [|n es ns exs He _ IH]; [done|]. cbn [concat zip_with]. rewrite omap_app, map_app, IH. f_equal. by apply attempts_handed.
Qed.

Lemma arrivals_app plan ns exs ns' exs' :
  length ns = length exs → arrivals plan (ns ++ ns') (exs ++ exs') = arrivals plan ns exs ++ arrivals plan ns' exs'.
Proof. intros Hl. by apply zip_with_app. Qed.

Lemma arrivals_cons plan n ns es exs : arrivals plan (n :: ns) (es :: exs) = through (plan n) es :: arrivals plan ns exs.
Proof. done. Qed.

Lemma through_cons p ps e es : through (p :: ps) (e :: es) = (if went e then [p] else []) ++ through ps es.
Proof. unfold through. cbn. by destruct (went e). Qed.
Lemma through_one p e : through [p] [e] = if went e then [p] else [].
Proof. rewrite through_cons. apply app_nil_r. Qed.

(** The probes of one identity, at most two. *)
Definition group (session : SessionID) (n : Z) (ps : list ProbePacket) : Prop :=
  Forall (λ p, ID p = mkPacketID session n) ps ∧ (length ps ≤ 2)%nat.
Definition arrived (pss : list (list ProbePacket)) : nat := length (filter (λ ps, (0 < length ps)%nat) pss).
Definition doubled (pss : list (list ProbePacket)) : nat := length (filter (λ ps, length ps = 2%nat) pss).

Lemma through_group session n ps es : group session n ps → group session n (through ps es).
Proof.
  intros [Hp Hl]. assert (through ps es `sublist_of` ps) as Hs.
  { clear. unfold through. revert es. induction ps as [|p ps IH]; intros [|e es]; [done|done|apply sublist_nil_l|].
    cbn [zip zip_with omap list_omap fst snd]. destruct (went e); by constructor. }
  split; [|pose proof (sublist_length _ _ Hs); lia].
  apply Forall_forall. intros p Hin. rewrite Forall_forall in Hp. apply Hp. by eapply elem_of_sublist.
Qed.

Lemma arrivals_groups session plan ns exs :
  (∀ n, group session n (plan n)) → length ns = length exs → Forall2 (group session) ns (arrivals plan ns exs).
Proof.
  intros Hp. revert exs. induction ns as [|n ns IH]; intros [|es exs] Hl; try done; constructor; [by apply through_group|].
  apply IH. by injection Hl.
Qed.

Definition probe (session : SessionID) (n : Z) (path : byte) : ProbePacket := mkProbe (mkPacketID session n) path.

(** What the program sends: over both paths, then over Wi-Fi only, then over the
    tether only. *)
Definition dual_plan (session : SessionID) (n : Z) : list ProbePacket :=
  if n <=? 5 then [probe session n PathWiFi; probe session n PathAndroidUSBTether]
  else if n <=? 8 then [probe session n PathWiFi] else [probe session n PathAndroidUSBTether].

Lemma dual_plan_group session n : group session n (dual_plan session n).
Proof. unfold dual_plan. repeat case_match; (split; [by repeat constructor|cbn; lia]). Qed.

Section handing.
Variable sys : system.
Variable stack : nat → bytes.
Hypothesis stack_len : ∀ n, length (stack n) = n.
Variables (fd : Z) (up : rndis_uplink_t) (hd : Z) (gw_ip : bytes) (gw_port : Z) (session : SessionID).
Hypothesis up_handle : h (usb up) = Some hd.
Hypothesis up_ready : ready up = true.
Hypothesis up_sizes : length (mac up) = 6%nat ∧ length (client_ip up) = 4%nat ∧ length (gw_mac up) = 6%nat.
Hypothesis ip_size : length gw_ip = 4%nat.

Notation handing := (handing fd up gw_ip gw_port).
Notation batch := (batch fd up gw_ip gw_port).
Notation probe := (probe session).

Lemma build_probe n path : rl_build_probe session n path (stack CVP_PROBE_SIZE) = Ret (probe_bytes (probe n path)).
Proof.
  rewrite rl_build_probe_layout by (apply length_vec_to_list || (rewrite stack_len; done)).
  rewrite drop_ge by by rewrite stack_len. rewrite app_nil_r. done.
Qed.

Lemma probe_length p : length (probe_bytes p) = 30%nat.
Proof. unfold probe_bytes. len. Qed.

(** One send of the probe [p] to the gateway over its path; [ok] when it went through. *)
Definition sends (p : ProbePacket) (tr : trace) (ok : bool) (tr' : trace) : Prop :=
  ∃ e, tr' = tr ++ [e] ∧ to_gateway fd up gw_ip gw_port e ∧ attempts [p] [e] ∧ went e = ok.

Lemma sends_handing p tr ok tr' : sends p tr ok tr' → handing tr (if ok then [p] else []) tr'.
Proof.
  intros (e & -> & Hg & Ha & <-). exists [e]. split; [done|]. split; [by constructor|].
  rewrite (attempts_handed _ _ Ha). cbn. by destruct (went e).
Qed.

Lemma send_wifi_spec n tr :
  wp (send_wifi sys stack fd session n) tr (λ ok tr', sends (probe n PathWiFi) tr ok tr').
Proof.
  unfold send_wifi. apply wp_bind. eapply wp_lift; [apply build_probe|]. apply wp_bind. unfold wifi_socket_send.
  apply wp_bind, wp_invoke, wp_ret, wp_ret. eexists. split; [done|]. split; [done|]. split; [done|]. cbn [went].
  set (a := sys tr _). by destruct (code a =? _).
Qed.

Lemma send_udp_spec p tr :
  Path p = PathAndroidUSBTether →
  wp (rndis_uplink_send_udp sys stack up gw_ip (u16 gw_port) (probe_bytes p)) tr (λ r tr', sends p tr (r =? 0) tr').
Proof.
  intros Hpath. destruct up_sizes as (Hm & Hc & Hg). unfold rndis_uplink_send_udp. rewrite up_ready. cbn [negb]. unfold rl_build_udp_frame.
  set (frame := udp_frame (gw_mac up) (mac up) (client_ip up) gw_ip (sport up) (u16 gw_port) (probe_bytes p)).
  pose proof (probe_length p) as Hp.
  assert (length frame = 72%nat) as Hl by (by subst frame; rewrite udp_frame_length, Hp).
  eapply wp_built; [apply udp_built; try done; rewrite Hp; unfold FRAME_CAP; lia|]. fold frame.
  intros f _ Htx. cbv beta iota. destruct (Z.ltb_spec (Z.of_nat (length frame)) 0); [lia|]. apply wp_bind. eapply wp_lift; [done|].
  eapply wp_mono; [apply (send_exact sys stack stack_len (usb up) hd); [done|rewrite Hl; unfold FRAME_CAP; lia]|].
  rewrite Hl. intros r tr' (a & -> & ->). eexists. split; [done|]. split; [|split].
  - split; [done|]. split; [done|]. exists (probe_bytes p). by rewrite Hp.
  - unfold attempts. cbn [map attempt fst]. change 86%nat with (44 + 42)%nat. rewrite <-drop_drop, drop_app_length' by done.
    subst frame. by rewrite udp_frame_payload, Hpath.
  - cbn [went]. rewrite length_app, Hl. change (length (packet_header _)) with 44%nat.
    change (44 + Z.of_nat 72) with (Z.of_nat (44 + 72)). by destruct (_ && _).
Qed.

Lemma send_cell_spec n tr :
  wp (send_cell sys stack up gw_ip gw_port session n) tr (λ ok tr', sends (probe n PathAndroidUSBTether) tr ok tr').
Proof.
  unfold send_cell. apply wp_bind. eapply wp_lift; [apply build_probe|]. apply wp_bind. eapply wp_mono; [by apply send_udp_spec|].
  intros r tr' Hr. by apply wp_ret.
Qed.

Lemma phase_one_spec send path plan k num ok tr :
  (∀ n tr, wp (send n) tr (λ b tr', sends (probe n path) tr b tr')) →
  (∀ n, num < n ≤ num + Z.of_nat k → plan n = [probe n path]) →
  wp (phase_one send k num ok) tr (λ '(num', ok') tr', num' = num + Z.of_nat k ∧
    let ns := seqZ (num + 1) (Z.of_nat k) in
    ∃ exs, batch plan tr ns exs tr' ∧ ok' = ok + Z.of_nat (arrived (arrivals plan ns exs)) ∧ doubled (arrivals plan ns exs) = 0%nat).
Proof.
  clear up_sizes ip_size. intros Hsend. revert num ok tr. induction k as [|k IH]; intros num ok tr Hplan; cbn [phase_one].
  { apply wp_ret. split; [lia|]. exists []. rewrite seqZ_nil by lia. split; [apply batch_nil|]. cbn. lia. }
  apply wp_bind. eapply wp_mono; [apply Hsend|]. intros b tr1 (e & -> & Hg & Ha & Hw).
  eapply wp_mono; [apply IH; intros; apply Hplan; lia|]. intros [num' ok'] tr2 (-> & exs & Hb & -> & Hd). split; [lia|].
  cbv zeta. rewrite seqZ_cons by lia. replace (Z.pred (Z.of_nat (S k))) with (Z.of_nat k) by lia. change (Z.succ (num + 1)) with (num + 1 + 1). exists ([e] :: exs).
  assert (plan (num + 1) = [probe (num + 1) path]) as Ep by (apply Hplan; lia). split.
  { apply (batch_app _ _ _ _ _ _ [_] [_] (tr ++ [e])); [|done]. split; [done|]. split; [by constructor|].
    constructor; [|constructor]. by rewrite Ep. }
  rewrite arrivals_cons, Ep, through_one, Hw.
  unfold arrived, doubled in *. destruct b.
  - rewrite filter_cons_True by (cbn; lia). rewrite filter_cons_False by (cbn; lia). cbn [length]. split; [lia|done].
  - rewrite !filter_cons_False by (cbn; lia). split; [lia|done].
Qed.

Lemma phase_both_spec plan k num both tr :
  (∀ n, num < n ≤ num + Z.of_nat k → plan n = [probe n PathWiFi; probe n PathAndroidUSBTether]) →
  wp (phase_both sys stack fd up gw_ip gw_port session k num both) tr (λ '(num', both') tr', num' = num + Z.of_nat k ∧
    let ns := seqZ (num + 1) (Z.of_nat k) in
    ∃ exs, batch plan tr ns exs tr' ∧ both' = both + Z.of_nat (doubled (arrivals plan ns exs))).
Proof.
  revert num both tr. induction k as [|k IH]; intros num both tr Hplan; cbn [phase_both].
  { apply wp_ret. split; [lia|]. exists []. rewrite seqZ_nil by lia. split; [apply batch_nil|]. cbn. lia. }
  apply wp_bind. eapply wp_mono; [apply send_wifi_spec|]. intros a tr1 (e1 & -> & Hg1 & Ha1 & Hw1).
  apply wp_bind. eapply wp_mono; [apply send_cell_spec|]. intros b tr2 (e2 & -> & Hg2 & Ha2 & Hw2).
  eapply wp_mono; [apply IH; intros; apply Hplan; lia|]. intros [num' both'] tr3 (-> & exs & Hb & ->). split; [lia|].
  cbv zeta. rewrite seqZ_cons by lia. replace (Z.pred (Z.of_nat (S k))) with (Z.of_nat k) by lia. change (Z.succ (num + 1)) with (num + 1 + 1). exists ([e1; e2] :: exs).
  assert (plan (num + 1) = [probe (num + 1) PathWiFi; probe (num + 1) PathAndroidUSBTether]) as Ep by (apply Hplan; lia). split.
  { apply (batch_app _ _ _ _ _ _ [_] [_] ((tr ++ [e1]) ++ [e2])); [|done]. split; [by rewrite <-app_assoc|].
    split; [by repeat constructor|]. constructor; [|constructor]. rewrite Ep. exact (f_equal2 app Ha1 Ha2). }
  rewrite arrivals_cons, Ep, through_cons, through_one, Hw1, Hw2.
  unfold doubled. destruct a, b; cbn [andb]; rewrite filter_cons; case_decide as Hl; cbn in Hl; cbn [length]; lia.
Qed.

End handing.

(** ** Counting *)

Lemma group_ids session n ps : group session n ps → (0 < length ps)%nat → ProbeServer.ids ps = {[mkPacketID session n]}.
Proof.
  intros [Hps _] Hl. destruct Hps as [|p ps Hp Hps]; [cbn in Hl; lia|]. clear Hl. revert p Hp. induction Hps as [|p' ps Hp' _ IH]; intros p Hp.
  - unfold ProbeServer.ids. cbn. rewrite Hp. set_solver.
  - change (ProbeServer.ids (p :: p' :: ps)) with ({[ID p]} ∪ ProbeServer.ids (p' :: ps)). rewrite Hp, (IH p' Hp'). set_solver.
Qed.

Lemma ids_app ps qs : ProbeServer.ids (ps ++ qs) = ProbeServer.ids ps ∪ ProbeServer.ids qs.
Proof. unfold ProbeServer.ids. by rewrite fmap_app, list_to_set_app_L. Qed.

Lemma groups_numbers session ns pss : Forall2 (group session) ns pss → ∀ p, p ∈ concat pss → Session (ID p) = session ∧ Number (ID p) ∈ ns.
Proof.
  induction 1 as [|n ps ns pss [Hps _] _ IH]; intros p; [set_solver|]. cbn [concat]. rewrite elem_of_app, elem_of_cons. intros [Hp|Hp].
  - rewrite Forall_forall in Hps. rewrite (Hps p Hp). split; [done|by left].
  - destruct (IH p Hp). auto.
Qed.

(** One identity per group that is not empty, and one more probe per full group. *)
Lemma groups_count session ns pss :
  Forall2 (group session) ns pss → NoDup ns →
  size (ProbeServer.ids (concat pss)) = arrived pss ∧ length (concat pss) = (arrived pss + doubled pss)%nat.
Proof.
  induction 1 as [|n ps ns pss Hps Hpss IH]; intros Hnd; [done|]. apply NoDup_cons in Hnd as [Hn Hnd]. destruct (IH Hnd) as [Hs Hl].
  cbn [concat]. rewrite ids_app, length_app, Hl. unfold arrived, doubled in *. rewrite !filter_cons. pose proof Hps as [_ Hle].
  destruct (decide (0 < length ps)%nat) as [Hpos|Hpos].
  - rewrite (group_ids _ _ _ Hps Hpos). rewrite size_union, size_singleton, Hs.
    + case_decide; cbn [length]; lia.
    + intros id ->%elem_of_singleton Hid. unfold ProbeServer.ids in Hid. apply elem_of_list_to_set, list_elem_of_fmap in Hid as (p & Hid & Hp).
      destruct (groups_numbers _ _ _ Hpss p Hp) as [_ Hnum]. rewrite <-Hid in Hnum. done.
  - destruct ps; [|cbn in Hpos; lia]. change (ProbeServer.ids []) with (∅ : gset PacketID). rewrite union_empty_l_L, Hs. case_decide; cbn in *; lia.
Qed.

Lemma groups_good session ns pss :
  Forall2 (group session) ns pss → IsZero session = false → Forall (λ n, 0 < n < 2 ^ 64) ns → Forall ProbeServer.good_probe (concat pss).
Proof.
  intros Hg Hz Hns. apply Forall_forall. intros p Hp. destruct (groups_numbers _ _ _ Hg p Hp) as [Hs Hn].
  rewrite Forall_forall in Hns. specialize (Hns _ Hn). destruct p as [[s n] path]. cbn in *. subst s.
  split; [by apply Valid_intro; [cbn; lia|]|unfold is_u64; cbn; lia].
Qed.

(** ** The programs *)

Section programs_spec.
Variable sys : system.
Variable stack : nat → bytes.
Variable stack_lease : rl_lease_t.
Hypothesis fresh : fresh_handles sys.
Hypothesis listed : ∀ tr, 0 ≤ code (sys tr LGetDeviceList).
Hypothesis stack_len : ∀ n, length (stack n) = n.

Lemma random_session_spec tr :
  wp (random_session sys) tr (λ s tr', during tr [] tr' ∧ ∃ v : SessionID, s = v ∧ IsZero v = false).
Proof.
  unfold random_session. apply wp_bind. eapply wp_mono; [apply random_bytes_spec|]. intros s tr' [Hl Hd]. apply wp_ret. split; [done|].
  destruct s as [|b s]; [done|]. set (x := z2b (Z.lor (b2z b) 1)).
  assert (length (x :: s) = 16%nat) as Hx by done. exists (arr 16 (x :: s)). rewrite vec_arr by done. split; [done|].
  unfold IsZero. rewrite vec_arr by done. cbn [forallb].
  assert (b2z x ≠ 0) as Hne.
  { subst x. rewrite b2z_z2b. intros E. pose proof (b2z_range b). assert (Z.testbit (Z.lor (b2z b) 1 mod 256) 0 = true) as Ht.
    { change 256 with (2 ^ 8). rewrite Z.mod_pow2_bits_low by lia. rewrite Z.lor_spec. by rewrite orb_true_r. }
    by rewrite E in Ht. }
  by apply Z.eqb_neq in Hne as ->.
Qed.

Definition add_socket (s : resources) (fd : Z) : resources :=
  mkRes (contexts s) (lists s) (configs s) (handles s) (claims s) ({[fd]} ∪ sockets s).

(** The calls of a socket bound to the interface and connected to the gateway. *)
Definition bound_to (iface ip : bytes) (port fd : Z) (es : trace) : Prop :=
  ∃ a1 a2 a3 a4, es = [(Socket, a1); (IfNameToIndex iface, a2); (BoundIf fd (code a2), a3); (Connect fd ip (u16 port), a4)] ∧
    code a1 = fd ∧ code a2 ≠ 0 ∧ code a3 = 0 ∧ code a4 = 0.

Lemma wifi_open_spec iface ip port tr :
  wp (wifi_socket_open sys iface ip port) tr (λ fd tr',
    fd = -1 ∧ held tr' = held tr ∨
    0 ≤ fd ∧ fd ∉ sockets (held tr) ∧ held tr' = add_socket (held tr) fd ∧ ∃ es, tr' = tr ++ es ∧ bound_to iface ip port fd es).
Proof.
  unfold wifi_socket_open. apply wp_bind, wp_invoke. destruct (Z.ltb_spec (code (sys tr Socket)) 0) as [Hneg|Hpos].
  { apply wp_ret. left. split; [done|]. rewrite held_snoc. cbn [account]. destruct (Z.ltb_spec (code (sys tr Socket)) 0); [done|lia]. }
  pose proof (fresh_socket sys fresh tr Hpos) as Hnew. set (fd := code (sys tr Socket)) in *. set (tr1 := tr ++ _).
  assert (held tr1 = add_socket (held tr) fd) as H1.
  { subst tr1. rewrite held_snoc. cbn [account]. fold fd. destruct (Z.ltb_spec fd 0); [lia|done]. }
  assert (∀ es, Forall neutral es → wp (_ ← invoke sys (CloseFd fd); mret (-1)) (tr1 ++ es) (λ fd tr', fd = -1 ∧ held tr' = held tr)) as Hclose.
  { intros es Hes. apply wp_bind, wp_invoke, wp_ret. split; [done|]. rewrite held_snoc, held_neutral, H1 by done.
    apply resources_eq; cbn; try done. set_solver. }
  apply wp_bind, wp_invoke. destruct (Z.eqb_spec (code (sys tr1 (IfNameToIndex iface))) 0) as [|Hidx].
  { eapply wp_mono; [apply Hclose; by constructor|]. intros ? ? ?. by left. }
  apply wp_bind, wp_invoke. rewrite <-(app_assoc tr1).
  match goal with |- context [code ?a =? 0] => destruct (Z.eqb_spec (code a) 0) as [Hb|] end; cbn [negb].
  2:{ eapply wp_mono; [apply Hclose; by repeat constructor|]. intros ? ? ?. by left. }
  apply wp_bind, wp_invoke. rewrite <-(app_assoc tr1).
  match goal with |- context [code ?a =? 0] => destruct (Z.eqb_spec (code a) 0) as [Hc|] end; cbn [negb].
  2:{ eapply wp_mono; [apply Hclose; by repeat constructor|]. intros ? ? ?. by left. }
  apply wp_ret. right. split; [done|]. split; [done|]. split; [by rewrite held_neutral by (by repeat constructor)|].
  subst tr1. rewrite <-app_assoc. eexists. split; [done|]. by eexists _, _, _, _.
Qed.

Lemma wifi_close_spec s fd tr :
  0 ≤ fd → fd ∉ sockets s → held tr = add_socket s fd → wp (wifi_socket_close sys fd) tr (λ _ tr', held tr' = s ∧ ∃ a, tr' = tr ++ [(CloseFd fd, a)]).
Proof.
  intros Hfd Hn Hs. unfold wifi_socket_close. rewrite Z.geb_leb. destruct (Z.leb_spec 0 fd); [|lia]. apply wp_bind, wp_invoke, wp_ret.
  split; [|by eexists]. rewrite held_snoc, Hs. apply resources_eq; cbn; try done. set_solver.
Qed.

Lemma grows_uplink_close up : grows (rndis_uplink_close sys up).
Proof. unfold rndis_uplink_close. apply grows_bind; [apply grows_close|intros u; apply grows_ret]. Qed.

Lemma connected_uplink tr up tr' :
  opened (held tr) (usb up) (held tr') → connected tr up tr' →
  (∃ hd, h (usb up) = Some hd) ∧ ready up = true ∧ length (mac up) = 6%nat ∧ length (client_ip up) = 4%nat ∧ length (gw_mac up) = 6%nat.
Proof. intros Ho (Hr & Hm & Hc & Hg & _). destruct (opened_handle _ _ _ Ho) as (hd & Hh & _). split; [by exists hd|done]. Qed.

(** The three phases, all together. *)
Lemma phases_spec fd up hd gw_ip gw_port (session : SessionID) tr :
  h (usb up) = Some hd → ready up = true →
  length (mac up) = 6%nat ∧ length (client_ip up) = 4%nat ∧ length (gw_mac up) = 6%nat → length gw_ip = 4%nat →
  wp (dual_phases sys stack fd up gw_ip gw_port session) tr
    (λ '(num, both, wifi_only, cell_only) tr', num = 11 ∧
      ∃ exs, batch fd up gw_ip gw_port (dual_plan session) tr (seqZ 1 11) exs tr' ∧
        let pss := arrivals (dual_plan session) (seqZ 1 11) exs in
        both = Z.of_nat (doubled pss) ∧ wifi_only = Z.of_nat (arrived (take 3 (drop 5 pss))) ∧ cell_only = Z.of_nat (arrived (drop 8 pss))).
Proof.
  intros Hh Hr Hs Hip. unfold dual_phases. apply wp_bind.
  eapply wp_mono; [apply (phase_both_spec sys stack stack_len fd up hd gw_ip gw_port session Hh Hr Hs Hip (dual_plan session) 5)|].
  { intros n Hn. unfold dual_plan. by destruct (Z.leb_spec n 5); [|lia]. }
  intros [num both] tr1 (-> & e1 & B1 & ->). apply wp_bind.
  eapply wp_mono; [apply (phase_one_spec fd up gw_ip gw_port session _ PathWiFi (dual_plan session) 3); [intros; by apply send_wifi_spec|]|].
  { intros n Hn. unfold dual_plan. destruct (Z.leb_spec n 5); [lia|]. by destruct (Z.leb_spec n 8); [|lia]. }
  intros [num w] tr2 (-> & e2 & B2 & -> & D2). apply wp_bind.
  eapply wp_mono; [apply (phase_one_spec fd up gw_ip gw_port session _ PathAndroidUSBTether (dual_plan session) 3);
    [intros; by apply (send_cell_spec sys stack stack_len fd up hd)|]|].
  { intros n Hn. unfold dual_plan. destruct (Z.leb_spec n 5); [lia|]. by destruct (Z.leb_spec n 8); [lia|]. }
  intros [num c] tr3 (-> & e3 & B3 & -> & D3). apply wp_ret. split; [done|]. exists (e1 ++ e2 ++ e3).
  set (n1 := seqZ (0 + 1) (Z.of_nat 5)) in *. set (n2 := seqZ (0 + Z.of_nat 5 + 1) (Z.of_nat 3)) in *.
  set (n3 := seqZ (0 + Z.of_nat 5 + Z.of_nat 3 + 1) (Z.of_nat 3)) in *.
  change (seqZ 1 11) with (n1 ++ n2 ++ n3). split; [by repeat (eapply batch_app; [done|])|].
  destruct B1 as (_ & _ & A1%Forall2_length), B2 as (_ & _ & A2%Forall2_length).
  cbv zeta. rewrite !arrivals_app by done.
  assert (length (arrivals (dual_plan session) n1 e1) = 5%nat) as L1.
  { unfold arrivals. rewrite length_zip_with, <-A1. done. }
  assert (length (arrivals (dual_plan session) n2 e2) = 3%nat) as L2.
  { unfold arrivals. rewrite length_zip_with, <-A2. done. }
  rewrite drop_app_length' by done. rewrite take_app_length' by done. change 8%nat with (5 + 3)%nat.
  rewrite <-drop_drop, drop_app_length', drop_app_length' by done.
  split; [|lia]. unfold doubled in *. rewrite !filter_app, !length_app, D2, D3. lia.
Qed.

(** What a completed run did: [exs] are its sends, by packet number. *)
Definition dual_run (iface gw_ip : bytes) (gw_port : Z) (tr : trace) (num both wifi_only cell_only : Z) (tr' : trace)
    (exs : list trace) (session : SessionID) : Prop :=
  ∃ up tr1 fd es rs post, connected tr up tr1 ∧ tr' = tr1 ++ es ++ rs ++ concat exs ++ post ∧ bound_to iface gw_ip gw_port fd es ∧
    IsZero session = false ∧ Forall (to_gateway fd up gw_ip gw_port) (concat exs) ∧
    Forall2 (λ n, attempts (dual_plan session n)) (seqZ 1 11) exs ∧
    let pss := arrivals (dual_plan session) (seqZ 1 11) exs in
    num = 11 ∧ both = Z.of_nat (doubled pss) ∧
    wifi_only = Z.of_nat (arrived (take 3 (drop 5 pss))) ∧ cell_only = Z.of_nat (arrived (drop 8 pss)).

Lemma dualpath_spec ip_s port_s iface_s gw tr :
  gateway_from_env ip_s port_s = Ret gw →
  wp (dualpath_main sys stack stack_lease ip_s port_s iface_s) tr (λ '(rc, out) tr', held tr' = held tr ∧
    match out with
    | DualConfig => rc = 2 ∧ gw = None
    | DualUplink _ | DualWifi => rc = 1
    | DualSent num both wifi_only cell_only => rc = 0 ∧ ∃ gw_ip gw_port exs session, gw = Some (gw_ip, gw_port) ∧
        dual_run (default en0 iface_s) gw_ip gw_port tr num both wifi_only cell_only tr' exs session
    end).
Proof.
  intros Egw. unfold dualpath_main. apply wp_bind. eapply wp_lift; [done|]. destruct gw as [[gw_ip gw_port]|]; [|by apply wp_ret].
  apply gateway_from_env_range in Egw as [Hip _].
  apply wp_bind. eapply wp_mono; [by apply bring_up_spec|]. intros [up [st|]] tr1 Hb; [by destruct Hb; apply wp_ret|].
  destruct Hb as [Ho Hc]. cbn [fst snd] in *. destruct (connected_uplink _ _ _ Ho Hc) as ([hd Hh] & Hr & Hsz).
  apply wp_bind. eapply wp_mono; [apply wifi_open_spec|]. intros fd tr2 [[-> Hh2]|(Hfd & Hnew & Hh2 & es & -> & Hes)].
  { apply wp_bind. eapply wp_mono; [apply (uplink_close_spec sys (held tr)); by rewrite Hh2|]. intros up' tr3 (_ & _ & ?). by apply wp_ret. }
  destruct (Z.ltb_spec fd 0); [lia|].
  apply wp_bind. eapply wp_mono; [apply random_session_spec|]. intros s tr3 [Hd (session & -> & Hz)].
  apply wp_bind. eapply wp_mono; [by apply (phases_spec fd up hd)|].
  intros [[[num both] w] c] tr4 (-> & exs & Hb & Hnum).
  assert (held tr4 = add_socket (held tr1) fd) as Hh4.
  { by rewrite (handing_held _ _ _ _ _ _ _ (batch_handing _ _ _ _ _ _ _ _ _ Hb)), (during_held _ _ _ Hd). }
  apply wp_bind. eapply wp_mono; [by apply (wifi_close_spec (held tr1))|]. intros _ tr5 [Hh5 (a & ->)].
  apply wp_bind. eapply wp_mono; [apply wp_grows, (uplink_close_spec sys (held tr)); [apply grows_uplink_close|by rewrite Hh5]|].
  intros up' tr6 [(_ & _ & Hh6) [post ->]]. apply wp_ret. split; [done|]. split; [done|].
  destruct Hd as (rs & -> & _). destruct Hb as (-> & Hto & Hat).
  exists gw_ip, gw_port, exs, session. split; [done|].
  exists up, tr1, fd, es, rs, ((CloseFd fd, a) :: post). split; [done|]. rewrite <-!app_assoc. done.
Qed.

(** *** The other two programs *)

Lemma egress_copies_spec up hd gw_ip gw_port (session : SessionID) n c sent tr :
  h (usb up) = Some hd → ready up = true →
  length (mac up) = 6%nat ∧ length (client_ip up) = 4%nat ∧ length (gw_mac up) = 6%nat → length gw_ip = 4%nat →
  let p := mkProbe (mkPacketID session n) PathAndroidUSBTether in
  wp (egress_copies sys stack up gw_ip gw_port (probe_bytes p) c sent) tr (λ sent' tr',
    ∃ k, (k ≤ c)%nat ∧ handing (-1) up gw_ip gw_port tr (replicate k p) tr' ∧ sent' = sent + Z.of_nat k).
Proof.
  intros Hh Hr Hs Hip p. revert sent tr. induction c as [|c IH]; intros sent tr; cbn [egress_copies].
  { apply wp_ret. exists 0%nat. split; [lia|]. split; [apply handing_refl|lia]. }
  apply wp_bind. eapply wp_mono; [by apply (send_udp_spec sys stack stack_len (-1) up hd)|]. intros r tr1 H1%sends_handing.
  eapply wp_mono; [apply IH|]. intros sent' tr2 (k & Hk & H2 & ->). pose proof (handing_trans _ _ _ _ _ _ _ _ _ H1 H2) as H3.
  destruct (r =? 0); [exists (S k)|exists k]; (split; [lia|]); (split; [exact H3|lia]).
Qed.

Lemma egress_loop_spec up hd gw_ip gw_port (session : SessionID) nums sent tr :
  h (usb up) = Some hd → ready up = true →
  length (mac up) = 6%nat ∧ length (client_ip up) = 4%nat ∧ length (gw_mac up) = 6%nat → length gw_ip = 4%nat →
  wp (egress_loop sys stack up gw_ip gw_port session nums sent) tr (λ sent' tr',
    ∃ pss, Forall2 (group session) nums pss ∧ handing (-1) up gw_ip gw_port tr (concat pss) tr' ∧
      sent' = sent + Z.of_nat (length (concat pss))).
Proof.
  intros Hh Hr Hs Hip. revert sent tr. induction nums as [|n nums IH]; intros sent tr; cbn [egress_loop].
  { apply wp_ret. exists []. split; [done|]. split; [apply handing_refl|cbn; lia]. }
  apply wp_bind. eapply wp_lift; [by apply build_probe|]. apply wp_bind.
  eapply wp_mono; [by apply (egress_copies_spec up hd)|]. intros sent1 tr1 (k & Hk & H1 & ->).
  eapply wp_mono; [apply IH|]. intros sent2 tr2 (pss & Hg & H2 & ->).
  exists (replicate k (mkProbe (mkPacketID session n) PathAndroidUSBTether) :: pss).
  split; [constructor; [split; [by apply Forall_replicate|by rewrite length_replicate]|done]|].
  split; [exact (handing_trans _ _ _ _ _ _ _ _ _ H1 H2)|]. cbn [concat]. rewrite length_app, length_replicate. lia.
Qed.

Lemma egress_spec ip_s port_s gw tr :
  gateway_from_env ip_s port_s = Ret gw →
  wp (egress_main sys stack stack_lease ip_s port_s) tr (λ '(rc, out) tr', held tr' = held tr ∧
    match out with
    | EgressConfig => rc = 2 ∧ gw = None
    | EgressUplink _ => rc = 1
    | EgressSent sent => rc = 0 ∧ ∃ gw_ip gw_port up tr1 rs ex post session pss,
        gw = Some (gw_ip, gw_port) ∧ connected tr up tr1 ∧ tr' = tr1 ++ rs ++ ex ++ post ∧
        Forall (to_gateway (-1) up gw_ip gw_port) ex ∧ omap handed ex = map probe_bytes (concat pss) ∧
        Forall2 (group session) (seqZ 1 5) pss ∧ sent = Z.of_nat (length (concat pss))
    end).
Proof.
  intros Egw. unfold egress_main. apply wp_bind. eapply wp_lift; [done|]. destruct gw as [[gw_ip gw_port]|]; [|by apply wp_ret].
  apply gateway_from_env_range in Egw as [Hip _].
  apply wp_bind. eapply wp_mono; [by apply bring_up_spec|]. intros [up [st|]] tr1 Hb; [by destruct Hb; apply wp_ret|].
  destruct Hb as [Ho Hc]. cbn [fst snd] in *. destruct (connected_uplink _ _ _ Ho Hc) as ([hd Hh] & Hr & Hsz).
  apply wp_bind. eapply wp_mono; [apply random_session_spec|]. intros s tr3 [Hd (session & -> & Hz)].
  apply wp_bind. eapply wp_mono; [by apply (egress_loop_spec up hd)|]. intros sent tr4 (pss & Hg & Hhand & ->).
  apply wp_bind. eapply wp_mono; [apply wp_grows, (uplink_close_spec sys (held tr)); [apply grows_uplink_close|]|].
  { by rewrite (handing_held _ _ _ _ _ _ _ Hhand), (during_held _ _ _ Hd). }
  intros up' tr6 [(_ & _ & Hh6) [post ->]]. apply wp_ret. split; [done|]. split; [done|].
  destruct Hd as (rs & -> & _). destruct Hhand as (ex & -> & Hto & Hom).
  exists gw_ip, gw_port, up, tr1, rs, ex, post, session, pss. rewrite <-!app_assoc. done.
Qed.

Lemma offer_total f (c : unit) : ∃ r, (m ← rl_is_dhcp_offer f; Ret (m, c)) = Ret r.
Proof.
  unfold rl_is_dhcp_offer. destruct (rl_parse_dhcp_total f DHCP_OFFER zero_lease) as [[m l] ->]. mstep. by eexists.
Qed.

Lemma offer_loop_spec attempts u hd frame tr :
  h u = Some hd → (length frame ≤ FRAME_CAP)%nat → wp (offer_loop sys stack attempts u frame) tr (λ _ tr', during tr [] tr').
Proof.
  intros Hu Hf. revert tr. induction attempts as [|attempts IH]; intros tr; cbn [offer_loop]; [apply wp_ret, during_refl|].
  apply wp_bind. eapply wp_mono; [by apply (send_spec sys stack stack_len u hd)|]. intros s tr1 (_ & e & He & -> & _).
  pose proof (during_quiet tr e He) as H1. case_match; [by apply wp_ret|].
  apply wp_bind. eapply wp_mono; [apply (drain_spec sys _ offer_total 12 u hd); done|]. intros [m []] tr2 H2.
  assert (during (tr ++ [e]) [] tr2) as H2' by (destruct m; [destruct H2 as (e' & H2 & _); eapply during_less; [done|apply sublist_nil_l]|done]).
  pose proof (during_trans _ [] _ [] _ H1 H2') as H3. destruct m; [by apply wp_ret|].
  eapply wp_mono; [apply IH|]. intros ? tr3 H4. exact (during_trans _ [] _ [] _ H3 H4).
Qed.

Lemma plane_body_spec u hd tr : h u = Some hd → wp (plane_body sys stack u) tr (λ _ tr', during tr [] tr').
Proof.
  intros Hu. unfold plane_body, rndis_usb_initialize, rndis_usb_set_filter.
  apply wp_bind. eapply wp_mono; [apply (control_spec _ _ u hd); [done|by eexists]|]. intros rc tr1 H1. case_match; [by apply wp_ret|].
  apply wp_bind. eapply wp_mono; [apply (control_spec _ _ u hd); [done|by eexists]|]. intros rc' tr2 H2.
  pose proof (during_trans _ [] _ [] _ H1 H2) as H3. case_match; [by apply wp_ret|].
  apply wp_bind. eapply wp_mono; [apply random_bytes_spec|]. intros m tr3 [Hm H4]. apply wp_bind, wp_invoke.
  set (tr4 := tr3 ++ _). assert (during tr [] tr4) as H5.
  { apply (during_trans _ [] tr3 []); [exact (during_trans _ [] _ [] _ H3 H4)|by apply during_quiet]. }
  assert (length (local_mac m) = 6%nat) as Hl by by destruct m.
  eapply wp_built; [by apply discover_built|]. intros frame Hf Htx. apply wp_bind. eapply wp_lift; [done|].
  eapply wp_mono; [eapply (offer_loop_spec 4 u hd); [done|by eapply discover_built]|].
  intros ? tr5 H6. exact (during_trans _ [] _ [] _ H5 H6).
Qed.

Lemma dataplane_spec tr : wp (dataplane_main sys stack) tr (λ _ tr', held tr' = held tr).
Proof.
  unfold dataplane_main. apply wp_bind. eapply wp_mono; [by apply open_spec|].
  intros [u rc] tr1 [(-> & Ho & _)|(-> & _ & _ & Hh)]; cbn [Z.eqb negb]; [|by apply wp_ret].
  destruct (opened_handle _ _ _ Ho) as (hd & Hu & _). apply wp_bind. eapply wp_mono; [by apply (plane_body_spec u hd)|].
  intros out tr2 Hd. apply wp_bind. eapply wp_mono; [apply (close_spec sys (held tr)); by rewrite (during_held _ _ _ Hd)|].
  intros u' tr3 (_ & _ & ?). by apply wp_ret.
Qed.

End programs_spec.

(** ** Properties *)


Module Witness.
Import Usb.Witness.

Definition env_ip : option bytes := Some (gs "192.0.2.7").

(** Against the phone of [Usb.Witness] every send goes through. *)
#[local] Notation dual1 := (dualpath_main phone zeros zero_lease env_ip None None []).

Lemma dual1_sent : ∃ tr', dual1 = Ret ((0, DualSent 11 5 3 3), tr').
Proof.
  assert (match dual1 with Ret (x, _) => x = (0, DualSent 11 5 3 3) | Panic => False end) as Hc by (vm_compute; reflexivity).
  destruct dual1 as [[x tr']|]; [|destruct Hc]. exists tr'. rewrite Hc. reflexivity.
Qed.

Definition server1 : ProbeServer.Server :=
  match ProbeServer.NewServer 11 with Ok s => s | Err _ => ProbeServer.mkServer None 0 0 0 Metrics.NewRegistry 0 0 end.


(** A quad with a tail is accepted. *)
Lemma env_tail : gateway_from_env (Some (gs " 10. 0. 0.1.5 x")) (Some (gs "80tcp")) = Ret (Some ([z2b 10; z2b 0; z2b 0; z2b 1], 80)).
Proof. vm_compute. reflexivity. Qed.

End Witness.

End DualPath.
