(* ===== verification/Policy.v ===== *)
(** * apps/macos/Core: path policy, protection status and impact

    PathPolicy.swift, ProtectionStatus.swift, Impact.swift and Consent.swift.  A
    Swift [String] id is a byte string, a [TimeInterval] a [spec_float] of the
    Standard Library with the binary64 operations; an index out of range, on which
    Swift traps, is [Panic]. *)

From Stdlib Require Import Floats.SpecFloat.
From S2P Require Import Prelude.

Module Policy.

(** ** PathPolicy.swift *)

Inductive PolicyMode := duplicate | failover | smart | auto.
#[export] Instance PolicyMode_eq_dec : EqDecision PolicyMode.
Proof. solve_decision. Defined.

Record PathInfo := mkPath { id : bytes; up : bool; metered : bool }.
Record PathPolicy := mkPolicy { mode : PolicyMode; preferredID : option bytes }.

Definition up_paths (paths : list PathInfo) : list PathInfo := filter (λ p, up p = true) paths.

Definition effectiveMode (pol : PathPolicy) (ups : list PathInfo) : PolicyMode :=
  if decide (mode pol ≠ auto) then mode pol else
  if forallb (λ p, negb (metered p)) ups then duplicate else smart.

Definition choosePrimary (pol : PathPolicy) (ups : list PathInfo) : go PathInfo :=
  let unpreferred := match List.find (λ p, negb (metered p)) ups with Some p => Ret p | None => index ups 0 end in
  match preferredID pol with
  | Some i => match List.find (λ p, bool_decide (id p = i)) ups with Some p => Ret p | None => unpreferred end
  | None => unpreferred
  end.

Definition sendPaths (pol : PathPolicy) (paths : list PathInfo) (primaryUnstable : bool) : go (list bytes) :=
  let ups := up_paths paths in
  if decide (¬ (1 < length ups)%nat) then Ret (map id ups) else
  primary ← choosePrimary pol ups;
  match effectiveMode pol ups with
  | duplicate => Ret (map id ups)
  | failover => Ret [id primary]
  | smart => Ret (if primaryUnstable then map id ups else [id primary])
  | auto => Ret (map id ups)
  end.

(** ** ProtectionStatus.swift *)

Inductive ProtectionStatus := protected | degraded | atRisk | down | paused | connecting | off.
#[export] Instance ProtectionStatus_eq_dec : EqDecision ProtectionStatus.
Proof. solve_decision. Defined.

Definition protectionStatus (paths : list PathInfo) (isPaused isConnecting : bool) : ProtectionStatus :=
  if isPaused then paused else
  if isConnecting then connecting else
  match paths with
  | [] => off
  | _ =>
      let upCount := length (up_paths paths) in
      let configured := length paths in
      if decide (2 ≤ upCount)%nat then protected
      else if decide (upCount = 1 ∧ 2 ≤ configured)%nat then degraded
      else if decide (configured = 1 ∧ upCount = 1)%nat then atRisk
      else down
  end.

(** ** Consent.swift *)

Inductive Tier := free | hosted.
Definition defaultShareEnabled (t : Tier) : bool := match t with free => false | hosted => true end.

(** ** Impact.swift *)

Definition TimeInterval := spec_float.
Definition zero : TimeInterval := S754_zero false.
Definition fadd (x y : TimeInterval) : TimeInterval := SFadd 53 1024 x y.
Definition fdiv (x y : TimeInterval) : TimeInterval := SFdiv 53 1024 x y.
(** Swift's [max]. *)
Definition fmax (x y : TimeInterval) : TimeInterval := if SFleb x y then y else x.

Record ImpactSegment := mkSegment { duration : TimeInterval; upCount : Z }.
Record ImpactStats := mkStats {
  sessionDuration : TimeInterval;
  protectedDuration : TimeInterval;
  outageAbsorbed : TimeInterval;
  failoversSurvived : Z;
  longestDropSurvived : TimeInterval;
  protectedFraction : TimeInterval
}.
Definition no_stats : ImpactStats := mkStats zero zero zero 0 zero zero.

(** The variables of the loop. *)
Record loop := mkLoop { stats : ImpactStats; previousUp : Z; inSurvivedDrop : bool; currentDropRun : TimeInterval }.
Definition loop_start : loop := mkLoop no_stats 0 false zero.

Definition impact_step (l : loop) (s : ImpactSegment) : loop :=
  let st := stats l in
  let st := mkStats (fadd (sessionDuration st) (duration s)) (protectedDuration st) (outageAbsorbed st)
              (failoversSurvived st) (longestDropSurvived st) (protectedFraction st) in
  if upCount s >=? 2 then
    mkLoop (mkStats (sessionDuration st) (fadd (protectedDuration st) (duration s)) (outageAbsorbed st)
              (failoversSurvived st) (longestDropSurvived st) (protectedFraction st))
           (upCount s) false zero
  else if upCount s =? 1 then
    let '(failovers, inDrop, run) :=
      if previousUp l >=? 2 then (failoversSurvived st + 1, true, duration s)
      else if inSurvivedDrop l then (failoversSurvived st, true, fadd (currentDropRun l) (duration s))
      else (failoversSurvived st, false, currentDropRun l) in
    if (inDrop : bool) then
      mkLoop (mkStats (sessionDuration st) (protectedDuration st) (fadd (outageAbsorbed st) (duration s)) failovers
                (fmax (longestDropSurvived st) run) (protectedFraction st))
             (upCount s) inDrop run
    else
      mkLoop (mkStats (sessionDuration st) (protectedDuration st) (outageAbsorbed st) failovers
                (longestDropSurvived st) (protectedFraction st))
             (upCount s) inDrop run
  else mkLoop st (upCount s) false zero.

Definition computeImpact (segments : list ImpactSegment) : ImpactStats :=
  let st := stats (foldl impact_step loop_start segments) in
  if SFltb zero (sessionDuration st) then
    mkStats (sessionDuration st) (protectedDuration st) (outageAbsorbed st) (failoversSurvived st)
      (longestDropSurvived st) (fdiv (protectedDuration st) (sessionDuration st))
  else st.

(** ** Lemmas: the policy *)

Lemma find_head {A} (f : A → bool) l : (∃ x, List.find f l = Some x ∧ x ∈ l ∧ f x = true) ∨ List.find f l = None ∧ Forall (λ x, f x = false) l.
Proof.
  destruct (List.find f l) as [x|] eqn:E.
  - left. exists x. apply List.find_some in E as [Hin Hf]. rewrite list_elem_of_In. done.
  - right. split; [done|]. apply Forall_forall. intros x Hx. apply (List.find_none _ _ E). by apply list_elem_of_In.
Qed.

(** The primary is the preferred path if it is up, and is metered only when
    preferred or when every path that is up is metered. *)
Lemma choosePrimary_spec pol ups :
  ups ≠ [] →
  ∃ p, choosePrimary pol ups = Ret p ∧ p ∈ ups ∧
    (∀ i, preferredID pol = Some i → i ∈ map id ups → id p = i) ∧
    (metered p = true → preferredID pol = Some (id p) ∨ Forall (λ q, metered q = true) ups).
Proof.
  intros Hne.
  assert (∃ p, match List.find (λ p, negb (metered p)) ups with Some p => Ret p | None => index ups 0 end = Ret p ∧ p ∈ ups ∧
    (metered p = true → Forall (λ q, metered q = true) ups)) as (p & Hp & Hin & Hm).
  { destruct (find_head (λ p, negb (metered p)) ups) as [(p & -> & Hin & Hp)|[-> Hall]].
    - exists p. split; [done|]. split; [done|]. intros E. by rewrite E in Hp.
    - destruct ups as [|p ups]; [done|]. exists p. split; [done|]. split; [apply elem_of_cons; by left|]. intros _.
      eapply Forall_impl; [exact Hall|]. intros q Hq. by apply negb_false_iff. }
  unfold choosePrimary. destruct (preferredID pol) as [i|]; [|exists p; split_and!; [done|done|done|by auto]].
  destruct (find_head (λ p, bool_decide (id p = i)) ups) as [(q & -> & Hq & Hi)|[-> Hall]].
  - apply bool_decide_eq_true in Hi as <-. exists q. split; [done|]. split; [done|]. split; [by intros ? [= <-]|by left].
  - exists p. split; [done|]. split; [done|]. split; [|by auto].
    intros ? [= <-] Hi. apply list_elem_of_fmap in Hi as (q & -> & Hq). rewrite Forall_forall in Hall.
    specialize (Hall q Hq). by rewrite bool_decide_true in Hall.
Qed.

(** When all the paths that are up carry the packet. *)
Definition sends_all (pol : PathPolicy) (ups : list PathInfo) (unstable : bool) : bool :=
  match mode pol with
  | duplicate => true
  | failover => false
  | smart => unstable
  | auto => unstable || forallb (λ p, negb (metered p)) ups
  end.

Lemma sendPaths_cases pol paths unstable :
  let ups := up_paths paths in
  ((length ups ≤ 1)%nat ∨ sends_all pol ups unstable = true) ∧ sendPaths pol paths unstable = Ret (map id ups) ∨
  (1 < length ups)%nat ∧ sends_all pol ups unstable = false ∧
    ∃ p, choosePrimary pol ups = Ret p ∧ sendPaths pol paths unstable = Ret [id p].
Proof.
  intros ups. unfold sendPaths. fold ups. destruct (decide (1 < length ups)%nat) as [Hl|Hl].
  2: { rewrite decide_True by done. left. split; [left; lia|done]. }
  rewrite decide_False by auto. destruct (choosePrimary_spec pol ups) as (p & -> & _); [by destruct ups; cbn in Hl; [lia|]|].
  mstep. unfold effectiveMode, sends_all. destruct (mode pol); [rewrite decide_True by done..|rewrite decide_False by auto].
  - by left; auto.
  - by right; eauto.
  - destruct unstable; [by left; auto|by right; eauto].
  - destruct (forallb _ ups); [left; rewrite orb_true_r; by auto|]. destruct unstable; [by left; auto|by right; eauto].
Qed.

(** ** Lemmas: the impact of a session *)

(** A segment with the segments before it. *)
Fixpoint positions (before segs : list ImpactSegment) : list (list ImpactSegment * ImpactSegment) :=
  match segs with
  | [] => []
  | s :: segs => (before, s) :: positions (before ++ [s]) segs
  end.

(** The number of paths up before the stretch on one path that a segment continues. *)
Definition origin (before : list ImpactSegment) : Z :=
  default 0 (upCount <$> List.find (λ s, negb (upCount s =? 1)) (reverse before)).
(** The stretch on one path just before. *)
Fixpoint leading_ones (segs : list ImpactSegment) : list ImpactSegment :=
  match segs with
  | s :: segs => if upCount s =? 1 then s :: leading_ones segs else []
  | [] => []
  end.
Definition last_up (before : list ImpactSegment) : Z := default 0 (upCount <$> head (reverse before)).

Definition is_protected (x : list ImpactSegment * ImpactSegment) : bool := upCount x.2 >=? 2.
Definition survived (x : list ImpactSegment * ImpactSegment) : bool := (upCount x.2 =? 1) && (origin x.1 >=? 2).
Definition fell (x : list ImpactSegment * ImpactSegment) : bool := (upCount x.2 =? 1) && (last_up x.1 >=? 2).
(** The time survived so far on one path, at a segment. *)
Definition survived_run (x : list ImpactSegment * ImpactSegment) : TimeInterval :=
  match reverse (leading_ones (reverse x.1)) ++ [x.2] with
  | s :: rest => foldl fadd (duration s) (map duration rest)
  | [] => zero
  end.

Definition total (l : list (list ImpactSegment * ImpactSegment)) : TimeInterval := foldl fadd zero (map (λ x, duration x.2) l).

Definition impact_spec (segs : list ImpactSegment) : ImpactStats :=
  let ps := positions [] segs in
  mkStats (total ps) (total (List.filter is_protected ps)) (total (List.filter survived ps))
    (Z.of_nat (length (List.filter fell ps)))
    (foldl fmax zero (map survived_run (List.filter survived ps))) zero.

Lemma positions_snoc before segs s : positions before (segs ++ [s]) = positions before segs ++ [(before ++ segs, s)].
Proof.
  revert before. induction segs as [|x segs IH]; intros before; cbn; [by rewrite app_nil_r|]. rewrite IH.
  by rewrite <-app_assoc.
Qed.

Lemma filter_snoc {A} (f : A → bool) l x : List.filter f (l ++ [x]) = List.filter f l ++ (if f x then [x] else []).
Proof. rewrite List.filter_app. cbn. by destruct (f x). Qed.

Lemma total_snoc l x : total (l ++ [x]) = fadd (total l) (duration x.2).
Proof. unfold total. by rewrite map_app, foldl_app. Qed.

(** What the loop's variables say about the segments seen. *)
Record loop_inv (segs : list ImpactSegment) (l : loop) : Prop := {
  li_stats : stats l = impact_spec segs;
  li_prev : previousUp l = last_up segs;
  li_drop : inSurvivedDrop l = (last_up segs =? 1) && (origin segs >=? 2);
  li_run : inSurvivedDrop l = true → ∀ s, upCount s = 1 → survived_run (segs, s) = fadd (currentDropRun l) (duration s)
}.

Lemma last_up_snoc segs s : last_up (segs ++ [s]) = upCount s.
Proof. unfold last_up. by rewrite reverse_snoc. Qed.
Lemma origin_snoc segs s : origin (segs ++ [s]) = if upCount s =? 1 then origin segs else upCount s.
Proof. unfold origin. rewrite reverse_snoc. cbn. by destruct (upCount s =? 1). Qed.

Lemma survived_run_next segs s s' :
  upCount s = 1 → survived_run (segs ++ [s], s') = fadd (survived_run (segs, s)) (duration s').
Proof.
  intros Hs. unfold survived_run. cbn [fst snd]. rewrite reverse_snoc. cbn [leading_ones]. rewrite Hs. cbn [Z.eqb Pos.eqb].
  rewrite reverse_cons. destruct (reverse (leading_ones (reverse segs))) as [|x rest]; [done|]. cbn [app].
  by rewrite map_app, foldl_app.
Qed.

Lemma last_up_other segs : last_up segs ≠ 1 → origin segs = last_up segs ∧ ∀ s, survived_run (segs, s) = duration s.
Proof.
  unfold last_up, origin, survived_run. cbn [fst snd]. destruct (reverse segs) as [|x rest]; [done|]. cbn. intros Hx.
  by destruct (Z.eqb_spec (upCount x) 1).
Qed.

Lemma impact_spec_snoc segs s :
  let st := impact_spec segs in
  let x := (segs, s) in
  impact_spec (segs ++ [s]) =
    mkStats (fadd (sessionDuration st) (duration s))
      (if is_protected x then fadd (protectedDuration st) (duration s) else protectedDuration st)
      (if survived x then fadd (outageAbsorbed st) (duration s) else outageAbsorbed st)
      (if fell x then failoversSurvived st + 1 else failoversSurvived st)
      (if survived x then fmax (longestDropSurvived st) (survived_run x) else longestDropSurvived st) zero.
Proof.
  intros st x. unfold impact_spec. rewrite positions_snoc, app_nil_l, !filter_snoc. fold x.
  f_equal.
  - by rewrite total_snoc.
  - destruct (is_protected x); [by rewrite total_snoc|by rewrite app_nil_r].
  - destruct (survived x); [by rewrite total_snoc|by rewrite app_nil_r].
  - destruct (fell x); [rewrite length_app; cbn [length st failoversSurvived impact_spec]; lia|by rewrite app_nil_r].
  - destruct (survived x); [by rewrite map_app, foldl_app|by rewrite app_nil_r].
Qed.

Lemma impact_step_inv segs l s : loop_inv segs l → loop_inv (segs ++ [s]) (impact_step l s).
Proof.
  intros [Hst Hprev Hdrop Hrun]. pose proof (impact_spec_snoc segs s) as Hspec. unfold impact_step. rewrite Hst, Hprev.
  unfold is_protected, survived, fell in Hspec. cbn [fst snd] in Hspec.
  destruct (Z.geb_spec (upCount s) 2) as [H2|H2].
  { destruct (Z.eqb_spec (upCount s) 1); [lia|]. cbn in Hspec. split; cbn [stats previousUp inSurvivedDrop currentDropRun]; rewrite ?Hspec, ?last_up_snoc, ?origin_snoc; try done.
    by destruct (Z.eqb_spec (upCount s) 1); [lia|]. }
  destruct (Z.eqb_spec (upCount s) 1) as [H1|H1]; cbn [andb] in Hspec.
  2: { split; cbn [stats previousUp inSurvivedDrop currentDropRun]; rewrite ?Hspec, ?last_up_snoc, ?origin_snoc; try done. by destruct (Z.eqb_spec (upCount s) 1). }
  destruct (Z.geb_spec (last_up segs) 2) as [Hp|Hp].
  { destruct (last_up_other segs) as [Ho Hr]; [lia|]. rewrite Ho in Hspec. destruct (Z.geb_spec (last_up segs) 2); [|lia].
    rewrite Hr in Hspec. split; cbn [stats previousUp inSurvivedDrop currentDropRun]; rewrite ?Hspec, ?last_up_snoc, ?origin_snoc; try done.
    - rewrite H1, Ho. cbn [Z.eqb Pos.eqb andb]. by destruct (Z.geb_spec (last_up segs) 2); [|lia].
    - intros _ s' Hs'. rewrite survived_run_next, Hr by done. done. }
  destruct (inSurvivedDrop l) eqn:Hd.
  { symmetry in Hdrop. apply andb_true_iff in Hdrop as [Hl Ho]. rewrite Ho in Hspec. rewrite (Hrun eq_refl s H1) in Hspec.
    split; cbn [stats previousUp inSurvivedDrop currentDropRun]; rewrite ?Hspec, ?last_up_snoc, ?origin_snoc; try done.
    - rewrite H1. cbn [Z.eqb Pos.eqb andb]. by rewrite Ho.
    - intros _ s' Hs'. rewrite survived_run_next, (Hrun eq_refl s H1) by done. done. }
  assert (origin segs >=? 2 = false) as Ho.
  { destruct (Z.eqb_spec (last_up segs) 1); [done|]. destruct (last_up_other segs) as [-> _]; [done|].
    by destruct (Z.geb_spec (last_up segs) 2); [lia|]. }
  rewrite Ho in Hspec. split; cbn [stats previousUp inSurvivedDrop currentDropRun]; rewrite ?Hspec, ?last_up_snoc, ?origin_snoc; try done.
  rewrite H1. cbn [Z.eqb Pos.eqb andb]. by rewrite Ho.
Qed.

Lemma impact_loop segs : loop_inv segs (foldl impact_step loop_start segs).
Proof.
  induction segs as [|s segs IH] using rev_ind; [by split|]. rewrite foldl_app. by apply impact_step_inv.
Qed.

(** ** Properties *)

(** C36: The policy sends where it says.  For every mode, preference and path list,
    [sendPaths] returns (its index into the paths that are up is never out of range)
    a selection of the paths that are up, empty only when none is up; it is all of
    them exactly in the situations of the mode, and otherwise one primary, which is
    the preferred path whenever that is up.  A metered path is used only when it is
    the only one up, when every path is to carry the packet, when the user prefers
    it, or when all the paths that are up are metered. *)
Theorem policy_exact (pol : PathPolicy) (paths : list PathInfo) (unstable : bool) :
  let ups := up_paths paths in
  let all := bool_decide (length ups ≤ 1)%nat || sends_all pol ups unstable in
  ∃ ids, sendPaths pol paths unstable = Ret ids ∧ (ids = [] ↔ ups = []) ∧
    if all then ids = map id ups
    else ∃ p, ids = [id p] ∧ p ∈ ups ∧
      (∀ i, preferredID pol = Some i → i ∈ map id ups → id p = i) ∧
      (metered p = true → preferredID pol = Some (id p) ∨ Forall (λ q, metered q = true) ups).
Proof.
  intros ups all. unfold all.
  destruct (sendPaths_cases pol paths unstable) as [[Hall Hs]|(Hl & Hall & p & Hp & Hs)]; fold ups in Hall, Hs; rewrite Hs.
  - exists (map id ups). split; [done|]. split; [by destruct ups|].
    destruct Hall as [Hl|Hall]; [by rewrite bool_decide_true|by rewrite Hall, orb_true_r].
  - fold ups in Hl, Hp. exists [id p]. split; [done|]. assert (ups ≠ []) as Hne by (destruct ups; cbn in Hl; [lia|done]).
    split; [done|]. rewrite Hall, bool_decide_false by lia. cbn. exists p. split; [done|].
    destruct (choosePrimary_spec pol ups Hne) as (p' & Hp' & Hspec). rewrite Hp in Hp'. by injection Hp' as <-.
Qed.

(** The status shown is the redundancy there is.  When protection is neither
    paused nor connecting, [protectionStatus] says [protected] exactly when two or
    more paths are up, and then Duplicate sends every packet over at least two;
    [degraded] and [atRisk] mean that exactly one path is up, and every mode sends
    over exactly that one; [down] and [off] mean that none is, and nothing is sent. *)
Theorem status_tells_redundancy (pol : PathPolicy) (paths : list PathInfo) (unstable : bool) :
  ∃ ids, sendPaths pol paths unstable = Ret ids ∧
    match protectionStatus paths false false with
    | protected => (2 ≤ length (up_paths paths))%nat ∧ (mode pol = duplicate → (2 ≤ length ids)%nat)
    | degraded => (2 ≤ length paths)%nat ∧ ∃ p, up_paths paths = [p] ∧ ids = [id p]
    | atRisk => ∃ p, paths = [p] ∧ up p = true ∧ ids = [id p]
    | down => paths ≠ [] ∧ up_paths paths = [] ∧ ids = []
    | off => paths = [] ∧ ids = []
    | paused | connecting => False
    end.
Proof.
  destruct (sendPaths_cases pol paths unstable) as [[Hall Hs]|(Hl & Hall & p & Hp & Hs)].
  2: { exists [id p]. split; [done|]. unfold protectionStatus. destruct paths as [|q paths]; [cbn in Hl; lia|].
       rewrite decide_True by lia. split; [lia|]. unfold sends_all in Hall. intros Hm. by rewrite Hm in Hall. }
  eexists. split; [done|]. unfold protectionStatus. destruct paths as [|q paths]; [done|]. set (l := q :: paths) in *.
  case_decide as H2; [split; [done|]; by rewrite length_map|]. case_decide as H1.
  { destruct H1 as [H1 Hc]. split; [done|]. destruct (up_paths l) as [|p [|]]; try done. by exists p. }
  case_decide as Hr.
  { destruct Hr as [Hc Hu]. destruct paths; [|done]. unfold l, up_paths in *. rewrite filter_cons in *. case_decide; [|done].
    by exists q. }
  split; [done|]. destruct (up_paths l) as [|p [|]]; [done| |cbn in H2; lia].
  exfalso. cbn in *. destruct paths; [by apply Hr|]. apply H1. cbn. lia.
Qed.

(** C37: The impact figures are the session's history.  For every sequence of
    segments, the single pass of [computeImpact] gives the totals its comments
    describe: session time over all segments, protected time over those with two or
    more paths up, absorbed outage over those on one path whose stretch began with a
    fall from two or more, the number of such falls, and the longest such stretch;
    single-path time that did not begin so counts for nothing. *)
Theorem impact_exact (segs : list ImpactSegment) :
  let st := computeImpact segs in
  let spec := impact_spec segs in
  sessionDuration st = sessionDuration spec ∧ protectedDuration st = protectedDuration spec ∧
  outageAbsorbed st = outageAbsorbed spec ∧ failoversSurvived st = failoversSurvived spec ∧
  longestDropSurvived st = longestDropSurvived spec ∧
  protectedFraction st = (if SFltb zero (sessionDuration spec)
                          then fdiv (protectedDuration spec) (sessionDuration spec) else zero).
Proof.
  intros st spec. unfold st, computeImpact. rewrite (li_stats _ _ (impact_loop segs)). fold spec.
  by destruct (SFltb zero (sessionDuration spec)).
Qed.

End Policy.
