(* ===== verification/WiFiSender.v ===== *)
(** * apps/macos/PacketTunnelExtension: WiFiPathSender.swift

    The Wi-Fi socket of the packet tunnel as a state machine: its flags, the
    one-shot result and its semaphore, and the receives outstanding on the
    [NWConnection].  The connection belongs to the Network framework: each of its
    completions is an input, given to any of the outstanding receives.  The
    interface lookup and the wait for readiness are outcomes of the opening. *)

From S2P Require Import Prelude.

Module WiFiSender.

Inductive error :=
| connectTimeout | connectionFailed | receiveTimeout | closed | interfaceNotFound (name : bytes) | NWError (code : Z).

(** ** Opening *)

(** The state handler of [awaitReady] before its deadline. *)
Inductive readiness := Ready | FailedState | Cancelled | TimedOut.

Inductive receive := OneShot | Loop.
#[export] Instance receive_eq_dec : EqDecision receive.
Proof. solve_decision. Defined.

Record sender := mkSender {
  isClosed : bool;
  loopActive : bool;
  pendingDatagram : option (result error bytes);
  signals : nat;                 (* the count of receiveSemaphore *)
  armed : list receive;          (* receiveMessage calls not completed yet *)
  cancelled : bool               (* the connection *)
}.

Definition opened : sender := mkSender false false None 0 [] false.

Definition awaitReady (r : readiness) : option error :=
  match r with
  | Ready => None
  | FailedState => Some connectionFailed
  | Cancelled => Some closed
  | TimedOut => Some connectTimeout
  end.

Definition init (boundInterface : option bytes) (available : bytes → bool) (r : readiness) : result error sender :=
  let start := match awaitReady r with Some e => Err e | None => Ok opened end in
  match boundInterface with
  | Some name => if available name then start else Err (interfaceNotFound name)
  | None => start
  end.

(** ** Sending and receiving *)

(** [sent] is what the completion of the connection's send reports. *)
Definition send (s : sender) (sent : option error) : option error := if isClosed s then Some closed else sent.

Definition arm (r : receive) (s : sender) : sender :=
  mkSender (isClosed s) (loopActive s) (pendingDatagram s) (signals s) (armed s ++ [r]) (cancelled s).

(** [receiveOneDatagram] up to the wait on the semaphore. *)
Definition receive_begin (s : sender) : result error sender := if isClosed s then Err closed else Ok (arm OneShot s).

(** The wait, which ends at a signal or at the deadline, and what follows it. *)
Definition receive_end (s : sender) : sender * result error bytes :=
  match signals s with
  | O => (s, Err receiveTimeout)
  | S n =>
      (mkSender (isClosed s) (loopActive s) None n (armed s) (cancelled s), default (Err receiveTimeout) (pendingDatagram s))
  end.

Definition receiveNext (s : sender) : sender := if loopActive s then arm Loop s else s.

Definition receiveLoop (s : sender) : sender :=
  if isClosed s || loopActive s then s
  else receiveNext (mkSender (isClosed s) true (pendingDatagram s) (signals s) (armed s) (cancelled s)).

Definition close (s : sender) : sender := mkSender true false (pendingDatagram s) (signals s) (armed s) true.

(** The arguments of a completion. *)
Record completion := mkCompletion { data : option bytes; isComplete : bool; failure : option error }.

(** The datagram of a completion, when it has one. *)
Definition datagram (c : completion) : option bytes := match data c with Some [] => None | d => d end.

(** The completion handler of a receive, and the datagram given to [onDatagram]. *)
Definition on_receive (r : receive) (c : completion) (s : sender) : sender * list bytes :=
  match r with
  | OneShot =>
      let store x := mkSender (isClosed s) (loopActive s) (Some x) (S (signals s)) (armed s) (cancelled s) in
      match datagram c, failure c with
      | Some d, _ => (store (Ok d), [])
      | None, Some e => (store (Err e), [])
      | None, None => if isComplete c then (store (Err closed), []) else (arm OneShot s, [])
      end
  | Loop =>
      let delivered := match datagram c with Some d => [d] | None => [] end in
      let hasData := match datagram c with Some _ => true | None => false end in
      if match failure c with Some _ => true | None => false end || (isComplete c && negb hasData) then (s, delivered)
      else (receiveNext s, delivered)
  end.

(** The [i]th outstanding receive completes. *)
Definition complete (s : sender) (i : nat) (c : completion) : sender * list bytes :=
  match armed s !! i with
  | None => (s, [])
  | Some r =>
      on_receive r c (mkSender (isClosed s) (loopActive s) (pendingDatagram s) (signals s)
                        (take i (armed s) ++ drop (S i) (armed s)) (cancelled s))
  end.

Fixpoint completes (s : sender) (cs : list (nat * completion)) : sender * list bytes :=
  match cs with
  | [] => (s, [])
  | (i, c) :: cs =>
      let '(s, d) := complete s i c in
      let '(s, ds) := completes s cs in (s, d ++ ds)
  end.

(** ** Lemmas *)

Lemma init_opened i a r s : init i a r = Ok s → s = opened.
Proof. unfold init. by destruct i as [n|]; [destruct (a n)|]; destruct r; cbn; intros; simplify_eq. Qed.

Lemma completes_app s cs1 cs2 :
  completes s (cs1 ++ cs2) = let '(s, ds) := completes s cs1 in let '(s, ds') := completes s cs2 in (s, ds ++ ds').
Proof.
  revert s. induction cs1 as [|[i c] cs1 IH]; intros s; cbn [app completes]; [by destruct (completes s cs2)|].
  destruct (complete s i c) as [s' d]. rewrite IH. destruct (completes s' cs1) as [s2 ds].
  destruct (completes s2 cs2) as [s3 d3]. by rewrite app_assoc.
Qed.

(** A completion that leaves the loop running. *)
Definition passing (c : completion) : Prop := failure c = None ∧ (isComplete c = true → is_Some (datagram c)).

Lemma loop_step s i c :
  armed s = [Loop] → loopActive s = true → passing c →
  complete s i c = (s, match i with O => option_list (datagram c) | _ => [] end).
Proof.
  intros Ha Hl [Hf Hc]. unfold complete. rewrite Ha. destruct i as [|i]; [|done]. cbn [lookup list_lookup take drop app].
  unfold on_receive, receiveNext. rewrite Hf. destruct s as [c0 l p n a k]. cbn in *. subst.
  destruct (datagram c) as [d|] eqn:Hd; [by rewrite andb_false_r|].
  destruct (isComplete c); [by destruct (Hc eq_refl)|done].
Qed.

Lemma loop_run s cs :
  armed s = [Loop] → loopActive s = true → Forall (λ x, x.1 = 0%nat ∧ passing x.2) cs →
  completes s cs = (s, omap (λ x, datagram x.2) cs).
Proof.
  intros Ha Hl Hcs. induction Hcs as [|[i c] cs [Hi Hc] _ IH]; [done|]. cbn [fst snd] in *. subst i. cbn [completes].
  rewrite loop_step by done. rewrite IH. cbn [omap list_omap snd]. by destruct (datagram c).
Qed.

(** A spurious completion of the one-shot receive arms it again. *)
Definition spurious (c : completion) : Prop := datagram c = None ∧ failure c = None ∧ isComplete c = false.

Lemma spurious_run s cs :
  armed s = [OneShot] → Forall (λ x, x.1 = 0%nat ∧ spurious x.2) cs → completes s cs = (s, []).
Proof.
  intros Ha Hcs. induction Hcs as [|[i c] cs [Hi (Hd & Hf & Hc)] _ IH]; [done|]. cbn [fst snd] in *. subst i. cbn [completes].
  assert (complete s 0 c = (s, [])) as ->; [|by rewrite IH].
  unfold complete. rewrite Ha. cbn [lookup list_lookup take drop app]. unfold on_receive. rewrite Hd, Hf, Hc.
  destruct s. cbn in *. by subst.
Qed.

(** After [close], nothing is armed by a completion of the loop, so each receive
    that was outstanding gives at most its own datagram. *)
Lemma closed_step s i c : isClosed s = true → loopActive s = false → Forall (eq Loop) (armed s) →
  ∃ d, complete s i c = (mkSender true false (pendingDatagram s) (signals s) (take i (armed s) ++ drop (S i) (armed s)) (cancelled s), d) ∧
    (length d + length (take i (armed s) ++ drop (S i) (armed s)) ≤ length (armed s))%nat.
Proof.
  intros Hc Hl Ha. unfold complete. destruct (armed s !! i) as [r|] eqn:Hi.
  - assert (r = Loop) as -> by (symmetry; by apply (Forall_lookup_1 _ _ _ _ Ha Hi)). apply lookup_lt_Some in Hi.
    unfold on_receive, receiveNext. cbn [loopActive]. rewrite Hc, Hl.
    exists (match datagram c with Some d => [d] | None => [] end). split; [by case_match|].
    rewrite length_app, length_take, length_drop. destruct (datagram c); cbn; lia.
  - apply lookup_ge_None in Hi. exists []. rewrite take_ge, drop_ge, app_nil_r by lia. destruct s. cbn in *. subst.
    split; [done|]. cbn. lia.
Qed.

Lemma closed_run s cs : isClosed s = true → loopActive s = false → Forall (eq Loop) (armed s) →
  (length (completes s cs).2 ≤ length (armed s))%nat.
Proof.
  revert s. induction cs as [|[i c] cs IH]; intros s Hc Hl Ha; [cbn; lia|]. cbn [completes].
  destruct (closed_step s i c Hc Hl Ha) as (d & -> & Hn).
  match goal with |- context [completes ?s' cs] => specialize (IH s' eq_refl eq_refl) end.
  cbn [armed] in IH. destruct (completes _ cs) as [s2 ds]. cbn [snd] in *. rewrite length_app.
  assert (length ds ≤ length (take i (armed s) ++ drop (S i) (armed s)))%nat; [|lia].
  apply IH, Forall_app. split; [by apply Forall_take|by apply Forall_drop].
Qed.

(** ** Properties *)

(** The socket of the tunnel.  In the order the tunnel uses it, the read of the
    handshake returns the first datagram that arrives, however many spurious
    completions come before it; the loop started then hands over every later
    datagram, each once and in order of arrival; and after [close] at most the one
    receive still outstanding hands over a datagram, and every send is refused. *)
Theorem handshake_then_loop (spur : list (nat * completion)) (hello : bytes) (msg : completion)
    (cs rest : list (nat * completion)) :
  Forall (λ x, x.1 = 0%nat ∧ spurious x.2) spur → datagram msg = Some hello →
  Forall (λ x, x.1 = 0%nat ∧ passing x.2) cs →
  ∃ s1 s2 s3, receive_begin opened = Ok s1 ∧ completes s1 (spur ++ [(0%nat, msg)]) = (s2, []) ∧
    receive_end s2 = (s3, Ok hello) ∧
    completes (receiveLoop s3) cs = (receiveLoop s3, omap (λ x, datagram x.2) cs) ∧
    (length (completes (close (receiveLoop s3)) rest).2 ≤ 1)%nat ∧
    ∀ sent, send (close (receiveLoop s3)) sent = Some closed.
Proof.
  intros Hsp Hm Hcs. exists (arm OneShot opened). eexists _, _. split; [done|].
  assert (completes (arm OneShot opened) (spur ++ [(0%nat, msg)]) = (mkSender false false (Some (Ok hello)) 1 [] false, [])) as ->.
  { rewrite completes_app, spurious_run by done. cbn [completes]. unfold complete. cbn [armed arm opened app lookup list_lookup].
    unfold on_receive. by rewrite Hm. }
  split; [done|]. cbn [receive_end signals default pendingDatagram]. split; [done|]. split_and!; [by apply loop_run| |done].
  match goal with |- (length (completes ?s rest).2 ≤ 1)%nat => change 1%nat with (length (armed s)) end.
  apply closed_run; [done|done|]. cbn. by repeat constructor.
Qed.

(** ** Witnesses *)

Module Witness.

(** A read that reached its deadline leaves its receive outstanding, and the next
    datagram answers it instead of the loop. *)
Lemma late_datagram_swallowed d :
  d ≠ [] → let s := receiveLoop (receive_end (arm OneShot opened)).1 in
  receive_end (arm OneShot opened) = (arm OneShot opened, Err receiveTimeout) ∧
  armed s = [OneShot; Loop] ∧ (complete s 0 (mkCompletion (Some d) true None)).2 = [].
Proof. intros Hd. cbn. by destruct d. Qed.

Definition message (d : string) : completion := mkCompletion (Some (gs d)) true None.
Definition nothing : completion := mkCompletion None false None.

Lemma handshake_then_loop_witness :
  ∃ s1 s2 s3, receive_begin opened = Ok s1 ∧ completes s1 ([(0%nat, nothing)] ++ [(0%nat, message "hello")]) = (s2, []) ∧
    receive_end s2 = (s3, Ok (gs "hello")) ∧
    completes (receiveLoop s3) [(0%nat, message "a"); (0%nat, nothing); (0%nat, message "b")] = (receiveLoop s3, [gs "a"; gs "b"]) ∧
    (length (completes (close (receiveLoop s3)) [(0%nat, message "c"); (0%nat, message "d")]).2 ≤ 1)%nat ∧
    ∀ sent, send (close (receiveLoop s3)) sent = Some closed.
Proof.
  apply (handshake_then_loop [(0%nat, nothing)] (gs "hello") (message "hello")
    [(0%nat, message "a"); (0%nat, nothing); (0%nat, message "b")] [(0%nat, message "c"); (0%nat, message "d")]).
  - apply Forall_cons_2; [by repeat split|apply Forall_nil_2].
  - reflexivity.
  - repeat (apply Forall_cons_2; [split; [reflexivity|split; [reflexivity|cbn; intros; (discriminate || (eexists; reflexivity))]]|]).
    apply Forall_nil_2.
Defined.

End Witness.

End WiFiSender.
