(* ===== verification/MacClient.v ===== *)
(** * apps/macos/PacketTunnelExtension: the macOS tunnel over the transport core

    CoreTransport.swift (the Swift face of the C ABI of bridge/geminacore),
    DualPathTransport.swift (the relay), and the packet paths of
    GeminaTunnelProvider.swift and GeminaTunnelBootstrap.swift.  A Swift trap (a
    failed precondition, an [Int32] out of range) is [Panic]; a thrown error is
    [Err].  The network under the handshake and the path senders are arguments:
    what each call answers.  The state of the model is the bridge's registries. *)

From S2P Require Import Prelude GoText GoTime Protocol ReplayWindow Wire Crypto Session Handshake Bridge.
From S2P Require Import Netip Allocator PathSet Router Entitlement Metrics Gateway Tunnel Policy WiFiSender.
Import Protocol Wire Session Handshake GoTime.

Module MacClient.

(** ** CoreTransport.swift *)

Inductive CoreTransportError := sessionCreateFailed | badHandle | bufferTooSmall | coreRejected | unknown (code : Z).

Definition coreError (code : Z) : CoreTransportError :=
  if code =? -1 then badHandle else if code =? -2 then bufferTooSmall else
  if code =? -3 then coreRejected else unknown code.

(** What sending the ClientHello and waiting for the ServerHello led to; the wait
    failed at its deadline or earlier. *)
Inductive exchange := SendFailed | ReceiveFailed (late : bool) | Received (serverHello : bytes).

Inductive error :=
| Core (e : CoreTransportError) | SendError | ReceiveError (late : bool) (* CoreTransport.connect *)
| missingGatewayAddress                                                 (* TunnelError *)
| missingProviderConfiguration | missingField (key : bytes) | invalidGatewayKey   (* BootstrapError *)
| PathSenderError (e : WiFiSender.error)                                (* WiFiPathSender.init *)
| SettingsError.                                                        (* setTunnelNetworkSettings *)

(** [Int32(n)] traps out of range. *)
Definition int32 (n : nat) : go Z := if Z.of_nat n <? 2 ^ 31 then Ret (Z.of_nat n) else Panic.

(** [String.withCString] *)
Definition cstring (s : bytes) : bytes := s ++ [z2b 0].

Definition frameOverhead : nat := 64.
Definition helloBufSize : nat := Z.to_nat 8192.

Section client.
Context `{CA : AEAD, CX : X25519, CK : HKDF, CE : Ed25519}.
Abbreviation bridge := Bridge.bridge.

(** The result of [connect] is the session handle and the assigned address. *)
Record HandshakeResult := mkHandshake { core : Z; assignedIPv4 : bytes }.

(** [net] is the pair of callbacks; [rid], [rkey] and [now] the randomness and the
    clock the core reads. *)
Definition connect (b : bridge) (gatewayPublicKey token : bytes) (dedupCapacity : Z) (net : bytes → exchange)
    (rid : option SessionID) (rkey : option bytes) (now : Time) : go (bridge * result error HandshakeResult) :=
  if decide (length gatewayPublicKey ≠ 32%nat) then Panic else
  cap ← int32 helloBufSize;
  '(b, helloLen, hsHandle, helloBuf) ←
    Bridge.cc_handshake_begin b gatewayPublicKey (cstring token) (zeros helloBufSize) cap rid rkey now;
  if negb ((helloLen >? 0) && negb (hsHandle =? 0)) then Ret (b, Err (Core (coreError helloLen))) else
  match net (take (Z.to_nat helloLen) helloBuf) with
  | SendFailed => Ret (Bridge.cc_handshake_cancel b hsHandle, Err SendError)
  | ReceiveFailed late => Ret (Bridge.cc_handshake_cancel b hsHandle, Err (ReceiveError late))
  | Received serverHello =>
      len ← int32 (length serverHello);
      '(b, sessionHandle, assigned) ←
        Bridge.cc_handshake_complete b hsHandle serverHello len dedupCapacity (Some (zeros 4));
      if sessionHandle =? 0 then Ret (b, Err (Core coreRejected))
      else Ret (b, Ok (mkHandshake sessionHandle (default (zeros 4) assigned)))
  end.

Definition init (b : bridge) (sessionID key : bytes) (r dedupCapacity : Z) : go (bridge * result error Z) :=
  if decide (length sessionID ≠ 16%nat) then Panic else
  if decide (length key ≠ 32%nat) then Panic else
  '(b, created) ← Bridge.cc_session_new b sessionID key r dedupCapacity;
  if created =? 0 then Ret (b, Err (Core sessionCreateFailed)) else Ret (b, Ok created).

Definition deinit (b : bridge) (handle : Z) : bridge := Bridge.cc_session_free b handle.

Definition outbound (b : bridge) (handle : Z) (payload : bytes) : go (bridge * result error bytes) :=
  let out := zeros (length payload + frameOverhead) in
  len ← int32 (length payload);
  cap ← int32 (length out);
  '(b, written, out) ← Bridge.cc_outbound b handle payload len out cap;
  if written <? 0 then Ret (b, Err (Core (coreError written))) else Ret (b, Ok (take (Z.to_nat written) out)).

(** The path label is only handed to the core. *)
Definition inbound (b : bridge) (handle : Z) (wire : bytes) : go (bridge * result error (bytes * bool)) :=
  let out := zeros (Nat.max (length wire) 1) in
  len ← int32 (length wire);
  cap ← int32 (length out);
  '(b, written, deliver, out) ← Bridge.cc_inbound b handle wire len out cap;
  if written <? 0 then Ret (b, Err (Core (coreError written)))
  else Ret (b, Ok (take (Z.to_nat written) out, deliver =? 1)).

(** ** DualPathTransport.swift *)

(** A path sender: its name and whether [send] succeeds. *)
Record PathSender := mkSender { name : bytes; send_ok : bool }.
Record DualPathRelay := mkRelay { relay_core : Z; paths : list PathSender; policy : Policy.PathPolicy }.

Inductive failure := sendFailed | noSenderForSelectedPath.

(** The result is the datagrams handed to the senders and the failures. *)
Definition sendOutbound (b : bridge) (r : DualPathRelay) (packet : bytes) (pathStates : list Policy.PathInfo)
    (primaryUnstable : bool) : go (bridge * result error (list (bytes * bytes) * gmap bytes failure)) :=
  '(b, framed) ← outbound b (relay_core r) packet;
  match framed with
  | Err e => Ret (b, Err e)
  | Ok framed =>
      selected ← Policy.sendPaths (policy r) pathStates primaryUnstable;
      let used := filter (λ p, name p ∈ selected) (paths r) in
      let failed : gmap bytes failure := list_to_map ((λ p, (name p, sendFailed)) <$> filter (λ p, send_ok p = false) used) in
      let missing : gmap bytes failure := list_to_map ((λ n, (n, noSenderForSelectedPath)) <$> filter (λ n, n ∉ (name <$> paths r)) selected) in
      Ret (b, Ok ((λ p, (name p, framed)) <$> used, failed ∪ missing))
  end.

Definition receiveInbound (b : bridge) (r : DualPathRelay) (datagram : bytes) : go (bridge * result error (option bytes)) :=
  '(b, x) ← inbound b (relay_core r) datagram;
  match x with
  | Err e => Ret (b, Err e)
  | Ok (payload, deliver) => Ret (b, Ok (if (deliver : bool) then Some payload else None))
  end.

(** ** GeminaTunnelBootstrap.swift: configuration *)

(** The values of [providerConfiguration] and their dynamic types. *)
Inductive value := VNumber (n : Z) | VString (s : bytes) | VStrings (l : list bytes) | VOther.
Definition config := gmap bytes value.

Record profile := mkProfile { serverAddress : option bytes; providerConfiguration : option config }.

Definition requireString (c : config) (key : bytes) : result error bytes :=
  match c !! key with
  | Some (VString v) => if decide (v = []) then Err (missingField key) else Ok v
  | _ => Err (missingField key)
  end.

(** [UInt16(text)]: an optional sign and decimal digits, in range. *)
Definition parse_uint16 (text : bytes) : option Z :=
  let '(neg, ds) := match text with
                    | c :: ds => if decide (c = "-"%char) then (true, ds) else if decide (c = "+"%char) then (false, ds) else (false, text)
                    | [] => (false, [])
                    end in
  match ds with
  | [] => None
  | _ => if forallb (λ c, (48 <=? b2z c) && (b2z c <=? 57)) ds then
           let n := foldl (λ acc c, acc * 10 + (b2z c - 48)) 0 ds in
           let n := if (neg : bool) then - n else n in
           if (0 <=? n) && (n <? 2 ^ 16) then Some n else None
         else None
  end.

(** [NSNumber.uint16Value] keeps the low 16 bits. *)
Definition requireUInt16 (c : config) (key : bytes) : result error Z :=
  match c !! key with
  | Some (VNumber n) => Ok (n mod 2 ^ 16)
  | Some (VString t) => match parse_uint16 t with Some n => Ok n | None => Err (missingField key) end
  | _ => Err (missingField key)
  end.

(** [base64] is [Data(base64Encoded:)]. *)
Definition requireGatewayKey (base64 : bytes → option bytes) (c : config) (key : bytes) : result error bytes :=
  match requireString c key with
  | Err e => Err e
  | Ok s => match base64 s with
            | Some d => if decide (length d = 32%nat) then Ok d else Err invalidGatewayKey
            | None => Err invalidGatewayKey
            end
  end.

(** ** GeminaTunnelProvider.swift, GeminaTunnelBootstrap.swift: the tunnel *)

Record provider := mkProvider {
  relay : option DualPathRelay;
  currentPathStates : list Policy.PathInfo;
  primaryUnstable : bool;
  assignedAddress : option bytes;        (* the four octets *)
  dnsServers : list bytes;
  wifiSender : option WiFiSender.sender
}.
Definition new_provider : provider := mkProvider None [] false None [] None.

Definition dedupCapacity : Z := 1024.
Definition wifi : bytes := gs "wifi".

(** What the operating system answers while the tunnel starts. *)
Record host := mkHost {
  primaryWiFiInterfaceName : option bytes;
  available : bytes → bool;              (* the interfaces of the path monitor *)
  readiness : bytes → Z → WiFiSender.readiness;   (* of the connection to a host and port *)
  wifi_sends : bool;
  base64 : bytes → option bytes;
  gateway : bytes → Z → bytes → exchange;   (* the handshake's datagrams, over the connection to a host and port *)
  settings_ok : bool;
  rid : option SessionID;
  rkey : option bytes;
  now : Time
}.

(** The socket after the handshake's exchange failed: a read that reached its
    deadline is still outstanding. *)
Definition after_failure (e : error) (w : WiFiSender.sender) : WiFiSender.sender :=
  match e with ReceiveError true => WiFiSender.arm WiFiSender.OneShot w | _ => w end.

(** The lease, the name servers and the socket are remembered in the provider. *)
Definition makeRelay (b : bridge) (p : provider) (pr : profile) (h : host)
  : go (bridge * provider * result error DualPathRelay) :=
  match serverAddress pr with
  | None | Some [] => Ret (b, p, Err missingGatewayAddress)
  | Some addr =>
      match providerConfiguration pr with
      | None => Ret (b, p, Err missingProviderConfiguration)
      | Some c =>
          match requireUInt16 c (gs "port") with
          | Err e => Ret (b, p, Err e)
          | Ok port =>
          match requireString c (gs "token") with
          | Err e => Ret (b, p, Err e)
          | Ok token =>
          match requireGatewayKey (base64 h) c (gs "gatewayPublicKey") with
          | Err e => Ret (b, p, Err e)
          | Ok key =>
              let dns := match c !! gs "dnsServers" with Some (VStrings l) => l | _ => dnsServers p end in
              let set ip w := mkProvider (relay p) (currentPathStates p) (primaryUnstable p) ip dns w in
              match WiFiSender.init (primaryWiFiInterfaceName h) (available h) (readiness h addr port) with
              | Err e => Ret (b, set (assignedAddress p) (wifiSender p), Err (PathSenderError e))
              | Ok w =>
              '(b, hs) ← connect b key token dedupCapacity (gateway h addr port) (rid h) (rkey h) (now h);
              match hs with
              | Err e => Ret (b, set (assignedAddress p) (Some (after_failure e w)), Err e)
              | Ok x =>
                  let ip := assignedIPv4 x in
                  let lease := if bool_decide (length ip = 4%nat) && existsb (λ c, negb (b2z c =? 0)) ip
                               then Some ip else assignedAddress p in
                  Ret (b, set lease (Some (WiFiSender.receiveLoop w)),
                       Ok (mkRelay (core x) [mkSender wifi (wifi_sends h)] (Policy.mkPolicy Policy.auto None)))
              end
          end end end end
      end
  end.

Definition initialPathStates : list Policy.PathInfo := [Policy.mkPath wifi true false].

(** [NEPacketTunnelNetworkSettings], as far as the bootstrap sets it. *)
Record settings := mkSettings {
  tunnelRemoteAddress : bytes;
  ipv4 : option (bytes * bool);          (* the /32 address, the default route *)
  ipv6 : option (bytes * bool);
  mtu : option Z;
  dns : list bytes
}.

Definition makeTunnelSettings (p : provider) (remote : bytes) : settings :=
  match assignedAddress p with
  | None => mkSettings remote None None None []
  | Some a => mkSettings remote (Some (a, true)) (Some (gs "fd9b:4df9:da40::1", true)) (Some 1380) (dnsServers p)
  end.

(** The result is what the completion handler is given; the read loop is armed
    exactly when it is no error.  A relay that is still there is released when the
    new one takes its place. *)
Definition startTunnel (b : bridge) (p : provider) (pr : profile) (h : host)
  : go (bridge * provider * result error settings) :=
  match serverAddress pr with
  | None | Some [] => Ret (b, p, Err missingGatewayAddress)
  | Some addr =>
      '(b, p, r) ← makeRelay b p pr h;
      match r with
      | Err e => Ret (b, p, Err e)
      | Ok built =>
          let b := match relay p with Some old => deinit b (relay_core old) | None => b end in
          let p := mkProvider (Some built) initialPathStates (primaryUnstable p) (assignedAddress p) (dnsServers p) (wifiSender p) in
          let s := makeTunnelSettings p addr in
          if settings_ok h then Ret (b, p, Ok s) else Ret (b, p, Err SettingsError)
      end
  end.

(** The socket is closed (it is the last result); dropping the relay releases the
    session, [CoreTransport.deinit]. *)
Definition stopTunnel (b : bridge) (p : provider) : bridge * provider * option WiFiSender.sender :=
  (match relay p with Some r => deinit b (relay_core r) | None => b end,
   mkProvider None (currentPathStates p) (primaryUnstable p) (assignedAddress p) (dnsServers p) None,
   WiFiSender.close <$> wifiSender p).

Definition shouldRelayOutbound (packet : bytes) : bool :=
  match packet with
  | [] => false
  | first :: _ => Z.shiftr (b2z first) 4 =? 4
  end.

(** One batch of packets read from the tunnel; [try?] ignores what [sendOutbound]
    reports.  The result is the datagrams handed to the senders. *)
Fixpoint relay_packets (b : bridge) (r : DualPathRelay) (p : provider) (packets : list bytes)
  : go (bridge * list (bytes * bytes)) :=
  match packets with
  | [] => Ret (b, [])
  | packet :: packets =>
      if negb (shouldRelayOutbound packet) then relay_packets b r p packets else
      '(b, x) ← sendOutbound b r packet (currentPathStates p) (primaryUnstable p);
      let sent := match x with Ok (sent, _) => sent | Err _ => [] end in
      '(b, rest) ← relay_packets b r p packets;
      Ret (b, sent ++ rest)
  end.
Definition readOutbound (b : bridge) (p : provider) (packets : list bytes) : go (bridge * list (bytes * bytes)) :=
  match relay p with
  | None => Ret (b, [])
  | Some r => relay_packets b r p packets
  end.

Definition AF_INET : Z := 2.
Definition AF_INET6 : Z := 30.
Definition ipFamily (packet : bytes) : Z :=
  match packet with
  | [] => AF_INET
  | first :: _ => if Z.shiftr (b2z first) 4 =? 6 then AF_INET6 else AF_INET
  end.

(** The packet written to the tunnel, with its family. *)
Definition handleInbound (b : bridge) (p : provider) (datagram : bytes) : go (bridge * option (bytes * Z)) :=
  match relay p with
  | None => Ret (b, None)
  | Some r =>
      '(b, x) ← receiveInbound b r datagram;
      Ret (b, match x with Ok (Some payload) => Some (payload, ipFamily payload) | _ => None end)
  end.

(** ** Lemmas: the transport is the session behind its handle *)

Definition with_session (b : bridge) (h : Z) (s : Session) : bridge := Bridge.set_reg b (Bridge.reg_set (Bridge.reg b) h s).

Definition rejected {A} (r : result Wire.error A) : result error A :=
  match r with Ok x => Ok x | Err _ => Err (Core coreRejected) end.

Lemma int32_ret n : Z.of_nat n < 2 ^ 31 → int32 n = Ret (Z.of_nat n).
Proof. intros Hn. unfold int32. by destruct (Z.ltb_spec (Z.of_nat n) (2 ^ 31)); [|lia]. Qed.

Lemma c_int_small n : 0 ≤ n < 2 ^ 31 → Bridge.c_int n = n.
Proof. intros Hn. unfold Bridge.c_int. rewrite Z.mod_small; lia. Qed.

Lemma outbound_session `{!AEADLaws} b h s p :
  Bridge.live (Bridge.reg b) !! h = Some s → Bridge.good s → Z.of_nat (length p + frameOverhead) < 2 ^ 31 →
  ∃ s' r, Outbound s p = Ret (s', r) ∧ Bridge.good s' ∧ outbound b h p = Ret (with_session b h s', rejected r).
Proof.
  intros Hh Hg Hp. unfold frameOverhead in Hp. destruct (Bridge.Outbound_good s p Hg) as (s' & r & HO & Hg'). exists s', r. split; [done|]. split; [done|].
  unfold outbound, frameOverhead. rewrite !int32_ret by (rewrite ?length_zeros; lia). mstep.
  unfold Bridge.cc_outbound, Bridge.outboundInto, Bridge.reg_get.
  rewrite Bridge.GoBytes_ret, Bridge.make_bytes_ret by lia. mstep. rewrite Hh, (Nat2Z.id (length p)), firstn_all, HO. mstep.
  destruct r as [f|e]; [|by mstep].
  assert (length f = 46 + length p)%nat as Hf.
  { destruct (decide (length p ≤ maxPayload)%nat) as [Hl|Hl].
    - rewrite Outbound_eq in HO by done. injection HO as _ <-. apply Tunnel.length_frame.
    - unfold Outbound in HO. by rewrite decide_True in HO by lia. }
  rewrite decide_False by (rewrite !length_zeros; unfold frameOverhead in *; lia). mstep.
  destruct (Z.ltb_spec (Z.of_nat (length f)) 0); [lia|].
  rewrite Bridge.fit_out by (rewrite !length_zeros; unfold frameOverhead in *; lia). mstep.
  rewrite c_int_small by (unfold frameOverhead in *; lia). destruct (Z.ltb_spec (Z.of_nat (length f)) 0); [lia|].
  by rewrite Nat2Z.id, take_app_length.
Qed.

Lemma inbound_session `{!AEADOverhead} b h s w :
  Bridge.live (Bridge.reg b) !! h = Some s → Bridge.good s → Z.of_nat (length w) < 2 ^ 31 - 1 →
  ∃ s' r, Inbound s w = Ret (s', r) ∧ Bridge.good s' ∧ inbound b h w = Ret (with_session b h s', rejected r).
Proof.
  intros Hh Hg Hw. destruct (Bridge.Inbound_good s w Hg) as (s' & r & HI & Hg'). exists s', r. split; [done|]. split; [done|].
  unfold inbound. rewrite !int32_ret by (rewrite ?length_zeros; lia). mstep.
  unfold Bridge.cc_inbound, Bridge.inboundInto, Bridge.reg_get.
  rewrite Bridge.GoBytes_ret, Bridge.make_bytes_ret by lia. mstep. rewrite Hh, (Nat2Z.id (length w)), firstn_all, HI. mstep.
  destruct r as [[f first]|e]; [|by mstep].
  assert (length f ≤ length w)%nat as Hf.
  { destruct Hg as [prior Hs]. unfold Inbound in HI.
    destruct (Inbound_cases s w prior Hs) as [[e E]|(id & aad & ct & q & win & _ & _ & -> & _ & Ho & E & _)]; rewrite E in HI;
      autorewrite with gomonad in HI; [done|]. injection HI as _ <- _. apply aead_open_length in Ho. rewrite length_app. lia. }
  rewrite decide_False by (rewrite !length_zeros; lia). mstep. destruct (Z.ltb_spec (Z.of_nat (length f)) 0); [lia|].
  rewrite Bridge.fit_out by (rewrite !length_zeros; lia). mstep.
  rewrite c_int_small by lia. destruct (Z.ltb_spec (Z.of_nat (length f)) 0); [lia|].
  rewrite Nat2Z.id, take_app_length. by destruct first.
Qed.

(** ** Lemmas: the handshake *)

Lemma Begin_length pub tok rid rkey now hello hs :
  BeginClientHandshake pub tok rid rkey now = Ret (Ok (hello, hs)) → 0 < Z.of_nat (length hello) < 8192.
Proof.
  unfold BeginClientHandshake. case_decide as Hi; [done|]. destruct (randomSessionID rid) as [id|]; [|done]. cbn [gbind].
  destruct (GenerateKeyPair rkey) as [[priv pk]|]; [|done]. cbn [gbind]. intros HB.
  apply gbind_ok_inv in HB as (b & He & HB). injection HB as <- <-.
  destruct (EncodeClientHello_ok (mkClientHello id (unix now) pk tok) b) as [Hok ->]; [apply i64_range|done|].
  destruct Hok as (H1 & H2 & _). cbn in H1, H2. unfold client_hello_bytes. cbn [ch_eph ch_token ch_id ch_timestamp].
  autorewrite with len. cbn [length]. rewrite H1. autounfold with sizes in H2. lia.
Qed.

(** The begin call of [connect]: a core error, or a ClientHello that fits. *)
Lemma connect_begin k b pub token rid rkey now :
  Bridge.bridge_ok k b → k + 1 < 2 ^ 64 → length pub = 32%nat →
  (∃ e, BeginClientHandshake pub (Bridge.GoString (cstring token)) rid rkey now = Ret (Err e) ∧
     Bridge.cc_handshake_begin b pub (cstring token) (zeros helloBufSize) 8192 rid rkey now =
       Ret (b, -3, 0, zeros helloBufSize)) ∨
  (∃ hello hs, let h := Bridge.last_handle (Bridge.hsReg b) + 1 in
     BeginClientHandshake pub (Bridge.GoString (cstring token)) rid rkey now = Ret (Ok (hello, hs)) ∧
     0 < Z.of_nat (length hello) < 8192 ∧ 0 < h ∧ Bridge.live (Bridge.hsReg b) !! h = None ∧
     Bridge.cc_handshake_begin b pub (cstring token) (zeros helloBufSize) 8192 rid rkey now =
       Ret (Bridge.set_hs b (Bridge.mkRegistry h (<[h := hs]> (Bridge.live (Bridge.hsReg b)))),
            Z.of_nat (length hello), h, hello ++ drop (length hello) (zeros helloBufSize))).
Proof.
  intros [Hr Hhs] Hk Hp. unfold Bridge.cc_handshake_begin, Bridge.beginHandshake.
  rewrite Bridge.GoBytes_ret, Bridge.make_bytes_ret by lia. mstep. rewrite (take_ge pub) by lia. rewrite decide_False by auto.
  destruct (Bridge.Begin_total pub (Bridge.GoString (cstring token)) rid rkey now) as [[[hello hs]|e] HB]; rewrite HB; mstep.
  2: { left. exists e. split; [done|]. by rewrite Bridge.c_int_code. }
  right. exists hello, hs. pose proof (Begin_length _ _ _ _ _ _ _ HB) as Hl. cbn zeta. split; [done|]. split; [done|].
  destruct (Bridge.reg_add_ok (λ _, True) k (Bridge.hsReg b) hs Hhs Hk I) as [Hadd _].
  destruct (Bridge.ro_last _ _ _ Hhs) as [Hlast _]. split; [lia|]. split.
  { destruct (Bridge.live (Bridge.hsReg b) !! (Bridge.last_handle (Bridge.hsReg b) + 1)) eqn:E; [|done].
    apply (Bridge.ro_live _ _ _ Hhs) in E as [? _]. lia. }
  rewrite decide_False by (rewrite length_zeros; lia). rewrite Hadd. mstep. destruct (Z.ltb_spec (Z.of_nat (length hello)) 0); [lia|].
  rewrite Bridge.fit_out by lia. mstep. by rewrite c_int_small by lia.
Qed.

(** What a connection attempt leaves in the bridge. *)
Definition connected (b : bridge) (pub token : bytes) (cap : Z) (net : bytes → exchange) (rid : option SessionID)
    (rkey : option bytes) (now : Time) (b' : bridge) (r : result error HandshakeResult) : Prop :=
  Bridge.live (Bridge.hsReg b') = Bridge.live (Bridge.hsReg b) ∧
  match r with
  | Err _ => Bridge.reg b' = Bridge.reg b
  | Ok x => ∃ hello hs sh s,
      BeginClientHandshake pub (Bridge.GoString (cstring token)) rid rkey now = Ret (Ok (hello, hs)) ∧
      net hello = Received sh ∧ Complete hs sh cap = Ret (Ok s) ∧ Bridge.good s ∧
      core x = Bridge.last_handle (Bridge.reg b) + 1 ∧ assignedIPv4 x = AssignedIPv4 s ∧
      Bridge.live (Bridge.reg b) !! core x = None ∧
      Bridge.live (Bridge.reg b') = <[core x := s]> (Bridge.live (Bridge.reg b))
  end.

Lemma connect_spec k b pub token cap net rid rkey now :
  Bridge.bridge_ok k b → k + 1 < 2 ^ 64 → length pub = 32%nat → Bridge.is_cint cap →
  (∀ hello sh, net hello = Received sh → Z.of_nat (length sh) < 2 ^ 31) →
  ∃ b' r, connect b pub token cap net rid rkey now = Ret (b', r) ∧ Bridge.bridge_ok (k + 1) b' ∧
    connected b pub token cap net rid rkey now b' r.
Proof.
  intros Hb Hk Hp Hc Hnet. pose proof Hb as [Hr Hhs]. unfold connect. rewrite decide_False by auto.
  rewrite int32_ret by (unfold helloBufSize; lia). mstep. unfold helloBufSize at 2. rewrite Z2Nat.id by lia.
  assert (Bridge.bridge_ok (k + 1) b) as Hb1 by (split; eapply Bridge.reg_ok_mono; [done|lia|done|lia]).
  destruct (connect_begin k b pub token rid rkey now Hb Hk Hp) as [(e & _ & ->)|(hello & hs & HB & Hl & Hh & Hfree & ->)]; mstep.
  { cbn. eexists _, _. split; [done|]. split; [done|]. by split. }
  set (h := Bridge.last_handle (Bridge.hsReg b) + 1) in *. destruct (Z.gtb_spec (Z.of_nat (length hello)) 0); [|lia].
  destruct (Z.eqb_spec h 0); [lia|]. cbn [andb negb]. rewrite Nat2Z.id, take_app_length.
  set (m := Bridge.live (Bridge.hsReg b)) in *. set (r1 := Bridge.mkRegistry h (<[h := hs]> m)).
  assert (Bridge.hs_take r1 h = (Bridge.mkRegistry h m, Some hs)) as Htake.
  { unfold Bridge.hs_take, Bridge.reg_remove. cbn. rewrite lookup_insert_eq. by rewrite delete_insert_id. }
  assert (Bridge.reg_ok (λ _, True) (k + 1) (Bridge.mkRegistry h m)) as Hhs1.
  { split; cbn; [destruct (Bridge.ro_last _ _ _ Hhs); subst h; lia|].
    intros h' s' Hs'. apply (Bridge.ro_live _ _ _ Hhs) in Hs' as [? _]. subst h. split; [lia|done]. }
  assert (Bridge.bridge_ok (k + 1) (Bridge.set_hs b (Bridge.mkRegistry h m))) as Hb2
    by (split; [eapply Bridge.reg_ok_mono; [done|lia]|done]).
  destruct (net hello) as [| |sh] eqn:Hn.
  1,2: eexists _, _; (split; [done|]); unfold Bridge.cc_handshake_cancel, Bridge.cancelHandshake; cbn [Bridge.hsReg Bridge.set_hs];
       rewrite Htake; by split.
  rewrite int32_ret by by eapply Hnet. mstep. unfold Bridge.cc_handshake_complete, Bridge.completeHandshake.
  rewrite Bridge.GoBytes_ret by lia. mstep. cbn [Bridge.hsReg Bridge.set_hs]. rewrite Htake, Nat2Z.id, firstn_all.
  destruct (Bridge.Complete_cint hs sh cap Hc) as ([s|e] & HC & Hs); rewrite HC; mstep.
  2: { cbn. eexists _, _. split; [done|]. by split. }
  change (Bridge.reg (Bridge.set_hs (Bridge.set_hs b r1) (Bridge.mkRegistry h m))) with (Bridge.reg b).
  destruct (Bridge.reg_add_ok Bridge.good k (Bridge.reg b) s Hr Hk (Hs s eq_refl)) as [-> Hok]. mstep.
  destruct (Bridge.ro_last _ _ _ Hr) as [Hlast _]. rewrite decide_True by lia.
  destruct (Z.eqb_spec (Bridge.last_handle (Bridge.reg b) + 1) 0); [lia|]. eexists _, _. split; [done|].
  split; [by split|]. split; [done|]. exists hello, hs, sh, s. split_and!; try done; [by apply Hs| |].
  - assert (length (AssignedIPv4 s) = 4%nat) as H4 by apply length_vec_to_list. cbn [assignedIPv4 default].
    rewrite decide_True by len. unfold Bridge.copy_into. rewrite (take_ge (AssignedIPv4 s)) by len.
    rewrite drop_ge by len. rewrite !app_nil_r. by rewrite take_ge by lia.
  - cbn. destruct (Bridge.live (Bridge.reg b) !! _) eqn:E; [|done]. apply (Bridge.ro_live _ _ _ Hr) in E as [? _]. lia.
Qed.

(** ** Lemmas: packets out *)

(** A provider whose relay holds the session [c]. *)
Definition holds (b : bridge) (p : provider) (r : DualPathRelay) (c : Session) : Prop :=
  relay p = Some r ∧ Bridge.live (Bridge.reg b) !! relay_core r = Some c.

(** The senders the policy uses now. *)
Definition used_senders (p : provider) (r : DualPathRelay) : list PathSender :=
  match Policy.sendPaths (policy r) (currentPathStates p) (primaryUnstable p) with
  | Ret selected => filter (λ s, name s ∈ selected) (paths r)
  | Panic => []
  end.

Lemma live_with_session b h s : Bridge.live (Bridge.reg (with_session b h s)) !! h = Some s.
Proof. apply lookup_insert_eq. Qed.

Lemma sendOutbound_session `{!AEADLaws} b p r c q :
  holds b p r c → Bridge.good c → Z.of_nat (length q + frameOverhead) < 2 ^ 31 →
  ∃ c' x, Outbound c q = Ret (c', x) ∧ Bridge.good c' ∧ holds (with_session b (relay_core r) c') p r c' ∧
    ∃ f, sendOutbound b r q (currentPathStates p) (primaryUnstable p) =
      Ret (with_session b (relay_core r) c',
           match x with Ok wire => Ok ((λ s, (name s, wire)) <$> used_senders p r, f) | Err _ => Err (Core coreRejected) end).
Proof.
  intros [Hr Hh] Hg Hq. destruct (outbound_session b (relay_core r) c q Hh Hg Hq) as (c' & x & HO & Hg' & Hout).
  exists c', x. split; [done|]. split; [done|]. split; [split; [done|apply live_with_session]|].
  unfold sendOutbound, used_senders. rewrite Hout. mstep. destruct x as [wire|e]; [|by exists ∅].
  destruct (Policy.sendPaths_cases (policy r) (currentPathStates p) (primaryUnstable p)) as [[_ ->]|(_ & _ & s & _ & ->)];
    mstep; by eexists.
Qed.

(** The packets that leave, numbered from [n]. *)
Definition leaves (q : bytes) : Prop := shouldRelayOutbound q = true ∧ (length q ≤ maxPayload)%nat.
#[export] Instance leaves_dec q : Decision (leaves q).
Proof. apply _. Defined.

Fixpoint datagrams (c : Session) (n : Z) (senders : list PathSender) (packets : list bytes) : list (bytes * bytes) :=
  match packets with
  | [] => []
  | q :: packets =>
      if decide (leaves q) then
        ((λ s, (name s, frame_of (sid c) (skey (slr c)) (role c) n q)) <$> senders) ++ datagrams c (n + 1) senders packets
      else datagrams c n senders packets
  end.

Lemma datagrams_next c m n senders packets : datagrams (set_next c m) n senders packets = datagrams c n senders packets.
Proof. revert n. induction packets as [|q packets IH]; intros n; [done|]. cbn. by rewrite !IH. Qed.

Lemma relay_packets_exact `{!AEADLaws} b p r c packets :
  holds b p r c → Bridge.good c → next c + Z.of_nat (length packets) < 2 ^ 64 →
  Forall (λ q, Z.of_nat (length q + frameOverhead) < 2 ^ 31) packets →
  ∃ b' n, relay_packets b r p packets = Ret (b', datagrams c (next c + 1) (used_senders p r) packets) ∧
    holds b' p r (set_next c n) ∧ next c ≤ n ≤ next c + Z.of_nat (length packets) ∧
    n - next c = Z.of_nat (length (filter leaves packets)).
Proof.
  intros Hh Hg Hn Hp. revert b c Hh Hg Hn. induction Hp as [|q packets Hq Hp IH]; intros b c Hh Hg Hn; cbn [relay_packets].
  { exists b, (next c). cbn. split; [done|]. split; [by destruct c|lia]. }
  cbn [length] in Hn. cbn [datagrams]. rewrite filter_cons.
  destruct (shouldRelayOutbound q) eqn:Hs; cbn [negb].
  2: { destruct (IH b c Hh Hg) as (b' & n & -> & Hh' & Hb & Hc); [lia|]. exists b', n.
       rewrite !decide_False by (unfold leaves; rewrite Hs; by intros [? _]). split; [done|]. split; [done|]. cbn [length]. lia. }
  destruct (sendOutbound_session b p r c q Hh Hg Hq) as (c' & x & HO & Hg' & Hh' & f & ->). mstep.
  destruct (decide (length q ≤ maxPayload)%nat) as [Hl|Hl].
  - rewrite !decide_True by done. rewrite Outbound_eq in HO by done. injection HO as <- <-.
    assert (u64 (next c + 1) = next c + 1) as Hu.
    { destruct Hg as [prior Hok]. destruct (so_next _ _ Hok). apply u64_small. unfold is_u64. lia. }
    rewrite Hu in *. destruct (IH _ _ Hh' Hg') as (b' & n & -> & Hh2 & Hb & Hc); [cbn; lia|]. mstep.
    exists b', n. rewrite datagrams_next. cbn [next set_next length] in *. split; [done|]. split; [done|]. lia.
  - rewrite !decide_False by (unfold leaves; by intros [_ ?]). unfold Outbound in HO. rewrite decide_True in HO by lia.
    injection HO as <- <-. destruct (IH _ _ Hh' Hg') as (b' & n & -> & Hh2 & Hb & Hc); [lia|]. mstep.
    exists b', n. split; [done|]. split; [done|]. cbn [length]. lia.
Qed.

(** ** Lemmas: packets in *)

Fixpoint handle_all (b : bridge) (p : provider) (ds : list bytes) : go (bridge * list (option (bytes * Z))) :=
  match ds with
  | [] => Ret (b, [])
  | d :: ds => '(b, o) ← handleInbound b p d; '(b, os) ← handle_all b p ds; Ret (b, o :: os)
  end.

(** The number of the packet a datagram wrote to the tunnel. *)
Definition wrote_by (x : bytes * option (bytes * Z)) : option Z :=
  match x.2 with Some _ => number_of x.1 | None => None end.
Definition wrote (ds : list bytes) (os : list (option (bytes * Z))) : list Z := omap wrote_by (zip ds os).

Lemma handleInbound_session `{!AEADOverhead} b p r c prior d :
  holds b p r c → session_ok c prior → Z.of_nat (length d) < 2 ^ 31 - 1 →
  ∃ o w prior', handleInbound b p d = Ret (with_session b (relay_core r) (set_window c w), o) ∧
    session_ok (set_window c w) prior' ∧ (∀ n, n ∈ prior → n ∈ prior') ∧
    match o with
    | None => True
    | Some (payload, fam) => fam = ipFamily payload ∧ genuine c d payload ∧
        ∃ n, wrote_by (d, o) = Some n ∧ n ∉ prior ∧ n ∈ prior'
    end.
Proof.
  intros [Hr Hh] Hok Hd. unfold handleInbound, receiveInbound. rewrite Hr.
  destruct (inbound_session b (relay_core r) c d Hh) as (c' & x & HI & _ & ->); [by exists prior|done|]. mstep.
  destruct (Inbound_delivers c prior d Hok) as (w & x' & prior' & HI' & Hok' & Hsub & Hx).
  rewrite HI in HI'. injection HI' as -> ->. destruct x' as [[payload []]|e]; cbn [rejected];
    eexists _, w, prior'; (split; [done|]); try done.
Qed.

Lemma handle_all_once `{!AEADOverhead} b p r c prior ds :
  holds b p r c → session_ok c prior → Forall (λ d, Z.of_nat (length d) < 2 ^ 31 - 1) ds →
  ∃ b' os, handle_all b p ds = Ret (b', os) ∧ length os = length ds ∧
    length (wrote ds os) = length (omap id os) ∧ NoDup (wrote ds os) ∧ Forall (λ n, n ∉ prior) (wrote ds os) ∧
    Forall2 (λ d o, ∀ payload fam, o = Some (payload, fam) → fam = ipFamily payload ∧ genuine c d payload) ds os.
Proof.
  intros Hh Hok Hds. revert b c prior Hh Hok. induction Hds as [|d ds Hd Hds IH]; intros b c prior Hh Hok; cbn [handle_all].
  { eexists _, []. split; [done|]. split_and!; try done; constructor. }
  destruct (handleInbound_session b p r c prior d Hh Hok Hd) as (o & w & prior' & -> & Hok' & Hsub & Ho). mstep.
  destruct (IH (with_session b (relay_core r) (set_window c w)) (set_window c w) prior') as (b' & os & -> & Hl & Hlen & Hnd & Hnew & Hgen);
    [by split; [apply Hh|apply live_with_session]|done|]. mstep.
  exists b', (o :: os). split; [done|]. split; [cbn; lia|].
  assert (Forall (λ n, n ∉ prior) (wrote ds os)) as Hnew'.
  { eapply Forall_impl; [exact Hnew|]. intros n Hn Hin. by apply Hn, Hsub. }
  unfold wrote in *. cbn [zip zip_with omap list_omap id].
  destruct o as [[payload fam]|].
  - destruct Ho as (Hf & Hge & n & -> & Hn & Hn'). cbn [length]. rewrite Hlen. split; [done|].
    split; [constructor; [|done]; intros Hin; rewrite Forall_forall in Hnew; by apply (Hnew n)|].
    split; [by constructor|]. constructor; [by intros ? ? [= <- <-]|done].
  - split; [done|]. split; [done|]. split; [done|]. by constructor.
Qed.

(** ** Lemmas: starting the tunnel *)

(** The session [s] of the tunnel came out of a handshake over the connection to the
    configured address and port that verified the configured gateway key. *)
Definition pinned (pr : profile) (h : host) (s : Session) : Prop :=
  ∃ addr port c key token hello hs sh, serverAddress pr = Some addr ∧ providerConfiguration pr = Some c ∧
    requireUInt16 c (gs "port") = Ok port ∧
    requireGatewayKey (base64 h) c (gs "gatewayPublicKey") = Ok key ∧ requireString c (gs "token") = Ok token ∧
    BeginClientHandshake key (Bridge.GoString (cstring token)) (rid h) (rkey h) (now h) = Ret (Ok (hello, hs)) ∧
    gateway h addr port hello = Received sh ∧ Complete hs sh dedupCapacity = Ret (Ok s).

(** The address the provider remembers for the session. *)
Definition leased (s : Session) : option bytes :=
  if existsb (λ c, negb (b2z c =? 0)) (AssignedIPv4 s) then Some (AssignedIPv4 s : bytes) else None.

Lemma requireGatewayKey_length d c key k : requireGatewayKey d c key = Ok k → length k = 32%nat.
Proof.
  unfold requireGatewayKey. destruct (requireString c key) as [s|]; [|done]. destruct (d s); [|done].
  case_decide; [|done]. by intros [= <-].
Qed.

Lemma makeRelay_spec k b p pr h :
  Bridge.bridge_ok k b → k + 1 < 2 ^ 64 → relay p = None → assignedAddress p = None →
  (∀ addr port hello sh, gateway h addr port hello = Received sh → Z.of_nat (length sh) < 2 ^ 31) →
  ∃ b' p' r, makeRelay b p pr h = Ret (b', p', r) ∧ Bridge.bridge_ok (k + 1) b' ∧ relay p' = None ∧
    Bridge.live (Bridge.hsReg b') = Bridge.live (Bridge.hsReg b) ∧
    match r with
    | Err _ => Bridge.reg b' = Bridge.reg b
    | Ok rl => ∃ s, pinned pr h s ∧ Bridge.good s ∧ assignedAddress p' = leased s ∧
        rl = mkRelay (relay_core rl) [mkSender wifi (wifi_sends h)] (Policy.mkPolicy Policy.auto None) ∧
        wifiSender p' = Some (WiFiSender.receiveLoop WiFiSender.opened) ∧
        Bridge.live (Bridge.reg b') !! relay_core rl = Some s ∧
        (∀ c l, providerConfiguration pr = Some c → c !! gs "dnsServers" = Some (VStrings l) → dnsServers p' = l)
    end.
Proof.
  intros Hb Hk Hr Ha Hnet. assert (Bridge.bridge_ok (k + 1) b) as Hb1.
  { destruct Hb. split; eapply Bridge.reg_ok_mono; [done|lia|done|lia]. }
  unfold makeRelay. destruct (serverAddress pr) as [[|a addr]|] eqn:Ea; [by eexists _, _, _| |by eexists _, _, _].
  destruct (providerConfiguration pr) as [c|] eqn:Ec; [|by eexists _, _, _].
  destruct (requireUInt16 c _) as [port|] eqn:Ep; [|by eexists _, _, _].
  destruct (requireString c (gs "token")) as [token|] eqn:Et; [|by eexists _, _, _].
  destruct (requireGatewayKey _ c _) as [key|] eqn:Ek; [|by eexists _, _, _].
  destruct (WiFiSender.init _ _ _) as [w|] eqn:Ew; [|by eexists _, _, _]. apply WiFiSender.init_opened in Ew as ->.
  assert (length key = 32%nat) as Hlk by by eapply requireGatewayKey_length.
  destruct (connect_spec k b key token dedupCapacity (gateway h (a :: addr) port) (rid h) (rkey h) (now h) Hb Hk Hlk)
    as (b' & r & -> & Hb' & Hhs & Hx); [done|by apply Hnet|]. mstep.
  destruct r as [x|e]; [|eexists _, _, _; by split_and!].
  destruct Hx as (hello & hs & sh & s & HB & Hn & HC & Hg & _ & Hip & _ & Hlive). eexists _, _, _. split; [done|].
  split; [done|]. split; [done|]. split; [done|]. exists s. split; [by exists (a :: addr), port, c, key, token, hello, hs, sh|]. split; [done|].
  split; [|split; [done|]; split; [done|]; split; [cbn; by rewrite Hlive, lookup_insert_eq|]].
  2: { intros c' l [= <-] Hdns. cbn [dnsServers]. by rewrite Hdns. }
  cbn [assignedAddress]. rewrite Hip, Ha, bool_decide_true by apply length_vec_to_list. done.
Qed.

Lemma startTunnel_spec (k : Z) (b : bridge) (pr : profile) (h : host) :
  Bridge.bridge_ok k b → k + 1 < 2 ^ 64 →
  (∀ addr port hello sh, gateway h addr port hello = Received sh → Z.of_nat (length sh) < 2 ^ 31) →
  ∃ b' p' r, startTunnel b new_provider pr h = Ret (b', p', r) ∧
    Bridge.live (Bridge.hsReg b') = Bridge.live (Bridge.hsReg b) ∧
    match relay p' with
    | None => Bridge.reg b' = Bridge.reg b ∧ ∃ e, r = Err e
    | Some rl => ∃ s, holds b' p' rl s ∧ Bridge.good s ∧ pinned pr h s ∧ used_senders p' rl = paths rl ∧
        wifiSender p' = Some (WiFiSender.receiveLoop WiFiSender.opened) ∧
        match r with
        | Err e => e = SettingsError
        | Ok st => ipv4 st = (λ a, (a, true)) <$> leased s ∧
            ipv6 st = (λ _, (gs "fd9b:4df9:da40::1", true)) <$> leased s ∧
            ∀ c l, providerConfiguration pr = Some c → c !! gs "dnsServers" = Some (VStrings l) →
              dns st = match leased s with Some _ => l | None => [] end
        end
    end.
Proof.
  intros Hb Hk Hnet. unfold startTunnel. destruct (serverAddress pr) as [[|a addr]|].
  1,3: eexists _, _, _; (split; [done|]); (split; [done|]); cbn; by eauto.
  destruct (makeRelay_spec k b new_provider pr h Hb Hk eq_refl eq_refl Hnet) as (b' & p' & r & -> & _ & Hr & Hhs & H). mstep.
  destruct r as [rl|e]; [|eexists _, _, _; (split; [done|]); (split; [done|]); rewrite Hr; by eauto].
  destruct H as (s & Hpin & Hg & Ha & Hrl & Hw & Hlive & Hdns). rewrite Hr.
  assert (∀ p2, currentPathStates p2 = initialPathStates → used_senders p2 rl = paths rl) as Hused.
  { intros p2 Hp2. unfold used_senders. rewrite Hp2, Hrl. cbn [policy paths]. by destruct (primaryUnstable p2). }
  destruct (settings_ok h); eexists _, _, _; (split; [done|]); (split; [done|]); cbn [relay];
    exists s; (split; [done|]); (split; [done|]); (split; [done|]); (split; [by apply Hused|]); (split; [done|]); [|done].
  unfold makeTunnelSettings. cbn. rewrite Ha. destruct (leased s); (split; [done|]); (split; [done|]); [|done].
  intros c l' Hc Hl. by eapply Hdns.
Qed.

(** The errors of a configuration that lacks something. *)
Definition incomplete (e : error) : bool :=
  match e with missingGatewayAddress | missingProviderConfiguration | missingField _ => true | _ => false end.

Lemma connect_complete b key token cap net r rk t b' e :
  connect b key token cap net r rk t = Ret (b', Err e) → incomplete e = false.
Proof.
  unfold connect. destruct (decide _) as [_|_]; [done|]. intros (? & _ & H)%go_bind_inv. apply go_bind_inv in H as ([[[? ?] ?] ?] & _ & H).
  case_match; [by injection H as <- <-|]. case_match; [by injection H as <- <-|by injection H as <- <-|].
  apply go_bind_inv in H as (? & _ & H). apply go_bind_inv in H as ([[? ?] ?] & _ & H).
  case_match; [by injection H as <- <-|done].
Qed.

(** A start from a complete configuration fails for another reason. *)
Lemma startTunnel_complete b p pr h c addr port token key :
  serverAddress pr = Some addr → addr ≠ [] → providerConfiguration pr = Some c →
  requireUInt16 c (gs "port") = Ok port → requireString c (gs "token") = Ok token →
  requireString c (gs "gatewayPublicKey") = Ok key →
  ∀ b' p' e, startTunnel b p pr h = Ret (b', p', Err e) → incomplete e = false.
Proof.
  intros Ha Hn Hc Hp Ht Hk b' p' e. unfold startTunnel, makeRelay. rewrite Ha. destruct addr as [|x addr]; [done|].
  rewrite Hc, Hp, Ht. destruct (requireGatewayKey _ _ _) as [k|e'] eqn:Ek.
  2: { intros [= _ _ ->]. unfold requireGatewayKey in Ek. rewrite Hk in Ek. by repeat case_match; simplify_eq. }
  destruct (WiFiSender.init _ _ _) as [w|]; [|by intros [= _ _ <-]].
  intros ([[b2 p2] r] & Hr & H)%go_bind_inv. apply go_bind_inv in Hr as ([b3 hs] & Hc3 & Hr).
  destruct hs as [?|e']; injection Hr as <- <- <-.
  - destruct (settings_ok h); [done|]. by injection H as _ _ <-.
  - injection H as _ _ <-. by eapply connect_complete.
Qed.

(** Stopping the tunnel releases the session and closes the socket. *)
Lemma stop_releases b p r c w :
  holds b p r c → wifiSender p = Some w →
  ∃ b' p' w', stopTunnel b p = (b', p', Some w') ∧ Bridge.live (Bridge.reg b') !! relay_core r = None ∧ relay p' = None ∧
    ∀ sent, WiFiSender.send w' sent = Some WiFiSender.closed.
Proof.
  intros [Hr Hl] Hw. unfold stopTunnel. rewrite Hr, Hw. eexists _, _, _. split; [done|].
  split; [cbn; apply lookup_delete_eq|done].
Qed.

(** ** Properties *)

(** The Swift transport is the Go session.  For every session behind a handle
    and every packet or datagram Swift can pass, [CoreTransport.outbound] and
    [inbound] return what [Session.Outbound] and [Session.Inbound] return, with any
    core error reported as [coreRejected], and leave the session in the state those
    leave: the output buffers are always large enough, no byte is lost, and nothing
    else in the bridge changes. *)
Theorem transport_is_session `{!AEADLaws, !AEADOverhead} (b : bridge) (h : Z) (s : Session) (payload wire : bytes) :
  Bridge.live (Bridge.reg b) !! h = Some s → Bridge.good s →
  Z.of_nat (length payload + frameOverhead) < 2 ^ 31 → Z.of_nat (length wire) < 2 ^ 31 - 1 →
  (∃ s' r, Outbound s payload = Ret (s', r) ∧ outbound b h payload = Ret (with_session b h s', rejected r)) ∧
  (∃ s' r, Inbound s wire = Ret (s', r) ∧ inbound b h wire = Ret (with_session b h s', rejected r)).
Proof.
  intros Hh Hg Hp Hw. split.
  - destruct (outbound_session b h s payload Hh Hg Hp) as (s' & r & ? & _ & ?). by exists s', r.
  - destruct (inbound_session b h s wire Hh Hg Hw) as (s' & r & ? & _ & ?). by exists s', r.
Qed.

(** C16: Starting the tunnel pins the gateway and leaks nothing.  Whatever the
    profile, the network and the system answer, [startTunnel] returns and leaves no
    handshake in flight.  Either no relay is installed and no session is left in the
    bridge, or the relay holds a session whose handshake, over the connection to the
    configured address and port, verified the configured gateway key, its senders are
    exactly those the policy selects, the socket's receive loop is running, and the
    settings it asks for capture all IPv4 and all IPv6 traffic to the leased address
    and name the configured name servers, or take no traffic at all when the gateway
    leased none.  The completion handler sees no error only in the second case. *)
Theorem start_pins_gateway (k : Z) (b : bridge) (pr : profile) (h : host) :
  Bridge.bridge_ok k b → k + 1 < 2 ^ 64 →
  (∀ addr port hello sh, gateway h addr port hello = Received sh → Z.of_nat (length sh) < 2 ^ 31) →
  ∃ b' p' r, startTunnel b new_provider pr h = Ret (b', p', r) ∧
    Bridge.live (Bridge.hsReg b') = Bridge.live (Bridge.hsReg b) ∧
    match relay p' with
    | None => Bridge.reg b' = Bridge.reg b ∧ ∃ e, r = Err e
    | Some rl => ∃ s, holds b' p' rl s ∧ Bridge.good s ∧ pinned pr h s ∧ used_senders p' rl = paths rl ∧
        wifiSender p' = Some (WiFiSender.receiveLoop WiFiSender.opened) ∧
        match r with
        | Err e => e = SettingsError
        | Ok st => ipv4 st = (λ a, (a, true)) <$> leased s ∧
            ipv6 st = (λ _, (gs "fd9b:4df9:da40::1", true)) <$> leased s ∧
            ∀ c l, providerConfiguration pr = Some c → c !! gs "dnsServers" = Some (VStrings l) →
              dns st = match leased s with Some _ => l | None => [] end
        end
    end.
Proof. apply startTunnel_spec. Qed.

(** C19: What leaves the Mac.  For every batch of packets read from the tunnel, the
    datagrams handed to the path senders are exactly: for each IPv4 packet of at most
    1600 bytes, in order, one identical copy per sender the policy selects, sealed
    under the session's key with consecutive packet numbers.  IPv6 and empty packets
    never leave, in the clear or otherwise, and use up no number. *)
Theorem relay_exact `{!AEADLaws} (b : bridge) (p : provider) (r : DualPathRelay) (c : Session) (packets : list bytes) :
  holds b p r c → Bridge.good c → next c + Z.of_nat (length packets) < 2 ^ 64 →
  Forall (λ q, Z.of_nat (length q + frameOverhead) < 2 ^ 31) packets →
  ∃ b' n, readOutbound b p packets = Ret (b', datagrams c (next c + 1) (used_senders p r) packets) ∧
    holds b' p r (set_next c n) ∧ n - next c = Z.of_nat (length (filter leaves packets)).
Proof.
  intros Hh Hg Hn Hp. destruct (relay_packets_exact b p r c packets Hh Hg Hn Hp) as (b' & n & HR & Hh' & _ & Hc).
  exists b', n. unfold readOutbound. destruct Hh as [-> _]. done.
Qed.

(** C18: What reaches the Mac's tunnel.  Over any sequence of datagrams received on any
    path, [handleInbound] returns each time; every packet it writes to the tunnel was
    opened under the session's key as a datagram of the peer, and is tagged with the
    address family of its version nibble; and no packet number is written twice, nor
    one delivered before. *)
Theorem tunnel_writes_once `{!AEADOverhead} (b : bridge) (p : provider) (r : DualPathRelay) (c : Session) (prior : list Z)
    (ds : list bytes) :
  holds b p r c → session_ok c prior → Forall (λ d, Z.of_nat (length d) < 2 ^ 31 - 1) ds →
  ∃ b' os, handle_all b p ds = Ret (b', os) ∧ length os = length ds ∧
    length (wrote ds os) = length (omap id os) ∧ NoDup (wrote ds os) ∧ Forall (λ n, n ∉ prior) (wrote ds os) ∧
    Forall2 (λ d o, ∀ payload fam, o = Some (payload, fam) → fam = ipFamily payload ∧ genuine c d payload) ds os.
Proof. apply handle_all_once. Qed.

End client.

(** ** The Mac and the gateway *)

Section composed.
Context `{CA : AEAD, CX : X25519, CK : HKDF, CE : Ed25519, CM : HMAC} {P : Type}.
Context `{LA : !AEADLaws, LX : !X25519Laws, LK : !HKDFLaws, LE : !Ed25519Laws}.
Implicit Types g : Gateway.DataGateway (P := P).

Lemma ipv4_relayed q : Router.ipv4_ok q = true → shouldRelayOutbound q = true.
Proof. destruct q as [|c q]; [done|]. cbn. intros Hq. repeat apply andb_true_iff in Hq as [Hq ?]. done. Qed.

(** C3: From the Mac's tunnel interface to the gateway's TUN device.  A packet from
    the leased address read from the tunnel goes out once per path the policy
    selects, as one and the same datagram.  If no datagram that the gateway has
    received under the session's key carried the packet's number, or one ahead of it
    by the capacity of the replay window or more, the copy that reaches the gateway
    first is written to its TUN device, and a later copy on any path is not, whatever
    other traffic the gateway serves between them. *)
Theorem mac_to_internet (pool : list Netip.Addr) g g1 (es es' : list Gateway.event) (os : list Gateway.output)
    (b : Bridge.bridge) (p : provider) (rl : DualPathRelay) (c : Session) (prior : list Z) (key q : bytes) (r : Router.Router)
    (src src' : option Netip.AddrPort) (rk rk' : option bytes) (t t' : Time) (wok wok' : bool) :
  Gateway.started pool g → Forall Gateway.event_ok es → Gateway.run g es = Ret (g1, os) → Gateway.exit g1 = Some r →
  holds b p rl c → session_ok c prior → slr c = mkSealer key → role c = RoleInitiator → next c < 2 ^ 64 - 2 →
  Gateway.keys (Gateway.store g1) !! sid c = Some key →
  Router.ipv4_ok q = true → (length q ≤ maxPayload)%nat →
  Allocator.LeaseOf (Router.alloc r) (sid c) = Some (Router.src_of q) →
  Gateway.in_window (Gateway.capacity (Gateway.dataPlane g)) (Gateway.received key (sid c) es) (next c + 1) → Forall Gateway.event_ok es' →
  ∃ b' wire g2 g3 g4 os',
    readOutbound b p [q] = Ret (b', (λ s, (name s, wire)) <$> used_senders p rl) ∧
    holds b' p rl (set_next c (next c + 1)) ∧
    Gateway.step g1 (Gateway.EvDatagram wire src rk t wok) = Ret (g2, Gateway.OutReply None (Some q)) ∧
    Gateway.run g2 es' = Ret (g3, os') ∧
    Gateway.step g3 (Gateway.EvDatagram wire src' rk' t' wok') = Ret (g4, Gateway.OutReply None None).
Proof.
  intros Hs Hes Hrun Hx Hh Hok Hslr Hrole Hnext Hk Hip Hlen Hl Hnew Hes'.
  destruct (so_next _ _ Hok) as [Hn0 _].
  destruct (relay_packets_exact b p rl c [q] Hh) as (b' & n & HR & Hh' & _ & Hn);
    [by exists prior|cbn; lia|constructor; [unfold maxPayload, frameOverhead in *; lia|done]|].
  assert (leaves q) as Hq by (split; [by apply ipv4_relayed|done]).
  rewrite filter_cons_True in Hn by done. cbn [datagrams] in HR. rewrite decide_True in HR by done. cbn in Hn.
  assert (n = next c + 1) as -> by lia. rewrite app_nil_r in HR.
  assert (Outbound c q = Ret (set_next c (next c + 1), Ok (frame_of (sid c) (skey (slr c)) (role c) (next c + 1) q))) as HO.
  { rewrite Outbound_eq by done. rewrite u64_small by (unfold is_u64; lia). done. }
  destruct (Tunnel.dual_path_copies pool g g1 es es' os c (set_next c (next c + 1)) prior key q
    (frame_of (sid c) (skey (slr c)) (role c) (next c + 1) q) r src src' rk rk' t t' wok wok'
    Hs Hes Hrun Hx Hok Hslr Hrole) as (g2 & g3 & g4 & os' & r' & H1 & _ & H2 & _ & H3 & _); try done; [lia|].
  eexists b', _, g2, g3, g4, os'. split; [|done]. unfold readOutbound. by destruct Hh as [-> _].
Qed.

End composed.

(** ** Witnesses, at the toy primitives *)

Module Witness.
Import Crypto.Toy Gateway.Witness Tunnel.Witness.

Definition bridge1 : Bridge.bridge := Bridge.mkBridge (Bridge.mkRegistry 1 {[1 := client1]}) Bridge.newRegistry.
Definition relay1 : DualPathRelay := mkRelay 1 [mkSender (gs "wifi") true] (Policy.mkPolicy Policy.auto None).
Definition provider1 : provider := mkProvider (Some relay1) initialPathStates false None [] None.

Lemma holds1 : holds bridge1 provider1 relay1 client1.
Proof. split; vm_compute; reflexivity. Qed.
Lemma good1 : Bridge.good client1.
Proof. exists []. exact client1_ok. Qed.

Lemma transport_is_session_witness :
  ∃ s' r, Outbound client1 packet1 = Ret (s', r) ∧ outbound bridge1 1 packet1 = Ret (with_session bridge1 1 s', rejected r).
Proof.
  apply (transport_is_session bridge1 1 client1 packet1 data1 (proj2 holds1) good1); vm_compute; reflexivity.
Defined.

(** A gateway that answers with its ServerHello at its address and port, to the profile
    naming them and its key. *)
Definition profile1 : profile :=
  mkProfile (Some (gs "gw.example"))
    (Some (<[gs "port" := VNumber 51820]> (<[gs "token" := VString (gs "token")]>
      {[gs "gatewayPublicKey" := VString (gs "key")]}))).
Definition host1 : host :=
  mkHost (Some (gs "en0")) (λ _, true) (λ _ _, WiFiSender.Ready) true (λ _, Some (ed25519_public identity1))
    (λ addr port hello, if decide (addr = gs "gw.example" ∧ port = 51820) then
              match Gateway.run g1 [Gateway.EvDatagram hello (Some Gateway.Witness.wifi) (Some gk1) now1 true] with
              | Ret (_, [Gateway.OutReply (Some sh) _]) => Received (take 200 sh)
              | _ => ReceiveFailed true
              end else SendFailed)
    true (Some rid1) (Some ck1) now1.

Lemma host1_short addr port hello sh : gateway host1 addr port hello = Received sh → Z.of_nat (length sh) < 2 ^ 31.
Proof.
  cbn [gateway host1]. repeat case_match; try done. intros [= <-]. rewrite length_take. lia.
Qed.

Lemma start_pins_gateway_witness :
  ∃ b' p' r, startTunnel Bridge.empty_bridge new_provider profile1 host1 = Ret (b', p', r) ∧
    Bridge.live (Bridge.hsReg b') = ∅ ∧ ∃ rl, relay p' = Some rl.
Proof.
  destruct (start_pins_gateway 0 Bridge.empty_bridge profile1 host1 Bridge.empty_ok eq_refl host1_short)
    as (b' & p' & r & E & Hhs & H).
  exists b', p', r. split; [exact E|]. split; [exact Hhs|]. destruct (relay p') as [rl|] eqn:Hr; [by exists rl|]. exfalso.
  assert (match startTunnel Bridge.empty_bridge new_provider profile1 host1 with
          | Ret (_, p, _) => bool_decide (is_Some (relay p)) | Panic => false end = true) as Hc by (vm_compute; reflexivity).
  rewrite E, Hr in Hc. discriminate Hc.
Defined.

Lemma relay_exact_witness :
  ∃ b' n, readOutbound bridge1 provider1 [packet1; gs "`IPv6"] =
      Ret (b', datagrams client1 1 (used_senders provider1 relay1) [packet1; gs "`IPv6"]) ∧
    holds b' provider1 relay1 (set_next client1 n) ∧ n - 0 = 1.
Proof.
  apply (relay_exact bridge1 provider1 relay1 client1 [packet1; gs "`IPv6"] holds1 good1).
  - vm_compute. reflexivity.
  - repeat constructor.
Defined.

(** A packet of the gateway, received on two paths. *)
Definition return1 : bytes := frame_of id1 key1 RoleResponder 1 packet2.

Lemma return1_written :
  match handle_all bridge1 provider1 [return1; return1] with Ret (_, os) => os | Panic => [] end = [Some (packet2, AF_INET); None].
Proof. vm_compute. reflexivity. Qed.

Lemma tunnel_writes_once_witness :
  ∃ b' os, handle_all bridge1 provider1 [return1; return1] = Ret (b', os) ∧ length os = 2%nat ∧ NoDup (wrote [return1; return1] os).
Proof.
  destruct (tunnel_writes_once bridge1 provider1 relay1 client1 [] [return1; return1] holds1 client1_ok)
    as (b' & os & H1 & H2 & _ & H3 & _).
  - repeat constructor.
  - exists b', os. split; [exact H1|]. split; [exact H2|exact H3].
Defined.

Lemma mac_to_internet_witness :
  ∃ b' wire g2 g3 g4 os',
    readOutbound bridge1 provider1 [packet1] = Ret (b', (λ s, (name s, wire)) <$> used_senders provider1 relay1) ∧
    Gateway.step served.1 (Gateway.EvDatagram wire (Some Gateway.Witness.wifi) None now1 true) = Ret (g2, Gateway.OutReply None (Some packet1)) ∧
    Gateway.run g2 [] = Ret (g3, os') ∧
    Gateway.step g3 (Gateway.EvDatagram wire (Some tether) None now1 true) = Ret (g4, Gateway.OutReply None None).
Proof.
  destruct (mac_to_internet (Allocator.free Allocator.alloc1) g1 served.1 [hello_event] [] served.2 bridge1 provider1 relay1
    client1 [] key1 packet1 router1 (Some Gateway.Witness.wifi) (Some tether) None None now1 now1 true true)
    as (b' & wire & g2 & g3 & g4 & os' & H1 & _ & H2).
  - exact started1.
  - repeat constructor.
  - vm_compute. reflexivity.
  - vm_compute. reflexivity.
  - exact holds1.
  - exact client1_ok.
  - reflexivity.
  - reflexivity.
  - vm_compute. reflexivity.
  - vm_compute. reflexivity.
  - vm_compute. reflexivity.
  - apply (bool_decide_unpack _). vm_compute. exact I.
  - vm_compute. reflexivity.
  - apply (bool_decide_unpack _). vm_compute. exact I.
  - constructor.
  - exists b', wire, g2, g3, g4, os'. split; [exact H1|exact H2].
Defined.

End Witness.

End MacClient.
