(* ===== verification/AppUI.v ===== *)
(** * apps/macos/AppUI: the menu-bar application

    KeychainStore.swift, TunnelController.swift and the state and actions of
    GeminaApp.swift.  The application is a state machine on the main actor: its inputs
    are what the user does, what a suspended call of NetworkExtension answers when it
    resumes, and the status changes of a connection; its outputs are the calls it
    makes.  The Keychain is an interface with the documented meaning of its status
    codes.  A text of the views is its UTF-8 bytes; the equality of Swift strings is an
    equivalence on them. *)

From S2P Require Import Prelude GoText GoTime Protocol ReplayWindow Wire Crypto Session Handshake Bridge.
From S2P Require Import Netip Allocator PathSet Router Entitlement Metrics Gateway Tunnel GoUnicode Policy WiFiSender MacClient.
Import Protocol Wire Session Handshake GoTime.

Module AppUI.

(** ** KeychainStore.swift *)

(** [kSecAttrService], [kSecAttrAccount] of a generic password *)
Definition query : Type := bytes * bytes.
Inductive accessibility := WhenUnlockedThisDeviceOnly | OtherAccessibility.
Record attributes := mkAttributes { valueData : bytes; accessible : accessibility }.

Definition errSecSuccess : Z := 0.
Definition errSecItemNotFound : Z := -25300.

(** The Security framework: each call answers a status. *)
Class Keychain := {
  store : Type;
  SecItemDelete : query → store → store * Z;
  SecItemUpdate : query → attributes → store → store * Z;
  SecItemAdd : query → attributes → store → store * Z;
  SecItemCopyMatching : query → store → Z * option bytes
}.

(** A call that does not succeed changes nothing, and the status that an item is
    missing is true. *)
Class KeychainLaws `{Keychain} := {
  items : store → gmap query attributes;
  delete_item q k : items (SecItemDelete q k).1 = if (SecItemDelete q k).2 =? errSecSuccess then delete q (items k) else items k;
  update_item q a k : items (SecItemUpdate q a k).1 = if (SecItemUpdate q a k).2 =? errSecSuccess then <[q := a]> (items k) else items k;
  update_missing q a k : (SecItemUpdate q a k).2 = errSecItemNotFound → items k !! q = None;
  update_present q a k : (SecItemUpdate q a k).2 = errSecSuccess → is_Some (items k !! q);
  add_item q a k : items (SecItemAdd q a k).1 = if (SecItemAdd q a k).2 =? errSecSuccess then <[q := a]> (items k) else items k;
  copy_item q k : (SecItemCopyMatching q k).1 = errSecSuccess → (SecItemCopyMatching q k).2 = valueData <$> items k !! q;
  copy_missing q k : items k !! q = None → (SecItemCopyMatching q k).1 ≠ errSecSuccess
}.

(** The Keychain is unlocked: only a missing item makes a call fail. *)
Definition unlocked `{KeychainLaws} : Prop :=
  (∀ q k, (SecItemDelete q k).2 = match items k !! q with Some _ => errSecSuccess | None => errSecItemNotFound end) ∧
  (∀ q a k, (SecItemUpdate q a k).2 = match items k !! q with Some _ => errSecSuccess | None => errSecItemNotFound end) ∧
  (∀ q a k, items k !! q = None → (SecItemAdd q a k).2 = errSecSuccess) ∧
  (∀ q k, is_Some (items k !! q) → (SecItemCopyMatching q k).1 = errSecSuccess).

(** [==] of Swift's [String]: canonical equivalence. *)
Class SwiftString := {
  string_eq : bytes → bytes → bool;
  string_equivalence :: Equivalence (λ a b, string_eq a b = true)
}.

Section app.
Context `{KC : Keychain, SS : SwiftString}.

Definition tokenQuery : query := (gs "com.joanmarcriera.gemina", gs "gateway-token").

Definition setToken (token : bytes) (k : store) : store :=
  match token with
  | [] => (SecItemDelete tokenQuery k).1
  | _ =>
      let data := mkAttributes token WhenUnlockedThisDeviceOnly in
      let '(k, status) := SecItemUpdate tokenQuery data k in
      if status =? errSecItemNotFound then (SecItemAdd tokenQuery data k).1 else k
  end.

(** [String(data:encoding:)] refuses what is not UTF-8. *)
Definition stored_token (k : store) : bytes :=
  let '(status, result) := SecItemCopyMatching tokenQuery k in
  if status =? errSecSuccess then
    match result with
    | Some data => if decide (Utf8.coerce data = data) then data else []
    | None => []
    end
  else [].

(** ** TunnelController.swift *)

Inductive NEVPNStatus := invalid | disconnected | connecting | connected | reasserting | disconnecting.
#[export] Instance NEVPNStatus_eq_dec : EqDecision NEVPNStatus.
Proof. solve_decision. Defined.

(** A [NETunnelProviderManager] object, and so its connection. *)
Definition ref := Z.

(** What [installIfNeeded] sets on a manager. *)
Record configuration := mkConfiguration {
  providerBundleIdentifier : bytes;
  tunnelProfile : MacClient.profile;
  localizedDescription : bytes;
  isEnabled : bool
}.

Inductive call :=
| loadAllFromPreferences
| saveToPreferences (m : ref) (c : configuration) | loadFromPreferences (m : ref)
| startVPNTunnel (m : ref) | stopVPNTunnel (m : ref).

Definition tunnelBundleID : bytes := gs "com.joanmarcriera.gemina.tunnel".
Definition defaultDNSServers : list bytes := [gs "1.1.1.3"; gs "1.0.0.3"].

(** The controller with the observers it registered at the notification centre,
    each with the connection it observes, and the updates of [status] that wait for
    the main actor. *)
Record controller := mkController {
  status : NEVPNStatus;
  lastError : option bytes;
  manager : option ref;
  statusObserver : option Z;
  observers : gmap Z ref;
  next_token : Z;
  pending : list NEVPNStatus
}.
Definition new_controller : controller := mkController invalid None None None ∅ 0 [].

(** [now] is the status of the manager's connection. *)
Definition adopt (c : controller) (mgr : ref) (now : NEVPNStatus) : controller :=
  let obs := match statusObserver c with Some t => delete t (observers c) | None => observers c end in
  mkController now (lastError c) (Some mgr) (Some (next_token c)) (<[next_token c := mgr]> obs) (next_token c + 1) (pending c).

(** [managers] is [None] when loading throws. *)
Definition loadExisting (c : controller) (managers : option (list ref)) (now : ref → NEVPNStatus) : controller :=
  match default [] managers with
  | existing :: _ => adopt c existing (now existing)
  | [] => c
  end.

(** A task of [connect]: before it runs, and suspended in [installIfNeeded] at each of
    its three awaits. *)
Inductive task :=
| Queued
| Loading (gatewayHost : bytes) (gatewayPort : Z) (gatewayPublicKey token : bytes) (dns : list bytes)
| Saving (mgr : ref)
| Reloading (mgr : ref).

(** What a task resumes with: its turn on the main actor, the managers ([None] when
    loading throws) with the object of [NETunnelProviderManager()], or whether the
    call succeeded, with the status of the manager's connection. *)
Inductive answer :=
| Runs
| Managers (ms : option (list ref)) (created : ref)
| Saved (ok : bool)
| Reloaded (ok : bool) (now : NEVPNStatus).

Inductive progress := Suspended (t : task) | Returned | Threw.

Definition providerConfig (port : Z) (key token : bytes) (dns : list bytes) : MacClient.config :=
  let config := <[gs "port" := MacClient.VNumber port]>
                (<[gs "gatewayPublicKey" := MacClient.VString key]> {[gs "token" := MacClient.VString token]}) in
  match dns with [] => config | _ => <[gs "dnsServers" := MacClient.VStrings dns]> config end.

(** From one await to the next; an answer to another call leaves the task suspended. *)
Definition installIfNeeded (c : controller) (t : task) (x : answer) : controller * list call * progress :=
  match t, x with
  | Loading _ _ _ _ _, Managers None _ => (c, [], Threw)
  | Loading gatewayHost gatewayPort gatewayPublicKey token dns, Managers (Some managers) created =>
      let mgr := default created (head managers) in
      let config := mkConfiguration tunnelBundleID
        (MacClient.mkProfile (Some gatewayHost) (Some (providerConfig gatewayPort gatewayPublicKey token dns)))
        (gs "Gemina") true in
      (c, [saveToPreferences mgr config], Suspended (Saving mgr))
  | Saving mgr, Saved ok => if ok then (c, [loadFromPreferences mgr], Suspended (Reloading mgr)) else (c, [], Threw)
  | Reloading mgr, Reloaded ok now => if ok then (adopt c mgr now, [], Returned) else (c, [], Threw)
  | _, _ => (c, [], Suspended t)
  end.

(** Without a manager [start] throws [notInstalled]; what it throws, the caller
    discards. *)
Definition start (c : controller) : list call :=
  match manager c with Some m => [startVPNTunnel m] | None => [] end.
Definition stop (c : controller) : list call :=
  match manager c with Some m => [stopVPNTunnel m] | None => [] end.

(** A connection changes its status: each observer of it schedules an update. *)
Definition notify (c : controller) (connection : ref) (new : NEVPNStatus) : controller :=
  let hit := filter (λ x, x.2 = connection) (map_to_list (observers c)) in
  mkController (status c) (lastError c) (manager c) (statusObserver c) (observers c) (next_token c)
    (pending c ++ map (λ _, new) hit).

(** One of the scheduled updates runs. *)
Definition update (c : controller) (i : nat) : controller :=
  match pending c !! i with
  | Some s => mkController s (lastError c) (manager c) (statusObserver c) (observers c) (next_token c) (delete i (pending c))
  | None => c
  end.

(** ** GeminaApp.swift *)

Definition hostKey : bytes := gs "gemina.gatewayHost".
Definition portKey : bytes := gs "gemina.gatewayPort".
Definition publicKeyKey : bytes := gs "gemina.gatewayPublicKey".
Definition legacyKey : bytes := gs "gemina.token".

(** [installing] are the tasks of [connect] that have not ended. *)
Record app := mkApp {
  keychain : store;
  defaults : gmap bytes bytes;           (* UserDefaults, its strings *)
  token : bytes;                         (* the view's @State *)
  tunnel : controller;
  installing : gmap nat task
}.
Definition launch (k : store) (d : gmap bytes bytes) : app := mkApp k d [] new_controller ∅.

Definition gatewayHost (a : app) : bytes := default [] (defaults a !! hostKey).
Definition gatewayPort (a : app) : bytes := default (gs "51820") (defaults a !! portKey).
Definition gatewayPublicKey (a : app) : bytes := default [] (defaults a !! publicKeyKey).

Definition activePaths (a : app) : list Policy.PathInfo :=
  if decide (status (tunnel a) = connected) then [Policy.mkPath (gs "Wi-Fi") true false] else [].

Definition protection (a : app) : Policy.ProtectionStatus :=
  match status (tunnel a) with
  | connecting | reasserting | disconnecting => Policy.connecting
  | connected => Policy.protectionStatus (activePaths a) false false
  | _ => Policy.off
  end.

Definition isConfigured (a : app) : bool :=
  negb (bool_decide (gatewayHost a = [])) && negb (bool_decide (gatewayPublicKey a = [])) && negb (bool_decide (token a = [])).

(** [get] of [protectBinding] *)
Definition protecting (a : app) : bool :=
  match status (tunnel a) with connected | connecting | reasserting => true | _ => false end.

(** Assigning the token runs the view's [onChange] when the text is not [==] to the
    one before. *)
Definition assign_token (a : app) (t : bytes) : app :=
  mkApp (if string_eq (token a) t then keychain a else setToken t (keychain a)) (defaults a) t (tunnel a) (installing a).

(** The value of an earlier build moves to the Keychain. *)
Definition migrate (a : app) : app :=
  match defaults a !! legacyKey with
  | None | Some [] => a
  | Some legacy => mkApp (setToken legacy (keychain a)) (delete legacyKey (defaults a)) (token a) (tunnel a) (installing a)
  end.
Definition loadToken (a : app) : app :=
  let a := migrate a in
  assign_token a (stored_token (keychain a)).

Definition with_tunnel (a : app) (c : controller) : app := mkApp (keychain a) (defaults a) (token a) c (installing a).

Definition with_task (a : app) (c : controller) (t : nat) (x : option task) : app :=
  mkApp (keychain a) (defaults a) (token a) c (match x with Some x => <[t := x]> (installing a) | None => delete t (installing a) end).

(** [connect] makes a task. *)
Definition connect (a : app) : app := with_task a (tunnel a) (fresh (dom (installing a))) (Some Queued).

(** A task resumes: its turn comes, when it reads the settings, or an awaited call has
    answered; its [catch] does nothing. *)
Definition resume (a : app) (t : nat) (x : answer) : app * list call :=
  match installing a !! t with
  | None => (a, [])
  | Some Queued =>
      match x with
      | Runs =>
          let port := default 51820 (MacClient.parse_uint16 (gatewayPort a)) in
          (with_task a (tunnel a) t (Some (Loading (gatewayHost a) port (gatewayPublicKey a) (token a) defaultDNSServers)),
           [loadAllFromPreferences])
      | _ => (a, [])
      end
  | Some y =>
      let '(c, calls, r) := installIfNeeded (tunnel a) y x in
      match r with
      | Suspended y => (with_task a c t (Some y), calls)
      | Returned => (with_task a c t None, calls ++ start c)
      | Threw => (with_task a c t None, calls)
      end
  end.

Inductive setting := Host | Port | PublicKey.
Definition setting_key (s : setting) : bytes := match s with Host => hostKey | Port => portKey | PublicKey => publicKeyKey end.

Inductive event :=
| Appear | TypeToken (t : bytes) | TypeSetting (s : setting) (v : bytes)
| Toggle (on : bool)                     (* the switch, enabled when configured *)
| Loaded (managers : option (list ref)) (now : ref → NEVPNStatus)
| Resume (t : nat) (x : answer)
| StatusDidChange (connection : ref) (new : NEVPNStatus)
| RunUpdate (i : nat).

Definition step (a : app) (e : event) : app * list call :=
  match e with
  | Appear => (loadToken a, [])
  | TypeToken t => (assign_token a t, [])
  | TypeSetting s v => (mkApp (keychain a) (<[setting_key s := v]> (defaults a)) (token a) (tunnel a) (installing a), [])
  | Toggle on => if isConfigured a then if on then (connect a, []) else (a, stop (tunnel a)) else (a, [])
  | Loaded ms now => (with_tunnel a (loadExisting (tunnel a) ms now), [])
  | Resume t x => resume a t x
  | StatusDidChange m s => (with_tunnel a (notify (tunnel a) m s), [])
  | RunUpdate i => (with_tunnel a (update (tunnel a) i), [])
  end.

Fixpoint run (a : app) (es : list event) : app * list call :=
  match es with
  | [] => (a, [])
  | e :: es => let '(a, calls) := step a e in let '(a, rest) := run a es in (a, calls ++ rest)
  end.

(** ** The controller *)

(** Before a manager is adopted there is no observer, and no status to show; then
    there is one, that of the manager's connection. *)
Definition follows (c : controller) : Prop :=
  match manager c with
  | None => statusObserver c = None ∧ observers c = ∅ ∧ status c = invalid ∧ pending c = []
  | Some m => ∃ t, statusObserver c = Some t ∧ t < next_token c ∧ observers c = {[t := m]}
  end.

Lemma adopt_follows c m s : follows c → follows (adopt c m s).
Proof.
  unfold follows. cbn. intros Ho. exists (next_token c). split; [done|]. split; [lia|]. destruct (manager c) as [m'|].
  - destruct Ho as (t & -> & _ & ->). by rewrite delete_singleton_eq.
  - by destruct Ho as (-> & -> & _).
Qed.

Lemma installIfNeeded_follows c t x : follows c → follows (installIfNeeded c t x).1.1.
Proof.
  intros Hc. destruct t, x as [|[]| |]; cbn; try done; destruct ok; try done. by apply adopt_follows.
Qed.

Lemma notify_follows c m s : follows c → follows (notify c m s).
Proof.
  unfold follows. cbn. destruct (manager c); [done|]. intros (? & Ho & ? & Hp). rewrite Ho, Hp. by rewrite map_to_list_empty.
Qed.

Lemma update_follows c i : follows c → follows (update c i).
Proof.
  unfold follows, update. destruct (pending c !! i) as [s|] eqn:E; [|done]. cbn. destruct (manager c); [done|].
  intros (_ & _ & _ & Hp). by rewrite Hp in E.
Qed.

(** What a task leaves alone, and what it does to the controller. *)
Lemma resume_cases a t x :
  let a' := (resume a t x).1 in
  keychain a' = keychain a ∧ defaults a' = defaults a ∧ token a' = token a ∧
  (tunnel a' = tunnel a ∨ ∃ y, tunnel a' = (installIfNeeded (tunnel a) y x).1.1).
Proof.
  unfold resume. destruct (installing a !! t) as [[]|]; [by destruct x; split_and!; auto|..|by split_and!; auto];
    (destruct (installIfNeeded _ _ _) as [[c calls] []] eqn:E; split_and!; try done; right; eexists; by rewrite E).
Qed.

Lemma step_follows a e : follows (tunnel a) → follows (tunnel (step a e).1).
Proof.
  intros Ha. destruct e as [|t|st v|on|ms now|t x|m st|i]; cbn [step fst]; try done.
  - cbn. unfold migrate. by destruct (defaults a !! legacyKey) as [[|]|].
  - destruct (isConfigured a), on; done.
  - cbn. unfold loadExisting. destruct (default [] ms); [done|]. by apply adopt_follows.
  - destruct (resume_cases a t x) as (_ & _ & _ & [->|[y ->]]); [done|by apply installIfNeeded_follows].
  - by apply notify_follows.
  - by apply update_follows.
Qed.

(** No step publishes an error. *)
Lemma step_lastError a e : lastError (tunnel (step a e).1) = lastError (tunnel a).
Proof.
  destruct e as [|t|st v|on|ms now|t x|m st|i]; cbn [step fst]; try done.
  - cbn. unfold migrate. by destruct (defaults a !! legacyKey) as [[|]|].
  - by destruct (isConfigured a), on.
  - cbn. unfold loadExisting. by destruct (default [] ms).
  - destruct (resume_cases a t x) as (_ & _ & _ & [->|[y ->]]); [done|]. by destruct y, x as [|[]|[]|[]].
  - cbn. unfold update. by destruct (pending (tunnel a) !! i).
Qed.

(** ** The token *)

Section token.
Context `{KL : !KeychainLaws}.

Lemma setToken_others t k : delete tokenQuery (items (setToken t k)) = delete tokenQuery (items k).
Proof.
  unfold setToken. destruct t as [|c t].
  - rewrite delete_item. destruct (_ =? _); [by rewrite delete_delete_eq|done].
  - set (data := mkAttributes _ _). pose proof (update_item tokenQuery data k) as Hu.
    destruct (SecItemUpdate tokenQuery data k) as [k' st]. cbn in Hu.
    assert (delete tokenQuery (items k') = delete tokenQuery (items k)) as Hk'.
    { rewrite Hu. destruct (_ =? _); [by rewrite delete_insert_eq|done]. }
    destruct (_ =? errSecItemNotFound); [|done]. rewrite add_item.
    destruct ((SecItemAdd _ _ _).2 =? _); [by rewrite delete_insert_eq|done].
Qed.

Lemma stored_text k : Utf8.coerce (stored_token k) = stored_token k.
Proof.
  unfold stored_token. destruct (SecItemCopyMatching _ _) as [st [d|]]; destruct (_ =? _); try done.
  by destruct (decide _).
Qed.

Lemma stored_item k t acc : unlocked → items k !! tokenQuery = Some (mkAttributes t acc) → Utf8.coerce t = t → stored_token k = t.
Proof.
  intros (_ & _ & _ & Hc) Hi Ht. unfold stored_token. specialize (Hc tokenQuery k (mk_is_Some _ _ Hi)).
  pose proof (copy_item tokenQuery k Hc) as Hv. rewrite Hi in Hv. cbn in Hv.
  destruct (SecItemCopyMatching _ _) as [st r]. cbn in Hc, Hv. subst. by rewrite decide_True.
Qed.

Lemma stored_none k : items k !! tokenQuery = None → stored_token k = [].
Proof.
  intros Hi. unfold stored_token. pose proof (copy_missing tokenQuery k Hi) as Hc.
  destruct (SecItemCopyMatching _ _) as [st r]. cbn in Hc. by destruct (Z.eqb_spec st errSecSuccess).
Qed.

(** What is stored is read back. *)
Lemma setToken_stored t k : unlocked → Utf8.coerce t = t → stored_token (setToken t k) = t.
Proof.
  intros Hu Ht. pose proof Hu as (Hd & Hup & Ha & _). unfold setToken. destruct t as [|c t].
  - apply stored_none. rewrite delete_item, Hd. destruct (items k !! tokenQuery) eqn:E; [apply lookup_delete_eq|done].
  - set (data := mkAttributes _ _). pose proof (update_item tokenQuery data k) as Hk. specialize (Hup tokenQuery data k).
    destruct (SecItemUpdate tokenQuery data k) as [k' st]. cbn in Hk, Hup.
    eapply (stored_item _ _ WhenUnlockedThisDeviceOnly); [done| |done].
    destruct (items k !! tokenQuery) as [old|] eqn:E; subst st; cbn in Hk |- *.
    + rewrite Hk. apply lookup_insert_eq.
    + rewrite add_item, Ha by by rewrite Hk. apply lookup_insert_eq.
Qed.

Definition in_sync (a : app) : Prop := string_eq (stored_token (keychain a)) (token a) = true.
Definition migrated (a : app) : Prop := default [] (defaults a !! legacyKey) = [].

Lemma string_eq_refl t : string_eq t t = true.
Proof. exact (@reflexivity _ _ (@Equivalence_Reflexive _ _ string_equivalence) t). Qed.

Lemma assign_sync a t : unlocked → in_sync a → Utf8.coerce t = t → in_sync (assign_token a t).
Proof.
  intros Hu Ha Ht. unfold in_sync, assign_token. cbn. destruct (string_eq (token a) t) eqn:E.
  - exact (@transitivity _ _ (@Equivalence_Transitive _ _ string_equivalence) _ _ _ Ha E).
  - rewrite setToken_stored by done. apply string_eq_refl.
Qed.

Lemma loadToken_others a : delete tokenQuery (items (keychain (loadToken a))) = delete tokenQuery (items (keychain a)).
Proof.
  trans (delete tokenQuery (items (keychain (migrate a)))).
  - cbn. destruct (string_eq _ _); [done|apply setToken_others].
  - unfold migrate. destruct (defaults a !! legacyKey) as [[|]|]; [done|apply setToken_others|done].
Qed.

Lemma loadToken_sync a : unlocked → in_sync (loadToken a).
Proof.
  intros Hu. unfold loadToken, in_sync, assign_token. cbn. destruct (string_eq (token (migrate a)) _); [apply string_eq_refl|].
  rewrite setToken_stored by (done || apply stored_text). apply string_eq_refl.
Qed.

Lemma loadToken_migrated a : migrated (loadToken a).
Proof.
  unfold migrated. cbn [loadToken assign_token defaults]. unfold migrate.
  destruct (defaults a !! legacyKey) as [[|c l]|] eqn:E; cbn [defaults]; by rewrite ?E, ?lookup_delete_eq.
Qed.

(** A text is UTF-8. *)
Definition text (e : event) : Prop := match e with TypeToken t => Utf8.coerce t = t | _ => True end.

Lemma step_token a e : text e → migrated a →
  migrated (step a e).1 ∧ delete tokenQuery (items (keychain (step a e).1)) = delete tokenQuery (items (keychain a)) ∧
  (unlocked → in_sync a → in_sync (step a e).1).
Proof.
  intros He Ha. destruct e as [|t|st v|on|ms now|t x|m st|i]; cbn [step fst]; try (by split_and!).
  - split; [apply loadToken_migrated|]. split; [apply loadToken_others|intros; by apply loadToken_sync].
  - split; [done|]. split; [|intros; by apply assign_sync]. cbn. destruct (string_eq _ _); [done|apply setToken_others].
  - split; [|by split]. unfold migrated in *. cbn [defaults]. rewrite lookup_insert_ne; [done|]. by destruct st.
  - destruct (isConfigured a), on; by split_and!.
  - destruct (resume_cases a t x) as (Hk & Hd & Ht & _). unfold migrated, in_sync in *. by rewrite Hk, Hd, Ht.
Qed.

(** From the first time the view appears. *)
Lemma run_token a es : Forall text es → follows (tunnel a) → migrated a →
  let a' := (run a es).1 in
  follows (tunnel a') ∧ migrated a' ∧ delete tokenQuery (items (keychain a')) = delete tokenQuery (items (keychain a)) ∧
  (unlocked → in_sync a → in_sync a').
Proof.
  intros Hes. revert a. induction Hes as [|e es He Hes IH]; intros a Hf Hm; cbn; [by split_and!|].
  destruct (step_token a e He Hm) as (Hm' & Hi & Hs). pose proof (step_follows a e Hf) as Hf'.
  destruct (step a e) as [a1 calls]. cbn in *. destruct (IH a1 Hf' Hm') as (? & ? & Hi' & Hs').
  destruct (run a1 es) as [a2 rest]. cbn in *. split_and!; [done|done|by rewrite Hi'|auto].
Qed.

(** A token that is stored as it is stays until another is typed. *)
Definition types_token (e : event) : bool := match e with TypeToken _ => true | _ => false end.

Lemma step_token_same a e : types_token e = false → migrated a → stored_token (keychain a) = token a →
  stored_token (keychain (step a e).1) = token (step a e).1 ∧ token (step a e).1 = token a.
Proof.
  intros He Hm Hs. destruct e as [|t|st v|on|ms now|t x|m st|i]; cbn [step fst]; try done.
  - unfold loadToken. assert (migrate a = a) as ->.
    { unfold migrated in Hm. unfold migrate. by destruct (defaults a !! legacyKey) as [[|]|]. }
    unfold assign_token. cbn. by rewrite Hs, string_eq_refl.
  - by destruct (isConfigured a), on.
  - destruct (resume_cases a t x) as (-> & _ & -> & _). done.
Qed.

Lemma run_token_same a es : Forall (λ e, types_token e = false) es → Forall text es → migrated a →
  stored_token (keychain a) = token a → token (run a es).1 = token a.
Proof.
  intros Hes. revert a. induction Hes as [|e es He Hes IH]; intros a Ht Hm Hs; cbn; [done|]. apply Forall_cons in Ht as [Hte Ht].
  destruct (step_token_same a e He Hm Hs) as [Hs' Et]. destruct (step_token a e Hte Hm) as (Hm' & _).
  destruct (step a e) as [a1 calls]. cbn in *. specialize (IH a1 Ht Hm' Hs'). destruct (run a1 es). cbn in *. congruence.
Qed.

Lemma legacy_moves k d legacy : unlocked → d !! legacyKey = Some legacy → legacy ≠ [] → Utf8.coerce legacy = legacy →
  let a := loadToken (launch k d) in token a = legacy ∧ stored_token (keychain a) = legacy.
Proof.
  intros Hu Hd Hn Ht. unfold loadToken, assign_token, migrate. cbn [launch defaults]. rewrite Hd.
  destruct legacy as [|c l]; [done|]. cbn [launch keychain token].
  assert (stored_token (setToken (c :: l) k) = c :: l) as E by by apply setToken_stored.
  rewrite E. split; [done|]. by destruct (string_eq _ _); [|apply setToken_stored].
Qed.

(** C34: The menu-bar application's invariant.  Whatever the user does, whatever the
    frameworks answer and in whatever order the suspended calls resume, once the view
    has appeared: no status observer is registered and no status shown before a
    manager is adopted, and afterwards exactly one, which observes the connection of
    the manager the controller would start and stop; the entitlement token is no
    longer among the preferences; and of the Keychain only the application's own item
    has changed.  While the Keychain is unlocked the token in the view equals, as a
    Swift string, the one that reading the Keychain gives, and the token of an earlier
    build is taken over and kept until another is typed. *)
Theorem app_invariant (k : store) (d : gmap bytes bytes) (es : list event) :
  Forall text es →
  let a := (run (launch k d) (Appear :: es)).1 in
  follows (tunnel a) ∧ migrated a ∧ delete tokenQuery (items (keychain a)) = delete tokenQuery (items k) ∧
  (unlocked → in_sync a) ∧
  (unlocked → Forall (λ e, types_token e = false) es →
   ∀ legacy, d !! legacyKey = Some legacy → legacy ≠ [] → Utf8.coerce legacy = legacy → token a = legacy).
Proof.
  intros Hes a. assert (a = (run (loadToken (launch k d)) es).1) as Ea.
  { subst a. cbn [run step]. by destruct (run _ es). }
  assert (follows (tunnel (loadToken (launch k d)))) as Hf by by apply (step_follows (launch k d) Appear).
  destruct (run_token _ es Hes Hf (loadToken_migrated _)) as (? & ? & Hi & Hs). rewrite Ea. split; [done|]. split; [done|].
  split; [rewrite Hi; apply loadToken_others|]. split; [intros Hu; by apply Hs, loadToken_sync|].
  intros Hu Hty legacy Hl Hn Ht. destruct (legacy_moves k d legacy Hu Hl Hn Ht) as [E1 E2].
  rewrite run_token_same; [done|done|done|apply loadToken_migrated|congruence].
Qed.
End token.

(** ** The application and the extension *)

Section installed.
Context `{CA : AEAD, CX : X25519, CK : HKDF, CE : Ed25519}.

Definition typed_port (a : app) : Z := default 51820 (MacClient.parse_uint16 (gatewayPort a)).

Lemma parse_uint16_range t n : MacClient.parse_uint16 t = Some n → 0 ≤ n < 2 ^ 16.
Proof.
  unfold MacClient.parse_uint16. destruct (match t with [] => _ | _ => _ end) as [neg ds]. destruct ds; [done|].
  destruct (forallb _ _); [|done]. set (m := if neg then _ else _). intros H. case_match eqn:E; [|done].
  injection H as <-. lia.
Qed.

Lemma typed_port_range a : 0 ≤ typed_port a < 2 ^ 16.
Proof.
  unfold typed_port. destruct (MacClient.parse_uint16 _) as [n|] eqn:E; [by eapply parse_uint16_range|cbn; lia].
Qed.

Lemma isConfigured_true a : isConfigured a = true → gatewayHost a ≠ [] ∧ gatewayPublicKey a ≠ [] ∧ token a ≠ [].
Proof.
  unfold isConfigured. rewrite !andb_true_iff, !negb_true_iff. intros [[?%bool_decide_eq_false ?%bool_decide_eq_false] ?%bool_decide_eq_false].
  done.
Qed.

(** The configuration that [connect] installs. *)
Definition typed_config (a : app) : MacClient.config :=
  providerConfig (typed_port a) (gatewayPublicKey a) (token a) defaultDNSServers.

Lemma typed_config_reads a : let c := typed_config a in
  c !! gs "port" = Some (MacClient.VNumber (typed_port a)) ∧ c !! gs "token" = Some (MacClient.VString (token a)) ∧
  c !! gs "gatewayPublicKey" = Some (MacClient.VString (gatewayPublicKey a)) ∧
  c !! gs "dnsServers" = Some (MacClient.VStrings defaultDNSServers).
Proof. by split_and!. Qed.

(** The session of the tunnel came out of a handshake over the connection to the host
    and port typed in the settings that verified the key and presented the token
    typed there. *)
Definition typed (a : app) (h : MacClient.host) (s : Session) : Prop :=
  ∃ key hello hs sh, MacClient.base64 h (gatewayPublicKey a) = Some key ∧ length key = 32%nat ∧
    BeginClientHandshake key (Bridge.GoString (MacClient.cstring (token a))) (MacClient.rid h) (MacClient.rkey h) (MacClient.now h) =
      Ret (Ok (hello, hs)) ∧
    MacClient.gateway h (gatewayHost a) (typed_port a) hello = MacClient.Received sh ∧ Complete hs sh MacClient.dedupCapacity = Ret (Ok s).

Lemma installed_port a : MacClient.requireUInt16 (typed_config a) (gs "port") = Ok (typed_port a).
Proof.
  unfold MacClient.requireUInt16. destruct (typed_config_reads a) as (Rp & _).
  rewrite Rp, Z.mod_small by apply typed_port_range. done.
Qed.

Lemma requireString_typed c key v : c !! key = Some (MacClient.VString v) → v ≠ [] → MacClient.requireString c key = Ok v.
Proof. intros Hc Hv. unfold MacClient.requireString. rewrite Hc. by case_decide. Qed.

Lemma pinned_typed a h s : isConfigured a = true →
  MacClient.pinned (MacClient.mkProfile (Some (gatewayHost a)) (Some (typed_config a))) h s → typed a h s.
Proof.
  intros (_ & Hk & Ht)%isConfigured_true (addr & port & c & key & tok & hello & hs & sh & [= <-] & [= <-] & Rp & Rk & Rt & Hb & Hn & HC).
  rewrite installed_port in Rp. injection Rp as <-.
  destruct (typed_config_reads a) as (_ & Lt & Lk & _).
  rewrite (requireString_typed _ _ _ Lt Ht) in Rt. injection Rt as <-. unfold MacClient.requireGatewayKey in Rk.
  rewrite (requireString_typed _ _ _ Lk Hk) in Rk. destruct (MacClient.base64 h _) as [d|] eqn:Ed; [|done].
  case_decide; [|done]. injection Rk as <-. by exists d, hello, hs, sh.
Qed.

Lemma installed_starts a k b h : isConfigured a = true → Bridge.bridge_ok k b → k + 1 < 2 ^ 64 →
  (∀ addr port hello sh, MacClient.gateway h addr port hello = MacClient.Received sh → Z.of_nat (length sh) < 2 ^ 31) →
  ∃ b' p' r, MacClient.startTunnel b MacClient.new_provider
      (MacClient.mkProfile (Some (gatewayHost a)) (Some (typed_config a))) h = Ret (b', p', r) ∧
    (∀ e, r = Err e → MacClient.incomplete e = false) ∧
    match MacClient.relay p' with
    | None => ∃ e, r = Err e
    | Some rl => ∃ s, MacClient.holds b' p' rl s ∧ typed a h s ∧
        ∀ st, r = Ok st → MacClient.dns st = match MacClient.leased s with Some _ => defaultDNSServers | None => [] end
    end.
Proof.
  intros Hc Hb Hk Hnet. destruct (isConfigured_true a Hc) as (Hh & Hkey & Ht).
  set (pr := MacClient.mkProfile _ _). destruct (MacClient.startTunnel_spec k b pr h Hb Hk Hnet) as (b' & p' & r & E & _ & H).
  destruct (typed_config_reads a) as (_ & Lt & Lk & Ld).
  exists b', p', r. split; [done|]. split.
  { intros e ->. eapply MacClient.startTunnel_complete; [| | |apply installed_port| | |exact E]; [done|done|done| |];
      eapply requireString_typed; [exact Lt|done|exact Lk|done]. }
  destruct (MacClient.relay p') as [rl|]; [|by destruct H]. destruct H as (s & Hs & _ & Hp & _ & _ & Hst).
  exists s. split; [done|]. split; [by apply pinned_typed|]. intros st ->. by apply (proj2 (proj2 Hst) (typed_config a)).
Qed.

Lemma Forall_app_3 {A} (P : A → Prop) l1 l2 l3 : Forall P (l1 ++ l2 ++ l3) → Forall P l1 ∧ Forall P l2 ∧ Forall P l3.
Proof. by rewrite !Forall_app. Qed.

(** The other tasks leave a suspended one alone. *)
Definition elsewhere (t : nat) (e : event) : bool := match e with Resume t' _ => bool_decide (t' ≠ t) | _ => true end.

Lemma step_elsewhere a e t x : installing a !! t = Some x → elsewhere t e = true → installing (step a e).1 !! t = Some x.
Proof.
  intros Hx He. destruct e as [|tok|st v|on|ms now|t' y|m st|i]; cbn [step fst]; try done.
  - cbn. unfold migrate. by destruct (defaults a !! legacyKey) as [[|]|].
  - destruct (isConfigured a), on; try done. cbn. rewrite lookup_insert_ne; [done|]. intros <-.
    apply (is_fresh (dom (installing a))). by eapply elem_of_dom_2.
  - apply bool_decide_eq_true in He. unfold resume. destruct (installing a !! t') as [y'|]; [|done].
    assert (∀ c z, installing (with_task a c t' z) !! t = Some x) as Hw.
    { intros c [z|]; cbn; by rewrite ?lookup_insert_ne, ?lookup_delete_ne. }
    destruct y'; [by destruct y; try apply Hw|..]; destruct (installIfNeeded _ _ _) as [[c calls] []]; apply Hw.
Qed.

Lemma run_elsewhere a es t x :
  installing a !! t = Some x → Forall (λ e, elsewhere t e = true) es → installing (run a es).1 !! t = Some x.
Proof.
  intros Hx Hes. revert a Hx. induction Hes as [|e es He _ IH]; intros a Hx; cbn; [done|].
  pose proof (step_elsewhere a e t x Hx He) as H1. destruct (step a e) as [a1 calls]. specialize (IH a1 H1). by destruct (run a1 es).
Qed.

Lemma resume_same a t x y : installing a !! t = Some y → y ≠ Queued →
  resume a t x = let '(c, calls, r) := installIfNeeded (tunnel a) y x in
    match r with
    | Suspended y => (with_task a c t (Some y), calls)
    | Returned => (with_task a c t None, calls ++ start c)
    | Threw => (with_task a c t None, calls)
    end.
Proof. intros Hy Hq. unfold resume. rewrite Hy. by destruct y. Qed.

(** C17: The tunnel goes to the gateway that was typed in.  When a task of [connect]
    gets its turn with the settings filled in, and the system answers its calls and
    accepts the profile, then, whatever else happens between those answers, it loads
    the profiles, saves one profile, reloads it, and starts the manager it adopted.
    Started from that profile, the extension reads back the port typed when the task
    ran (51820 when the text is no port), never stops for an incomplete configuration,
    and any session it installs comes from a handshake over the connection to the host
    typed then and that port, which verified the typed gateway key and presented the
    typed token; when the gateway leased an address, the tunnel uses the default name
    servers, and otherwise none. *)
Theorem app_pins_typed_gateway (a : app) (t : nat) (es1 es2 es3 : list event) (ms : list ref) (created : ref) (now : NEVPNStatus) :
  isConfigured a = true → installing a !! t = Some Queued → Forall (λ e, elsewhere t e = true) (es1 ++ es2 ++ es3) →
  let m := default created (head ms) in
  ∃ a1 a2 a3 a4 cfg c,
    step a (Resume t Runs) = (a1, [loadAllFromPreferences]) ∧
    step (run a1 es1).1 (Resume t (Managers (Some ms) created)) = (a2, [saveToPreferences m cfg]) ∧
    step (run a2 es2).1 (Resume t (Saved true)) = (a3, [loadFromPreferences m]) ∧
    step (run a3 es3).1 (Resume t (Reloaded true now)) = (a4, [startVPNTunnel m]) ∧
    manager (tunnel a4) = Some m ∧ status (tunnel a4) = now ∧ installing a4 !! t = None ∧
    providerBundleIdentifier cfg = tunnelBundleID ∧ isEnabled cfg = true ∧
    MacClient.serverAddress (tunnelProfile cfg) = Some (gatewayHost a) ∧
    MacClient.providerConfiguration (tunnelProfile cfg) = Some c ∧ MacClient.requireUInt16 c (gs "port") = Ok (typed_port a) ∧
    ∀ k b h, Bridge.bridge_ok k b → k + 1 < 2 ^ 64 →
      (∀ addr port hello sh, MacClient.gateway h addr port hello = MacClient.Received sh → Z.of_nat (length sh) < 2 ^ 31) →
      ∃ b' p' r, MacClient.startTunnel b MacClient.new_provider (tunnelProfile cfg) h = Ret (b', p', r) ∧
        (∀ e, r = Err e → MacClient.incomplete e = false) ∧
        match MacClient.relay p' with
        | None => ∃ e, r = Err e
        | Some rl => ∃ s, MacClient.holds b' p' rl s ∧ typed a h s ∧
            ∀ st, r = Ok st → MacClient.dns st = match MacClient.leased s with Some _ => defaultDNSServers | None => [] end
        end.
Proof.
  intros Hc Ht (He1 & He2 & He3)%Forall_app_3 m. cbn [step].
  set (a1 := with_task a (tunnel a) t (Some (Loading (gatewayHost a) (typed_port a) (gatewayPublicKey a) (token a) defaultDNSServers))).
  pose proof (run_elsewhere a1 es1 t _ (lookup_insert_eq _ _ _) He1) as H1. set (b1 := (run a1 es1).1) in *.
  set (a2 := with_task b1 (tunnel b1) t (Some (Saving m))).
  pose proof (run_elsewhere a2 es2 t _ (lookup_insert_eq _ _ _) He2) as H2. set (b2 := (run a2 es2).1) in *.
  set (a3 := with_task b2 (tunnel b2) t (Some (Reloading m))).
  pose proof (run_elsewhere a3 es3 t _ (lookup_insert_eq _ _ _) He3) as H3. set (b3 := (run a3 es3).1) in *.
  exists a1, a2, a3, (with_task b3 (adopt (tunnel b3) m now) t None). eexists _, _.
  split; [unfold resume; by rewrite Ht|]. split; [by rewrite (resume_same _ _ _ _ H1)|].
  split; [by rewrite (resume_same _ _ _ _ H2)|]. split; [by rewrite (resume_same _ _ _ _ H3)|].
  do 2 (split; [done|]). split; [apply lookup_delete_eq|]. do 4 (split; [done|]). split; [apply installed_port|].
  intros k b h Hb Hk1 Hnet. by eapply installed_starts.
Qed.
End installed.

End app.

(** ** Examples *)

Module Witness.
Import Crypto.Toy Gateway.Witness Tunnel.Witness MacClient.Witness.

(** A Keychain that may refuse to write or to read. *)
Definition errSecInteractionNotAllowed : Z := -25308.
Definition demo (writes reads : bool) : Keychain := {|
  store := gmap query attributes;
  SecItemDelete q k := match k !! q with Some _ => (delete q k, errSecSuccess) | None => (k, errSecItemNotFound) end;
  SecItemUpdate q a k :=
    match k !! q with
    | Some _ => if writes then (<[q := a]> k, errSecSuccess) else (k, errSecInteractionNotAllowed)
    | None => (k, errSecItemNotFound)
    end;
  SecItemAdd q a k := if writes then (<[q := a]> k, errSecSuccess) else (k, errSecInteractionNotAllowed);
  SecItemCopyMatching q k :=
    match k !! q with
    | Some a => if reads then (errSecSuccess, Some (valueData a)) else (errSecInteractionNotAllowed, None)
    | None => (errSecItemNotFound, None)
    end
|}.
#[local] Instance demo_laws writes reads : @KeychainLaws (demo writes reads).
Proof.
  refine (@Build_KeychainLaws (demo writes reads) (λ k, k) _ _ _ _ _ _ _); cbn; intros.
  - by destruct (k !! q).
  - by destruct (k !! q), writes.
  - by destruct (k !! q), writes.
  - by destruct (k !! q), writes.
  - by destruct writes.
  - by destruct (k !! q), reads.
  - by rewrite H.
Defined.

Lemma demo_unlocked : @unlocked (demo true true) (demo_laws true true).
Proof. split_and!; cbn; intros; by try destruct (k !! q) as [|] eqn:E; destruct H || done. Qed.

#[local] Existing Instance demo.

(** The accented letter e, composed and decomposed, is one text. *)
Fixpoint decomposed (t : bytes) : bytes :=
  match t with
  | "195"%char :: "169"%char :: t => "e"%char :: "204"%char :: "129"%char :: decomposed t
  | c :: t => c :: decomposed t
  | [] => []
  end.
#[local, refine] Instance demo_string : SwiftString := {| string_eq a b := bool_decide (decomposed a = decomposed b) |}.
Proof.
  split.
  - intros a. by apply bool_decide_eq_true.
  - intros a b ->%bool_decide_eq_true. by apply bool_decide_eq_true.
  - intros a b c ->%bool_decide_eq_true H. exact H.
Defined.

(** A first launch with the token of an earlier build; the user then replaces it. *)
Definition legacy1 : gmap bytes bytes := {[legacyKey := gs "old"]}.
Definition events1 : list event := [TypeToken (gs "new"); Loaded (Some [7]) (λ _, disconnected); StatusDidChange 7 connected; RunUpdate 0].
Lemma texts1 : Forall text events1.
Proof. repeat constructor. Qed.

Lemma app_invariant_witness :
  Forall text events1 ∧ in_sync (KC := demo true true) (run (launch (∅ : @store (demo true true)) legacy1) (Appear :: events1)).1 ∧
  follows (tunnel (run (launch (∅ : @store (demo true true)) legacy1) (Appear :: events1)).1).
Proof.
  split; [exact texts1|].
  destruct (app_invariant (KC := demo true true) (∅ : @store (demo true true)) legacy1 events1 texts1) as (Hf & _ & _ & Hs & _).
  split; [exact (Hs demo_unlocked)|exact Hf].
Defined.

(** The observer brought the status to the view. *)
Lemma events1_shown :
  let a := (run (launch (∅ : @store (demo true true)) legacy1) (Appear :: events1)).1 in
  token a = gs "new" ∧ protection a = Policy.atRisk ∧ protecting a = true.
Proof. by vm_compute. Qed.

(** A Keychain that refuses to write: the old token is erased from the preferences
    and stored nowhere. *)
Lemma legacy_token_lost :
  let a := loadToken (launch (∅ : @store (demo false true)) legacy1) in
  defaults a !! legacyKey = None ∧ keychain a = (∅ : gmap query attributes) ∧ token a = [].
Proof. by vm_compute. Qed.

(** A Keychain that refuses one read: the view takes the token for empty, and its
    [onChange] deletes the item. *)
Lemma failed_read_deletes :
  let k : gmap query attributes := {[tokenQuery := mkAttributes (gs "secret") WhenUnlockedThisDeviceOnly]} in
  let a := loadToken (mkApp (KC := demo true false) k ∅ (gs "secret") new_controller ∅) in
  keychain a = (∅ : gmap query attributes).
Proof. by vm_compute. Qed.

(** The settings that name the gateway of the example; a switch that was turned on;
    and, while the task waits, a status change and a second turn of the switch. *)
Definition app1 : app (KC := demo true true) :=
  mkApp (KC := demo true true) ∅ {[hostKey := gs "gw.example"; publicKeyKey := gs "key"]} (gs "token") new_controller {[0%nat := Queued]}.
Definition other1 : list event := [Loaded (Some [7]) (λ _, disconnected); Toggle true; Resume 1 Runs; TypeToken (gs "later")].

Lemma app_pins_typed_gateway_witness :
  ∃ a1 a2 cfg, step app1 (Resume 0 Runs) = (a1, [loadAllFromPreferences]) ∧
    step (run a1 other1).1 (Resume 0 (Managers (Some []) 9)) = (a2, [saveToPreferences 9 cfg]) ∧
    ∃ b' p' r, MacClient.startTunnel Bridge.empty_bridge MacClient.new_provider (tunnelProfile cfg) host1 = Ret (b', p', r) ∧
      ∃ rl s, MacClient.relay p' = Some rl ∧ typed app1 host1 s.
Proof.
  destruct (app_pins_typed_gateway app1 0 other1 [Toggle false] [] [] 9 connecting eq_refl eq_refl)
    as (a1 & a2 & a3 & a4 & cfg & c & E1 & E2 & _ & _ & _ & _ & _ & _ & _ & _ & _ & _ & H).
  { repeat constructor. }
  exists a1, a2, cfg. split; [exact E1|]. split; [exact E2|].
  destruct (H 0 Bridge.empty_bridge host1 Bridge.empty_ok eq_refl host1_short) as (b' & p' & r & Es & _ & Hr).
  exists b', p', r. split; [exact Es|]. destruct (MacClient.relay p') as [rl|] eqn:Er; [destruct Hr as (s & _ & Ht & _); by exists rl, s|].
  exfalso. assert (match step (run (step app1 (Resume 0 Runs)).1 other1).1 (Resume 0 (Managers (Some []) 9)) with
    | (_, saveToPreferences _ g :: _) =>
        match MacClient.startTunnel Bridge.empty_bridge MacClient.new_provider (tunnelProfile g) host1 with
        | Ret (_, p, _) => bool_decide (is_Some (MacClient.relay p)) | Panic => false end
    | _ => false end = true) as Hc by (vm_compute; reflexivity).
  rewrite E1 in Hc. cbn [fst] in Hc. rewrite E2, Es, Er in Hc. discriminate Hc.
Defined.

End Witness.
End AppUI.
